(** * Sento: the private-balance transfer engine

    A shallow embedding of the payment core of the Sento client:

    - [lib/solana/light-protocol.ts]: [compressSOL], [transferCompressedSOL],
      [getCompressedBalance] and the greedy account selection;
    - [lib/hooks/usePayment.ts]: [payInvoice];
    - [lib/hooks/useBatchPayment.ts]: [executeBatch];
    - [lib/utils/errors.ts]: [SentoError], [parseError];
    - [lib/utils/format.ts]: [isValidPublicKey];
    - [lib/solana/constants.ts]: the fee constants.

    JavaScript values are modelled as the language has them: a [number] is an
    IEEE 754 binary64 value (the executable specification [SpecFloat] of the
    standard library, precision 53, emax 1024), a [bigint] is a [Z], a string
    is a [string] of 8-bit characters.  Calls to the outside world (indexer,
    RPC node, wallet, storage, clock) go through an [Oracle] whose answers may
    depend on everything that was called before; every call is recorded in a
    [Trace]. *)

From Stdlib Require Import ZArith List Bool String Ascii Lia PeanoNat.
From Stdlib Require Import Sorting.Sorted Sorting.Permutation.
From Stdlib Require Import Floats.SpecFloat.
Import ListNotations.

Local Open Scope string_scope.
Local Open Scope list_scope.
Local Open Scope Z_scope.

(* ===================================================================== *)
(** ** JavaScript numbers and bigints *)
(* ===================================================================== *)

Module Js.

(** binary64 *)
Definition prec : Z := 53.
Definition emax : Z := 1024.

Definition number : Type := spec_float.
Definition bigint : Type := Z.

Definition pos_zero : number := S754_zero false.
Definition NaN : number := S754_nan.

Definition add (x y : number) : number := SFadd prec emax x y.
Definition mul (x y : number) : number := SFmul prec emax x y.
Definition div (x y : number) : number := SFdiv prec emax x y.
(** [x < y]; false as soon as one side is NaN *)
Definition lt (x y : number) : bool := SFltb x y.
(** [x > y] *)
Definition gt (x y : number) : bool := SFltb y x.

(** [Number(z)] for a bigint [z], and the value of an integer literal:
    the nearest binary64, ties to even. *)
Definition Number (z : bigint) : number := binary_normalize prec emax z 0 false.

(** A decimal literal [num/den] (such as [0.005 = 5/1000]) denotes the
    binary64 nearest to the rational it spells; a correctly rounded
    division of two exactly represented integers computes just that. *)
Definition literal (num den : Z) : number := div (Number num) (Number den).

(** The integer [m * 2^e] when [e >= 0]; for [e < 0] the quotient and
    whether the division is exact. *)
Definition scaled (m : positive) (e : Z) : Z * bool :=
  match e with
  | Zneg k => (Z.pos m / 2 ^ Z.pos k, Z.pos m mod 2 ^ Z.pos k =? 0)
  | _ => (Z.pos m * 2 ^ e, true)
  end.

(** [Number.isInteger] *)
Definition isInteger (x : number) : bool :=
  match x with
  | S754_zero _ => true
  | S754_finite _ m e => snd (scaled m e)
  | _ => false
  end.

(** The mathematical integer of an integer-valued number; [None] for NaN,
    the infinities and fractional values. *)
Definition toInteger (x : number) : option Z :=
  match x with
  | S754_zero _ => Some 0
  | S754_finite s m e =>
      let '(q, exact) := scaled m e in
      if exact then Some (if s then - q else q) else None
  | _ => None
  end.

(** [Math.floor] *)
Definition floor (x : number) : number :=
  match x with
  | S754_finite s m e =>
      let '(q, exact) := scaled m e in
      if exact then x
      else if s then Number (- (q + 1))
      else Number q
  | _ => x
  end.

End Js.

(* ===================================================================== *)
(** ** Strings *)
(* ===================================================================== *)

Module Str.

(** [s.includes(sub)] *)
Fixpoint includes (sub s : string) : bool :=
  if String.prefix sub s then true
  else match s with
       | EmptyString => false
       | String _ rest => includes sub rest
       end.

Definition lower_ascii (c : ascii) : ascii :=
  let n := nat_of_ascii c in
  if ((65 <=? n) && (n <=? 90))%nat then ascii_of_nat (n + 32) else c.

(** [s.toLowerCase()] on the 8-bit characters modelled here *)
Fixpoint toLowerCase (s : string) : string :=
  match s with
  | EmptyString => EmptyString
  | String c rest => String (lower_ascii c) (toLowerCase rest)
  end.

Definition isEmpty (s : string) : bool :=
  match s with EmptyString => true | _ => false end.

Definition in_range (lo hi : nat) (c : ascii) : bool :=
  let n := nat_of_ascii c in ((lo <=? n) && (n <=? hi))%nat.

(** the character class [[1-9A-HJ-NP-Za-km-z]] *)
Definition isBase58Char (c : ascii) : bool :=
  in_range 49 57 c          (* 1-9 *)
  || in_range 65 72 c       (* A-H *)
  || in_range 74 78 c       (* J-N *)
  || in_range 80 90 c       (* P-Z *)
  || in_range 97 107 c      (* a-k *)
  || in_range 109 122 c.    (* m-z *)

Fixpoint all_chars (p : ascii -> bool) (s : string) : bool :=
  match s with
  | EmptyString => true
  | String c rest => p c && all_chars p rest
  end.

End Str.

(** [isValidPublicKey] of [utils/format.ts]:
    [/^[1-9A-HJ-NP-Za-km-z]{32,44}$/.test(address)] *)
Definition isValidPublicKey (address : string) : bool :=
  let n := String.length address in
  ((32 <=? n) && (n <=? 44))%nat && Str.all_chars Str.isBase58Char address.

(* ===================================================================== *)
(** ** Errors ([lib/utils/errors.ts]) *)
(* ===================================================================== *)

Inductive ErrorCode : Type :=
| WALLET_NOT_CONNECTED | WALLET_REJECTED | WALLET_DISCONNECTED
| INSUFFICIENT_BALANCE | INSUFFICIENT_COMPRESSED_BALANCE
| TRANSACTION_FAILED | TRANSACTION_TIMEOUT | TRANSACTION_CANCELLED
| NETWORK_ERROR | RPC_ERROR
| INVALID_ADDRESS | INVALID_AMOUNT | INVALID_INVOICE
| COMPLIANCE_CHECK_FAILED | WALLET_NOT_COMPLIANT
| STORAGE_ERROR
| UNKNOWN_ERROR.

Definition ERROR_MESSAGES (code : ErrorCode) : string :=
  match code with
  | WALLET_NOT_CONNECTED => "Please connect your wallet to continue."
  | WALLET_REJECTED => "You declined the transaction. Please try again."
  | WALLET_DISCONNECTED => "Your wallet was disconnected. Please reconnect."
  | INSUFFICIENT_BALANCE => "Insufficient balance. Please add more SOL to your wallet."
  | INSUFFICIENT_COMPRESSED_BALANCE =>
      "Insufficient private balance. Please compress more SOL first."
  | TRANSACTION_FAILED => "Transaction failed. Please try again."
  | TRANSACTION_TIMEOUT =>
      "Transaction timed out. Please check your network and try again."
  | TRANSACTION_CANCELLED => "Transaction was cancelled."
  | NETWORK_ERROR => "Network error. Please check your connection and try again."
  | RPC_ERROR => "Unable to connect to Solana. Please try again later."
  | INVALID_ADDRESS => "Invalid wallet address. Please check and try again."
  | INVALID_AMOUNT => "Invalid amount. Please enter a valid number."
  | INVALID_INVOICE => "Invalid invoice. This invoice may not exist."
  | COMPLIANCE_CHECK_FAILED => "Compliance check failed. Please try again."
  | WALLET_NOT_COMPLIANT => "This wallet cannot be used for payments at this time."
  | STORAGE_ERROR => "Failed to save data. Please try again."
  | UNKNOWN_ERROR => "An unexpected error occurred. Please try again."
  end.

(** An [Error] instance of the language or of a library: its [name]
    ("Error", "RangeError", ...) and its [message]. *)
Record JsError : Type := mkJsError { err_name : string; err_message : string }.

(** The [context] object built at the one place that fills it
    ([{ walletBalance, needed }], both in SOL). *)
Record BalanceContext : Type :=
  mkBalanceContext { walletBalance : Js.number; needed : Js.number }.

(** [class SentoError]; [userMessage] is [ERROR_MESSAGES[code]]. *)
Record SentoError : Type := mkSentoError {
  code : ErrorCode;
  originalError : option JsError;
  context : option BalanceContext
}.

Definition userMessage (e : SentoError) : string := ERROR_MESSAGES (code e).

Definition newSentoError (c : ErrorCode) : SentoError := mkSentoError c None None.

(** What a [throw] can carry here: an [Error] object, a [SentoError], a
    bare string, or [undefined]. *)
Inductive Thrown : Type :=
| TError (e : JsError)
| TSento (e : SentoError)
| TString (s : string)
| TUndefined.

Definition classify (error : JsError) : ErrorCode :=
  let message := Str.toLowerCase (err_message error) in
  let has (s : string) := Str.includes s message in
  if has "wallet" && has "not connected" then WALLET_NOT_CONNECTED
  else if has "user rejected" || has "user declined" then WALLET_REJECTED
  else if has "disconnected" then WALLET_DISCONNECTED
  else if has "insufficient" && has "balance" then INSUFFICIENT_BALANCE
  else if has "insufficient" && has "compressed" then INSUFFICIENT_COMPRESSED_BALANCE
  else if has "transaction" && has "failed" then TRANSACTION_FAILED
  else if has "timeout" || has "timed out" then TRANSACTION_TIMEOUT
  else if has "cancelled" || has "canceled" then TRANSACTION_CANCELLED
  else if has "network" || has "fetch" then NETWORK_ERROR
  else if has "rpc" || has "connection refused" then RPC_ERROR
  else if has "invalid" && has "address" then INVALID_ADDRESS
  else if has "invalid" && has "amount" then INVALID_AMOUNT
  else if has "compliance" then COMPLIANCE_CHECK_FAILED
  else if has "not compliant" || has "sanctioned" then WALLET_NOT_COMPLIANT
  else if has "storage" || has "localstorage" then STORAGE_ERROR
  else UNKNOWN_ERROR.

(** [parseError] *)
Definition parseError (error : Thrown) : SentoError :=
  match error with
  | TSento e => e
  | TError e => mkSentoError (classify e) (Some e) None
  | TString s =>
      let e := mkJsError "Error" s in
      mkSentoError (classify e) (Some e) None
  | TUndefined => newSentoError UNKNOWN_ERROR
  end.

(** [String(err)] for each kind of thrown value; the [name] of a
    [SentoError] is "SentoError" and its message is its [userMessage]. *)
Definition String_of_thrown (t : Thrown) : string :=
  match t with
  | TError e =>
      if Str.isEmpty (err_message e) then err_name e
      else if Str.isEmpty (err_name e) then err_message e
      else (err_name e ++ ": " ++ err_message e)%string
  | TSento e => ("SentoError: " ++ userMessage e)%string
  | TString s => s
  | TUndefined => "undefined"
  end.

(** [err?.message || String(err)] *)
Definition message_or_String (t : Thrown) : string :=
  match t with
  | TError e => if Str.isEmpty (err_message e) then String_of_thrown t else err_message e
  | TSento e => userMessage e
  | TString s => if Str.isEmpty s then String_of_thrown t else s
  | TUndefined => String_of_thrown t
  end.

(** [errorStr.includes('0x232a') || errorStr.includes('9002')] *)
Definition isQueueIssue (transferErr : Thrown) : bool :=
  let errorStr := message_or_String transferErr in
  Str.includes "0x232a" errorStr || Str.includes "9002" errorStr.

(* ===================================================================== *)
(** ** Data ([types/index.ts]) *)
(* ===================================================================== *)

Inductive InvoiceStatus : Type := unpaid | inv_paid | cancelled.

Record Invoice : Type := mkInvoice {
  inv_id : string;
  inv_sender : string;
  inv_recipient : string;
  inv_amount : Js.number;                (* lamports *)
  inv_note : string;
  inv_status : InvoiceStatus;
  inv_teamId : option string;
  inv_createdBy : option string;
  inv_createdAt : Z;
  inv_paidAt : option Z;
  inv_txSignature : option string
}.

Record TransactionResult : Type := mkTransactionResult {
  success : bool;
  signature : option string;
  error : option string
}.

Inductive RecipientStatus : Type := pending | paid | failed.

Definition RecipientStatus_eqb (a b : RecipientStatus) : bool :=
  match a, b with
  | pending, pending | paid, paid | failed, failed => true
  | _, _ => false
  end.

Record BatchRecipient : Type := mkBatchRecipient {
  br_id : string;
  br_wallet : string;
  br_amount : Js.number;                 (* lamports *)
  br_note : option string;
  br_status : RecipientStatus;
  br_txSignature : option string;
  br_error : option string
}.

Inductive BatchPaymentStatus : Type :=
| batch_pending | batch_completed | batch_failed | batch_partial.

Record BatchPayment : Type := mkBatchPayment {
  bp_id : string;
  bp_creatorWallet : string;
  bp_teamId : option string;
  bp_totalAmount : Js.number;
  bp_proofHash : option string;
  bp_status : BatchPaymentStatus;
  bp_createdAt : Z;
  bp_recipients : list BatchRecipient
}.

(** [BatchRecipientInput] and [ExecuteBatchOptions] of the batch hook *)
Record BatchRecipientInput : Type := mkBatchRecipientInput {
  bri_wallet : string;
  bri_amount : Js.number;
  bri_note : option string
}.

Record ExecuteBatchOptions : Type := mkExecuteBatchOptions {
  opt_recipients : list BatchRecipientInput;
  opt_teamId : option string;
  opt_proofHash : option string
}.

(** A compressed account as the indexer returns it: its hash (the opaque
    handle) and its lamports (a big number). *)
Record CompressedAccount : Type := mkCompressedAccount {
  acc_hash : Z;
  acc_lamports : Z
}.

(** What [useWallet()] gives the hooks. *)
Record Wallet : Type := mkWallet {
  publicKey : option string;
  connected : bool;
  signTransaction : bool         (* whether the adapter offers it *)
}.

(** The part of [lib/solana/constants.ts] read from the environment. *)
Record Config : Type := mkConfig {
  PLATFORM_FEE_WALLET : string;
  PLATFORM_FEE_ENABLED : bool
}.

Definition LAMPORTS_PER_SOL : Js.number := Js.Number 1000000000.
(** [SENTO_FEE_PERCENTAGE = 0.005] *)
Definition SENTO_FEE_PERCENTAGE : Js.number := Js.literal 5 1000.

(* ===================================================================== *)
(** ** The outside world: events, oracle, and the monad of the hooks *)
(* ===================================================================== *)

(** One entry per call that leaves the client, plus one marker at the entry
    of [compressSOL] and [transferCompressedSOL] (where the source logs
    "Compressing ..." and "Transferring ..."). *)
Inductive Event : Type :=
| E_getCompressedAccountsByOwner (owner : string)
| E_getBalance (owner : string)
| E_call_compressSOL (payer : string) (amountSOL : Js.number)
| E_submitCompress (payer : string) (lamports : Js.number)
| E_call_transferCompressedSOL (payer recipient : string) (lamportsAmount : Js.number)
| E_getValidityProof (hashes : list Z)
| E_submitTransfer (payer : string) (inputs : list CompressedAccount)
                   (toAddress : string) (lamports : Js.number)
| E_sleep (ms : Z)
| E_saveBatchPayment (batch : BatchPayment)
| E_saveInvoice (invoice : Invoice).

Definition Trace : Type := list Event.

(** What a collaborator can throw: an [Error] object or a bare string
    (a [SentoError] is only ever built by the client itself). *)
Inductive External : Type :=
| XError (e : JsError)
| XString (s : string).

Definition thrown_of (x : External) : Thrown :=
  match x with
  | XError e => TError e
  | XString s => TString s
  end.

Inductive Answer (A : Type) : Type :=
| Returns (a : A)
| Raises (x : External).
Arguments Returns {A} a.
Arguments Raises {A} x.

(** The collaborators.  Each answer may depend on the history of calls made
    so far.  [submitCompress] and [submitTransfer] stand for building the
    instruction, fetching a blockhash, signing with the wallet, sending and
    awaiting confirmation: they return the signature or throw. *)
Record Oracle : Type := mkOracle {
  getCompressedAccountsByOwner : Trace -> string -> Answer (list CompressedAccount);
  getBalance : Trace -> string -> Answer Js.number;
  getValidityProof : Trace -> list Z -> Answer unit;
  submitCompress : Trace -> string -> Js.number -> Answer string;
  submitTransfer :
    Trace -> string -> list CompressedAccount -> string -> Js.number -> Answer string;
  saveBatchPayment : Trace -> BatchPayment -> Answer unit;
  saveInvoice : Trace -> Invoice -> Answer unit;
  (** whether [new PublicKey(s)] accepts [s] (it decodes to 32 bytes) *)
  decodesToPublicKey : string -> bool;
  (** [Date.now()], [Math.random()] and the id generators built on them *)
  randomId : Trace -> nat -> string;
  now : Trace -> Z;
  toLocaleDateString : Z -> string;
  (** [Number.prototype.toString], used inside error messages *)
  showNumber : Js.number -> string
}.

Inductive Result (A : Type) : Type :=
| Ok (a : A)
| Throw (t : Thrown).
Arguments Ok {A} a.
Arguments Throw {A} t.

(** A computation reads the history and yields a result (or a thrown value)
    together with the events it emitted itself. *)
Definition M (A : Type) : Type := Trace -> Result A * Trace.

Definition ret {A} (a : A) : M A := fun _ => (Ok a, []).

Definition throw {A} (t : Thrown) : M A := fun _ => (Throw t, []).

Definition bind {A B} (c : M A) (k : A -> M B) : M B :=
  fun h =>
    match c h with
    | (Ok a, evs) => let '(r, evs') := k a (h ++ evs) in (r, evs ++ evs')
    | (Throw t, evs) => (Throw t, evs)
    end.

(** [try { c } catch (err) { handler err }] *)
Definition try_catch {A} (c : M A) (handler : Thrown -> M A) : M A :=
  fun h =>
    match c h with
    | (Ok a, evs) => (Ok a, evs)
    | (Throw t, evs) => let '(r, evs') := handler t (h ++ evs) in (r, evs ++ evs')
    end.

Definition history : M Trace := fun h => (Ok h, []).

Definition emit (e : Event) : M unit := fun _ => (Ok tt, [e]).

Definition call {A} (e : Event) (answer : Trace -> Answer A) : M A :=
  fun h =>
    match answer h with
    | Returns a => (Ok a, [e])
    | Raises x => (Throw (thrown_of x), [e])
    end.

Declare Scope js_scope.
Delimit Scope js_scope with js.
Notation "x <- c ;; k" := (bind c (fun x => k))
  (at level 61, c at next level, right associativity) : js_scope.
Notation "c ;; k" := (bind c (fun _ => k))
  (at level 61, right associativity) : js_scope.
Local Open Scope js_scope.

(** [await new Promise(resolve => setTimeout(resolve, ms))] *)
Definition sleep (ms : Z) : M unit := emit (E_sleep ms).

Definition newError (message : string) : Thrown := TError (mkJsError "Error" message).

(** [BigInt(x)] for a number [x]: a RangeError unless [x] is an integer;
    the message of the engine spells the number. *)
Definition BigInt (o : Oracle) (x : Js.number) : M Z :=
  match Js.toInteger x with
  | Some z => ret z
  | None =>
      throw (TError (mkJsError "RangeError"
        ("The number " ++ showNumber o x
         ++ " cannot be converted to a BigInt because it is not an integer")%string))
  end.

Definition sum_lamports (items : list CompressedAccount) : Z :=
  fold_left (fun total account => total + acc_lamports account) items 0.

(* ===================================================================== *)
(** ** [lib/solana/light-protocol.ts] *)
(* ===================================================================== *)

(** The comparator of the sort:
    [(a, b) => Number(BigInt(b.lamports.toString()) - BigInt(a.lamports.toString()))] *)
Definition compareFn (a b : CompressedAccount) : Js.number :=
  Js.Number (acc_lamports b - acc_lamports a).

(** [[...items].sort(compareFn)].  The sort of the language is stable and
    puts [b] before [a] exactly when [compareFn(a, b) > 0]; with a comparator
    that is a consistent order, as this one is, every stable sort returns the
    same array, here computed by stable insertion: an element moves behind the
    elements that must come before it and stays in front of its equals. *)
Fixpoint insert_desc (x : CompressedAccount) (l : list CompressedAccount)
  : list CompressedAccount :=
  match l with
  | [] => [x]
  | y :: rest =>
      if Js.gt (compareFn x y) (Js.Number 0) then y :: insert_desc x rest
      else x :: l
  end.

Definition sortedAccounts (items : list CompressedAccount) : list CompressedAccount :=
  fold_right insert_desc [] items.

(** The selection loop, the same statements in [transferCompressedSOL] and
    in [decompressSOL]:
<<
    for (const account of sortedAccounts) {
      selectedAccounts.push(account);
      selectedTotal += BigInt(account.lamports.toString());
      if (selectedTotal >= BigInt(lamports)) break;
      if (selectedAccounts.length >= 4) break;
    }
>> *)
Fixpoint select_loop (sorted selectedAccounts : list CompressedAccount)
  (selectedTotal target : Z) : list CompressedAccount * Z :=
  match sorted with
  | [] => (selectedAccounts, selectedTotal)
  | account :: rest =>
      let selectedAccounts := selectedAccounts ++ [account] in
      let selectedTotal := selectedTotal + acc_lamports account in
      if selectedTotal >=? target then (selectedAccounts, selectedTotal)
      else if (4 <=? List.length selectedAccounts)%nat then (selectedAccounts, selectedTotal)
      else select_loop rest selectedAccounts selectedTotal target
  end.

(** The selector as a whole: the chosen accounts, their total, and [ok],
    the negation of the test [selectedTotal < target] that makes the caller
    throw. *)
Definition selectAccounts (items : list CompressedAccount) (target : Z)
  : list CompressedAccount * Z * bool :=
  let '(selectedAccounts, selectedTotal) :=
    select_loop (sortedAccounts items) [] 0 target in
  (selectedAccounts, selectedTotal, negb (selectedTotal <? target)).

(** What [new PublicKey(s)] throws for a string that is no key: the
    decoder's error when a character is outside the base58 alphabet, and the
    constructor's own when the decoded bytes are not 32. *)
Definition invalidKey (s : string) : Thrown :=
  newError (if Str.all_chars Str.isBase58Char s
            then "Invalid public key input" else "Non-base58 character").

Section LightProtocol.

Variable o : Oracle.

Definition in_SOL (lamports : Js.number) : string :=
  showNumber o (Js.div lamports LAMPORTS_PER_SOL).

(** [compressSOL(payer, amountSOL, signTransaction)] *)
Definition compressSOL (payer : string) (amountSOL : Js.number) : M string :=
  emit (E_call_compressSOL payer amountSOL) ;;
  let lamports := Js.floor (Js.mul amountSOL LAMPORTS_PER_SOL) in
  call (E_submitCompress payer lamports)
       (fun h => submitCompress o h payer lamports).

(** [transferCompressedSOL(payer, recipient, lamportsAmount, signTransaction)] *)
Definition transferCompressedSOL (payer recipient : string)
  (lamportsAmount : Js.number) : M string :=
  emit (E_call_transferCompressedSOL payer recipient lamportsAmount) ;;
  items <- call (E_getCompressedAccountsByOwner payer)
                (fun h => getCompressedAccountsByOwner o h payer) ;;
  if (List.length items =? 0)%nat then
    throw (newError "No compressed SOL available for transfer")
  else
    let totalCompressedBalance := sum_lamports items in
    target <- BigInt o lamportsAmount ;;
    if totalCompressedBalance <? target then
      throw (newError ("Insufficient compressed balance. Have: "
                       ++ in_SOL (Js.Number totalCompressedBalance)
                       ++ " SOL, Need: " ++ in_SOL lamportsAmount ++ " SOL")%string)
    else
      let '(selectedAccounts, selectedTotal, ok) := selectAccounts items target in
      if negb ok then
        throw (newError ("Cannot transfer " ++ in_SOL lamportsAmount
                         ++ " SOL. Max available in 4 accounts: "
                         ++ in_SOL (Js.Number selectedTotal) ++ " SOL")%string)
      else
        let hashes := map acc_hash selectedAccounts in
        call (E_getValidityProof hashes) (fun h => getValidityProof o h hashes) ;;
        call (E_submitTransfer payer selectedAccounts recipient lamportsAmount)
             (fun h => submitTransfer o h payer selectedAccounts recipient lamportsAmount).

(** [getCompressedBalance(owner)]: never throws, a failed fetch counts as
    an empty balance. *)
Definition getCompressedBalance (owner : string) : M Z :=
  try_catch
    (items <- call (E_getCompressedAccountsByOwner owner)
                   (fun h => getCompressedAccountsByOwner o h owner) ;;
     if (List.length items =? 0)%nat then ret 0 else ret (sum_lamports items))
    (fun _ => ret 0).

(** [new PublicKey(s)] *)
Definition newPublicKey (s : string) : M string :=
  if decodesToPublicKey o s then ret s
  else throw (invalidKey s).

End LightProtocol.

(* ===================================================================== *)
(** ** The hooks *)
(* ===================================================================== *)

(** [const FEE_RESERVE = 0.01 * 1_000_000_000] *)
Definition FEE_RESERVE : Js.number := Js.mul (Js.literal 1 100) (Js.Number 1000000000).

Definition ONE_BILLION : Js.number := Js.Number 1000000000.

(** [s ? a : b] on an optional string: [undefined] and [''] are falsy *)
Definition truthy (s : option string) : bool :=
  match s with
  | Some v => negb (Str.isEmpty v)
  | None => false
  end.

(** [s || undefined] *)
Definition or_undefined (s : option string) : option string :=
  if truthy s then s else None.

Definition is_paid (r : BatchRecipient) : bool := RecipientStatus_eqb (br_status r) paid.

(** The classification at the end of [executeBatch]:
    [every(paid) ? 'completed' : some(paid) ? 'partial' : 'failed'] *)
Definition deriveStatus (batchRecipients : list BatchRecipient) : BatchPaymentStatus :=
  if forallb is_paid batchRecipients then batch_completed
  else if existsb is_paid batchRecipients then batch_partial
  else batch_failed.

(** The filter at the head of [executeBatch] *)
Definition isSanitized (recipient : BatchRecipientInput) : bool :=
  Js.gt (bri_amount recipient) (Js.Number 0) && isValidPublicKey (bri_wallet recipient).

Definition maxAttempts : Z := 3.

Section Hooks.

Variable o : Oracle.
Variable cfg : Config.

(** Run [c] and hand back how it ended, without throwing. *)
Definition settle {A} (c : M A) : M (Result A) :=
  fun h => let '(r, evs) := c h in (Ok r, evs).

(** The auto-compress block, the same statements in [payInvoice]
    (usePayment.ts, 126-159) and in [executeBatch] (useBatchPayment.ts,
    71-91); it yields the compressed balance last read. *)
Definition autoCompress (publicKey : string) (amountLamports : Z) : M Z :=
  compressedBalance <- getCompressedBalance o publicKey ;;
  if compressedBalance <? amountLamports then
    let shortfallLamports := amountLamports - compressedBalance in
    let amountToCompressLamports := Js.Number shortfallLamports in
    let amountToCompressSOL := Js.div amountToCompressLamports ONE_BILLION in
    walletBalance <- call (E_getBalance publicKey)
                          (fun h => getBalance o h publicKey) ;;
    let totalNeeded := Js.add amountToCompressLamports FEE_RESERVE in
    if Js.lt walletBalance totalNeeded then
      throw (TSento (mkSentoError INSUFFICIENT_BALANCE None
               (Some (mkBalanceContext (Js.div walletBalance ONE_BILLION)
                                       (Js.div totalNeeded ONE_BILLION)))))
    else
      compressSOL o publicKey amountToCompressSOL ;;
      sleep 2000 ;;
      getCompressedBalance o publicKey
  else ret compressedBalance.

(* ------------------------------------------------------------------- *)
(** *** [usePayment.ts] *)

(** [PLATFORM_FEE_ENABLED ? Math.floor(invoice.amount * SENTO_FEE_PERCENTAGE) : 0] *)
Definition feeLamports (amount : Js.number) : Js.number :=
  if PLATFORM_FEE_ENABLED cfg then Js.floor (Js.mul amount SENTO_FEE_PERCENTAGE)
  else Js.Number 0.

(** [invoice.amount + feeLamports] *)
Definition totalLamports (amount : Js.number) : Js.number :=
  Js.add amount (feeLamports amount).

(** Lines 116-167: everything up to the transfers.  It yields the
    recipient key and, when a fee applies, the key of the fee wallet. *)
Definition payInvoice_prepare (publicKey : string) (invoice : Invoice)
  : M (string * option string) :=
  recipientPubkey <- newPublicKey o (inv_recipient invoice) ;;
  let feeLamports := feeLamports (inv_amount invoice) in
  let totalLamports := totalLamports (inv_amount invoice) in
  amountLamports <- BigInt o totalLamports ;;
  autoCompress publicKey amountLamports ;;
  feeRecipient <-
    (if Js.gt feeLamports (Js.Number 0) then
       if Str.isEmpty (PLATFORM_FEE_WALLET cfg)
          || negb (isValidPublicKey (PLATFORM_FEE_WALLET cfg))
       then throw (TSento (newSentoError INVALID_ADDRESS))
       else (k <- newPublicKey o (PLATFORM_FEE_WALLET cfg) ;; ret (Some k))
     else ret None) ;;
  ret (recipientPubkey, feeRecipient).

(** Lines 172-187: the amount leg, then the fee leg
    ([if (feeLamports > 0 && feeRecipient)]). *)
Definition payInvoice_transfers (publicKey : string) (invoice : Invoice)
  (recipientPubkey : string) (feeRecipient : option string) : M string :=
  let feeLamports := feeLamports (inv_amount invoice) in
  signature <- transferCompressedSOL o publicKey recipientPubkey (inv_amount invoice) ;;
  match feeRecipient with
  | Some feeRecipient =>
      if Js.gt feeLamports (Js.Number 0) then
        transferCompressedSOL o publicKey feeRecipient feeLamports ;;
        ret signature
      else ret signature
  | None => ret signature
  end.

(** The [try] block of [payInvoice]. *)
Definition payInvoice_body (publicKey : string) (invoice : Invoice) : M string :=
  prepared <- payInvoice_prepare publicKey invoice ;;
  payInvoice_transfers publicKey invoice (fst prepared) (snd prepared).

(** [payInvoice(invoice)]: the [TransactionResult] it resolves to, and the
    hook's [error] state afterwards ([error0] is the state before). *)
Definition payInvoice (w : Wallet) (error0 : option SentoError) (invoice : Invoice)
  : Trace -> (TransactionResult * option SentoError) * Trace :=
  fun h =>
    match publicKey w, connected w && signTransaction w with
    | Some publicKey, true =>
        match payInvoice_body publicKey invoice h with
        | (Ok signature, evs) =>
            ((mkTransactionResult true (Some signature) None, None), evs)
        | (Throw err, evs) =>
            let sentoError := parseError err in
            ((mkTransactionResult false None (Some (userMessage sentoError)),
              Some sentoError), evs)
        end
    | _, _ =>
        ((mkTransactionResult false None
            (Some (userMessage (newSentoError WALLET_NOT_CONNECTED))), error0), [])
    end.

(* ------------------------------------------------------------------- *)
(** *** [useBatchPayment.ts] *)

(** The [while (attempts < maxAttempts)] loop with what follows it;
    [remaining] is [maxAttempts - attempts]. *)
Fixpoint transfer_with_retry (remaining : nat) (publicKey recipientPubkey : string)
  (amount : Js.number) (lastError : Thrown) : M string :=
  match remaining with
  | O => throw lastError                   (* [recipient.status !== 'paid'] *)
  | S remaining' =>
      r <- settle (transferCompressedSOL o publicKey recipientPubkey amount) ;;
      match r with
      | Ok signature => ret signature      (* [status = 'paid'; break] *)
      | Throw transferErr =>
          let attempts := maxAttempts - Z.of_nat remaining' in    (* after [attempts++] *)
          if isQueueIssue transferErr && (attempts <? maxAttempts) then
            sleep (attempts * 2000) ;;
            transfer_with_retry remaining' publicKey recipientPubkey amount transferErr
          else throw transferErr
      end
  end.

(** The body of [for (const recipient of batchRecipients)] without the
    closing delay: the recipient as the iteration leaves it. *)
Definition processRecipient (publicKey : string) (recipient : BatchRecipient)
  : M BatchRecipient :=
  try_catch
    (recipientPubkey <- newPublicKey o (br_wallet recipient) ;;
     signature <- transfer_with_retry (Z.to_nat maxAttempts) publicKey recipientPubkey
                    (br_amount recipient) TUndefined ;;
     ret (mkBatchRecipient (br_id recipient) (br_wallet recipient) (br_amount recipient)
            (br_note recipient) paid (Some signature) (br_error recipient)))
    (fun err =>
       let sentoError := parseError err in
       ret (mkBatchRecipient (br_id recipient) (br_wallet recipient) (br_amount recipient)
              (br_note recipient) failed (br_txSignature recipient)
              (Some (userMessage sentoError)))).

Fixpoint processRecipients (publicKey : string) (batchRecipients : list BatchRecipient)
  : M (list BatchRecipient) :=
  match batchRecipients with
  | [] => ret []
  | recipient :: rest =>
      recipient' <- processRecipient publicKey recipient ;;
      sleep 500 ;;
      rest' <- processRecipients publicKey rest ;;
      ret (recipient' :: rest')
  end.

Definition batchInvoice (h : Trace) (publicKey : string) (teamId : option string)
  (recipient : BatchRecipient) : Invoice :=
  mkInvoice (randomId o h 0%nat) publicKey (br_wallet recipient) (br_amount recipient)
    (if truthy (br_note recipient)
     then ("Batch payment: " ++ match br_note recipient with Some n => n | None => "" end)%string
     else ("Batch payment (" ++ toLocaleDateString o (now o h) ++ ")")%string)
    inv_paid
    (or_undefined teamId)
    (if truthy teamId then Some publicKey else None)
    (now o h)
    (Some (now o h))
    (br_txSignature recipient).

(** [for (const recipient of successfulRecipients) { try { ... saveInvoice ... }
    catch (invoiceErr) { console.warn(...) } }] *)
Fixpoint createInvoices (publicKey : string) (teamId : option string)
  (successfulRecipients : list BatchRecipient) : M unit :=
  match successfulRecipients with
  | [] => ret tt
  | recipient :: rest =>
      try_catch
        (h <- history ;;
         let invoice := batchInvoice h publicKey teamId recipient in
         call (E_saveInvoice invoice) (fun h => saveInvoice o h invoice))
        (fun invoiceErr => ret tt) ;;
      createInvoices publicKey teamId rest
  end.

Definition newBatchRecipients (h : Trace) (sanitizedRecipients : list BatchRecipientInput)
  : list BatchRecipient :=
  map (fun '(i, recipient) =>
         mkBatchRecipient (randomId o h i) (bri_wallet recipient) (bri_amount recipient)
           (bri_note recipient) pending None None)
      (combine (seq 0 (List.length sanitizedRecipients)) sanitizedRecipients).

(** Lines 58-172: validation, auto-compress, the transfers, the batch
    record and its saving. *)
Definition executeBatch_payments (publicKey : string) (options : ExecuteBatchOptions)
  : M BatchPayment :=
  let sanitizedRecipients := filter isSanitized (opt_recipients options) in
  if (List.length sanitizedRecipients =? 0)%nat then
    throw (TSento (newSentoError INVALID_ADDRESS))
  else
    let totalLamports :=
      fold_left (fun sum r => Js.add sum (bri_amount r)) sanitizedRecipients (Js.Number 0) in
    amountLamports <- BigInt o totalLamports ;;
    autoCompress publicKey amountLamports ;;
    h <- history ;;
    batchRecipients <- processRecipients publicKey (newBatchRecipients h sanitizedRecipients) ;;
    let status := deriveStatus batchRecipients in
    h <- history ;;
    let batch :=
      mkBatchPayment (randomId o h 0%nat) publicKey (or_undefined (opt_teamId options))
        totalLamports (opt_proofHash options) status (now o h) batchRecipients in
    call (E_saveBatchPayment batch) (fun h => saveBatchPayment o h batch) ;;
    ret batch.

(** The [try] block of [executeBatch]; lines 174-209 create the invoices
    of the successful recipients and return the batch. *)
Definition executeBatch_body (publicKey : string) (options : ExecuteBatchOptions)
  : M BatchPayment :=
  batch <- executeBatch_payments publicKey options ;;
  let successfulRecipients := filter is_paid (bp_recipients batch) in
  createInvoices publicKey (opt_teamId options) successfulRecipients ;;
  ret batch.

(** [executeBatch(options)]: the batch it resolves to ([None] for [null])
    and the hook's [error] state afterwards. *)
Definition executeBatch (w : Wallet) (options : ExecuteBatchOptions)
  : Trace -> (option BatchPayment * option SentoError) * Trace :=
  fun h =>
    match publicKey w, connected w && signTransaction w with
    | Some publicKey, true =>
        match executeBatch_body publicKey options h with
        | (Ok batch, evs) => ((Some batch, None), evs)
        | (Throw err, evs) => ((None, Some (parseError err)), evs)
        end
    | _, _ => ((None, Some (newSentoError WALLET_NOT_CONNECTED)), [])
    end.

End Hooks.

(* ===================================================================== *)
(** ** Reading a trace *)
(* ===================================================================== *)

(** The entries of [transferCompressedSOL]: one per transfer attempt. *)
Definition transfer_calls (evs : Trace) : list (string * string * Js.number) :=
  flat_map (fun e => match e with
                     | E_call_transferCompressedSOL p r a => [(p, r, a)]
                     | _ => []
                     end) evs.

(** The delays, in milliseconds. *)
Definition sleeps (evs : Trace) : list Z :=
  flat_map (fun e => match e with E_sleep ms => [ms] | _ => [] end) evs.

(** The amounts (in SOL) [compressSOL] was called with. *)
Definition compress_calls (evs : Trace) : list Js.number :=
  flat_map (fun e => match e with E_call_compressSOL _ a => [a] | _ => [] end) evs.

(** The lamports of the compress (Hide) instructions that were submitted. *)
Definition compress_submits (evs : Trace) : list Js.number :=
  flat_map (fun e => match e with E_submitCompress _ l => [l] | _ => [] end) evs.

(** The invoices handed to [saveInvoice]. *)
Definition saved_invoices (evs : Trace) : list Invoice :=
  flat_map (fun e => match e with E_saveInvoice i => [i] | _ => [] end) evs.

(** The batches handed to [saveBatchPayment]. *)
Definition saved_batches (evs : Trace) : list BatchPayment :=
  flat_map (fun e => match e with E_saveBatchPayment b => [b] | _ => [] end) evs.

(** Events that only the selection and submission inside
    [transferCompressedSOL] produce. *)
Definition is_transfer_step (e : Event) : bool :=
  match e with
  | E_getCompressedAccountsByOwner _ | E_getValidityProof _
  | E_submitTransfer _ _ _ _ => true
  | _ => false
  end.



(** The same world with another [saveInvoice]. *)
Definition with_saveInvoice (o : Oracle) (f : Trace -> Invoice -> Answer unit) : Oracle :=
  mkOracle (getCompressedAccountsByOwner o) (getBalance o) (getValidityProof o)
    (submitCompress o) (submitTransfer o) (saveBatchPayment o) f
    (decodesToPublicKey o) (randomId o) (now o) (toLocaleDateString o) (showNumber o).

(** What the batch loop may change in a recipient: its status, signature
    and error; a recipient leaves the loop either paid, with a signature, or
    failed, with a message. *)
Definition settled_from (r r' : BatchRecipient) : Prop :=
  br_id r' = br_id r /\ br_wallet r' = br_wallet r /\
  br_amount r' = br_amount r /\ br_note r' = br_note r /\
  ((br_status r' = paid /\ exists signature, br_txSignature r' = Some signature)
   \/ (br_status r' = failed /\ exists message, br_error r' = Some message)).

(** A recipient as the batch loop leaves it after a failure with [err]. *)
Definition failed_with (recipient : BatchRecipient) (err : Thrown) : BatchRecipient :=
  mkBatchRecipient (br_id recipient) (br_wallet recipient) (br_amount recipient)
    (br_note recipient) failed (br_txSignature recipient)
    (Some (userMessage (parseError err))).

(** A recipient as the batch loop leaves it after a successful transfer. *)
Definition paid_with (recipient : BatchRecipient) (signature : string) : BatchRecipient :=
  mkBatchRecipient (br_id recipient) (br_wallet recipient) (br_amount recipient)
    (br_note recipient) paid (Some signature) (br_error recipient).

(** Descending order of lamports. *)
Definition lamports_ge (a b : CompressedAccount) : Prop :=
  acc_lamports b <= acc_lamports a.

(** Thrown values that come from a collaborator or from the language: an
    [Error] or a string, never a [SentoError]. *)
Definition foreign (t : Thrown) : Prop :=
  match t with
  | TError _ | TString _ => True
  | _ => False
  end.

(** A computation is confined to [P] when every event it emits satisfies
    [P] and whatever it throws is foreign. *)
Definition confined (P : Event -> bool) {A} (c : M A) : Prop :=
  forall h r evs, c h = (r, evs) ->
    forallb P evs = true /\ (forall t, r = Throw t -> foreign t).

(** Events of the attempts on one recipient: nothing is saved, and every
    transfer is from [pk] to wallet [w] for the amount [a]. *)
Definition attempts_only (pk w : string) (a : Js.number) (evs : Trace) : Prop :=
  saved_invoices evs = [] /\ saved_batches evs = [] /\
  Forall (eq (pk, w, a)) (transfer_calls evs).

(** Events of the batch loop: nothing is saved, and every transfer is from
    [pk] to one of the recipients of the loop, for that recipient's amount. *)
Definition loop_only (pk : string) (rs : list BatchRecipient) (evs : Trace) : Prop :=
  saved_invoices evs = [] /\ saved_batches evs = [] /\
  Forall (fun c => exists r, In r rs /\ c = (pk, br_wallet r, br_amount r))
         (transfer_calls evs).

(** What [getCompressedBalance] resolves to after the history [h]. *)
Definition compressedBalance_at (o : Oracle) (owner : string) (h : Trace) : Z :=
  match getCompressedAccountsByOwner o h owner with
  | Returns items => if (List.length items =? 0)%nat then 0 else sum_lamports items
  | Raises _ => 0
  end.

(** The error thrown by the auto-compress block when the wallet cannot
    cover the shortfall and the fee reserve. *)
Definition insufficientBalance (walletBalance totalNeeded : Js.number) : SentoError :=
  mkSentoError INSUFFICIENT_BALANCE None
    (Some (mkBalanceContext (Js.div walletBalance ONE_BILLION)
                            (Js.div totalNeeded ONE_BILLION))).

(** The lamports of the compress instruction that [compressSOL] builds when
    asked to cover [shortfallLamports]:
    [Math.floor((Number(shortfall) / 1e9) * LAMPORTS_PER_SOL)]. *)
Definition hiddenLamports (shortfallLamports : Z) : Js.number :=
  Js.floor (Js.mul (Js.div (Js.Number shortfallLamports) ONE_BILLION) LAMPORTS_PER_SOL).

(** The [saveInvoice] calls of the invoice loop: one per successful
    recipient, in order, whatever the earlier calls answered. *)
Fixpoint invoice_events (o : Oracle) (publicKey : string) (teamId : option string)
  (successfulRecipients : list BatchRecipient) (h : Trace) : Trace :=
  match successfulRecipients with
  | [] => []
  | recipient :: rest =>
      let e := E_saveInvoice (batchInvoice o h publicKey teamId recipient) in
      e :: invoice_events o publicKey teamId rest (h ++ [e])
  end.

(** The outcome the caller sees for a request: wallet and amount. *)
Definition request_of (r : BatchRecipientInput) : string * Js.number :=
  (bri_wallet r, bri_amount r).

Definition outcome_request (r : BatchRecipient) : string * Js.number :=
  (br_wallet r, br_amount r).

(** The transfers of a batch go to validated requests only. *)
Definition to_validated (pk : string) (options : ExecuteBatchOptions)
  (c : string * string * Js.number) : Prop :=
  exists request,
    In request (opt_recipients options) /\ isSanitized request = true /\
    c = (pk, bri_wallet request, bri_amount request).


(** The [TransactionResult] of a failed payment. *)
Definition payment_failed (err : Thrown) : TransactionResult :=
  mkTransactionResult false None (Some (userMessage (parseError err))).

(** The [TransactionResult] of a successful payment. *)
Definition payment_succeeded (signature : string) : TransactionResult :=
  mkTransactionResult true (Some signature) None.

(* ===================================================================== *)
(** ** Reading a binary64 value *)
(* ===================================================================== *)

(** The mantissa after the first shift and rounding to nearest even. *)
Definition rounded (M n : Z) : Z :=
  round_nearest_even (M / 2 ^ n)
    (loc_of_shr_record
       (Build_shr_record (M / 2 ^ n) (Z.odd (M / 2 ^ (n - 1)))
          (negb (M mod 2 ^ (n - 1) =? 0)))).

(** The normalised binary64 representation of an integer [0 <= z < 2^53]:
    a 53-bit mantissa and the matching exponent. *)
Definition normal (z : Z) : Js.number :=
  match z with
  | Z.pos p =>
      let d := Z.pos (digits2_pos p) in
      S754_finite false (Z.to_pos (z * 2 ^ (53 - d))) (d - 53)
  | _ => S754_zero false
  end.

(** The integers that a binary64 holds exactly and that JavaScript calls
    safe for amounts: [0 <= z < 2^53]. *)
Definition safe (z : Z) : Prop := 0 <= z < 2 ^ 53.

(** [sanitizedRecipients.reduce((sum, r) => sum + r.amount, 0)] *)
Definition aggregate (options : ExecuteBatchOptions) : Js.number :=
  fold_left (fun sum r => Js.add sum (bri_amount r))
            (filter isSanitized (opt_recipients options)) (Js.Number 0).

(** An error that carries the two figures of the balance check. *)
Definition carries_both_figures (err : option SentoError) : Prop :=
  exists e, err = Some e /\ code e = INSUFFICIENT_BALANCE /\ context e <> None.

(** A number that is positive: finite or infinite, never zero or NaN. *)
Definition positive_number (x : Js.number) : Prop :=
  match x with
  | S754_finite false _ _ | S754_infinity false => True
  | _ => False
  end.


(** The inputs of the transfer instructions that were submitted. *)
Definition transfer_inputs (evs : Trace) : list (list CompressedAccount) :=
  flat_map (fun e => match e with E_submitTransfer _ inputs _ _ => [inputs] | _ => [] end) evs.

(* ===================================================================== *)
(** ** Concrete worlds, for the examples *)
(* ===================================================================== *)

Module Example.

Definition sender : string := "So11111111111111111111111111111111111111112".
Definition bob : string := "4Nd1mBQtrMJVYVfKf2PJy9NZUZdTAsp7D4xWLs4gDB4T".
Definition carol : string := "9xQeWvG816bUx9EPjHmaT23yvVM2ZWbrrpZb9PusVFin".
Definition feeWallet : string := "7WduLbRfYhTJktjLw5FDEyrqoEv61aTTCuGAetgLjzN5".

Definition wallet : Wallet := mkWallet (Some sender) true true.

Definition fees_on : Config := mkConfig feeWallet true.
Definition fees_off : Config := mkConfig feeWallet false.

(** The indexer's view of the sender's private accounts.  A compress
    instruction adds an account; a transfer that went through consumes its
    inputs and returns the change as a new account. *)
Definition apply_event (transfer : Trace -> string -> Answer string)
  (accounts : list CompressedAccount) (before : Trace) (e : Event)
  : list CompressedAccount :=
  let fresh := 1000 + Z.of_nat (List.length before) in
  match e with
  | E_submitCompress _ lamports =>
      match Js.toInteger lamports with
      | Some z => accounts ++ [mkCompressedAccount fresh z]
      | None => accounts
      end
  | E_submitTransfer _ inputs toAddress lamports =>
      match transfer before toAddress, Js.toInteger lamports with
      | Returns _, Some z =>
          let spent a := existsb (fun i => acc_hash i =? acc_hash a) inputs in
          let change := sum_lamports inputs - z in
          filter (fun a => negb (spent a)) accounts
          ++ (if 0 <? change then [mkCompressedAccount fresh change] else [])
      | _, _ => accounts
      end
  | _ => accounts
  end.

Fixpoint replay (transfer : Trace -> string -> Answer string)
  (accounts : list CompressedAccount) (before rest : Trace) : list CompressedAccount :=
  match rest with
  | [] => accounts
  | e :: rest' =>
      replay transfer (apply_event transfer accounts before e) (before ++ [e]) rest'
  end.

Definition accounts_after (transfer : Trace -> string -> Answer string)
  (initial : list CompressedAccount) (h : Trace) : list CompressedAccount :=
  replay transfer initial [] h.

(** A world in which [accounts] tells the sender's private accounts after
    each history, the public balance is fixed, [transfer] decides how each
    transfer submission ends and [invoice] how each invoice write ends. *)
Definition world (accounts : Trace -> list CompressedAccount) (publicBalance : Z)
  (transfer : Trace -> string -> Answer string)
  (invoice : Trace -> Invoice -> Answer unit) : Oracle :=
  mkOracle
    (fun h _ => Returns (accounts h))
    (fun _ _ => Returns (Js.Number publicBalance))
    (fun _ _ => Returns tt)
    (fun _ _ _ => Returns "compress-signature")
    (fun h _ _ toAddress _ => transfer h toAddress)
    (fun _ _ => Returns tt)
    invoice
    (fun _ => true)
    (fun _ i => "id")
    (fun _ => 0)
    (fun _ => "1/1/2026")
    (fun _ => "?").

Definition settles : Trace -> string -> Answer string :=
  fun _ _ => Returns "transfer-signature".

(** The settlement queue is full: every submission fails with the queue
    error code. *)
Definition congested : Trace -> string -> Answer string :=
  fun _ _ => Raises (XError (mkJsError "Error" "custom program error: 0x232a")).

(** Every submission is rejected for another reason. *)
Definition rejected : Trace -> string -> Answer string :=
  fun _ _ => Raises (XError (mkJsError "Error" "custom program error: 0x1")).

(** Only transfers to the fee wallet fail. *)
Definition fee_leg_fails : Trace -> string -> Answer string :=
  fun _ toAddress =>
    if String.eqb toAddress feeWallet
    then Raises (XError (mkJsError "Error" "blockhash not found"))
    else Returns "transfer-signature".

Definition saves : Trace -> Invoice -> Answer unit := fun _ _ => Returns tt.

Definition storage_down : Trace -> Invoice -> Answer unit :=
  fun _ _ => Raises (XError (mkJsError "Error" "storage unavailable")).

(** One private account of 1 SOL that is never spent. *)
Definition rich : Trace -> list CompressedAccount :=
  fun _ => [mkCompressedAccount 1 1000000000].

(** No private account at first; then the ledger follows the calls. *)
Definition empty_ledger : Trace -> list CompressedAccount :=
  accounts_after (fun _ _ => Returns "transfer-signature") [].

(** One private account of 25 lamports. *)
Definition twenty_five : Trace -> list CompressedAccount :=
  fun _ => [mkCompressedAccount 1 25].

Definition invoice_of (recipient : string) (lamports : Z) : Invoice :=
  mkInvoice "inv_1" sender recipient (Js.Number lamports) "" unpaid None None 0 None None.

Definition request (wallet : string) (lamports : Z) : BatchRecipientInput :=
  mkBatchRecipientInput wallet (Js.Number lamports) None.

Definition recipient (wallet : string) (lamports : Z) : BatchRecipient :=
  mkBatchRecipient "row_1" wallet (Js.Number lamports) None pending None None.

Definition batch_of (requests : list BatchRecipientInput) : ExecuteBatchOptions :=
  mkExecuteBatchOptions requests None None.

End Example.

(* ===================================================================== *)
(** ** Public keys in base58 *)
(* ===================================================================== *)

(** What [new PublicKey(s)] of the wallet library asks of a string: its
    base58 decoding, one zero byte for each leading "1" and the bytes of the
    number that the other characters spell, has exactly 32 bytes. *)
Module Base58.

Definition alphabet : string :=
  "123456789ABCDEFGHJKLMNPQRSTUVWXYZabcdefghijkmnopqrstuvwxyz".

Fixpoint index_of (c : ascii) (s : string) (i : Z) : option Z :=
  match s with
  | EmptyString => None
  | String a rest => if Ascii.eqb a c then Some i else index_of c rest (i + 1)
  end.

(** The number that the characters spell, most significant first. *)
Fixpoint value (s : string) (acc : Z) : option Z :=
  match s with
  | EmptyString => Some acc
  | String c rest =>
      match index_of c alphabet 0 with
      | Some digit => value rest (acc * 58 + digit)
      | None => None
      end
  end.

Fixpoint leading_ones (s : string) : nat :=
  match s with
  | String "1" rest => S (leading_ones rest)
  | _ => O
  end.

Definition byte_length (v : Z) : Z :=
  if v =? 0 then 0 else Z.log2 v / 8 + 1.

Definition decoded_length (s : string) : option Z :=
  match value s 0 with
  | Some v => Some (Z.of_nat (leading_ones s) + byte_length v)
  | None => None
  end.

Definition isKey (s : string) : bool :=
  match decoded_length s with
  | Some n => n =? 32
  | None => false
  end.

End Base58.
(* ===================================================================== *)
(** ** Error messages that spell numbers *)
(* ===================================================================== *)

(** The characters that [Number.prototype.toString] can produce in radix
    10: digits, the point, the sign, the exponent marker, and the letters
    of "Infinity" and "NaN". *)
Definition isNumberChar (c : ascii) : bool :=
  Str.in_range 48 57 c
  || existsb (Ascii.eqb c) (list_ascii_of_string ".+-eInfityNa").

(** The same alphabet after [toLowerCase]. *)
Definition isLowerNumberChar (c : ascii) : bool :=
  Str.in_range 48 57 c
  || existsb (Ascii.eqb c) (list_ascii_of_string ".+-einftya").

(** A message is a sequence of literal pieces and of numbers spelled by
    the engine. *)
Inductive Piece : Type :=
| Lit (s : string)
| Num (s : string).

Definition piece_text (p : Piece) : string :=
  match p with Lit s | Num s => s end.

Fixpoint flatten (pieces : list Piece) : string :=
  match pieces with
  | [] => ""
  | p :: rest => piece_text p ++ flatten rest
  end.

Definition lower_piece (p : Piece) : Piece :=
  match p with
  | Lit s => Lit (Str.toLowerCase s)
  | Num s => Num (Str.toLowerCase s)
  end.

(** The numbers of a message are spelled in the alphabet [P]. *)
Definition spelled (P : ascii -> bool) (p : Piece) : Prop :=
  match p with
  | Num s => Str.all_chars P s = true
  | Lit _ => True
  end.

(** Whether the characters [c1 c2] occur next to each other in [s]. *)
Fixpoint pair_in (c1 c2 : ascii) (s : string) : bool :=
  match s with
  | String a (String b _ as rest) =>
      (Ascii.eqb a c1 && Ascii.eqb b c2) || pair_in c1 c2 rest
  | _ => false
  end.

Definition starts_with (c : ascii) (s : string) : bool :=
  match s with
  | String a _ => Ascii.eqb a c
  | EmptyString => false
  end.

Fixpoint ends_with (c : ascii) (s : string) : bool :=
  match s with
  | EmptyString => false
  | String a EmptyString => Ascii.eqb a c
  | String _ rest => ends_with c rest
  end.

(** A conservative test that [c1 c2] are nowhere adjacent in a message of
    the shape [pieces], whatever its numbers are, as long as they are
    spelled in the alphabet [P]; [open] tells whether the text so far may
    end with [c1]. *)
Fixpoint pair_absent (P : ascii -> bool) (c1 c2 : ascii) (open : bool)
  (pieces : list Piece) : bool :=
  match pieces with
  | [] => true
  | Lit s :: rest =>
      if Str.isEmpty s then pair_absent P c1 c2 open rest
      else negb (open && starts_with c2 s)
           && negb (pair_in c1 c2 s)
           && pair_absent P c1 c2 (ends_with c1 s) rest
  | Num _ :: rest =>
      negb (open && P c2)
      && negb (P c1 && P c2)
      && pair_absent P c1 c2 (open || P c1) rest
  end.

(** A keyword cannot occur in the message when two of its neighbouring
    characters cannot. *)
Fixpoint keyword_absent (P : ascii -> bool) (keyword : string) (pieces : list Piece)
  : bool :=
  match keyword with
  | String c1 (String c2 _ as rest) =>
      pair_absent P c1 c2 false pieces || keyword_absent P rest pieces
  | _ => false
  end.

(** The keywords that [parseError] looks for. *)
Definition keywords : list string :=
  ["wallet"; "not connected"; "user rejected"; "user declined"; "disconnected";
   "insufficient"; "balance"; "compressed"; "transaction"; "failed"; "timeout";
   "timed out"; "cancelled"; "canceled"; "network"; "fetch"; "rpc";
   "connection refused"; "invalid"; "address"; "amount"; "compliance";
   "not compliant"; "sanctioned"; "storage"; "localstorage"].
(* ===================================================================== *)
(** ** More of the language: strings and comparisons *)
(* ===================================================================== *)

From Stdlib Require DecimalString.

(** [x === y] on numbers *)
Definition strictEquals (x y : Js.number) : bool := SFeqb x y.

(** [isNaN(x)] *)
Definition isNaN (x : Js.number) : bool :=
  match x with S754_nan => true | _ => false end.

Module Text.

(** White space and line terminators among the 8-bit characters: what
    [trim] strips and what [\s] matches. *)
Definition isWhiteSpace (c : ascii) : bool :=
  let n := nat_of_ascii c in
  ((9 <=? n) && (n <=? 13) || (n =? 32) || (n =? 160))%nat.

Fixpoint trimStart (s : string) : string :=
  match s with
  | String c rest => if isWhiteSpace c then trimStart rest else s
  | EmptyString => EmptyString
  end.

Fixpoint trimEnd (s : string) : string :=
  match s with
  | EmptyString => EmptyString
  | String c rest =>
      let rest' := trimEnd rest in
      if Str.isEmpty rest' && isWhiteSpace c then EmptyString else String c rest'
  end.

(** [s.trim()] *)
Definition trim (s : string) : string := trimEnd (trimStart s).

(** An index of [slice], relative to the end when negative, clamped. *)
Definition relative (len i : Z) : Z :=
  if i <? 0 then Z.max (len + i) 0 else Z.min i len.

(** [s.slice(start, end)] and, with [None], [s.slice(start)] *)
Definition slice (s : string) (start : Z) (stop : option Z) : string :=
  let len := Z.of_nat (String.length s) in
  let from := relative len start in
  let to := match stop with Some e => relative len e | None => len end in
  String.substring (Z.to_nat from) (Z.to_nat (Z.max (to - from) 0)) s.

(** [/^[class]+$/.test(s)] *)
Definition test_plus (class : ascii -> bool) (s : string) : bool :=
  negb (Str.isEmpty s) && Str.all_chars class s.

(** [/^[class]{lo,hi}$/.test(s)] *)
Definition test_between (class : ascii -> bool) (lo hi : nat) (s : string) : bool :=
  let n := String.length s in
  ((lo <=? n) && (n <=? hi))%nat && Str.all_chars class s.

(** The length of the longest prefix of [s] made of [class]. *)
Fixpoint span (class : ascii -> bool) (s : string) : nat :=
  match s with
  | String c rest => if class c then S (span class rest) else 0
  | EmptyString => 0
  end.

Fixpoint drop (n : nat) (s : string) : string :=
  match n, s with
  | S k, String _ rest => drop k rest
  | _, _ => s
  end.

Fixpoint has_char (c : ascii) (s : string) : bool :=
  match s with
  | String a rest => Ascii.eqb a c || has_char c rest
  | EmptyString => false
  end.

Fixpoint filter (keep : ascii -> bool) (s : string) : string :=
  match s with
  | String c rest => if keep c then String c (filter keep rest) else filter keep rest
  | EmptyString => EmptyString
  end.

(** [\w] *)
Definition isWordChar (c : ascii) : bool :=
  Str.in_range 48 57 c || Str.in_range 65 90 c || Str.in_range 97 122 c
  || Ascii.eqb c "_".

(** Whether [s] starts with the characters of [literal], compared without
    regard to case ([literal] is given in lower case). *)
Fixpoint prefix_ci (literal s : string) : bool :=
  match literal, s with
  | EmptyString, _ => true
  | String a literal', String b s' =>
      Ascii.eqb (Str.lower_ascii b) a && prefix_ci literal' s'
  | String _ _, EmptyString => false
  end.

(** [s.replace(/literal/gi, '')]: from left to right every occurrence that
    does not overlap an earlier one is cut out; [skip] counts the characters
    of the current occurrence still to be dropped. *)
Fixpoint remove_ci (literal : string) (skip : nat) (s : string) : string :=
  match s with
  | EmptyString => EmptyString
  | String c rest =>
      match skip with
      | S k => remove_ci literal k rest
      | O =>
          if prefix_ci literal s
          then remove_ci literal (String.length literal - 1) rest
          else String c (remove_ci literal 0 rest)
      end
  end.

(** [s.replace(/<[^>]*>/g, '')].  At a ["<"] the pattern matches up to the
    first [">"] that follows, if there is one; [inside] tells that such a
    match is being dropped. *)
Fixpoint removeTags (inside : bool) (s : string) : string :=
  match s with
  | EmptyString => EmptyString
  | String c rest =>
      if inside then removeTags (negb (Ascii.eqb c ">")) rest
      else if Ascii.eqb c "<" && has_char ">" rest then removeTags true rest
      else String c (removeTags false rest)
  end.

(** The length of the match of [/on\w+\s*=/i] at the head of [s]: the
    letters "on" in either case, the longest run of word characters (at least
    one), the longest run of white space, and ["="].  (A shorter run cannot
    be followed by ["="], so backtracking finds nothing else.) *)
Definition handler_match (s : string) : option nat :=
  if prefix_ci "on" s then
    let rest := drop 2 s in
    let w := span isWordChar rest in
    if (w =? 0)%nat then None
    else
      let k := span isWhiteSpace (drop w rest) in
      if starts_with "=" (drop k (drop w rest)) then Some (2 + w + k + 1)%nat
      else None
  else None.

(** [s.replace(/on\w+\s*=/gi, '')] *)
Fixpoint removeHandlers (skip : nat) (s : string) : string :=
  match s with
  | EmptyString => EmptyString
  | String c rest =>
      match skip with
      | S k => removeHandlers k rest
      | O =>
          match handler_match s with
          | Some n => removeHandlers (n - 1) rest
          | None => String c (removeHandlers 0 rest)
          end
      end
  end.

(** [[\x00-\x08\x0B-\x0C\x0E-\x1F\x7F]] *)
Definition isControlChar (c : ascii) : bool :=
  Str.in_range 0 8 c || Str.in_range 11 12 c || Str.in_range 14 31 c
  || Str.in_range 127 127 c.

(** The decimal spelling of an integer, as in a template literal. *)
Definition ofInteger (z : Z) : string :=
  DecimalString.NilZero.string_of_int (Z.to_int z).

End Text.

(* ===================================================================== *)
(** ** [lib/utils/validation.ts] *)
(* ===================================================================== *)

Module Validation.

(** The result of a validator: [{ valid, error?, sanitized? }] *)
Record Checked (A : Type) : Type := mkChecked {
  valid : bool;
  error : option string;
  sanitized : option A
}.
Arguments mkChecked {A} valid error sanitized.
Arguments valid {A} c.
Arguments error {A} c.
Arguments sanitized {A} c.

Definition rejected {A} (message : string) : Checked A :=
  mkChecked false (Some message) None.

Definition accepted {A} (a : A) : Checked A := mkChecked true None (Some a).

(** [validateWalletAddress(address)]; [new PublicKey(trimmed)] throws when
    the string does not decode to 32 bytes. *)
Definition validateWalletAddress (o : Oracle) (address : string) : Checked string :=
  if Str.isEmpty address then rejected "Address is required"
  else
    let trimmed := Text.trim address in
    if ((String.length trimmed <? 32) || (44 <? String.length trimmed))%nat
    then rejected "Invalid address length"
    else if negb (Text.test_plus Str.isBase58Char trimmed)
    then rejected "Invalid address format"
    else if decodesToPublicKey o trimmed then accepted trimmed
    else rejected "Invalid Solana public key".

Definition MAX_SOL : Js.number := Js.Number 1000000000.
Definition MIN_SOL : Js.number := Js.literal 1 1000000.

(** [validateAmount(amount)] for [amount: number | string] *)
Definition validateAmount (parseFloat : string -> Js.number) (amount : Js.number + string)
  : Checked Js.number :=
  let check (numAmount : Js.number) : Checked Js.number :=
    if Js.lt numAmount (Js.Number 0) then rejected "Amount cannot be negative"
    else if strictEquals numAmount (Js.Number 0)
    then rejected "Amount must be greater than zero"
    else if Js.gt numAmount MAX_SOL then rejected "Amount exceeds maximum"
    else if Js.lt numAmount MIN_SOL then rejected "Amount below minimum"
    else accepted (Js.floor (Js.mul numAmount (Js.Number 1000000000))) in
  match amount with
  | inr text =>
      let parsed := parseFloat text in
      if isNaN parsed then rejected "Amount must be a number" else check parsed
  | inl numAmount => check numAmount
  end.

(** [sanitizeNote(note, maxLength = 500)], for a whole [maxLength] *)
Definition sanitizeNote (note : string) (maxLength : Z) : Checked string :=
  if Str.isEmpty note then rejected "Note is required"
  else
    let trimmed := Text.trim note in
    if (String.length trimmed =? 0)%nat then rejected "Note cannot be empty"
    else if maxLength <? Z.of_nat (String.length trimmed)
    then rejected ("Note must be less than " ++ Text.ofInteger maxLength ++ " characters")
    else
      let withoutHtml := Text.removeTags false trimmed in
      let withoutScripts :=
        Text.removeHandlers 0 (Text.remove_ci "javascript:" 0 withoutHtml) in
      accepted (Text.filter (fun c => negb (Text.isControlChar c)) withoutScripts).

(** [[a-zA-Z0-9_-]] *)
Definition isIdChar (c : ascii) : bool :=
  Text.isWordChar c || Ascii.eqb c "-".

(** The three identifier validators are one text with three sets of
    messages. *)
Definition validateId (required format length characters : string) (id : string)
  : Checked string :=
  if Str.isEmpty id then rejected required
  else
    let trimmed := Text.trim id in
    if negb (Text.test_plus isIdChar trimmed) then rejected format
    else if ((String.length trimmed <? 3) || (100 <? String.length trimmed))%nat
    then rejected length
    else if Str.includes ".." trimmed || Str.includes "/" trimmed
            || Str.includes "\" trimmed
    then rejected characters
    else accepted trimmed.

Definition validateInvoiceId : string -> Checked string :=
  validateId "Invoice ID is required" "Invalid invoice ID format"
    "Invalid invoice ID length" "Invalid characters in invoice ID".

Definition validateTeamId : string -> Checked string :=
  validateId "Team ID is required" "Invalid team ID format"
    "Invalid team ID length" "Invalid characters in team ID".

Definition validateBatchId : string -> Checked string :=
  validateId "Batch ID is required" "Invalid batch ID format"
    "Invalid batch ID length" "Invalid characters in batch ID".

(** [validateTxSignature(signature)] *)
Definition validateTxSignature (signature : string) : Checked string :=
  if Str.isEmpty signature then rejected "Signature is required"
  else
    let trimmed := Text.trim signature in
    if negb (Text.test_between Str.isBase58Char 64 128 trimmed)
    then rejected "Invalid signature format"
    else accepted trimmed.

(** [validateStatus(status)] *)
Definition validateStatus (status : string) : Checked string :=
  if negb (existsb (String.eqb status) ["unpaid"; "paid"; "cancelled"])
  then rejected "Invalid status"
  else accepted status.

End Validation.

(* ===================================================================== *)
(** ** [lib/utils/format.ts] *)
(* ===================================================================== *)

(** An argument that is given, or its default when it is left out. *)
Definition or_default (given : option Z) (default : Z) : Z :=
  match given with
  | Some value => value
  | None => default
  end.

(** [formatAddress(address, chars = 4)], for a whole [chars] *)
Definition formatAddress (address : string) (given : option Z) : string :=
  let chars := or_default given 4 in
  if Z.of_nat (String.length address) <=? chars * 2 + 3 then address
  else (Text.slice address 0 (Some chars) ++ "..." ++ Text.slice address (- chars) None)%string.

(** [formatSignature(signature, chars = 8)], for a whole [chars] *)
Definition formatSignature (signature : string) (given : option Z) : string :=
  let chars := or_default given 8 in
  if Z.of_nat (String.length signature) <=? chars * 2 + 3 then signature
  else (Text.slice signature 0 (Some chars) ++ "..."
        ++ Text.slice signature (- chars) None)%string.

(** A text cut down to [chars] characters at either end. *)
Definition shortened (text : string) (chars : Z) : string :=
  (String.substring 0 (Z.to_nat chars) text ++ "..."
   ++ String.substring (String.length text - Z.to_nat chars) (Z.to_nat chars) text)%string.

(* ===================================================================== *)
(** ** Observations on texts *)
(* ===================================================================== *)

(** [Subseq s t]: [s] is [t] with some characters left out. *)
Inductive Subseq : string -> string -> Prop :=
| Subseq_nil : Subseq EmptyString EmptyString
| Subseq_skip (c : ascii) (s t : string) : Subseq s t -> Subseq s (String c t)
| Subseq_keep (c : ascii) (s t : string) : Subseq s t -> Subseq (String c s) (String c t).

(** No ["<"] of [s] is followed, anywhere later, by a [">"]: the pattern
    [/<[^>]*>/] matches nowhere. *)
Fixpoint tagless (s : string) : bool :=
  match s with
  | EmptyString => true
  | String c rest =>
      negb (Ascii.eqb c "<" && Text.has_char ">" rest) && tagless rest
  end.
(* ===================================================================== *)
(** ** The effort of a run *)
(* ===================================================================== *)

(** The time a run spends waiting on purpose, in milliseconds. *)
Definition total_delay (evs : Trace) : Z := fold_right Z.add 0 (sleeps evs).

(** A run stays within a budget of transfer attempts, of calls to
    [compressSOL] and of deliberate delay. *)
Definition within (transfers compresses : nat) (delay : Z) (evs : Trace) : Prop :=
  (List.length (transfer_calls evs) <= transfers)%nat /\
  (List.length (compress_calls evs) <= compresses)%nat /\
  total_delay evs <= delay.
(* ===================================================================== *)
(** ** Claiming private funds back: [decompressSOL] *)
(* ===================================================================== *)

(** [decompressSOL] of [lib/solana/light-protocol.ts] and the hook of the
    same name in [lib/hooks/usePayment.ts] talk to the indexer and the prover
    as a transfer does, and submit a decompress instruction instead of a
    transfer.  Their calls are recorded in a trace of their own. *)
Inductive ClaimEvent : Type :=
| C_call_decompressSOL (payer : string) (amountSOL : Js.number)
| C_getCompressedAccountsByOwner (owner : string)
| C_getValidityProof (hashes : list Z)
| C_submitDecompress (payer : string) (inputs : list CompressedAccount)
                     (toAddress : string) (lamports : Js.number).

Definition ClaimTrace : Type := list ClaimEvent.

(** The collaborators of a claim; [claim_submit] stands for building the
    decompress instruction, signing, sending and awaiting confirmation. *)
Record ClaimOracle : Type := mkClaimOracle {
  claim_accounts : ClaimTrace -> string -> Answer (list CompressedAccount);
  claim_proof : ClaimTrace -> list Z -> Answer unit;
  claim_submit :
    ClaimTrace -> string -> list CompressedAccount -> string -> Js.number -> Answer string;
  claim_showNumber : Js.number -> string
}.

(** A computation of a claim: the history in, the result and the events it
    emitted out. *)
Definition Claim (A : Type) : Type := ClaimTrace -> Result A * ClaimTrace.

Definition claim_ret {A} (a : A) : Claim A := fun _ => (Ok a, []).

Definition claim_throw {A} (t : Thrown) : Claim A := fun _ => (Throw t, []).

Definition claim_bind {A B} (c : Claim A) (k : A -> Claim B) : Claim B :=
  fun h =>
    match c h with
    | (Ok a, evs) => let '(r, evs') := k a (h ++ evs) in (r, evs ++ evs')
    | (Throw t, evs) => (Throw t, evs)
    end.

Definition claim_call {A} (e : ClaimEvent) (answer : ClaimTrace -> Answer A) : Claim A :=
  fun h =>
    match answer h with
    | Returns a => (Ok a, [e])
    | Raises x => (Throw (thrown_of x), [e])
    end.

Section Claiming.

Variable o : ClaimOracle.

(** [decompressSOL(payer, amountSOL, signTransaction)] *)
Definition decompressSOL (payer : string) (amountSOL : Js.number) : Claim string :=
  claim_bind (fun _ => (Ok tt, [C_call_decompressSOL payer amountSOL])) (fun _ =>
  let lamports := Js.floor (Js.mul amountSOL LAMPORTS_PER_SOL) in
  claim_bind (claim_call (C_getCompressedAccountsByOwner payer)
                         (fun h => claim_accounts o h payer)) (fun items =>
  if (List.length items =? 0)%nat then
    claim_throw (newError "No compressed SOL to claim")
  else
    let totalCompressedBalance := sum_lamports items in
    match Js.toInteger lamports with
    | None =>
        claim_throw (TError (mkJsError "RangeError"
          ("The number " ++ claim_showNumber o lamports
           ++ " cannot be converted to a BigInt because it is not an integer")%string))
    | Some target =>
        if totalCompressedBalance <? target then
          claim_throw
            (newError ("Insufficient compressed balance. Have: "
                       ++ claim_showNumber o
                            (Js.div (Js.Number totalCompressedBalance) LAMPORTS_PER_SOL)
                       ++ " SOL, Need: " ++ claim_showNumber o amountSOL ++ " SOL")%string)
        else
          let '(selectedAccounts, selectedTotal, ok) := selectAccounts items target in
          if negb ok then
            claim_throw
              (newError ("Cannot decompress " ++ claim_showNumber o amountSOL
                         ++ " SOL. Max available in 4 accounts: "
                         ++ claim_showNumber o
                              (Js.div (Js.Number selectedTotal) LAMPORTS_PER_SOL)
                         ++ " SOL")%string)
          else
            let hashes := map acc_hash selectedAccounts in
            claim_bind (claim_call (C_getValidityProof hashes)
                                   (fun h => claim_proof o h hashes)) (fun _ =>
            claim_call (C_submitDecompress payer selectedAccounts payer lamports)
                       (fun h => claim_submit o h payer selectedAccounts payer lamports))
    end)).

(** The hook [decompressSOL(amount)] of [usePayment]: the result it
    resolves to and the hook's [error] state afterwards. *)
Definition usePayment_decompressSOL (w : Wallet) (error0 : option SentoError)
  (amount : Js.number) : ClaimTrace -> (TransactionResult * option SentoError) * ClaimTrace :=
  fun h =>
    match publicKey w, connected w && signTransaction w with
    | Some publicKey, true =>
        match decompressSOL publicKey amount h with
        | (Ok signature, evs) =>
            ((mkTransactionResult true (Some signature) None, None), evs)
        | (Throw err, evs) =>
            let sentoError := parseError err in
            ((mkTransactionResult false None (Some (userMessage sentoError)),
              Some sentoError), evs)
        end
    | _, _ =>
        ((mkTransactionResult false None
            (Some (userMessage (newSentoError WALLET_NOT_CONNECTED))), error0), [])
    end.

End Claiming.

(** The decompress instructions that were submitted: inputs, destination
    and lamports. *)
Definition claims_submitted (evs : ClaimTrace)
  : list (list CompressedAccount * string * Js.number) :=
  flat_map (fun e => match e with
                     | C_submitDecompress _ inputs toAddress lamports =>
                         [(inputs, toAddress, lamports)]
                     | _ => []
                     end) evs.

(* ===================================================================== *)
(** ** The account count *)
(* ===================================================================== *)

Section MoreHooks.

Variable o : Oracle.

(** [getCompressedAccountCount(owner)]: [items?.length || 0], and [0] when
    the fetch fails. *)
Definition getCompressedAccountCount (owner : string) : M nat :=
  try_catch
    (items <- call (E_getCompressedAccountsByOwner owner)
                   (fun h => getCompressedAccountsByOwner o h owner) ;;
     ret (List.length items))
    (fun _ => ret 0%nat).

End MoreHooks.

(* ===================================================================== *)
(** ** Self-disclosure reports ([lib/compliance/range-intel.ts]) *)
(* ===================================================================== *)

Module Report.

(** [x - y] on numbers *)
Definition sub (x y : Js.number) : Js.number := SFsub Js.prec Js.emax x y.

(** A [Date] is its time value, in milliseconds since the epoch, or
    [None] when it is an Invalid Date (as [new Date(undefined)] is). *)
Definition Date : Type := option Z.

(** [date.getTime()] *)
Definition getTime (d : Date) : Js.number :=
  match d with
  | Some t => Js.Number t
  | None => Js.NaN
  end.

(** The start and the end of a period are valid dates. *)
Record ReportPeriod : Type := mkReportPeriod {
  period_start : Z;
  period_end : Z
}.

Inductive TransactionType : Type := received | paid_out.

Definition TransactionType_eqb (a b : TransactionType) : bool :=
  match a, b with
  | received, received | paid_out, paid_out => true
  | _, _ => false
  end.

Record ReportTransaction : Type := mkReportTransaction {
  tx_date : Date;
  tx_type : TransactionType;
  tx_amount : Js.number;                 (* lamports *)
  tx_counterparty : string;
  tx_note : option string;
  tx_txSignature : option string;
  tx_invoiceId : option string
}.

Record TransactionSummary : Type := mkTransactionSummary {
  totalReceived : Js.number;
  totalPaid : Js.number;
  transactionCount : nat;
  averageTransaction : Js.number
}.

(** [filterInvoicesForReport(walletAddress, period, invoices)]; two dates
    compare as their time values do, which are whole milliseconds. *)
Definition filterInvoicesForReport (walletAddress : string) (period : ReportPeriod)
  (invoices : list Invoice) : list Invoice :=
  filter (fun inv =>
    let isRelevant := String.eqb (inv_sender inv) walletAddress
                      || String.eqb (inv_recipient inv) walletAddress in
    if negb isRelevant then false
    else
      match inv_status inv, inv_paidAt inv with
      | inv_paid, Some paidAt =>
          (period_start period <=? paidAt) && (paidAt <=? period_end period)
      | _, _ => false
      end) invoices.

(** The comparator of both sorts:
    [(a, b) => a.date.getTime() - b.date.getTime()] *)
Definition byDate (a b : ReportTransaction) : Js.number :=
  sub (getTime (tx_date a)) (getTime (tx_date b)).

(** [array.sort(byDate)] for valid dates, computed by stable insertion as
    the sort of the accounts is: an element moves behind the elements that
    must come before it and stays in front of its equals.  (With an Invalid
    Date the comparator answers NaN and is no order; where the engine puts
    such an element is not modelled.) *)
Fixpoint insert_by_date (x : ReportTransaction) (l : list ReportTransaction)
  : list ReportTransaction :=
  match l with
  | [] => [x]
  | y :: rest =>
      if Js.gt (byDate x y) (Js.Number 0) then y :: insert_by_date x rest
      else x :: l
  end.

Definition sort_by_date (l : list ReportTransaction) : list ReportTransaction :=
  fold_right insert_by_date [] l.

(** The transaction that [buildTransactionsList] makes of an invoice. *)
Definition transaction_of (walletAddress : string) (includeNotes : bool) (inv : Invoice)
  : ReportTransaction :=
  let isReceived := String.eqb (inv_recipient inv) walletAddress in
  mkReportTransaction
    (inv_paidAt inv)
    (if isReceived then received else paid_out)
    (inv_amount inv)
    (if isReceived then inv_sender inv else inv_recipient inv)
    (if includeNotes then Some (inv_note inv) else None)
    (inv_txSignature inv)
    (Some (inv_id inv)).

(** [buildTransactionsList(walletAddress, invoices, includeNotes)] *)
Definition buildTransactionsList (walletAddress : string) (invoices : list Invoice)
  (includeNotes : bool) : list ReportTransaction :=
  sort_by_date (map (transaction_of walletAddress includeNotes) invoices).

(** [calculateSummary(transactions)] *)
Definition calculateSummary (transactions : list ReportTransaction) : TransactionSummary :=
  let received_ := filter (fun tx => TransactionType_eqb (tx_type tx) received) transactions in
  let paid_ := filter (fun tx => TransactionType_eqb (tx_type tx) paid_out) transactions in
  let totalReceived := fold_left (fun sum tx => Js.add sum (tx_amount tx)) received_ (Js.Number 0) in
  let totalPaid := fold_left (fun sum tx => Js.add sum (tx_amount tx)) paid_ (Js.Number 0) in
  let totalAmount := Js.add totalReceived totalPaid in
  mkTransactionSummary
    totalReceived
    totalPaid
    (List.length transactions)
    (if (0 <? List.length transactions)%nat
     then Js.div totalAmount (Js.Number (Z.of_nat (List.length transactions)))
     else Js.Number 0).

(** A signature that is there: neither [undefined] nor the empty string. *)
Definition signed (tx : ReportTransaction) : option string :=
  match tx_txSignature tx with
  | Some s => if Str.isEmpty s then None else Some s
  | None => None
  end.

(** [localBySignature.has(signature)] *)
Definition known_locally (localTxs : list ReportTransaction) (signature : string) : bool :=
  existsb (fun tx => match signed tx with
                     | Some s => String.eqb s signature
                     | None => false
                     end) localTxs.

(** [mergeTransactionData(localTxs, onChainTxs)] *)
Definition mergeTransactionData (localTxs onChainTxs : list ReportTransaction)
  : list ReportTransaction :=
  let added :=
    filter (fun onChainTx =>
              match signed onChainTx with
              | Some s => negb (known_locally localTxs s)
              | None => false
              end) onChainTxs in
  sort_by_date (localTxs ++ added).

(** The integer that a number holds ([0] when it holds none). *)
Definition whole (x : Js.number) : Z :=
  match Js.toInteger x with
  | Some z => z
  | None => 0
  end.

(** A whole number of lamports that is not negative. *)
Definition is_lamports (x : Js.number) : Prop :=
  x = Js.Number (whole x) /\ 0 <= whole x.

(** The lamports that the transactions of one type move. *)
Definition lamports_moved (type : TransactionType) (transactions : list ReportTransaction)
  : Z :=
  fold_right Z.add 0
    (map (fun tx => whole (tx_amount tx))
         (filter (fun tx => TransactionType_eqb (tx_type tx) type) transactions)).

(** The transactions are in the order of their dates. *)
Definition earlier_or_same (a b : ReportTransaction) : Prop :=
  match tx_date a, tx_date b with
  | Some s, Some t => s <= t
  | _, _ => False
  end.

(** The lamports of the invoices that pass a test. *)
Definition invoiced (keep : Invoice -> bool) (invoices : list Invoice) : Z :=
  fold_right Z.add 0 (map (fun inv => whole (inv_amount inv)) (filter keep invoices)).

(** The signatures that a list of transactions carries. *)
Definition signatures (transactions : list ReportTransaction) : list string :=
  flat_map (fun tx => match signed tx with Some s => [s] | None => [] end) transactions.

(** Every transaction has a valid date in the safe range. *)
Definition dated (transactions : list ReportTransaction) : Prop :=
  Forall (fun tx => exists t, tx_date tx = Some t /\ safe t) transactions.

End Report.

(* ===================================================================== *)
(** ** Wallet screening ([lib/compliance/range-api.ts]) *)
(* ===================================================================== *)

Module Compliance.

Inductive RiskLevel : Type := low | medium | high | critical.

Record Details : Type := mkDetails {
  sanctioned : bool;
  flagged : bool;
  reason : option string
}.

Record ComplianceCheckResult : Type := mkComplianceCheckResult {
  isCompliant : bool;
  checkedAt : Z;
  riskScore : Js.number;
  riskLevel : RiskLevel;
  proofHash : option string;
  details : option Details
}.

(** The answers of the Range API, read as their interfaces declare them. *)
Record RangeSanctionsResponse : Type := mkRangeSanctionsResponse {
  is_sanctioned : bool;
  is_token_blacklisted : bool
}.

Record RangeAddressRiskResponse : Type := mkRangeAddressRiskResponse {
  range_riskScore : Js.number;           (* 1-10 *)
  range_riskLevel : string;
  reasoning : string
}.

(** How a request ends: [fetch] or the reading of the body throws, the
    response is not [ok], or it is [ok] and holds the data. *)
Inductive Exchange (A : Type) : Type :=
| Throws
| NotOk
| OkWith (data : A).
Arguments Throws {A}.
Arguments NotOk {A}.
Arguments OkWith {A} data.

(** The environment and the services of a check. *)
Record World : Type := mkWorld {
  RANGE_API_KEY : option string;
  (** [process.env.NEXT_PUBLIC_USE_RANGE_SIMULATION === 'true'] *)
  simulation_requested : bool;
  sanctions_exchange : string -> Exchange RangeSanctionsResponse;
  risk_exchange : string -> Exchange RangeAddressRiskResponse;
  (** [new Date()] *)
  today : Z;
  (** [Math.random()] of the simulated score *)
  random : Js.number;
  (** [Date.now().toString(36)] and [Math.random().toString(36).substring(2, 8)]
      of the proof hash *)
  stamp : string;
  nonce : string
}.

Inductive Call : Type :=
| RequestSanctions (address : string)
| RequestRisk (address : string)
| Wait (ms : Z).

(** A key that is set: neither [undefined] nor the empty string. *)
Definition key_set (w : World) : bool :=
  match RANGE_API_KEY w with
  | Some k => negb (Str.isEmpty k)
  | None => false
  end.

(** [const USE_SIMULATION = !RANGE_API_KEY || ... === 'true'] *)
Definition USE_SIMULATION (w : World) : bool :=
  negb (key_set w) || simulation_requested w.

(** [mapRiskLevelFromRange(level)] *)
Definition mapRiskLevelFromRange (level : string) : RiskLevel :=
  let normalized := Str.toLowerCase level in
  if Str.includes "critical" normalized || Str.includes "directly malicious" normalized
  then critical
  else if Str.includes "extremely high" normalized || Str.includes "high risk" normalized
  then high
  else if Str.includes "medium" normalized then medium
  else low.

(** [generateProofHash(walletAddress)] *)
Definition generateProofHash (w : World) (walletAddress : string) : string :=
  ("proof_" ++ stamp w ++ "_" ++ Text.slice walletAddress (-8) None ++ "_" ++ nonce w)%string.

(** [checkWalletComplianceSimulated(walletAddress)], after its delay *)
Definition simulated (w : World) (walletAddress : string) : ComplianceCheckResult :=
  let isKnownBadAddress :=
    Str.includes "bad" (Str.toLowerCase walletAddress)
    || Str.includes "sanction" (Str.toLowerCase walletAddress) in
  if isKnownBadAddress then
    mkComplianceCheckResult false (today w) (Js.Number 95) critical None
      (Some (mkDetails true true (Some "Address appears on sanctions list (simulated)")))
  else
    let proofHash := generateProofHash w walletAddress in
    mkComplianceCheckResult true (today w)
      (Js.floor (Js.mul (random w) (Js.Number 15))) low (Some proofHash)
      (Some (mkDetails false false None)).

Definition checkWalletComplianceSimulated (w : World) (walletAddress : string)
  : ComplianceCheckResult * list Call :=
  (simulated w walletAddress, [Wait 1200]).

(** [checkWalletComplianceReal(walletAddress)]: every exception inside is
    caught and answered by the simulation. *)
Definition checkWalletComplianceReal (w : World) (walletAddress : string)
  : ComplianceCheckResult * list Call :=
  let fallback (calls : list Call) :=
    let '(r, more) := checkWalletComplianceSimulated w walletAddress in
    (r, calls ++ more) in
  let assess (calls : list Call) :=
    match risk_exchange w walletAddress with
    | Throws => fallback (calls ++ [RequestRisk walletAddress])
    | NotOk => fallback (calls ++ [RequestRisk walletAddress])
    | OkWith riskData =>
        let isCompliant := SFleb (range_riskScore riskData) (Js.Number 5) in
        let proofHash := generateProofHash w walletAddress in
        (mkComplianceCheckResult isCompliant (today w)
           (Js.mul (range_riskScore riskData) (Js.Number 10))
           (mapRiskLevelFromRange (range_riskLevel riskData))
           (if isCompliant then Some proofHash else None)
           (Some (mkDetails false
                    (SFleb (Js.Number 8) (range_riskScore riskData))
                    (if Str.isEmpty (reasoning riskData) then None
                     else Some (reasoning riskData)))),
         calls ++ [RequestRisk walletAddress])
    end in
  match sanctions_exchange w walletAddress with
  | Throws => fallback [RequestSanctions walletAddress]
  | NotOk => assess [RequestSanctions walletAddress]
  | OkWith sanctionsData =>
      if is_sanctioned sanctionsData || is_token_blacklisted sanctionsData then
        (mkComplianceCheckResult false (today w) (Js.Number 10) critical None
           (Some (mkDetails (is_sanctioned sanctionsData)
                    (is_token_blacklisted sanctionsData)
                    (Some (if is_sanctioned sanctionsData
                           then "Address is on OFAC sanctions list"
                           else "Address is blacklisted by token issuer")))),
         [RequestSanctions walletAddress])
      else assess [RequestSanctions walletAddress]
  end.

(** [checkWalletCompliance(walletAddress)] *)
Definition checkWalletCompliance (w : World) (walletAddress : string)
  : ComplianceCheckResult * list Call :=
  if negb (USE_SIMULATION w) && key_set w
  then checkWalletComplianceReal w walletAddress
  else checkWalletComplianceSimulated w walletAddress.

(** The address reads as a known bad one to the simulation. *)
Definition looks_bad (walletAddress : string) : bool :=
  Str.includes "bad" (Str.toLowerCase walletAddress)
  || Str.includes "sanction" (Str.toLowerCase walletAddress).

(** The sanctions request answered, and named the address. *)
Definition listed (w : World) (walletAddress : string) : bool :=
  match sanctions_exchange w walletAddress with
  | OkWith d => is_sanctioned d || is_token_blacklisted d
  | _ => false
  end.

End Compliance.

(* ===================================================================== *)
(** ** More worlds to run the code in *)
(* ===================================================================== *)

Module Scenario.

(** A stand-in for [Number.prototype.toString]: it only spells numbers. *)
Definition spells (x : Js.number) : string :=
  if Js.isInteger x then "1" else "0.5".

(** An indexer that always answers [accounts], beside services that all
    succeed and a store whose batch writes end as [batchWrite] says. *)
Definition ledger (accounts : list CompressedAccount) (publicBalance : Z)
  (transfer : Trace -> string -> Answer string)
  (batchWrite : Answer unit) : Oracle :=
  mkOracle
    (fun _ _ => Returns accounts)
    (fun _ _ => Returns (Js.Number publicBalance))
    (fun _ _ => Returns tt)
    (fun _ _ _ => Returns "compress-signature")
    (fun h _ _ toAddress _ => transfer h toAddress)
    (fun _ _ => batchWrite)
    (fun _ _ => Returns tt)
    (fun _ => true)
    (fun _ i => "id")
    (fun _ => 0)
    (fun _ => "1/1/2026")
    spells.

(** The same with a wallet library that accepts a string as a key only when
    it decodes to 32 bytes. *)
Definition strict (accounts : list CompressedAccount) (publicBalance : Z) : Oracle :=
  mkOracle
    (fun _ _ => Returns accounts)
    (fun _ _ => Returns (Js.Number publicBalance))
    (fun _ _ => Returns tt)
    (fun _ _ _ => Returns "compress-signature")
    (fun _ _ _ _ _ => Returns "transfer-signature")
    (fun _ _ => Returns tt)
    (fun _ _ => Returns tt)
    Base58.isKey
    (fun _ i => "id")
    (fun _ => 0)
    (fun _ => "1/1/2026")
    spells.

(** 33 times the character "1": 33 zero bytes, one too many for a key. *)
Definition thirty_three_ones : string := "111111111111111111111111111111111".

(** The indexer cannot be reached; everything else works. *)
Definition offline (publicBalance : Z) : Oracle :=
  mkOracle
    (fun _ _ => Raises (XError (mkJsError "TypeError" "fetch failed")))
    (fun _ _ => Returns (Js.Number publicBalance))
    (fun _ _ => Returns tt)
    (fun _ _ _ => Returns "compress-signature")
    (fun _ _ _ _ _ => Returns "transfer-signature")
    (fun _ _ => Returns tt)
    (fun _ _ => Returns tt)
    (fun _ => true)
    (fun _ i => "id")
    (fun _ => 0)
    (fun _ => "1/1/2026")
    spells.

(** The collaborators of a claim, with an indexer that answers [accounts]. *)
Definition claiming (accounts : list CompressedAccount) : ClaimOracle :=
  mkClaimOracle
    (fun _ _ => Returns accounts)
    (fun _ _ => Returns tt)
    (fun _ _ _ _ _ => Returns "claim-signature")
    spells.

(** Five private accounts of 10 lamports each. *)
Definition fragmented : list CompressedAccount :=
  [mkCompressedAccount 1 10; mkCompressedAccount 2 10; mkCompressedAccount 3 10;
   mkCompressedAccount 4 10; mkCompressedAccount 5 10].

(** Two private accounts of 0.6 and 0.7 SOL. *)
Definition two_accounts : list CompressedAccount :=
  [mkCompressedAccount 1 600000000; mkCompressedAccount 2 700000000].

Definition store_down : Answer unit :=
  Raises (XError (mkJsError "Error" "storage unavailable")).

(** Three invoices of January 2026 that involve the sender, paid on the
    20th, the 5th and the 12th, and one that is not paid. *)
Definition january : Report.ReportPeriod :=
  Report.mkReportPeriod 1767225600000 1769903999999.

Definition paid_invoice (id from to : string) (lamports paidAt : Z) : Invoice :=
  mkInvoice id from to (Js.Number lamports) "services" inv_paid None None
    1767225600000 (Some paidAt) (Some (id ++ "-signature")%string).

Definition books : list Invoice :=
  [paid_invoice "inv_a" Example.sender Example.bob 300 1768867200000;
   paid_invoice "inv_b" Example.carol Example.sender 1000 1767571200000;
   paid_invoice "inv_c" Example.sender Example.carol 50 1768176000000;
   mkInvoice "inv_d" Example.sender Example.bob (Js.Number 7) "" unpaid None None
     1767225600000 None None].

(** What the chain knows: the payment of [inv_b] and one more transfer. *)
Definition on_chain : list Report.ReportTransaction :=
  [Report.mkReportTransaction (Some 1767571200000) Report.received (Js.Number 1000)
     Example.carol None (Some "inv_b-signature") None;
   Report.mkReportTransaction (Some 1768000000000) Report.paid_out (Js.Number 20)
     Example.bob None (Some "other-signature") None;
   Report.mkReportTransaction (Some 1768000000001) Report.paid_out (Js.Number 1)
     Example.bob None None None].

(** The Range API is configured and cannot be reached. *)
Definition unreachable : Compliance.World :=
  Compliance.mkWorld (Some "key") false
    (fun _ => Compliance.Throws) (fun _ => Compliance.Throws)
    1767225600000 (Js.literal 1 2) "mjv0k000" "4fzzzx".

End Scenario.

(* ===================================================================== *)
(** * Proofs *)
(* ===================================================================== *)


(** ** binary64 facts *)

Lemma digits2_pos_size (p : positive) : digits2_pos p = Pos.size p.
Proof. induction p; simpl; congruence. Qed.

Lemma digits_bounds (p : positive) :
  2 ^ (Z.pos (digits2_pos p) - 1) <= Z.pos p < 2 ^ Z.pos (digits2_pos p).
Proof.
  rewrite digits2_pos_size. split.
  - pose proof (Pos.size_le p) as H.
    assert (HZ : 2 ^ Z.pos (Pos.size p) <= 2 * Z.pos p).
    { rewrite <- Pos2Z.inj_pow. change (2 * Z.pos p) with (Z.pos p~0). lia. }
    replace (Z.pos (Pos.size p)) with (Z.succ (Z.pos (Pos.size p) - 1)) in HZ by lia.
    rewrite Z.pow_succ_r in HZ by lia. lia.
  - pose proof (Pos.size_gt p) as H. rewrite <- Pos2Z.inj_pow. lia.
Qed.

Lemma digits_unique (p : positive) (d : Z) :
  2 ^ (d - 1) <= Z.pos p < 2 ^ d -> Z.pos (digits2_pos p) = d.
Proof.
  intros [Hlo Hhi]. pose proof (digits_bounds p) as [Blo Bhi].
  set (d' := Z.pos (digits2_pos p)) in *.
  assert (Hd : 0 < d).
  { destruct (Z.lt_ge_cases 0 d) as [|C]; [assumption|].
    rewrite Z.pow_neg_r in Hlo by lia.
    destruct (Z.eq_dec d 0) as [->|]; [simpl in Hhi; lia|].
    rewrite Z.pow_neg_r in Hhi by lia. lia. }
  destruct (Z.lt_trichotomy d' d) as [C|[C|C]]; [|exact C|].
  - assert (2 ^ d' <= 2 ^ (d - 1)) by (apply Z.pow_le_mono_r; lia). lia.
  - assert (2 ^ d <= 2 ^ (d' - 1)) by (apply Z.pow_le_mono_r; lia). lia.
Qed.

Lemma iter_xO (p k : positive) : Z.pos (Pos.iter xO p k) = Z.pos p * 2 ^ Z.pos k.
Proof.
  induction k as [|k IH] using Pos.peano_ind.
  - simpl. lia.
  - rewrite Pos.iter_succ, Pos2Z.inj_succ, Z.pow_succ_r by lia.
    rewrite Pos2Z.inj_xO, IH. lia.
Qed.

Lemma iter_pos_nat {A} (f : A -> A) (k : positive) (x : A) :
  iter_pos f k x = Nat.iter (Pos.to_nat k) f x.
Proof.
  revert x. induction k as [k IH|k IH|]; intros x; simpl iter_pos.
  - rewrite !IH, Pos2Nat.inj_xI, <- Nat.iter_succ_r, <- Nat.iter_add.
    f_equal. lia.
  - rewrite !IH, Pos2Nat.inj_xO, <- Nat.iter_add. f_equal. lia.
  - reflexivity.
Qed.

Lemma shr_1_spec (m : Z) (r s : bool) :
  0 <= m ->
  shr_1 (Build_shr_record m r s) = Build_shr_record (m / 2) (Z.odd m) (r || s).
Proof.
  intros Hm. destruct m as [|p|p]; [reflexivity| |lia].
  destruct p as [p|p|]; simpl shr_1.
  - replace (Z.pos p~1 / 2) with (Z.pos p);
      [reflexivity|apply Z.div_unique with 1; lia].
  - replace (Z.pos p~0 / 2) with (Z.pos p);
      [reflexivity|apply Z.div_unique with 0; lia].
  - reflexivity.
Qed.

(** Shifting an exact record right by [n >= 1] bits: quotient, round bit,
    sticky bit. *)
Lemma shr_spec (m : Z) (n : nat) :
  0 <= m ->
  Nat.iter (S n) shr_1 (Build_shr_record m false false)
  = Build_shr_record (m / 2 ^ Z.of_nat (S n))
      (Z.odd (m / 2 ^ Z.of_nat n))
      (negb (m mod 2 ^ Z.of_nat n =? 0)).
Proof.
  intros Hm. induction n as [|n IH].
  - change (Nat.iter 1 shr_1 ?x) with (shr_1 x). rewrite shr_1_spec by exact Hm.
    change (2 ^ Z.of_nat 0) with 1. change (2 ^ Z.of_nat 1) with 2.
    rewrite Z.div_1_r, Z.mod_1_r. reflexivity.
  - change (Nat.iter (S (S n)) shr_1 ?x) with (shr_1 (Nat.iter (S n) shr_1 x)).
    rewrite IH. rewrite shr_1_spec by (apply Z.div_pos; lia).
    assert (P : 0 < 2 ^ Z.of_nat n) by (apply Z.pow_pos_nonneg; lia).
    assert (E1 : 2 ^ Z.of_nat (S n) = 2 ^ Z.of_nat n * 2)
      by (rewrite Nat2Z.inj_succ, Z.pow_succ_r by lia; lia).
    assert (E2 : 2 ^ Z.of_nat (S (S n)) = 2 ^ Z.of_nat (S n) * 2)
      by (rewrite (Nat2Z.inj_succ (S n)), Z.pow_succ_r by lia; lia).
    f_equal.
    + rewrite E2, Z.div_div by lia. reflexivity.
    + rewrite E1. rewrite Z.rem_mul_r by lia.
      rewrite (Zmod_odd (m / 2 ^ Z.of_nat n)).
      destruct (Z.odd (m / 2 ^ Z.of_nat n)); simpl.
      * destruct (Z.eqb_spec (m mod 2 ^ Z.of_nat n + 2 ^ Z.of_nat n * 1) 0) as [E|E];
          [|destruct (negb _); reflexivity].
        pose proof (Z.mod_pos_bound m (2 ^ Z.of_nat n) P). lia.
      * rewrite Z.mul_0_r, Z.add_0_r. reflexivity.
Qed.

Lemma shr_pos (m e n : Z) :
  0 <= m -> 0 < n ->
  shr (Build_shr_record m false false) e n
  = (Build_shr_record (m / 2 ^ n) (Z.odd (m / 2 ^ (n - 1)))
       (negb (m mod 2 ^ (n - 1) =? 0)), e + n).
Proof.
  intros Hm Hn. destruct n as [|p|p]; try lia. unfold shr.
  rewrite iter_pos_nat.
  destruct (Pos.to_nat p) as [|k] eqn:Ek; [lia|].
  rewrite shr_spec by exact Hm.
  replace (Z.of_nat (S k)) with (Z.pos p) by lia.
  replace (Z.of_nat k) with (Z.pos p - 1) by lia.
  reflexivity.
Qed.

Lemma fexp_normal (d : Z) : -1074 <= d - 53 -> fexp Js.prec Js.emax d = d - 53.
Proof. intros H. unfold fexp, emin, Js.prec, Js.emax. lia. Qed.

(** A mantissa of exactly 53 bits with an exponent in range is already
    rounded. *)
Lemma round_aux_canonical (m : positive) (e : Z) :
  Z.pos (digits2_pos m) = 53 -> -1074 <= e <= 971 ->
  binary_round_aux Js.prec Js.emax false (Z.pos m) e loc_Exact = S754_finite false m e.
Proof.
  intros Hd He. unfold binary_round_aux, shr_fexp. cbn [Zdigits2].
  rewrite Hd, fexp_normal by lia.
  replace (53 + e - 53 - e) with 0 by lia. cbn [shr shr_record_of_loc].
  cbn [shr_m loc_of_shr_record round_nearest_even Zdigits2].
  rewrite Hd, fexp_normal by lia.
  replace (53 + e - 53 - e) with 0 by lia. cbn [shr shr_record_of_loc shr_m].
  replace (e <=? Js.emax - Js.prec) with true; [reflexivity|].
  symmetry. apply Z.leb_le. unfold Js.emax, Js.prec. lia.
Qed.

Lemma rounded_bounds (M n : Z) :
  0 <= M -> 0 < n ->
  M / 2 ^ n <= rounded M n <= M / 2 ^ n + 1 /\
  rounded M n * 2 ^ n <= M + 2 ^ (n - 1) /\
  (M mod 2 ^ n = 0 -> rounded M n = M / 2 ^ n).
Proof.
  intros HM Hn. unfold rounded.
  assert (P1 : 0 < 2 ^ (n - 1)) by (apply Z.pow_pos_nonneg; lia).
  assert (E : 2 ^ n = 2 ^ (n - 1) * 2).
  { replace n with (Z.succ (n - 1)) at 1 by lia. rewrite Z.pow_succ_r by lia. lia. }
  pose proof (Z.div_mod M (2 ^ n) ltac:(lia)) as D.
  pose proof (Z.mod_pos_bound M (2 ^ n) ltac:(lia)) as B.
  assert (R : M mod 2 ^ n = M mod 2 ^ (n - 1) + 2 ^ (n - 1) * ((M / 2 ^ (n - 1)) mod 2)).
  { rewrite E. apply Z.rem_mul_r; lia. }
  pose proof (Z.mod_pos_bound M (2 ^ (n - 1)) P1) as B1.
  rewrite (Zmod_odd (M / 2 ^ (n - 1))) in R.
  destruct (Z.odd (M / 2 ^ (n - 1))); destruct (Z.eqb_spec (M mod 2 ^ (n - 1)) 0) as [Z0|Z0];
    cbn [negb loc_of_shr_record round_nearest_even]; try destruct (Z.even (M / 2 ^ n));
    repeat split; try nia.
Qed.

(** Rounding a mantissa of more than 53 bits: shift, round to nearest even,
    renormalise when the rounding carried into bit 54, and overflow to infinity
    past the largest exponent. *)
Lemma round_aux_large (M : positive) (E : Z) :
  let dM := Z.pos (digits2_pos M) in
  let n := dM - 53 in
  53 < dM -> -1074 <= E + n ->
  binary_round_aux Js.prec Js.emax false (Z.pos M) E loc_Exact
  = if rounded (Z.pos M) n <? 2 ^ 53
    then if E + n <=? 971
         then S754_finite false (Z.to_pos (rounded (Z.pos M) n)) (E + n)
         else S754_infinity false
    else if E + n + 1 <=? 971
         then S754_finite false (Z.to_pos (2 ^ 52)) (E + n + 1)
         else S754_infinity false.
Proof.
  intros dM n Hd Hlo.
  pose proof (digits_bounds M) as [Blo Bhi]. fold dM in Blo, Bhi.
  assert (Pn : 0 < 2 ^ n) by (apply Z.pow_pos_nonneg; lia).
  assert (Q : 2 ^ 52 <= Z.pos M / 2 ^ n < 2 ^ 53).
  { assert (E1 : 2 ^ (dM - 1) = 2 ^ 52 * 2 ^ n)
      by (rewrite <- Z.pow_add_r by lia; f_equal; lia).
    assert (E2 : 2 ^ dM = 2 ^ 53 * 2 ^ n)
      by (rewrite <- Z.pow_add_r by lia; f_equal; lia).
    split.
    - apply Z.div_le_lower_bound; lia.
    - apply Z.div_lt_upper_bound; lia. }
  destruct (rounded_bounds (Z.pos M) n ltac:(lia) ltac:(lia)) as ([R1 R2] & _).
  unfold binary_round_aux, shr_fexp. cbn [Zdigits2]. fold dM.
  rewrite fexp_normal by lia.
  replace (dM + E - 53 - E) with n by lia.
  cbn [shr_record_of_loc]. rewrite shr_pos by lia.
  cbn [shr_m]. fold (rounded (Z.pos M) n).
  set (m2 := rounded (Z.pos M) n) in *.
  change (Js.emax - Js.prec) with 971.
  destruct (Z.ltb_spec m2 (2 ^ 53)) as [Hlt|Hge].
  - destruct m2 as [|p2|p2] eqn:Em2; try lia.
    assert (D2 : Z.pos (digits2_pos p2) = 53) by (apply digits_unique; lia).
    cbn [Zdigits2]. rewrite D2, fexp_normal by lia.
    replace (53 + (E + n) - 53 - (E + n)) with 0 by lia.
    cbn [shr shr_record_of_loc shr_m]. reflexivity.
  - assert (Em2 : m2 = 2 ^ 53) by lia. rewrite Em2.
    change (2 ^ 53) with (Z.pos (Z.to_pos (2 ^ 53))). cbn [Zdigits2].
    replace (Z.pos (digits2_pos (Z.to_pos (2 ^ 53)))) with 54 by reflexivity.
    rewrite fexp_normal by lia.
    replace (54 + (E + n) - 53 - (E + n)) with 1 by lia.
    cbn [shr_record_of_loc]. rewrite shr_pos by lia.
    cbn [shr_m].
    replace (Z.pos (Z.to_pos (2 ^ 53)) / 2 ^ 1) with (Z.pos (Z.to_pos (2 ^ 52)))
      by reflexivity.
    reflexivity.
Qed.

Lemma round_aux_eq (M : positive) (E : Z) :
  let dM := Z.pos (digits2_pos M) in
  let n := dM - 53 in
  53 < dM -> -1074 <= E + n -> E + n + 1 <= 971 ->
  binary_round_aux Js.prec Js.emax false (Z.pos M) E loc_Exact
  = if rounded (Z.pos M) n <? 2 ^ 53
    then S754_finite false (Z.to_pos (rounded (Z.pos M) n)) (E + n)
    else S754_finite false (Z.to_pos (2 ^ 52)) (E + n + 1).
Proof.
  intros dM n Hd Hlo Hhi. rewrite round_aux_large by assumption.
  fold dM. fold n.
  replace (E + n <=? 971) with true by (symmetry; apply Z.leb_le; lia).
  replace (E + n + 1 <=? 971) with true by (symmetry; apply Z.leb_le; lia).
  reflexivity.
Qed.

Lemma digits_scaled (q : positive) (k : Z) (m : positive) :
  0 <= k -> Z.pos m = Z.pos q * 2 ^ k ->
  Z.pos (digits2_pos m) = Z.pos (digits2_pos q) + k.
Proof.
  intros Hk Hm. pose proof (digits_bounds q) as [Blo Bhi].
  assert (Pk : 0 < 2 ^ k) by (apply Z.pow_pos_nonneg; lia).
  apply digits_unique.
  replace (Z.pos (digits2_pos q) + k - 1) with (Z.pos (digits2_pos q) - 1 + k) by lia.
  rewrite !Z.pow_add_r by lia. nia.
Qed.

(** Rounding a value [q * 2^(k+e)] whose odd part fits in 53 bits: the
    result is its normalised representation. *)
Lemma binary_round_exact (m q : positive) (k e : Z) :
  let dq := Z.pos (digits2_pos q) in
  0 <= k -> Z.pos m = Z.pos q * 2 ^ k -> dq <= 53 ->
  -1074 <= e + k + dq - 53 <= 970 ->
  binary_round Js.prec Js.emax false m e
  = S754_finite false (Z.to_pos (Z.pos q * 2 ^ (53 - dq))) (e + k + dq - 53).
Proof.
  intros dq Hk Hm Hdq He.
  pose proof (digits_scaled q k m Hk Hm) as Hdm. fold dq in Hdm.
  pose proof (digits_bounds q) as [Blo Bhi]. fold dq in Blo, Bhi.
  assert (Pq : 0 < 2 ^ (53 - dq)) by (apply Z.pow_pos_nonneg; lia).
  assert (Dn : Z.pos (digits2_pos (Z.to_pos (Z.pos q * 2 ^ (53 - dq)))) = 53).
  { replace 53 with (dq + (53 - dq)) at 2 by lia. apply digits_scaled; [lia|].
    rewrite Z2Pos.id by nia. reflexivity. }
  unfold binary_round. rewrite Hdm, fexp_normal by lia. unfold shl_align.
  destruct (dq + k + e - 53 - e) as [|d|d] eqn:Ed.
  - (* exactly 53 bits *)
    assert (Ek : k = 53 - dq) by lia.
    rewrite round_aux_canonical by lia.
    f_equal; [|lia]. rewrite <- Ek, <- Hm. reflexivity.
  - (* more than 53 bits: an exact right shift *)
    set (n := Z.pos d) in *.
    assert (En : n = dq + k - 53) by lia.
    assert (Pn : 0 < 2 ^ n) by (apply Z.pow_pos_nonneg; lia).
    assert (Hsplit : Z.pos m = (Z.pos q * 2 ^ (53 - dq)) * 2 ^ n).
    { rewrite Hm, <- Z.mul_assoc, <- Z.pow_add_r by lia. do 2 f_equal. lia. }
    rewrite round_aux_eq; rewrite Hdm; try lia.
    replace (dq + k - 53) with n by lia.
    destruct (rounded_bounds (Z.pos m) n ltac:(lia) ltac:(lia)) as (_ & _ & Hex).
    rewrite Hex by (rewrite Hsplit; apply Z.mod_mul; lia).
    rewrite Hsplit, Z.div_mul by lia.
    assert (Hlt : Z.pos q * 2 ^ (53 - dq) < 2 ^ 53).
    { replace 53 with (dq + (53 - dq)) at 2 by lia. rewrite Z.pow_add_r by lia. nia. }
    replace (Z.pos q * 2 ^ (53 - dq) <? 2 ^ 53) with true
      by (symmetry; apply Z.ltb_lt; exact Hlt).
    f_equal. lia.
  - (* fewer than 53 bits: a left shift *)
    assert (Ek : Z.pos d = 53 - dq - k) by lia.
    assert (Hz : Z.pos (Pos.iter xO m d) = Z.pos q * 2 ^ (53 - dq)).
    { rewrite iter_xO, Hm, Ek, <- Z.mul_assoc, <- Z.pow_add_r by lia.
      do 2 f_equal. lia. }
    rewrite <- Hz, Pos2Z.id. rewrite <- Hz, Pos2Z.id in Dn.
    rewrite round_aux_canonical by lia. f_equal. lia.
Qed.

(** ** Integers in binary64 *)

Lemma Number_normal (z : Z) : safe z -> Js.Number z = normal z.
Proof.
  intros [Hlo Hhi]. destruct z as [|p|p]; [reflexivity| |lia].
  unfold Js.Number, binary_normalize, normal.
  pose proof (digits_bounds p) as [Blo Bhi].
  assert (Hd : Z.pos (digits2_pos p) <= 53).
  { destruct (Z.le_gt_cases (Z.pos (digits2_pos p)) 53) as [|C]; [assumption|].
    assert (2 ^ 53 <= 2 ^ (Z.pos (digits2_pos p) - 1)) by (apply Z.pow_le_mono_r; lia).
    lia. }
  rewrite (binary_round_exact p p 0 0); try lia.
  f_equal; lia.
Qed.

Lemma normal_digits (p : positive) :
  Z.pos p < 2 ^ 53 ->
  let d := Z.pos (digits2_pos p) in
  1 <= d <= 53 /\
  Z.pos (Z.to_pos (Z.pos p * 2 ^ (53 - d))) = Z.pos p * 2 ^ (53 - d) /\
  0 < 2 ^ (53 - d) /\
  2 ^ 52 <= Z.pos p * 2 ^ (53 - d) < 2 ^ 53.
Proof.
  intros Hhi d. pose proof (digits_bounds p) as [Blo Bhi]. fold d in Blo, Bhi.
  assert (Hd : d <= 53).
  { destruct (Z.le_gt_cases d 53) as [|C]; [assumption|].
    assert (2 ^ 53 <= 2 ^ (d - 1)) by (apply Z.pow_le_mono_r; lia). lia. }
  assert (P : 0 < 2 ^ (53 - d)) by (apply Z.pow_pos_nonneg; lia).
  assert (E1 : 2 ^ 52 = 2 ^ (d - 1) * 2 ^ (53 - d))
    by (rewrite <- Z.pow_add_r by lia; f_equal; lia).
  assert (E2 : 2 ^ 53 = 2 ^ d * 2 ^ (53 - d))
    by (rewrite <- Z.pow_add_r by lia; f_equal; lia).
  split; [unfold d; lia|]. split; [apply Z2Pos.id; nia|]. split; [exact P|]. nia.
Qed.

(** [BigInt(Number(z))] gives [z] back. *)
Lemma toInteger_Number (z : Z) : safe z -> Js.toInteger (Js.Number z) = Some z.
Proof.
  intros Hs. rewrite (Number_normal z Hs). destruct Hs as [Hlo Hhi].
  destruct z as [|p|p]; [reflexivity| |lia].
  destruct (normal_digits p Hhi) as (Hd & Hm & P & _).
  unfold normal, Js.toInteger, Js.scaled.
  destruct (Z.pos (digits2_pos p) - 53) as [|e|e] eqn:Ee; try lia.
  - replace (53 - Z.pos (digits2_pos p)) with 0 in * by lia.
    rewrite Hm. simpl. f_equal. lia.
  - replace (53 - Z.pos (digits2_pos p)) with (Z.pos e) in * by lia.
    rewrite Hm, Z.mod_mul, Z.div_mul by lia. reflexivity.
Qed.

(** Comparison of safe integers is exact. *)
Lemma lt_Number (a b : Z) : safe a -> safe b -> Js.lt (Js.Number a) (Js.Number b) = (a <? b).
Proof.
  intros Ha Hb. rewrite (Number_normal a Ha), (Number_normal b Hb).
  destruct Ha as [Ha0 Ha1], Hb as [Hb0 Hb1].
  destruct a as [|p|p], b as [|q|q]; try lia; try reflexivity.
  destruct (normal_digits p Ha1) as (Hdp & Hmp & Pp & Bp).
  destruct (normal_digits q Hb1) as (Hdq & Hmq & Pq & Bq).
  pose proof (digits_bounds p) as [Bplo Bphi].
  pose proof (digits_bounds q) as [Bqlo Bqhi].
  unfold normal, Js.lt, SFltb, SFcompare.
  set (dp := Z.pos (digits2_pos p)) in *. set (dq := Z.pos (digits2_pos q)) in *.
  destruct (Z.compare_spec (dp - 53) (dq - 53)) as [E|L|G].
  - assert (Ed : dp = dq) by lia.
    change (Pos.compare_cont Eq ?x ?y) with (Pos.compare x y).
    rewrite Pos2Z.inj_compare, Hmp, Hmq, Ed.
    rewrite <- Zmult_compare_compat_r by (rewrite <- Ed; lia). reflexivity.
  - assert (2 ^ dp <= 2 ^ (dq - 1)) by (apply Z.pow_le_mono_r; lia).
    symmetry. apply Z.ltb_lt. lia.
  - assert (2 ^ dq <= 2 ^ (dp - 1)) by (apply Z.pow_le_mono_r; lia).
    symmetry. apply Z.ltb_ge. lia.
Qed.

Lemma shl_align_value (m : positive) (ex ex' : Z) :
  ex' <= ex -> Z.pos (fst (shl_align m ex ex')) = Z.pos m * 2 ^ (ex - ex').
Proof.
  intros H. unfold shl_align. destruct (ex' - ex) as [|d|d] eqn:E; try lia.
  - replace (ex - ex') with 0 by lia. simpl. lia.
  - simpl. rewrite iter_xO. replace (ex - ex') with (Z.pos d) by lia. reflexivity.
Qed.

(** Addition of safe integers is exact while the sum stays safe. *)
Lemma add_Number (a b : Z) :
  0 <= a -> 0 <= b -> a + b < 2 ^ 53 ->
  Js.add (Js.Number a) (Js.Number b) = Js.Number (a + b).
Proof.
  intros Ha Hb Hab.
  rewrite (Number_normal a), (Number_normal b), (Number_normal (a + b))
    by (unfold safe; lia).
  destruct a as [|p|p], b as [|q|q]; try lia; try reflexivity.
  assert (Hp : Z.pos p < 2 ^ 53) by lia. assert (Hq : Z.pos q < 2 ^ 53) by lia.
  destruct (normal_digits p Hp) as (Hdp & Hmp & Pp & Bp).
  destruct (normal_digits q Hq) as (Hdq & Hmq & Pq & Bq).
  change (Z.pos p + Z.pos q) with (Z.pos (p + q)).
  assert (Hc : Z.pos (p + q) < 2 ^ 53) by lia.
  destruct (normal_digits (p + q) Hc) as (Hdc & Hmc & Pc & Bc).
  unfold normal at 1 2. unfold Js.add, SFadd. cbn [cond_Zopp].
  set (dp := Z.pos (digits2_pos p)) in *. set (dq := Z.pos (digits2_pos q)) in *.
  set (ez := Z.min (dp - 53) (dq - 53)).
  rewrite !shl_align_value by lia. rewrite Hmp, Hmq.
  assert (Pz : 0 < 2 ^ (- ez)) by (apply Z.pow_pos_nonneg; lia).
  assert (Ep : Z.pos p * 2 ^ (53 - dp) * 2 ^ (dp - 53 - ez) = Z.pos p * 2 ^ (- ez)).
  { rewrite <- Z.mul_assoc, <- Z.pow_add_r by lia. do 2 f_equal. lia. }
  assert (Eq' : Z.pos q * 2 ^ (53 - dq) * 2 ^ (dq - 53 - ez) = Z.pos q * 2 ^ (- ez)).
  { rewrite <- Z.mul_assoc, <- Z.pow_add_r by lia. do 2 f_equal. lia. }
  rewrite Ep, Eq', <- Z.mul_add_distr_r.
  change (Z.pos p + Z.pos q) with (Z.pos (p + q)).
  assert (Ppos : 0 < Z.pos (p + q) * 2 ^ (- ez)) by (apply Z.mul_pos_pos; lia).
  destruct (Z.pos (p + q) * 2 ^ (- ez)) as [|s|s] eqn:Es; try lia.
  unfold binary_normalize.
  pose proof (digits_bounds p) as [Bplo Bphi]. fold dp in Bplo, Bphi.
  pose proof (digits_bounds q) as [Bqlo Bqhi]. fold dq in Bqlo, Bqhi.
  pose proof (digits_bounds (p + q)) as [Bclo Bchi].
  set (dc := Z.pos (digits2_pos (p + q))) in *.
  rewrite (binary_round_exact s (p + q) (- ez) ez); fold dc; try lia.
  unfold normal. fold dc. f_equal. lia.
Qed.

(** [Math.floor] of a positive normalised value with a negative exponent. *)
Lemma floor_normalised (m : positive) (e : Z) :
  Z.pos (digits2_pos m) = 53 -> e < 0 ->
  Js.floor (S754_finite false m e) = Js.Number (Z.pos m / 2 ^ (- e)).
Proof.
  intros Hd He. destruct e as [|k|k]; try lia.
  unfold Js.floor, Js.scaled. change (- Z.neg k) with (Z.pos k).
  pose proof (digits_bounds m) as [Blo Bhi]. rewrite Hd in Blo, Bhi.
  assert (Pk : 0 < 2 ^ Z.pos k) by (apply Z.pow_pos_nonneg; lia).
  destruct (Z.eqb_spec (Z.pos m mod 2 ^ Z.pos k) 0) as [Ex|Nx]; [|reflexivity].
  set (q := Z.pos m / 2 ^ Z.pos k).
  assert (Hm : Z.pos m = q * 2 ^ Z.pos k).
  { pose proof (Z.div_mod (Z.pos m) (2 ^ Z.pos k) ltac:(lia)). subst q. lia. }
  destruct q as [|pq|pq] eqn:Eq; try nia.
  pose proof (digits_scaled pq (Z.pos k) m ltac:(lia) Hm) as Hdq.
  rewrite Number_normal by (unfold safe; nia).
  unfold normal. replace (53 - Z.pos (digits2_pos pq)) with (Z.pos k) by lia.
  rewrite <- Hm, Pos2Z.id. f_equal. lia.
Qed.

Lemma SENTO_FEE_PERCENTAGE_bits :
  SENTO_FEE_PERCENTAGE = S754_finite false 5764607523034235 (-60).
Proof. vm_compute. reflexivity. Qed.

Lemma FEE_RESERVE_lamports : FEE_RESERVE = Js.Number 10000000.
Proof. vm_compute. reflexivity. Qed.

(** In binary64, [Math.floor(amount * 0.005)] is the integer quotient of
    [amount] by 200, for every safe integer [amount]. *)
Lemma floor_fee (a : Z) :
  safe a -> Js.floor (Js.mul (Js.Number a) SENTO_FEE_PERCENTAGE) = Js.Number (a / 200).
Proof.
  intros Hs. rewrite (Number_normal a Hs), SENTO_FEE_PERCENTAGE_bits.
  destruct Hs as [Ha0 Ha1]. destruct a as [|p|p]; [reflexivity| |lia].
  destruct (normal_digits p Ha1) as (Hd & Hm & PT & BX).
  unfold normal, Js.mul, SFmul. cbn [xorb].
  set (da := Z.pos (digits2_pos p)) in *.
  set (T := 2 ^ (53 - da)) in *.
  set (ma := Z.to_pos (Z.pos p * T)) in *.
  set (mr := 5764607523034235%positive).
  set (q := Z.pos p / 200).
  pose proof (Z.div_mod (Z.pos p) 200 ltac:(lia)) as Dq. fold q in Dq.
  pose proof (Z.mod_pos_bound (Z.pos p) 200 ltac:(lia)) as Rq.
  set (X := Z.pos p * T) in *. set (U := q * T).
  assert (HXU : 200 * U <= X <= 200 * U + 199 * T) by (subst X U; nia).
  assert (HM : Z.pos (ma * mr) = X * 5764607523034235) by (rewrite Pos2Z.inj_mul, Hm; reflexivity).
  pose proof (digits_bounds (ma * mr)) as [BMlo BMhi].
  set (dM := Z.pos (digits2_pos (ma * mr))) in *.
  assert (HdM : dM = 105 \/ dM = 106).
  { assert (L : 104 < dM).
    { destruct (Z.lt_ge_cases 104 dM) as [|C]; [assumption|].
      assert (2 ^ dM <= 2 ^ 104) by (apply Z.pow_le_mono_r; lia). lia. }
    assert (R : dM - 1 < 106).
    { destruct (Z.lt_ge_cases (dM - 1) 106) as [|C]; [assumption|].
      assert (2 ^ 106 <= 2 ^ (dM - 1)) by (apply Z.pow_le_mono_r; lia). lia. }
    lia. }
  rewrite round_aux_eq; fold dM; try lia.
  destruct (rounded_bounds (Z.pos (ma * mr)) (dM - 53) ltac:(lia) ltac:(lia))
    as ([R1 R2] & R3 & _).
  set (R := rounded (Z.pos (ma * mr)) (dM - 53)) in *.
  assert (Q : 2 ^ 52 <= Z.pos (ma * mr) / 2 ^ (dM - 53)).
  { apply Z.div_le_lower_bound; [apply Z.pow_pos_nonneg; lia|].
    replace (2 ^ (dM - 53) * 2 ^ 52) with (2 ^ (dM - 1));
      [exact BMlo|rewrite <- Z.pow_add_r by lia; f_equal; lia]. }
  assert (Q2 : Z.pos (ma * mr) / 2 ^ (dM - 53) < 2 ^ 53).
  { apply Z.div_lt_upper_bound; [apply Z.pow_pos_nonneg; lia|].
    replace (2 ^ (dM - 53) * 2 ^ 53) with (2 ^ dM);
      [exact BMhi|rewrite <- Z.pow_add_r by lia; f_equal; lia]. }
  assert (HT : 1 <= T) by lia.
  assert (ED : forall n, n = 52 \/ n = 53 ->
                         2 ^ (- (da - 53 + -60 + n)) = T * 2 ^ (60 - n)).
  { intros n Hn. subst T. rewrite <- Z.pow_add_r by lia. f_equal. lia. }
  assert (Main : forall n D, dM - 53 = n -> (n = 52 \/ n = 53) -> D = T * 2 ^ (60 - n) ->
                   R / D = q /\ (R = 2 ^ 53 -> 2 ^ 52 / (D / 2) = q)).
  { intros n D En Hn ->.
    assert (Bound : U * 2 ^ (60 - n) <= R < (U + T) * 2 ^ (60 - n)).
    { rewrite En in *. destruct Hn as [-> | ->]; change (2 ^ (60 - 52)) with 256;
        change (2 ^ (60 - 53)) with 128;
        change (2 ^ (52 - 1)) with 2251799813685248 in R3;
        change (2 ^ (53 - 1)) with 4503599627370496 in R3;
        change (2 ^ 52) with 4503599627370496 in R1, R2, R3;
        change (2 ^ 53) with 9007199254740992 in R1, R2, R3;
        rewrite HM in *.
      - assert (U * 256 <= X * 5764607523034235 / 4503599627370496)
          by (apply Z.div_le_lower_bound; lia). lia.
      - assert (U * 128 <= X * 5764607523034235 / 9007199254740992)
          by (apply Z.div_le_lower_bound; lia). lia. }
    assert (P2 : 0 < 2 ^ (60 - n)) by (apply Z.pow_pos_nonneg; lia).
    split.
    - symmetry. apply Z.div_unique with (R - U * 2 ^ (60 - n)); subst U; lia.
    - intros ER.
      assert (E2 : T * 2 ^ (60 - n) / 2 = T * 2 ^ (60 - n - 1)).
      { replace (60 - n) with (Z.succ (60 - n - 1)) at 1 by lia.
        rewrite Z.pow_succ_r by lia.
        replace (T * (2 * 2 ^ (60 - n - 1))) with (T * 2 ^ (60 - n - 1) * 2) by lia.
        apply Z.div_mul. lia. }
      rewrite E2.
      assert (E3 : 2 ^ (60 - n) = 2 * 2 ^ (60 - n - 1)).
      { replace (60 - n) with (Z.succ (60 - n - 1)) at 1 by lia.
        apply Z.pow_succ_r. lia. }
      assert (P3 : 0 < 2 ^ (60 - n - 1)) by (apply Z.pow_pos_nonneg; lia).
      rewrite ER, E3 in Bound. change (2 ^ 53) with (2 * 2 ^ 52) in Bound.
      symmetry. apply Z.div_unique with (2 ^ 52 - U * 2 ^ (60 - n - 1)); subst U; lia. }
  destruct (Z.ltb_spec R (2 ^ 53)) as [Hlt|Hge].
  - assert (HR : Z.pos (Z.to_pos R) = R) by (apply Z2Pos.id; lia).
    rewrite floor_normalised.
    + rewrite HR. f_equal.
      destruct HdM as [E|E].
      * replace (- (da - 53 + -60 + (dM - 53))) with (- (da - 53 + -60 + 52)) by lia.
        rewrite (ED 52) by (left; reflexivity).
        apply (Main 52); [lia|left; reflexivity|reflexivity].
      * replace (- (da - 53 + -60 + (dM - 53))) with (- (da - 53 + -60 + 53)) by lia.
        rewrite (ED 53) by (right; reflexivity).
        apply (Main 53); [lia|right; reflexivity|reflexivity].
    + apply digits_unique. rewrite HR. change (53 - 1) with 52. lia.
    + lia.
  - assert (ER : R = 2 ^ 53) by lia.
    rewrite floor_normalised; [|reflexivity|lia].
    f_equal.
    destruct HdM as [E|E].
    + replace (- (da - 53 + -60 + (dM - 53) + 1)) with (- (da - 53 + -60 + 52) - 1) by lia.
      rewrite Z.pow_sub_r, (ED 52) by lia.
      change (2 ^ 1) with 2. change (Z.pos (Z.to_pos (2 ^ 52))) with (2 ^ 52).
      apply (Main 52 _ ltac:(lia) ltac:(left; reflexivity) eq_refl). exact ER.
    + replace (- (da - 53 + -60 + (dM - 53) + 1)) with (- (da - 53 + -60 + 53) - 1) by lia.
      rewrite Z.pow_sub_r, (ED 53) by lia.
      change (2 ^ 1) with 2. change (Z.pos (Z.to_pos (2 ^ 52))) with (2 ^ 52).
      apply (Main 53 _ ltac:(lia) ltac:(right; reflexivity) eq_refl). exact ER.
Qed.


(** ** The sign of [Number(z)], for every bigint [z] *)

Lemma binary_round_aux_sign (sx : bool) (M E : Z) (l : location) :
  binary_round_aux Js.prec Js.emax sx M E l
  = match binary_round_aux Js.prec Js.emax false M E l with
    | S754_zero _ => S754_zero sx
    | S754_infinity _ => S754_infinity sx
    | S754_finite _ m e => S754_finite sx m e
    | S754_nan => S754_nan
    end.
Proof.
  unfold binary_round_aux.
  destruct (shr_fexp Js.prec Js.emax M E l) as [mrs' e'].
  destruct (shr_fexp Js.prec Js.emax _ e' loc_Exact) as [mrs'' e''].
  destruct (shr_m mrs''); try reflexivity.
  destruct (e'' <=? Js.emax - Js.prec); reflexivity.
Qed.

Lemma Number_positive (p : positive) : positive_number (Js.Number (Z.pos p)).
Proof.
  unfold Js.Number, binary_normalize, binary_round.
  pose proof (digits_bounds p) as [Blo Bhi].
  set (d := Z.pos (digits2_pos p)) in *.
  assert (Hd : 1 <= d) by (unfold d; lia).
  replace (d + 0) with d by lia. rewrite fexp_normal by lia. unfold shl_align.
  destruct (d - 53 - 0) as [|k|k] eqn:Ek.
  - rewrite round_aux_canonical by (fold d; lia). exact I.
  - rewrite round_aux_large by (fold d; lia). fold d.
    destruct (rounded _ _ <? 2 ^ 53).
    + destruct (0 + (d - 53) <=? 971); exact I.
    + destruct (0 + (d - 53) + 1 <=? 971); exact I.
  - assert (Hz : Z.pos (Pos.iter xO p k) = Z.pos p * 2 ^ Z.pos k) by apply iter_xO.
    assert (Dk : Z.pos (digits2_pos (Pos.iter xO p k)) = 53).
    { rewrite (digits_scaled p (Z.pos k) _ ltac:(lia) Hz). fold d. lia. }
    rewrite round_aux_canonical by lia. exact I.
Qed.

Lemma Number_negative (p : positive) :
  positive_number (SFopp (Js.Number (Z.neg p))).
Proof.
  pose proof (Number_positive p) as H.
  unfold Js.Number, binary_normalize, binary_round in *.
  destruct (shl_align p 0 _) as [mz ez].
  rewrite binary_round_aux_sign.
  destruct (binary_round_aux Js.prec Js.emax false (Z.pos mz) ez loc_Exact) as [s|s| |s m e];
    try destruct s; try contradiction; exact I.
Qed.

(** [Number(z) > 0] exactly when [z > 0]: what a sort comparator built on
    [Number] of a bigint difference decides. *)
Lemma gt_Number_zero (z : Z) : Js.gt (Js.Number z) (Js.Number 0) = (0 <? z).
Proof.
  destruct z as [|p|p].
  - reflexivity.
  - pose proof (Number_positive p) as H.
    unfold Js.gt, SFltb, SFcompare. change (Js.Number 0) with (S754_zero false).
    destruct (Js.Number (Z.pos p)) as [s|s| |s m e]; try destruct s; try contradiction;
      reflexivity.
  - pose proof (Number_negative p) as H.
    unfold Js.gt, SFltb, SFcompare. change (Js.Number 0) with (S754_zero false).
    destruct (Js.Number (Z.neg p)) as [s|s| |s m e]; try destruct s; try contradiction;
      reflexivity.
Qed.

Lemma compareFn_positive (x y : CompressedAccount) :
  Js.gt (compareFn x y) (Js.Number 0) = (acc_lamports x <? acc_lamports y).
Proof.
  unfold compareFn. rewrite gt_Number_zero.
  destruct (Z.ltb_spec 0 (acc_lamports y - acc_lamports x));
    destruct (Z.ltb_spec (acc_lamports x) (acc_lamports y)); try reflexivity; lia.
Qed.

(** ** The account selector *)

Lemma sum_lamports_app (l1 l2 : list CompressedAccount) :
  sum_lamports (l1 ++ l2) = sum_lamports l1 + sum_lamports l2.
Proof.
  unfold sum_lamports.
  assert (G : forall l z, fold_left (fun t a => t + acc_lamports a) l z
                          = z + fold_left (fun t a => t + acc_lamports a) l 0).
  { induction l as [|a l IH]; intros z; simpl; [lia|].
    rewrite IH, (IH (acc_lamports a)). lia. }
  rewrite fold_left_app, G. reflexivity.
Qed.

Lemma sum_lamports_snoc (l : list CompressedAccount) (a : CompressedAccount) :
  sum_lamports (l ++ [a]) = sum_lamports l + acc_lamports a.
Proof. rewrite sum_lamports_app. reflexivity. Qed.

Lemma insert_desc_perm (x : CompressedAccount) (l : list CompressedAccount) :
  Permutation (x :: l) (insert_desc x l).
Proof.
  induction l as [|y l IH]; cbn [insert_desc]; [apply Permutation_refl|].
  destruct (Js.gt (compareFn x y) (Js.Number 0)).
  - eapply Permutation_trans; [apply perm_swap|]. apply perm_skip, IH.
  - apply Permutation_refl.
Qed.

Lemma sortedAccounts_perm (items : list CompressedAccount) :
  Permutation items (sortedAccounts items).
Proof.
  induction items as [|x l IH]; simpl; [constructor|].
  eapply Permutation_trans; [apply perm_skip, IH|apply insert_desc_perm].
Qed.

Lemma insert_desc_hd (x : CompressedAccount) (l : list CompressedAccount)
  (a : CompressedAccount) :
  HdRel lamports_ge a l -> lamports_ge a x -> HdRel lamports_ge a (insert_desc x l).
Proof.
  intros Hl Hx. destruct l as [|y l]; cbn [insert_desc].
  - constructor. exact Hx.
  - destruct (Js.gt (compareFn x y) (Js.Number 0)); constructor.
    + inversion Hl; assumption.
    + exact Hx.
Qed.

Lemma insert_desc_sorted (x : CompressedAccount) (l : list CompressedAccount) :
  Sorted lamports_ge l -> Sorted lamports_ge (insert_desc x l).
Proof.
  induction 1 as [|y l Hs IH Hh]; cbn [insert_desc].
  - repeat constructor.
  - rewrite compareFn_positive.
    destruct (Z.ltb_spec (acc_lamports x) (acc_lamports y)) as [Hlt|Hge].
    + constructor; [exact IH|]. apply insert_desc_hd; [exact Hh|].
      unfold lamports_ge. lia.
    + constructor; [constructor; assumption|]. constructor. exact Hge.
Qed.

Lemma sortedAccounts_sorted (items : list CompressedAccount) :
  Sorted lamports_ge (sortedAccounts items).
Proof.
  induction items as [|x l IH]; simpl; [constructor|].
  apply insert_desc_sorted, IH.
Qed.

(** The loop only ever extends what it was given by a prefix of what it
    still has to look at, never beyond four accounts, and it stops at the
    first prefix whose running total reaches the target. *)
Lemma select_loop_spec (sorted acc : list CompressedAccount) (target : Z) :
  forall sel total,
    select_loop sorted acc (sum_lamports acc) target = (sel, total) ->
    (List.length acc < 4)%nat ->
    exists k,
      sel = acc ++ firstn k sorted /\
      (k <= List.length sorted)%nat /\
      total = sum_lamports sel /\
      (List.length sel <= 4)%nat /\
      (forall j, (1 <= j < k)%nat ->
                 sum_lamports (acc ++ firstn j sorted) < target) /\
      (total < target -> List.length sel = 4%nat \/ k = List.length sorted) /\
      (sorted <> [] -> (1 <= k)%nat).
Proof.
  revert acc. induction sorted as [|a rest IH]; intros acc sel total H Hlen.
  - simpl in H. inversion H; subst. exists 0%nat. simpl.
    rewrite app_nil_r.
    split; [reflexivity|]. split; [lia|]. split; [reflexivity|].
    split; [lia|]. split; [intros j Hj; lia|].
    split; [intros _; right; reflexivity|].
    intros C. contradiction.
  - cbn [select_loop] in H. rewrite <- sum_lamports_snoc in H.
    destruct (Z.geb_spec (sum_lamports (acc ++ [a])) target) as [Hge|Hlt].
    + inversion H; subst. exists 1%nat. simpl.
      split; [reflexivity|]. split; [lia|]. split; [reflexivity|].
      split; [rewrite length_app; simpl; lia|]. split; [intros j Hj; lia|].
      split; [intros Hc; lia|]. intros _. lia.
    + destruct (Nat.leb_spec 4 (List.length (acc ++ [a]))) as [H4|H4].
      * inversion H; subst. exists 1%nat. simpl.
        rewrite length_app in *. simpl in *.
        split; [reflexivity|]. split; [lia|]. split; [reflexivity|].
        split; [lia|]. split; [intros j Hj; lia|].
        split; [intros _; left; lia|]. intros _. lia.
      * apply IH in H; [|exact H4].
        destruct H as (k & Hsel & Hk & Htot & Hl & Hgreedy & Hstop & Hne).
        exists (S k). simpl. rewrite <- app_assoc in Hsel. simpl in Hsel.
        split; [exact Hsel|]. split; [lia|]. split; [exact Htot|].
        split; [exact Hl|].
        split.
        { intros j Hj. destruct j as [|j]; [lia|]. simpl.
          destruct (Nat.eq_dec j 0) as [->|Hj0].
          - simpl. exact Hlt.
          - specialize (Hgreedy j ltac:(lia)).
            rewrite <- app_assoc in Hgreedy. exact Hgreedy. }
        split.
        { intros Ht. destruct (Hstop Ht) as [E|E]; [left; exact E|right; lia]. }
        intros _. lia.
Qed.

(** The selector on its own. *)
Lemma selectAccounts_spec (items : list CompressedAccount) (target : Z) :
  let sorted := sortedAccounts items in
  let '(selected, total, ok) := selectAccounts items target in
  (List.length selected <= 4)%nat /\
  Sorted lamports_ge sorted /\ Permutation items sorted /\
  selected = firstn (List.length selected) sorted /\
  total = sum_lamports selected /\
  (ok = true <-> target <= total) /\
  (forall j, (1 <= j < List.length selected)%nat ->
             sum_lamports (firstn j sorted) < target) /\
  (ok = false ->
   List.length selected = 4%nat \/ selected = sorted).
Proof.
  unfold selectAccounts.
  destruct (select_loop (sortedAccounts items) [] 0 target) as [sel total] eqn:E.
  pose proof (select_loop_spec (sortedAccounts items) [] target sel total E) as H.
  simpl in H. specialize (H ltac:(lia)).
  destruct H as (k & Hsel & Hk & Htot & Hl & Hgreedy & Hstop & _).
  assert (Hlen : List.length sel = k).
  { rewrite Hsel. rewrite length_firstn. lia. }
  repeat split.
  - exact Hl.
  - apply sortedAccounts_sorted.
  - apply sortedAccounts_perm.
  - rewrite Hlen. exact Hsel.
  - exact Htot.
  - intros Hok. apply negb_true_iff in Hok. apply Z.ltb_ge in Hok. exact Hok.
  - intros Hle. apply negb_true_iff. apply Z.ltb_ge. exact Hle.
  - intros j Hj. apply Hgreedy. lia.
  - intros Hok. apply negb_false_iff in Hok. apply Z.ltb_lt in Hok.
    destruct (Hstop Hok) as [E4|Eall]; [left; exact E4|right].
    rewrite Hsel, Eall. apply firstn_all.
Qed.

(** ** Running computations *)

Lemma bind_inv {A B} (c : M A) (k : A -> M B) (h : Trace) (r : Result B) (evs : Trace) :
  bind c k h = (r, evs) ->
  (exists t, c h = (Throw t, evs) /\ r = Throw t)
  \/ (exists a e1 e2, c h = (Ok a, e1) /\ k a (h ++ e1) = (r, e2) /\ evs = e1 ++ e2).
Proof.
  unfold bind. destruct (c h) as [[a|t] e1].
  - destruct (k a (h ++ e1)) as [r' e2] eqn:Ek. intros H. inversion H; subst.
    right. exists a, e1, e2. auto.
  - intros H. inversion H; subst. left. exists t. auto.
Qed.

Lemma bind_inv_ok {A B} (c : M A) (k : A -> M B) (h : Trace) (b : B) (evs : Trace) :
  bind c k h = (Ok b, evs) ->
  exists a e1 e2, c h = (Ok a, e1) /\ k a (h ++ e1) = (Ok b, e2) /\ evs = e1 ++ e2.
Proof.
  intros H. apply bind_inv in H. destruct H as [(t & _ & Ht)|H]; [discriminate|exact H].
Qed.

Lemma bind_ok {A B} (c : M A) (k : A -> M B) (h : Trace) a e1 r e2 :
  c h = (Ok a, e1) -> k a (h ++ e1) = (r, e2) -> bind c k h = (r, e1 ++ e2).
Proof. intros Hc Hk. unfold bind. rewrite Hc, Hk. reflexivity. Qed.

Lemma bind_throw {A B} (c : M A) (k : A -> M B) (h : Trace) t e1 :
  c h = (Throw t, e1) -> bind c k h = (Throw t, e1).
Proof. intros Hc. unfold bind. rewrite Hc. reflexivity. Qed.

Lemma transfer_calls_app (a b : Trace) :
  transfer_calls (a ++ b) = transfer_calls a ++ transfer_calls b.
Proof. apply flat_map_app. Qed.

Lemma sleeps_app (a b : Trace) : sleeps (a ++ b) = sleeps a ++ sleeps b.
Proof. apply flat_map_app. Qed.

Lemma saved_invoices_app (a b : Trace) :
  saved_invoices (a ++ b) = saved_invoices a ++ saved_invoices b.
Proof. apply flat_map_app. Qed.

Lemma compress_submits_app (a b : Trace) :
  compress_submits (a ++ b) = compress_submits a ++ compress_submits b.
Proof. apply flat_map_app. Qed.

Lemma compress_calls_app (a b : Trace) :
  compress_calls (a ++ b) = compress_calls a ++ compress_calls b.
Proof. apply flat_map_app. Qed.

Lemma foreign_thrown_of (x : External) : foreign (thrown_of x).
Proof. destruct x; exact I. Qed.

Lemma foreign_context (t : Thrown) : foreign t -> context (parseError t) = None.
Proof. destruct t; simpl; intros H; try reflexivity; contradiction. Qed.

Lemma confined_ret P {A} (a : A) : confined P (ret a).
Proof.
  intros h r evs H. inversion H; subst. split; [reflexivity|].
  intros t Ht. discriminate.
Qed.

Lemma confined_throw P {A} (t : Thrown) : foreign t -> confined P (@throw A t).
Proof.
  intros Hf h r evs H. inversion H; subst. split; [reflexivity|].
  intros t' Ht. inversion Ht; subst. exact Hf.
Qed.

Lemma confined_call P {A} (e : Event) (answer : Trace -> Answer A) :
  P e = true -> confined P (call e answer).
Proof.
  intros HP h r evs H. unfold call in H.
  destruct (answer h); inversion H; subst; simpl; rewrite HP; split; try reflexivity.
  - intros t Ht. discriminate.
  - intros t Ht. inversion Ht; subst. apply foreign_thrown_of.
Qed.

Lemma confined_bind P {A B} (c : M A) (k : A -> M B) :
  confined P c -> (forall a, confined P (k a)) -> confined P (bind c k).
Proof.
  intros Hc Hk h r evs H. apply bind_inv in H.
  destruct H as [(t & Hct & ->)|(a & e1 & e2 & Hca & Hka & ->)].
  - destruct (Hc _ _ _ Hct) as [H1 H2]. split; [exact H1|].
    intros t' Ht'. inversion Ht'; subst. apply H2. reflexivity.
  - destruct (Hc _ _ _ Hca) as [H1 _]. destruct (Hk a _ _ _ Hka) as [H2 H3].
    split; [|exact H3]. rewrite forallb_app, H1, H2. reflexivity.
Qed.

Lemma confined_BigInt P (o : Oracle) (x : Js.number) : confined P (BigInt o x).
Proof.
  unfold BigInt. destruct (Js.toInteger x).
  - apply confined_ret.
  - apply confined_throw. exact I.
Qed.

(** One attempt: the entry marker, then only steps of the transfer itself;
    whatever it throws is foreign. *)
Lemma transfer_shape (o : Oracle) (pk recipient : string) (amount : Js.number)
  (h : Trace) (r : Result string) (evs : Trace) :
  transferCompressedSOL o pk recipient amount h = (r, evs) ->
  exists steps,
    evs = E_call_transferCompressedSOL pk recipient amount :: steps /\
    forallb is_transfer_step steps = true /\
    (forall t, r = Throw t -> foreign t).
Proof.
  unfold transferCompressedSOL. intros H. apply bind_inv in H.
  destruct H as [(t & Ht & _)|(a & e1 & e2 & He & Hk & ->)]; [discriminate|].
  inversion He; subst. exists e2. split; [reflexivity|].
  revert Hk. generalize (h ++ [E_call_transferCompressedSOL pk recipient amount]).
  intros h' Hk. revert h' r e2 Hk.
  change (confined is_transfer_step
    (items <- call (E_getCompressedAccountsByOwner pk)
                   (fun h => getCompressedAccountsByOwner o h pk) ;;
     if (List.length items =? 0)%nat then
       throw (newError "No compressed SOL available for transfer")
     else
       let totalCompressedBalance := sum_lamports items in
       target <- BigInt o amount ;;
       if totalCompressedBalance <? target then
         throw (newError ("Insufficient compressed balance. Have: "
                          ++ in_SOL o (Js.Number totalCompressedBalance)
                          ++ " SOL, Need: " ++ in_SOL o amount ++ " SOL")%string)
       else
         let '(selectedAccounts, selectedTotal, ok) := selectAccounts items target in
         if negb ok then
           throw (newError ("Cannot transfer " ++ in_SOL o amount
                            ++ " SOL. Max available in 4 accounts: "
                            ++ in_SOL o (Js.Number selectedTotal) ++ " SOL")%string)
         else
           let hashes := map acc_hash selectedAccounts in
           call (E_getValidityProof hashes) (fun h => getValidityProof o h hashes) ;;
           call (E_submitTransfer pk selectedAccounts recipient amount)
                (fun h => submitTransfer o h pk selectedAccounts recipient amount))%js).
  apply confined_bind; [apply confined_call; reflexivity|]. intros items.
  destruct (List.length items =? 0)%nat; [apply confined_throw; exact I|].
  cbv zeta. apply confined_bind; [apply confined_BigInt|]. intros target.
  destruct (sum_lamports items <? target); [apply confined_throw; exact I|].
  destruct (selectAccounts items target) as [[sel tot] ok].
  destruct ok; simpl; [|apply confined_throw; exact I].
  apply confined_bind; [apply confined_call; reflexivity|]. intros _.
  apply confined_call; reflexivity.
Qed.

Lemma transfer_step_observations (steps : Trace) :
  forallb is_transfer_step steps = true ->
  transfer_calls steps = [] /\ sleeps steps = [] /\ saved_invoices steps = [] /\
  compress_submits steps = [] /\ compress_calls steps = [] /\ saved_batches steps = [].
Proof.
  induction steps as [|e steps IH]; simpl; [auto 6|].
  intros H. apply andb_true_iff in H. destruct H as [He Hs].
  specialize (IH Hs). destruct IH as (I1 & I2 & I3 & I4 & I5 & I6).
  unfold transfer_calls, sleeps, saved_invoices, compress_submits, compress_calls,
    saved_batches in *.
  destruct e; simpl in *; try discriminate; auto 6.
Qed.

Lemma transfer_observations (o : Oracle) (pk recipient : string) (amount : Js.number)
  (h : Trace) (r : Result string) (evs : Trace) :
  transferCompressedSOL o pk recipient amount h = (r, evs) ->
  transfer_calls evs = [(pk, recipient, amount)] /\ sleeps evs = [] /\
  saved_invoices evs = [] /\ compress_submits evs = [] /\ compress_calls evs = [] /\
  saved_batches evs = [].
Proof.
  intros H. apply transfer_shape in H. destruct H as (steps & -> & Hs & _).
  apply transfer_step_observations in Hs.
  destruct Hs as (I1 & I2 & I3 & I4 & I5 & I6).
  unfold transfer_calls, sleeps, saved_invoices, compress_submits, compress_calls,
    saved_batches in *.
  simpl. rewrite I1, I2, I3, I4, I5, I6. auto 6.
Qed.

(** ** The inputs of a transfer *)

(** A transfer instruction is only ever submitted with the accounts the
    selector chose for the requested amount, after it said [ok]. *)
Lemma transfer_inputs_selected (o : Oracle) (pk recipient : string) (amount : Js.number)
  (h : Trace) (r : Result string) (evs : Trace) :
  transferCompressedSOL o pk recipient amount h = (r, evs) ->
  transfer_inputs evs = []
  \/ exists items target,
       getCompressedAccountsByOwner o
         (h ++ [E_call_transferCompressedSOL pk recipient amount]) pk = Returns items /\
       Js.toInteger amount = Some target /\
       snd (selectAccounts items target) = true /\
       transfer_inputs evs = [fst (fst (selectAccounts items target))].
Proof.
  unfold transferCompressedSOL. intros H.
  unfold bind at 1 in H. unfold emit at 1 in H.
  set (h1 := h ++ [E_call_transferCompressedSOL pk recipient amount]) in *.
  unfold bind at 1 in H. unfold call at 1 in H.
  destruct (getCompressedAccountsByOwner o h1 pk) as [items|x] eqn:Hitems;
    [|inversion H; subst; left; reflexivity].
  destruct (List.length items =? 0)%nat; [inversion H; subst; left; reflexivity|].
  unfold bind at 1 in H. unfold BigInt in H.
  destruct (Js.toInteger amount) as [target|] eqn:Hint;
    [|inversion H; subst; left; reflexivity].
  unfold ret at 1 in H.
  destruct (sum_lamports items <? target); [inversion H; subst; left; reflexivity|].
  destruct (selectAccounts items target) as [[selected total] ok] eqn:Hsel.
  destruct ok; cbn [negb] in H; [|inversion H; subst; left; reflexivity].
  unfold bind, call in H.
  destruct (getValidityProof o _ _) as [u|x]; [|inversion H; subst; left; reflexivity].
  right. exists items, target. rewrite Hsel. cbn [fst snd].
  split; [reflexivity|]. split; [reflexivity|]. split; [reflexivity|].
  destruct (submitTransfer o _ _ _ _ _) as [sig|x]; inversion H; subst; reflexivity.
Qed.

(** [C9] The selector never returns more than four accounts.  What it
    returns is a prefix of the accounts sorted by descending lamports (a
    stable rearrangement of the input), its total is the sum of that prefix,
    and [ok] holds exactly when this running total has reached the target; the
    accumulation is greedy (no shorter non-empty prefix reaches the target),
    and a selection that is not [ok] has hit the four-account ceiling or has
    used every account.  Accordingly every transfer instruction that
    [transferCompressedSOL] submits spends at most four accounts, which cover
    the amount. *)
Theorem selector_ceiling (items : list CompressedAccount) (target : Z) :
  (let sorted := sortedAccounts items in
   let '(selected, total, ok) := selectAccounts items target in
   (List.length selected <= 4)%nat /\
   Sorted lamports_ge sorted /\ Permutation items sorted /\
   selected = firstn (List.length selected) sorted /\
   total = sum_lamports selected /\
   (ok = true <-> target <= total) /\
   (forall j, (1 <= j < List.length selected)%nat ->
              sum_lamports (firstn j sorted) < target) /\
   (ok = false ->
    List.length selected = 4%nat \/ selected = sorted))
  /\
  (forall o pk recipient amount h r evs,
     transferCompressedSOL o pk recipient amount h = (r, evs) ->
     Forall (fun inputs =>
               (List.length inputs <= 4)%nat /\
               exists lamports,
                 Js.toInteger amount = Some lamports /\ lamports <= sum_lamports inputs)
            (transfer_inputs evs)).
Proof.
  split; [apply selectAccounts_spec|].
  intros o pk recipient amount h r evs H.
  destruct (transfer_inputs_selected o pk recipient amount h r evs H)
    as [->|(its & tgt & _ & Hint & Hok & ->)]; [constructor|].
  pose proof (selectAccounts_spec its tgt) as S. cbv zeta in S.
  destruct (selectAccounts its tgt) as [[selected total] ok].
  cbn [fst snd] in *. destruct S as (Hlen & _ & _ & _ & Htot & Hiff & _).
  constructor; [|constructor]. split; [exact Hlen|].
  exists tgt. split; [exact Hint|]. rewrite <- Htot. apply Hiff. exact Hok.
Qed.

(** ** The auto-compress block *)

Lemma getCompressedBalance_run (o : Oracle) (owner : string) (h : Trace) :
  getCompressedBalance o owner h
  = (Ok (compressedBalance_at o owner h), [E_getCompressedAccountsByOwner owner]).
Proof.
  unfold getCompressedBalance, compressedBalance_at, try_catch, bind, call.
  destruct (getCompressedAccountsByOwner o h owner) as [items|x]; [|reflexivity].
  destruct (List.length items =? 0)%nat; reflexivity.
Qed.

(** Enough private balance: one read, nothing else. *)
Lemma autoCompress_enough (o : Oracle) (pk : string) (required : Z) (h : Trace) :
  required <= compressedBalance_at o pk h ->
  autoCompress o pk required h
  = (Ok (compressedBalance_at o pk h), [E_getCompressedAccountsByOwner pk]).
Proof.
  intros H. unfold autoCompress, bind. rewrite getCompressedBalance_run.
  replace (compressedBalance_at o pk h <? required) with false
    by (symmetry; apply Z.ltb_ge; exact H).
  unfold ret. reflexivity.
Qed.

(** Not enough, and the wallet balance cannot be read. *)
Lemma autoCompress_no_wallet_balance (o : Oracle) (pk : string) (required : Z) (h : Trace) x :
  compressedBalance_at o pk h < required ->
  getBalance o (h ++ [E_getCompressedAccountsByOwner pk]) pk = Raises x ->
  autoCompress o pk required h
  = (Throw (thrown_of x), [E_getCompressedAccountsByOwner pk; E_getBalance pk]).
Proof.
  intros H Hb. unfold autoCompress, bind at 1. rewrite getCompressedBalance_run.
  replace (compressedBalance_at o pk h <? required) with true
    by (symmetry; apply Z.ltb_lt; exact H).
  unfold bind, call. rewrite Hb. reflexivity.
Qed.

(** Not enough, and the wallet cannot cover shortfall plus reserve. *)
Lemma autoCompress_insufficient (o : Oracle) (pk : string) (required : Z) (h : Trace) wb :
  let shortfall := required - compressedBalance_at o pk h in
  let totalNeeded := Js.add (Js.Number shortfall) FEE_RESERVE in
  compressedBalance_at o pk h < required ->
  getBalance o (h ++ [E_getCompressedAccountsByOwner pk]) pk = Returns wb ->
  Js.lt wb totalNeeded = true ->
  autoCompress o pk required h
  = (Throw (TSento (insufficientBalance wb totalNeeded)),
     [E_getCompressedAccountsByOwner pk; E_getBalance pk]).
Proof.
  intros shortfall totalNeeded H Hb Hlt.
  unfold autoCompress, bind at 1. rewrite getCompressedBalance_run.
  replace (compressedBalance_at o pk h <? required) with true
    by (symmetry; apply Z.ltb_lt; exact H).
  unfold bind at 1. unfold call. rewrite Hb.
  fold shortfall. fold totalNeeded. rewrite Hlt. reflexivity.
Qed.

(** Not enough, and the wallet can cover it: [compressSOL] is called with
    the shortfall in SOL, and submits [hiddenLamports shortfall]. *)
Lemma autoCompress_top_up (o : Oracle) (pk : string) (required : Z) (h : Trace) wb :
  let shortfall := required - compressedBalance_at o pk h in
  let totalNeeded := Js.add (Js.Number shortfall) FEE_RESERVE in
  let amountToCompressSOL := Js.div (Js.Number shortfall) ONE_BILLION in
  let asked := [E_getCompressedAccountsByOwner pk; E_getBalance pk;
                E_call_compressSOL pk amountToCompressSOL;
                E_submitCompress pk (hiddenLamports shortfall)] in
  compressedBalance_at o pk h < required ->
  getBalance o (h ++ [E_getCompressedAccountsByOwner pk]) pk = Returns wb ->
  Js.lt wb totalNeeded = false ->
  autoCompress o pk required h
  = match submitCompress o (h ++ [E_getCompressedAccountsByOwner pk; E_getBalance pk;
                                  E_call_compressSOL pk amountToCompressSOL])
                         pk (hiddenLamports shortfall) with
    | Returns _ =>
        (Ok (compressedBalance_at o pk (h ++ asked ++ [E_sleep 2000])),
         asked ++ [E_sleep 2000; E_getCompressedAccountsByOwner pk])
    | Raises x => (Throw (thrown_of x), asked)
    end.
Proof.
  intros shortfall totalNeeded amountToCompressSOL asked H Hb Hlt.
  unfold autoCompress, bind at 1. rewrite getCompressedBalance_run.
  replace (compressedBalance_at o pk h <? required) with true
    by (symmetry; apply Z.ltb_lt; exact H).
  unfold bind at 1. unfold call at 1. rewrite Hb.
  fold shortfall. fold totalNeeded. rewrite Hlt. fold amountToCompressSOL.
  unfold bind at 1. unfold compressSOL. unfold bind at 1. unfold emit, call.
  change (Js.floor (Js.mul amountToCompressSOL LAMPORTS_PER_SOL))
    with (hiddenLamports shortfall).
  rewrite <- !app_assoc. simpl app.
  destruct (submitCompress o _ pk (hiddenLamports shortfall)) as [sig|x]; [|reflexivity].
  unfold bind, sleep, emit. rewrite getCompressedBalance_run.
  subst asked. rewrite <- !app_assoc. reflexivity.
Qed.

(** The block never transfers or saves anything.  It throws either what a
    collaborator threw or, when the wallet balance is below shortfall plus
    reserve, the [INSUFFICIENT_BALANCE] error with both figures, in which case
    only the two balances have been read. *)
Lemma autoCompress_quiet (o : Oracle) (pk : string) (required : Z) (h : Trace) r evs :
  autoCompress o pk required h = (r, evs) ->
  transfer_calls evs = [] /\ saved_invoices evs = [] /\ saved_batches evs = [] /\
  (forall t, r = Throw t ->
     foreign t \/
     exists wb,
       let totalNeeded :=
         Js.add (Js.Number (required - compressedBalance_at o pk h)) FEE_RESERVE in
       t = TSento (insufficientBalance wb totalNeeded) /\
       compressedBalance_at o pk h < required /\
       getBalance o (h ++ [E_getCompressedAccountsByOwner pk]) pk = Returns wb /\
       Js.lt wb totalNeeded = true /\
       evs = [E_getCompressedAccountsByOwner pk; E_getBalance pk]).
Proof.
  intros H.
  destruct (Z.lt_ge_cases (compressedBalance_at o pk h) required) as [Hlt|Hge].
  - destruct (getBalance o (h ++ [E_getCompressedAccountsByOwner pk]) pk) as [wb|x] eqn:Hb.
    + destruct (Js.lt wb (Js.add (Js.Number (required - compressedBalance_at o pk h))
                                 FEE_RESERVE)) eqn:Hw.
      * rewrite (autoCompress_insufficient o pk required h wb Hlt Hb Hw) in H.
        inversion H; subst. repeat split; try reflexivity.
        intros t Ht. inversion Ht; subst. right. exists wb. cbv zeta. auto.
      * rewrite (autoCompress_top_up o pk required h wb Hlt Hb Hw) in H.
        destruct (submitCompress o _ pk _) as [sig|x]; inversion H; subst;
          repeat split; try reflexivity.
        -- intros t Ht. discriminate.
        -- intros t Ht. inversion Ht; subst. left. apply foreign_thrown_of.
    + rewrite (autoCompress_no_wallet_balance o pk required h x Hlt Hb) in H.
      inversion H; subst. repeat split; try reflexivity.
      intros t Ht. inversion Ht; subst. left. apply foreign_thrown_of.
  - rewrite (autoCompress_enough o pk required h Hge) in H.
    inversion H; subst. repeat split; try reflexivity.
    intros t Ht. discriminate.
Qed.

(** ** The retry loop of the batch *)

Section RetryFacts.

Variable o : Oracle.
Variables (pk recipientPubkey : string) (amount : Js.number).

Let attempt := transferCompressedSOL o pk recipientPubkey amount.
Let retry n last := transfer_with_retry o n pk recipientPubkey amount last.

Lemma retry_paid (n : nat) (last : Thrown) (h : Trace) signature evs :
  attempt h = (Ok signature, evs) ->
  retry (S n) last h = (Ok signature, evs).
Proof.
  intros H. subst attempt retry. cbn [transfer_with_retry].
  unfold bind, settle. rewrite H. simpl. rewrite app_nil_r. reflexivity.
Qed.



End RetryFacts.

Lemma processRecipient_run (o : Oracle) (pk : string) (recipient : BatchRecipient)
  (h : Trace) r evs :
  decodesToPublicKey o (br_wallet recipient) = true ->
  transfer_with_retry o (Z.to_nat maxAttempts) pk (br_wallet recipient)
    (br_amount recipient) TUndefined h = (r, evs) ->
  processRecipient o pk recipient h
  = (Ok match r with
        | Ok signature => paid_with recipient signature
        | Throw err => failed_with recipient err
        end, evs).
Proof.
  intros Hd Hr. unfold processRecipient, try_catch, bind, newPublicKey.
  rewrite Hd. unfold ret at 1. rewrite app_nil_r. rewrite Hr.
  destruct r as [signature|err]; simpl; rewrite ?app_nil_r; reflexivity.
Qed.

Lemma processRecipient_undecodable (o : Oracle) (pk : string) (recipient : BatchRecipient)
  (h : Trace) :
  decodesToPublicKey o (br_wallet recipient) = false ->
  processRecipient o pk recipient h
  = (Ok (failed_with recipient (invalidKey (br_wallet recipient))), []).
Proof.
  intros Hd. unfold processRecipient, try_catch, bind, newPublicKey.
  rewrite Hd. reflexivity.
Qed.


(** ** The batch as a whole *)

Lemma attempts_only_nil pk w a : attempts_only pk w a [].
Proof. repeat split. constructor. Qed.

Lemma attempts_only_sleep pk w a ms : attempts_only pk w a [E_sleep ms].
Proof. repeat split. constructor. Qed.

Lemma attempts_only_app pk w a e1 e2 :
  attempts_only pk w a e1 -> attempts_only pk w a e2 -> attempts_only pk w a (e1 ++ e2).
Proof.
  intros (I1 & B1 & T1) (I2 & B2 & T2). unfold attempts_only, saved_batches in *.
  rewrite saved_invoices_app, transfer_calls_app, flat_map_app, I1, I2, B1, B2.
  repeat split. apply Forall_app. split; assumption.
Qed.

Lemma attempts_only_transfer o pk w a h r evs :
  transferCompressedSOL o pk w a h = (r, evs) -> attempts_only pk w a evs.
Proof.
  intros H. apply transfer_observations in H.
  destruct H as (C1 & _ & I1 & _ & _ & B1).
  unfold attempts_only. rewrite C1, I1, B1. repeat split. repeat constructor.
Qed.

Lemma retry_attempts_only (o : Oracle) (pk w : string) (a : Js.number) :
  forall n last h r evs,
    transfer_with_retry o n pk w a last h = (r, evs) -> attempts_only pk w a evs.
Proof.
  induction n as [|n IH]; intros last h r evs H.
  - inversion H; subst. apply attempts_only_nil.
  - cbn [transfer_with_retry] in H. unfold bind at 1 in H. unfold settle in H.
    destruct (transferCompressedSOL o pk w a h) as [ra ea] eqn:Ha.
    apply attempts_only_transfer in Ha.
    destruct ra as [signature|err].
    + inversion H; subst. apply attempts_only_app; [exact Ha|apply attempts_only_nil].
    + destruct (isQueueIssue err && (maxAttempts - Z.of_nat n <? maxAttempts)).
      * unfold bind, sleep, emit in H.
        destruct (transfer_with_retry o n pk w a err ((h ++ ea) ++ [E_sleep _]))
          as [r' e'] eqn:Hr.
        inversion H; subst. apply IH in Hr.
        apply attempts_only_app; [exact Ha|].
        apply (attempts_only_app pk w a [E_sleep _] e');
          [apply attempts_only_sleep|exact Hr].
      * inversion H; subst. apply attempts_only_app; [exact Ha|apply attempts_only_nil].
Qed.

Lemma processRecipient_settles (o : Oracle) (pk : string) (recipient : BatchRecipient)
  (h : Trace) :
  exists recipient' evs,
    processRecipient o pk recipient h = (Ok recipient', evs) /\
    settled_from recipient recipient' /\
    attempts_only pk (br_wallet recipient) (br_amount recipient) evs.
Proof.
  destruct (decodesToPublicKey o (br_wallet recipient)) eqn:Hd.
  - destruct (transfer_with_retry o (Z.to_nat maxAttempts) pk (br_wallet recipient)
                (br_amount recipient) TUndefined h) as [r evs] eqn:Hr.
    rewrite (processRecipient_run o pk recipient h r evs Hd Hr).
    apply retry_attempts_only in Hr.
    eexists; exists evs. split; [reflexivity|]. split; [|exact Hr].
    destruct r as [signature|err]; unfold settled_from; simpl;
      repeat split; try reflexivity.
    + left. split; [reflexivity|]. exists signature. reflexivity.
    + right. split; [reflexivity|]. eexists. reflexivity.
  - rewrite (processRecipient_undecodable o pk recipient h Hd).
    eexists; exists []. split; [reflexivity|].
    split; [|apply attempts_only_nil].
    unfold settled_from; simpl; repeat split; try reflexivity.
    right. split; [reflexivity|]. eexists. reflexivity.
Qed.

Lemma processRecipients_settle (o : Oracle) (pk : string)
  (batchRecipients : list BatchRecipient) :
  forall h, exists settled evs,
    processRecipients o pk batchRecipients h = (Ok settled, evs) /\
    Forall2 settled_from batchRecipients settled /\
    loop_only pk batchRecipients evs.
Proof.
  induction batchRecipients as [|recipient rest IH]; intros h.
  - exists [], []. simpl. unfold ret. repeat split; constructor.
  - destruct (processRecipient_settles o pk recipient h)
      as (recipient' & e1 & H1 & S1 & I1 & B1 & T1).
    destruct (IH ((h ++ e1) ++ [E_sleep 500])) as (rest' & e2 & H2 & S2 & I2 & B2 & T2).
    exists (recipient' :: rest'), (e1 ++ [E_sleep 500] ++ e2).
    split.
    { cbn [processRecipients]. unfold bind at 1. rewrite H1.
      unfold bind at 1. unfold sleep, emit. unfold bind at 1. rewrite H2.
      unfold ret. rewrite app_nil_r. reflexivity. }
    split; [constructor; assumption|].
    unfold loop_only, saved_batches in *.
    rewrite !saved_invoices_app, !transfer_calls_app, !flat_map_app, I1, I2, B1, B2.
    split; [reflexivity|]. split; [reflexivity|].
    simpl. apply Forall_app. split.
    + eapply Forall_impl; [|exact T1]. intros c <-. exists recipient. simpl. auto.
    + eapply Forall_impl; [|exact T2]. intros c (r & Hr & ->). exists r. simpl. auto.
Qed.

(** The invoice loop never throws and makes one [saveInvoice] call per
    successful recipient, whether or not earlier calls failed. *)
Lemma createInvoices_run (o : Oracle) (pk : string) (teamId : option string)
  (rs : list BatchRecipient) :
  forall h, createInvoices o pk teamId rs h = (Ok tt, invoice_events o pk teamId rs h).
Proof.
  induction rs as [|r rest IH]; intros h; [reflexivity|].
  cbn [createInvoices invoice_events]. unfold bind at 1.
  unfold try_catch, bind at 1, history, call. rewrite app_nil_r.
  destruct (saveInvoice o h (batchInvoice o h pk teamId r)) as [u|x];
    simpl; rewrite IH; reflexivity.
Qed.

Lemma invoice_events_saved (o : Oracle) (pk : string) (teamId : option string)
  (rs : list BatchRecipient) :
  forall h,
    Forall2 (fun r i => inv_recipient i = br_wallet r /\ inv_amount i = br_amount r /\
                        inv_txSignature i = br_txSignature r /\ inv_status i = inv_paid /\
                        inv_sender i = pk)
            rs (saved_invoices (invoice_events o pk teamId rs h)) /\
    transfer_calls (invoice_events o pk teamId rs h) = [] /\
    saved_batches (invoice_events o pk teamId rs h) = [].
Proof.
  induction rs as [|r rest IH]; intros h; simpl.
  - repeat split. constructor.
  - destruct (IH (h ++ [E_saveInvoice (batchInvoice o h pk teamId r)])) as (F & T & B).
    unfold saved_invoices, transfer_calls, saved_batches in *. simpl.
    split; [|split; assumption].
    constructor; [|exact F]. simpl. auto.
Qed.

Lemma deriveStatus_spec (rs : list BatchRecipient) :
  rs <> [] ->
  (deriveStatus rs = batch_completed <-> Forall (fun r => br_status r = paid) rs) /\
  (deriveStatus rs = batch_failed <-> Forall (fun r => br_status r <> paid) rs) /\
  (deriveStatus rs = batch_partial <->
     Exists (fun r => br_status r = paid) rs /\ Exists (fun r => br_status r <> paid) rs).
Proof.
  intros Hne. unfold deriveStatus.
  assert (Hp : forall r, is_paid r = true <-> br_status r = paid).
  { intros r. unfold is_paid. destruct (br_status r); simpl; split; congruence. }
  assert (Hall : forallb is_paid rs = true <-> Forall (fun r => br_status r = paid) rs).
  { rewrite forallb_forall, Forall_forall. split; intros H r Hr; apply Hp; auto. }
  assert (Hex : existsb is_paid rs = true <-> Exists (fun r => br_status r = paid) rs).
  { rewrite existsb_exists, Exists_exists. split; intros (r & Hr & H); exists r;
      split; try assumption; apply Hp; assumption. }
  assert (Hnone : existsb is_paid rs = false <-> Forall (fun r => br_status r <> paid) rs).
  { rewrite Forall_forall. split.
    - intros H r Hr Hs. assert (E : existsb is_paid rs = true).
      { apply existsb_exists. exists r. split; [exact Hr|apply Hp; exact Hs]. }
      congruence.
    - intros H. destruct (existsb is_paid rs) eqn:E; [|reflexivity].
      apply existsb_exists in E. destruct E as (r & Hr & Hs).
      apply Hp in Hs. exfalso. exact (H r Hr Hs). }
  assert (Hmix : forallb is_paid rs = false <-> Exists (fun r => br_status r <> paid) rs).
  { clear Hne Hall Hex Hnone. induction rs as [|r rest IH]; simpl.
    - split; [discriminate|]. intros H. inversion H.
    - rewrite andb_false_iff, Exists_cons, IH.
      assert (Hr : is_paid r = false <-> br_status r <> paid).
      { specialize (Hp r). destruct (is_paid r); split; intros H; try congruence.
        - exfalso. apply H. apply Hp. reflexivity.
        - intros C. apply Hp in C. discriminate. }
      rewrite Hr. reflexivity. }
  destruct (forallb is_paid rs) eqn:Ea.
  - assert (Fa : Forall (fun r => br_status r = paid) rs) by (apply Hall; reflexivity).
    split; [tauto|]. split.
    + split; [discriminate|]. intros Fn. destruct rs as [|r rest]; [contradiction|].
      inversion Fa; inversion Fn; subst. contradiction.
    + split; [discriminate|]. intros [_ Ex]. apply Hmix in Ex. discriminate.
  - destruct (existsb is_paid rs) eqn:Ee.
    + split; [split; [discriminate|intros Fa; apply Hall in Fa; discriminate]|].
      split.
      * split; [discriminate|]. intros Fn. apply Hnone in Fn. discriminate.
      * split; [intros _|reflexivity]. split; [apply Hex; reflexivity|apply Hmix; reflexivity].
    + split; [split; [discriminate|intros Fa; apply Hall in Fa; discriminate]|].
      split.
      * split; [intros _; apply Hnone; reflexivity|reflexivity].
      * split; [discriminate|]. intros [Ex _]. apply Hex in Ex. discriminate.
Qed.

Lemma newBatchRecipients_requests (o : Oracle) (h : Trace) (sanitized : list BatchRecipientInput) :
  map outcome_request (newBatchRecipients o h sanitized) = map request_of sanitized.
Proof.
  unfold newBatchRecipients. generalize 0%nat as start.
  induction sanitized as [|r rest IH]; intros start; [reflexivity|].
  simpl. f_equal. apply IH.
Qed.

Lemma settled_requests (rs rs' : list BatchRecipient) :
  Forall2 settled_from rs rs' -> map outcome_request rs' = map outcome_request rs.
Proof.
  induction 1 as [|r r' rs rs' (_ & Hw & Ha & _) _ IH]; [reflexivity|].
  simpl. unfold outcome_request at 1 3. rewrite Hw, Ha, IH. reflexivity.
Qed.

Lemma settled_statuses (rs rs' : list BatchRecipient) :
  Forall2 settled_from rs rs' ->
  Forall (fun r => (br_status r = paid /\ exists s, br_txSignature r = Some s)
                   \/ (br_status r = failed /\ exists m, br_error r = Some m)) rs'.
Proof.
  induction 1 as [|r r' rs rs' (_ & _ & _ & _ & Hs) _ IH]; constructor; assumption.
Qed.

Lemma loop_only_validated (o : Oracle) (pk : string) (options : ExecuteBatchOptions)
  (h : Trace) (evs : Trace) :
  loop_only pk (newBatchRecipients o h (filter isSanitized (opt_recipients options))) evs ->
  Forall (to_validated pk options) (transfer_calls evs).
Proof.
  intros (_ & _ & F). eapply Forall_impl; [|exact F].
  intros c (r & Hr & ->).
  assert (Hin : In (outcome_request r)
                   (map request_of (filter isSanitized (opt_recipients options)))).
  { rewrite <- (newBatchRecipients_requests o h). apply in_map. exact Hr. }
  apply in_map_iff in Hin. destruct Hin as (request & Hreq & Hf).
  apply filter_In in Hf. destruct Hf as [Hi Hs].
  exists request. split; [exact Hi|]. split; [exact Hs|].
  unfold request_of, outcome_request in Hreq. inversion Hreq. reflexivity.
Qed.

(** What a run of the payments phase looks like, however it ends. *)
Lemma executeBatch_payments_run (o : Oracle) (pk : string) (options : ExecuteBatchOptions)
  (h : Trace) r evs :
  executeBatch_payments o pk options h = (r, evs) ->
  let sanitized := filter isSanitized (opt_recipients options) in
  Forall (to_validated pk options) (transfer_calls evs) /\
  saved_invoices evs = [] /\
  (sanitized = [] -> r = Throw (TSento (newSentoError INVALID_ADDRESS)) /\ evs = []) /\
  (forall batch, r = Ok batch ->
     sanitized <> [] /\
     exists h1 settled,
       Forall2 settled_from (newBatchRecipients o h1 sanitized) settled /\
       bp_recipients batch = settled /\
       bp_status batch = deriveStatus settled /\
       saved_batches evs = [batch]).
Proof.
  intros H sanitized. unfold executeBatch_payments in H. fold sanitized in H.
  destruct sanitized as [|s0 srest] eqn:Es.
  - simpl in H. inversion H; subst. simpl.
    split; [constructor|]. split; [reflexivity|]. split; [auto|].
    intros batch Hb. discriminate.
  - cbn [List.length Nat.eqb] in H.
    assert (Hne : s0 :: srest <> []) by discriminate.
    rewrite <- Es in *. clear Es s0 srest.
    apply bind_inv in H.
    destruct H as [(t & Ht & ->)|(required & e0 & e0' & Hreq & H & ->)].
    { unfold BigInt in Ht. destruct (Js.toInteger _); inversion Ht; subst.
      split; [constructor|]. split; [reflexivity|].
      split; [intros C; contradiction|]. intros batch Hb. discriminate. }
    assert (E0 : e0 = []).
    { unfold BigInt in Hreq. destruct (Js.toInteger _); inversion Hreq; reflexivity. }
    subst e0. rewrite app_nil_r in H. simpl app.
    apply bind_inv in H.
    destruct H as [(t & Ht & ->)|(cb & e1 & e1' & Hc & H & ->)].
    { apply autoCompress_quiet in Ht. destruct Ht as (T1 & I1 & B1 & _).
      rewrite T1. split; [constructor|]. split; [exact I1|].
      split; [intros C; contradiction|]. intros batch Hb. discriminate. }
    apply autoCompress_quiet in Hc. destruct Hc as (T1 & I1 & B1 & _).
    unfold bind at 1 in H. unfold history at 1 in H. rewrite app_nil_r in H.
    simpl app in H.
    destruct (processRecipients_settle o pk (newBatchRecipients o (h ++ e1) sanitized)
                (h ++ e1)) as (settled & e2 & Hp & Hs & Hl).
    unfold bind at 1 in H. rewrite Hp in H.
    unfold bind at 1 in H. unfold history at 1 in H. rewrite app_nil_r in H.
    simpl app in H.
    pose proof (loop_only_validated o pk options (h ++ e1) e2 Hl) as Hv.
    destruct Hl as (I2 & B2 & _).
    unfold bind, call, ret in H.
    destruct (saveBatchPayment o _ _) as [u|x]; inversion H; subst; clear H.
    all: unfold saved_batches in *;
      rewrite ?transfer_calls_app, ?saved_invoices_app, ?flat_map_app, ?T1, ?I1, ?I2,
        ?B1, ?B2; simpl; rewrite ?app_nil_r.
    + split; [exact Hv|]. split; [reflexivity|].
      split; [intros C; contradiction|].
      intros batch Hb. inversion Hb; subst. split; [exact Hne|].
      exists (h ++ e1), settled. simpl. auto.
    + split; [exact Hv|]. split; [reflexivity|].
      split; [intros C; contradiction|].
      intros batch Hb. discriminate.
Qed.

Lemma executeBatch_body_run (o : Oracle) (pk : string) (options : ExecuteBatchOptions)
  (h : Trace) :
  executeBatch_body o pk options h
  = match executeBatch_payments o pk options h with
    | (Ok batch, e1) =>
        (Ok batch,
         e1 ++ invoice_events o pk (opt_teamId options)
                 (filter is_paid (bp_recipients batch)) (h ++ e1))
    | (Throw t, e1) => (Throw t, e1)
    end.
Proof.
  unfold executeBatch_body, bind at 1.
  destruct (executeBatch_payments o pk options h) as [[batch|t] e1]; [|reflexivity].
  unfold bind. rewrite createInvoices_run. unfold ret. rewrite app_nil_r. reflexivity.
Qed.

Lemma payments_ignore_saveInvoice (o : Oracle) f (pk : string)
  (options : ExecuteBatchOptions) (h : Trace) :
  executeBatch_payments (with_saveInvoice o f) pk options h
  = executeBatch_payments o pk options h.
Proof. reflexivity. Qed.

Lemma invoice_events_ignore_saveInvoice (o : Oracle) f (pk : string) (teamId : option string)
  (rs : list BatchRecipient) (h : Trace) :
  invoice_events (with_saveInvoice o f) pk teamId rs h = invoice_events o pk teamId rs h.
Proof.
  revert h. induction rs as [|r rest IH]; intros h; [reflexivity|].
  cbn [invoice_events]. rewrite IH. reflexivity.
Qed.

(** [C10] Whatever [saveInvoice] answers, to whichever of its calls,
    [executeBatch] returns the same batch and makes the same calls: a failed
    invoice write changes neither the batch that was already computed and
    saved nor the invoice writes that follow.  In a batch that is returned,
    every recipient is paid with a signature or failed with a message, and
    there is one [saveInvoice] call per paid recipient, in order, carrying the
    recipient's wallet, amount and signature. *)
Theorem invoice_failure_swallowed (o : Oracle)
  (failing : Trace -> Invoice -> Answer unit)
  (w : Wallet) (options : ExecuteBatchOptions) (h : Trace) batch err evs :
  executeBatch o w options h = ((Some batch, err), evs) ->
  executeBatch (with_saveInvoice o failing) w options h = ((Some batch, err), evs) /\
  saved_batches evs = [batch] /\
  Forall (fun r => (br_status r = paid /\ exists s, br_txSignature r = Some s)
                   \/ (br_status r = failed /\ exists m, br_error r = Some m))
         (bp_recipients batch) /\
  Forall2 (fun r i => inv_recipient i = br_wallet r /\ inv_amount i = br_amount r /\
                      inv_txSignature i = br_txSignature r /\ inv_status i = inv_paid /\
                      inv_sender i = bp_creatorWallet batch)
          (filter is_paid (bp_recipients batch)) (saved_invoices evs).
Proof.
  intros H. split.
  - rewrite <- H. unfold executeBatch.
    destruct (publicKey w) as [pk|]; [|reflexivity].
    destruct (connected w && signTransaction w); [|reflexivity].
    rewrite !executeBatch_body_run, payments_ignore_saveInvoice.
    destruct (executeBatch_payments o pk options h) as [[b|t] e1]; [|reflexivity].
    rewrite invoice_events_ignore_saveInvoice. reflexivity.
  - unfold executeBatch in H.
    destruct (publicKey w) as [pk|]; [|discriminate].
    destruct (connected w && signTransaction w); [|discriminate].
    rewrite executeBatch_body_run in H.
    destruct (executeBatch_payments o pk options h) as [[b|t] e1] eqn:Hp; [|discriminate].
    inversion H; subst b err evs; clear H.
    assert (Hcreator : bp_creatorWallet batch = pk).
    { unfold executeBatch_payments in Hp.
      destruct (List.length _ =? 0)%nat; [discriminate|].
      apply bind_inv_ok in Hp. destruct Hp as (a & e & e' & _ & Hp & _).
      apply bind_inv_ok in Hp. destruct Hp as (a1 & e1' & e1'' & _ & Hp & _).
      apply bind_inv_ok in Hp. destruct Hp as (a2 & e2' & e2'' & _ & Hp & _).
      apply bind_inv_ok in Hp. destruct Hp as (a3 & e3' & e3'' & _ & Hp & _).
      apply bind_inv_ok in Hp. destruct Hp as (a4 & e4' & e4'' & _ & Hp & _).
      apply bind_inv_ok in Hp. destruct Hp as (a5 & e5' & e5'' & _ & Hp & _).
      inversion Hp. reflexivity. }
    apply executeBatch_payments_run in Hp.
    destruct Hp as (_ & I1 & _ & Hb).
    destruct (Hb batch eq_refl) as (_ & h1 & settled & Hs & Hr & _ & Hsaved).
    destruct (invoice_events_saved o pk (opt_teamId options)
                (filter is_paid (bp_recipients batch)) (h ++ e1)) as (F & _ & B).
    unfold saved_batches in *.
    rewrite saved_invoices_app, flat_map_app, I1, Hsaved, B, Hcreator.
    split; [reflexivity|]. split; [|exact F].
    rewrite Hr. apply (settled_statuses _ _ Hs).
Qed.

Lemma executeBatch_returned (o : Oracle) (w : Wallet) (options : ExecuteBatchOptions)
  (h : Trace) batch err evs :
  executeBatch o w options h = ((Some batch, err), evs) ->
  exists pk e1,
    publicKey w = Some pk /\ err = None /\
    executeBatch_payments o pk options h = (Ok batch, e1) /\
    evs = e1 ++ invoice_events o pk (opt_teamId options)
                  (filter is_paid (bp_recipients batch)) (h ++ e1).
Proof.
  unfold executeBatch. intros H.
  destruct (publicKey w) as [pk|]; [|discriminate].
  destruct (connected w && signTransaction w); [|discriminate].
  rewrite executeBatch_body_run in H.
  destruct (executeBatch_payments o pk options h) as [[b|t] e1] eqn:Hp; [|discriminate].
  inversion H; subst. exists pk, e1. auto.
Qed.

(** [C4] In every batch that [executeBatch] returns, the status is
    [completed] exactly when every recipient is paid, [failed] exactly when
    none is, and [partial] exactly when some are paid and some are not; every
    recipient has left the [pending] state, and the recipients are the
    validated requests, one outcome each, in order. *)
Theorem batch_status_derivation (o : Oracle) (w : Wallet) (options : ExecuteBatchOptions)
  (h : Trace) batch err evs :
  executeBatch o w options h = ((Some batch, err), evs) ->
  let outcomes := bp_recipients batch in
  (bp_status batch = batch_completed <-> Forall (fun r => br_status r = paid) outcomes) /\
  (bp_status batch = batch_failed <-> Forall (fun r => br_status r <> paid) outcomes) /\
  (bp_status batch = batch_partial <->
     Exists (fun r => br_status r = paid) outcomes /\
     Exists (fun r => br_status r <> paid) outcomes) /\
  Forall (fun r => br_status r = paid \/ br_status r = failed) outcomes /\
  map outcome_request outcomes
  = map request_of (filter isSanitized (opt_recipients options)) /\
  outcomes <> [].
Proof.
  intros H outcomes. apply executeBatch_returned in H.
  destruct H as (pk & e1 & _ & _ & Hp & _).
  apply executeBatch_payments_run in Hp. destruct Hp as (_ & _ & _ & Hb).
  destruct (Hb batch eq_refl) as (Hne & h1 & settled & Hs & Hr & Hst & _).
  assert (Hreq : map outcome_request outcomes
                 = map request_of (filter isSanitized (opt_recipients options))).
  { subst outcomes. rewrite Hr, (settled_requests _ _ Hs).
    apply newBatchRecipients_requests. }
  assert (Hout : outcomes <> []).
  { intros C. rewrite C in Hreq. simpl in Hreq. symmetry in Hreq.
    apply map_eq_nil in Hreq. contradiction. }
  subst outcomes. rewrite Hst, <- Hr.
  destruct (deriveStatus_spec (bp_recipients batch) Hout) as (D1 & D2 & D3).
  split; [exact D1|]. split; [exact D2|]. split; [exact D3|].
  split; [|split; assumption].
  rewrite Hr. eapply Forall_impl; [|exact (settled_statuses _ _ Hs)].
  intros r [[Hpd _]|[Hf _]]; auto.
Qed.

(** With no request that passes the filter, [executeBatch] resolves to
    [null] with [INVALID_ADDRESS] and makes no call at all; otherwise every
    transfer that is ever attempted and every invoice that is written is for
    a request that passed, and the batch that is returned lists exactly
    those requests. *)
Lemma executeBatch_for_kept_requests (o : Oracle) (w : Wallet) (options : ExecuteBatchOptions)
  (h : Trace) (pk : string) :
  publicKey w = Some pk -> connected w && signTransaction w = true ->
  let validated := filter isSanitized (opt_recipients options) in
  let is_validated (wallet : string) (amount : Js.number) :=
    exists request,
      In request (opt_recipients options) /\
      wallet = bri_wallet request /\ amount = bri_amount request /\
      Js.gt amount (Js.Number 0) = true /\ isValidPublicKey wallet = true in
  let '((returned, err), evs) := executeBatch o w options h in
  (validated = [] ->
   returned = None /\ err = Some (newSentoError INVALID_ADDRESS) /\ evs = []) /\
  Forall (fun c => fst (fst c) = pk /\ is_validated (snd (fst c)) (snd c))
         (transfer_calls evs) /\
  Forall (fun i => is_validated (inv_recipient i) (inv_amount i)) (saved_invoices evs) /\
  (forall batch, returned = Some batch ->
     map outcome_request (bp_recipients batch) = map request_of validated).
Proof.
  intros Hpk Hconn validated is_validated.
  assert (Hval : forall c, to_validated pk options c ->
                           fst (fst c) = pk /\ is_validated (snd (fst c)) (snd c)).
  { intros c (request & Hin & Hs & ->). simpl. split; [reflexivity|].
    exists request. unfold isSanitized in Hs. apply andb_true_iff in Hs.
    destruct Hs as [Hg Hv]. auto. }
  destruct (executeBatch o w options h) as [[returned err] evs] eqn:E.
  split.
  { intros Hnone. unfold executeBatch in E. rewrite Hpk, Hconn in E.
    rewrite executeBatch_body_run in E.
    destruct (executeBatch_payments o pk options h) as [r e1] eqn:Hp.
    apply executeBatch_payments_run in Hp. destruct Hp as (_ & _ & Hn & _).
    destruct (Hn Hnone) as [-> ->]. inversion E; subst. auto. }
  assert (G : Forall (to_validated pk options) (transfer_calls evs) /\
              Forall (fun i => is_validated (inv_recipient i) (inv_amount i))
                     (saved_invoices evs)).
  { unfold executeBatch in E. rewrite Hpk, Hconn in E.
    rewrite executeBatch_body_run in E.
    destruct (executeBatch_payments o pk options h) as [r e1] eqn:Hp.
    apply executeBatch_payments_run in Hp. destruct Hp as (Hv & I1 & _ & Hb).
    destruct r as [batch|t]; inversion E; subst; clear E.
    - destruct (invoice_events_saved o pk (opt_teamId options)
                  (filter is_paid (bp_recipients batch)) (h ++ e1)) as (F & T & _).
      rewrite transfer_calls_app, saved_invoices_app, T, I1, app_nil_r. simpl.
      split; [exact Hv|].
      destruct (Hb batch eq_refl) as (_ & h1 & settled & Hs & Hr & _ & _).
      assert (Hreq : map outcome_request (bp_recipients batch)
                     = map request_of (filter isSanitized (opt_recipients options))).
      { rewrite Hr, (settled_requests _ _ Hs). apply newBatchRecipients_requests. }
      assert (Hall : Forall (fun r => is_validated (br_wallet r) (br_amount r))
                            (filter is_paid (bp_recipients batch))).
      { apply Forall_forall. intros r Hr'. apply filter_In in Hr'. destruct Hr' as [Hr' _].
        assert (Hin : In (outcome_request r)
                         (map request_of (filter isSanitized (opt_recipients options)))).
        { rewrite <- Hreq. apply in_map. exact Hr'. }
        apply in_map_iff in Hin. destruct Hin as (request & Heq & Hf).
        apply filter_In in Hf. destruct Hf as [Hi Hsan].
        unfold request_of, outcome_request in Heq. inversion Heq.
        exists request. unfold isSanitized in Hsan. apply andb_true_iff in Hsan.
        destruct Hsan as [Hg Hvk]. auto. }
      clear - F Hall. revert F Hall.
      generalize (saved_invoices
                    (invoice_events o pk (opt_teamId options)
                       (filter is_paid (bp_recipients batch)) (h ++ e1))).
      generalize (filter is_paid (bp_recipients batch)).
      induction 1 as [|r i rs invs (Hw & Ha & _) _ IH]; intros Hall; constructor.
      + inversion Hall; subst. rewrite Hw, Ha. assumption.
      + apply IH. inversion Hall; assumption.
    - rewrite I1. split; [exact Hv|constructor]. }
  destruct G as [G1 G2].
  split; [eapply Forall_impl; [|exact G1]; exact Hval|].
  split; [exact G2|].
  intros batch ->.
  apply executeBatch_returned in E.
  destruct E as (pk' & e1 & _ & _ & Hp & _).
  apply executeBatch_payments_run in Hp. destruct Hp as (_ & _ & _ & Hb).
  destruct (Hb batch eq_refl) as (_ & h1 & settled & Hs & Hr & _ & _).
  rewrite Hr, (settled_requests _ _ Hs). apply newBatchRecipients_requests.
Qed.

Lemma filter_idempotent {A : Type} (f : A -> bool) (l : list A) :
  filter f (filter f l) = filter f l.
Proof.
  induction l as [|a l IH]; [reflexivity|]. cbn [filter].
  destruct (f a) eqn:E; [|exact IH]. cbn [filter]. rewrite E, IH. reflexivity.
Qed.

(** The requests that the filter drops leave no trace: the run is the run
    of the batch without them. *)
Lemma executeBatch_without_dropped (o : Oracle) (w : Wallet) (options : ExecuteBatchOptions)
  (h : Trace) :
  executeBatch o w
    (mkExecuteBatchOptions (filter isSanitized (opt_recipients options))
       (opt_teamId options) (opt_proofHash options)) h
  = executeBatch o w options h.
Proof.
  unfold executeBatch, executeBatch_body, executeBatch_payments.
  cbn [opt_recipients opt_teamId opt_proofHash].
  rewrite filter_idempotent. reflexivity.
Qed.

(** A transfer is only ever attempted to a destination that decodes to a
    key. *)
Lemma processRecipients_decoded (o : Oracle) (pk : string) (rs : list BatchRecipient) :
  forall h settled evs,
    processRecipients o pk rs h = (Ok settled, evs) ->
    Forall (fun c => decodesToPublicKey o (snd (fst c)) = true) (transfer_calls evs).
Proof.
  induction rs as [|r rest IH]; intros h settled evs H.
  - inversion H; subst. constructor.
  - cbn [processRecipients] in H. unfold bind at 1 in H.
    destruct (processRecipient_settles o pk r h) as (r' & e1 & H1 & S1 & A1).
    rewrite H1 in H. unfold bind at 1 in H. unfold sleep, emit in H.
    unfold bind at 1 in H.
    destruct (processRecipients o pk rest ((h ++ e1) ++ [E_sleep 500]))
      as [[rest'|t] e2] eqn:H2; [|discriminate].
    unfold ret in H. inversion H; subst; clear H.
    pose proof (IH _ _ _ H2) as IH1.
    destruct A1 as (_ & _ & A1).
    destruct (decodesToPublicKey o (br_wallet r)) eqn:Hd.
    + rewrite !transfer_calls_app. simpl. rewrite app_nil_r.
      apply Forall_app. split; [|exact IH1].
      eapply Forall_impl; [|exact A1]. intros c <-. exact Hd.
    + rewrite (processRecipient_undecodable o pk r h Hd) in H1.
      inversion H1; subst.
      rewrite !transfer_calls_app. simpl. rewrite app_nil_r. exact IH1.
Qed.

Lemma executeBatch_payments_decoded (o : Oracle) (pk : string)
  (options : ExecuteBatchOptions) (h : Trace) r evs :
  executeBatch_payments o pk options h = (r, evs) ->
  Forall (fun c => decodesToPublicKey o (snd (fst c)) = true) (transfer_calls evs).
Proof.
  intros H. unfold executeBatch_payments in H.
  set (sanitized := filter isSanitized (opt_recipients options)) in *.
  destruct (List.length sanitized =? 0)%nat.
  { inversion H; subst. constructor. }
  apply bind_inv in H.
  destruct H as [(t & Ht & ->)|(required & e0 & e0' & Hreq & H & ->)].
  { unfold BigInt in Ht. destruct (Js.toInteger _); inversion Ht; subst. constructor. }
  assert (E0 : e0 = []).
  { unfold BigInt in Hreq. destruct (Js.toInteger _); inversion Hreq; reflexivity. }
  subst e0. rewrite app_nil_r in H. simpl app.
  apply bind_inv in H.
  destruct H as [(t & Ht & ->)|(cb & e1 & e1' & Hc & H & ->)].
  { apply autoCompress_quiet in Ht. destruct Ht as (T1 & _).
    rewrite T1. constructor. }
  apply autoCompress_quiet in Hc. destruct Hc as (T1 & _).
  unfold bind at 1 in H. unfold history at 1 in H. rewrite app_nil_r in H.
  simpl app in H.
  destruct (processRecipients_settle o pk (newBatchRecipients o (h ++ e1) sanitized)
              (h ++ e1)) as (settled & e2 & Hp & _ & _).
  pose proof (processRecipients_decoded o pk _ _ _ _ Hp) as D1.
  unfold bind at 1 in H. rewrite Hp in H.
  unfold bind at 1 in H. unfold history at 1 in H. rewrite app_nil_r in H.
  simpl app in H.
  unfold bind, call, ret in H.
  destruct (saveBatchPayment o _ _) as [u|x]; inversion H; subst; clear H.
  all: rewrite ?transfer_calls_app, ?T1; simpl; rewrite ?app_nil_r; exact D1.
Qed.

(** [C7] The requests of a batch are filtered up front: those with an
    amount that is not positive or a destination that is not 32 to 44 base58
    characters are dropped before any call is made.  They leave no trace: the
    run, with every call and the result, is the run of the batch without
    them.  When no request is kept, [executeBatch] resolves to [null] with
    [INVALID_ADDRESS] and makes no call at all.  Every transfer that is ever
    attempted (first attempt or retry) goes to a kept request, and to a
    destination that decodes to a key; every invoice written is for a kept
    request, and the batch returned lists exactly the kept requests. *)
Theorem batch_validation (o : Oracle) (w : Wallet) (options : ExecuteBatchOptions)
  (h : Trace) (pk : string) :
  publicKey w = Some pk -> connected w && signTransaction w = true ->
  let passes (request : BatchRecipientInput) :=
    Js.gt (bri_amount request) (Js.Number 0) && isValidPublicKey (bri_wallet request) in
  let kept := filter passes (opt_recipients options) in
  let '((returned, err), evs) := executeBatch o w options h in
  executeBatch o w
    (mkExecuteBatchOptions kept (opt_teamId options) (opt_proofHash options)) h
  = ((returned, err), evs) /\
  (kept = [] ->
   returned = None /\ err = Some (newSentoError INVALID_ADDRESS) /\ evs = []) /\
  Forall (fun c => exists request,
              In request kept /\
              c = (pk, bri_wallet request, bri_amount request) /\
              decodesToPublicKey o (bri_wallet request) = true)
         (transfer_calls evs) /\
  Forall (fun i => exists request,
              In request kept /\
              inv_recipient i = bri_wallet request /\ inv_amount i = bri_amount request)
         (saved_invoices evs) /\
  (forall batch, returned = Some batch ->
     map outcome_request (bp_recipients batch) = map request_of kept).
Proof.
  intros Hpk Hconn passes kept.
  change passes with isSanitized in kept.
  pose proof (executeBatch_for_kept_requests o w options h pk Hpk Hconn) as K.
  cbv zeta in K.
  pose proof (executeBatch_without_dropped o w options h) as Hsame.
  destruct (executeBatch o w options h) as [[returned err] evs] eqn:E.
  destruct K as (K0 & K1 & K2 & K3).
  assert (D1 : Forall (fun c => decodesToPublicKey o (snd (fst c)) = true)
                      (transfer_calls evs)).
  { unfold executeBatch in E. rewrite Hpk, Hconn in E.
    rewrite executeBatch_body_run in E.
    destruct (executeBatch_payments o pk options h) as [r e1] eqn:Hp.
    apply executeBatch_payments_decoded in Hp.
    destruct r as [batch|t]; inversion E; subst; clear E; [|exact Hp].
    destruct (invoice_events_saved o pk (opt_teamId options)
                (filter is_paid (bp_recipients batch)) (h ++ e1)) as (_ & T & _).
    rewrite transfer_calls_app, T, app_nil_r. exact Hp. }
  split; [exact Hsame|]. split; [exact K0|]. split; [|split].
  - rewrite Forall_forall in K1, D1. apply Forall_forall. intros c Hc.
    destruct (K1 c Hc) as (Hfrom & request & Hin & Hw & Ha & Hg & Hv).
    exists request. split.
    { apply filter_In. split; [exact Hin|]. unfold isSanitized.
      rewrite <- Hw, <- Ha, Hg, Hv. reflexivity. }
    split.
    { destruct c as [[c1 c2] c3]. simpl in *. subst. reflexivity. }
    rewrite <- Hw. apply D1. exact Hc.
  - eapply Forall_impl; [|exact K2].
    intros i (request & Hin & Hw & Ha & Hg & Hv).
    exists request. split; [|split; assumption].
    apply filter_In. split; [exact Hin|]. unfold isSanitized.
    rewrite <- Hw, <- Ha, Hg, Hv. reflexivity.
  - exact K3.
Qed.

(** ** The single payment *)

(** Before the transfers: no transfer is attempted; when the phase ends
    well it yields the recipient of the invoice and, exactly when the fee is
    positive, the fee wallet. *)
Lemma payInvoice_prepare_run (o : Oracle) (cfg : Config) (pk : string) (invoice : Invoice)
  (h : Trace) r evs :
  payInvoice_prepare o cfg pk invoice h = (r, evs) ->
  transfer_calls evs = [] /\
  (forall prepared, r = Ok prepared ->
     fst prepared = inv_recipient invoice /\
     snd prepared = if Js.gt (feeLamports cfg (inv_amount invoice)) (Js.Number 0)
                    then Some (PLATFORM_FEE_WALLET cfg) else None) /\
  (forall t, r = Throw t ->
     foreign t \/ t = TSento (newSentoError INVALID_ADDRESS) \/
     exists required,
       Js.toInteger (totalLamports cfg (inv_amount invoice)) = Some required /\
       autoCompress o pk required h = (Throw t, evs)).
Proof.
  unfold payInvoice_prepare. intros H.
  apply bind_inv in H.
  destruct H as [(t & Ht & ->)|(rp & e0 & e0' & Hrp & H & ->)].
  { unfold newPublicKey in Ht. destruct (decodesToPublicKey o _); inversion Ht; subst.
    split; [reflexivity|]. split; [intros p Hp; discriminate|].
    intros t Ht'. inversion Ht'; subst. left. exact I. }
  assert (E0 : e0 = [] /\ rp = inv_recipient invoice).
  { unfold newPublicKey in Hrp. destruct (decodesToPublicKey o _); inversion Hrp; auto. }
  destruct E0 as [-> ->]. rewrite app_nil_r in H. simpl app.
  apply bind_inv in H.
  destruct H as [(t & Ht & ->)|(required & e1 & e1' & Hreq & H & ->)].
  { unfold BigInt in Ht. destruct (Js.toInteger _); inversion Ht; subst.
    split; [reflexivity|]. split; [intros p Hp; discriminate|].
    intros t Ht'. inversion Ht'; subst. left. exact I. }
  assert (E1 : e1 = []).
  { unfold BigInt in Hreq. destruct (Js.toInteger _); inversion Hreq; reflexivity. }
  subst e1. rewrite app_nil_r in H. simpl app.
  apply bind_inv in H.
  destruct H as [(t & Ht & ->)|(cb & e2 & e2' & Hc & H & ->)].
  { pose proof (autoCompress_quiet _ _ _ _ _ _ Ht) as (T & _).
    split; [exact T|]. split; [intros p Hp; discriminate|].
    intros t' Ht'. inversion Ht'; subst. right. right. exists required.
    split; [|exact Ht].
    unfold BigInt in Hreq. destruct (Js.toInteger _); inversion Hreq; reflexivity. }
  pose proof (autoCompress_quiet _ _ _ _ _ _ Hc) as (T & _).
  rewrite transfer_calls_app, T. simpl app.
  apply bind_inv in H.
  destruct H as [(t & Ht & ->)|(fr & e3 & e3' & Hf & H & ->)].
  { destruct (Js.gt (feeLamports cfg (inv_amount invoice)) (Js.Number 0)).
    - destruct (Str.isEmpty (PLATFORM_FEE_WALLET cfg)
                || negb (isValidPublicKey (PLATFORM_FEE_WALLET cfg))).
      + inversion Ht; subst.
        split; [reflexivity|]. split; [intros p Hp; discriminate|].
        intros t' Ht'. inversion Ht'; subst. right. left. reflexivity.
      + unfold bind, newPublicKey in Ht.
        destruct (decodesToPublicKey o _); inversion Ht; subst.
        split; [reflexivity|]. split; [intros p Hp; discriminate|].
        intros t' Ht'. inversion Ht'; subst. left. exact I.
    - inversion Ht. }
  inversion H; subst. rewrite app_nil_r.
  assert (E3 : e3 = [] /\
               fr = if Js.gt (feeLamports cfg (inv_amount invoice)) (Js.Number 0)
                    then Some (PLATFORM_FEE_WALLET cfg) else None).
  { destruct (Js.gt (feeLamports cfg (inv_amount invoice)) (Js.Number 0)).
    - destruct (Str.isEmpty (PLATFORM_FEE_WALLET cfg)
                || negb (isValidPublicKey (PLATFORM_FEE_WALLET cfg))); [discriminate|].
      unfold bind, newPublicKey in Hf.
      destruct (decodesToPublicKey o _); inversion Hf; auto.
    - inversion Hf; auto. }
  destruct E3 as [-> ->]. split; [reflexivity|].
  split; [|intros t Ht; discriminate].
  intros p Hp. inversion Hp; subst. simpl. auto.
Qed.

Lemma payInvoice_transfers_run (o : Oracle) (cfg : Config) (pk : string) (invoice : Invoice)
  (recipientPubkey : string) (feeRecipient : option string) (h : Trace) :
  payInvoice_transfers o cfg pk invoice recipientPubkey feeRecipient h
  = match transferCompressedSOL o pk recipientPubkey (inv_amount invoice) h with
    | (Throw e, evsA) => (Throw e, evsA)
    | (Ok signature, evsA) =>
        match feeRecipient with
        | Some feeWallet =>
            if Js.gt (feeLamports cfg (inv_amount invoice)) (Js.Number 0) then
              match transferCompressedSOL o pk feeWallet
                      (feeLamports cfg (inv_amount invoice)) (h ++ evsA) with
              | (Ok _, evsF) => (Ok signature, evsA ++ evsF)
              | (Throw e, evsF) => (Throw e, evsA ++ evsF)
              end
            else (Ok signature, evsA)
        | None => (Ok signature, evsA)
        end
    end.
Proof.
  unfold payInvoice_transfers, bind at 1.
  destruct (transferCompressedSOL o pk recipientPubkey (inv_amount invoice) h)
    as [[signature|e] evsA]; [|reflexivity].
  destruct feeRecipient as [feeWallet|]; [|unfold ret; rewrite app_nil_r; reflexivity].
  destruct (Js.gt (feeLamports cfg (inv_amount invoice)) (Js.Number 0));
    [|unfold ret; rewrite app_nil_r; reflexivity].
  unfold bind.
  destruct (transferCompressedSOL o pk feeWallet _ (h ++ evsA)) as [[s|e] evsF];
    [|reflexivity].
  unfold ret. rewrite app_nil_r. reflexivity.
Qed.

(** [C6] In [payInvoice] the fee leg is attempted only after the amount leg
    has returned a signature, and only when the fee is positive.  If the fee
    leg throws, the payment resolves to a failure carrying the user message of
    that error, and nothing follows the fee leg in the trace: no transfer back,
    no further call. *)
Theorem fee_leg_after_amount_leg (o : Oracle) (cfg : Config) (w : Wallet)
  (error0 : option SentoError) (invoice : Invoice) (h : Trace) (pk : string) :
  publicKey w = Some pk -> connected w && signTransaction w = true ->
  let fee := feeLamports cfg (inv_amount invoice) in
  let '((result, err), evs) := payInvoice o cfg w error0 invoice h in
  exists pre legs,
    evs = pre ++ legs /\ transfer_calls pre = [] /\
    ((legs = [] /\ success result = false)
     \/
     exists rA evsA,
       transferCompressedSOL o pk (inv_recipient invoice) (inv_amount invoice) (h ++ pre)
       = (rA, evsA) /\
       match rA with
       | Throw e =>
           legs = evsA /\ result = payment_failed e /\ err = Some (parseError e)
       | Ok signature =>
           if Js.gt fee (Js.Number 0) then
             exists rF evsF,
               transferCompressedSOL o pk (PLATFORM_FEE_WALLET cfg) fee (h ++ pre ++ evsA)
               = (rF, evsF) /\
               legs = evsA ++ evsF /\
               transfer_calls legs
               = [(pk, inv_recipient invoice, inv_amount invoice);
                  (pk, PLATFORM_FEE_WALLET cfg, fee)] /\
               match rF with
               | Ok _ => result = payment_succeeded signature /\ err = None
               | Throw e => result = payment_failed e /\ err = Some (parseError e)
               end
           else
             legs = evsA /\ result = payment_succeeded signature /\ err = None
       end).
Proof.
  intros Hpk Hconn fee. unfold payInvoice. rewrite Hpk, Hconn.
  unfold payInvoice_body, bind.
  destruct (payInvoice_prepare o cfg pk invoice h) as [[prepared|t] pre] eqn:Hprep.
  - apply payInvoice_prepare_run in Hprep. destruct Hprep as (T & Hp & _).
    destruct (Hp prepared eq_refl) as [Hrp Hfr]. rewrite Hrp, Hfr.
    rewrite payInvoice_transfers_run. fold fee.
    destruct (transferCompressedSOL o pk (inv_recipient invoice) (inv_amount invoice)
                (h ++ pre)) as [[signature|e] evsA] eqn:HA.
    + destruct (Js.gt fee (Js.Number 0)) eqn:Hfee.
      * destruct (transferCompressedSOL o pk (PLATFORM_FEE_WALLET cfg) fee
                    ((h ++ pre) ++ evsA)) as [[s|e] evsF] eqn:HF.
        -- exists pre, (evsA ++ evsF). split; [reflexivity|]. split; [exact T|].
           right. exists (Ok signature), evsA. split; [exact HA|].
           exists (Ok s), evsF. rewrite <- app_assoc in HF.
           split; [exact HF|]. split; [reflexivity|].
           apply transfer_observations in HA, HF.
           destruct HA as (CA & _), HF as (CF & _).
           rewrite transfer_calls_app, CA, CF. split; [reflexivity|]. auto.
        -- exists pre, (evsA ++ evsF). split; [reflexivity|]. split; [exact T|].
           right. exists (Ok signature), evsA. split; [exact HA|].
           exists (Throw e), evsF. rewrite <- app_assoc in HF.
           split; [exact HF|]. split; [reflexivity|].
           apply transfer_observations in HA, HF.
           destruct HA as (CA & _), HF as (CF & _).
           rewrite transfer_calls_app, CA, CF. split; [reflexivity|]. auto.
      * exists pre, evsA. split; [reflexivity|]. split; [exact T|].
        right. exists (Ok signature), evsA. split; [exact HA|].
        auto.
    + exists pre, evsA. split; [reflexivity|]. split; [exact T|].
      right. exists (Throw e), evsA. split; [exact HA|]. auto.
  - apply payInvoice_prepare_run in Hprep. destruct Hprep as (T & _).
    exists pre, []. rewrite app_nil_r. split; [reflexivity|]. split; [exact T|].
    left. split; reflexivity.
Qed.

(** [C5] For an invoice of [a] lamports (a safe integer, the total too),
    the fee that [payInvoice] computes in binary64 is exactly
    [floor(a * 5 / 1000)] when the platform fee is enabled and [0] when it is
    not; the total is [a] plus that fee; and this total is the amount the
    auto-compress block is asked to ensure. *)
Theorem total_required (o : Oracle) (cfg : Config) (pk : string) (invoice : Invoice)
  (a : Z) :
  inv_amount invoice = Js.Number a ->
  0 <= a -> a + a * 5 / 1000 < 2 ^ 53 ->
  let fee := if PLATFORM_FEE_ENABLED cfg then a * 5 / 1000 else 0 in
  feeLamports cfg (inv_amount invoice) = Js.Number fee /\
  totalLamports cfg (inv_amount invoice) = Js.Number (a + fee) /\
  Js.toInteger (totalLamports cfg (inv_amount invoice)) = Some (a + fee) /\
  (decodesToPublicKey o (inv_recipient invoice) = true ->
   forall h r evs,
     payInvoice_prepare o cfg pk invoice h = (r, evs) ->
     exists r0 evs0,
       autoCompress o pk (a + fee) h = (r0, evs0) /\
       match r0 with
       | Throw t => r = Throw t /\ evs = evs0
       | Ok _ => exists rest, evs = evs0 ++ rest
       end).
Proof.
  intros Ha Ha0 Hsum fee.
  assert (Hq : a * 5 / 1000 = a / 200).
  { change 1000 with (200 * 5). apply Z.div_mul_cancel_r; lia. }
  assert (Hq0 : 0 <= a / 200) by (apply Z.div_pos; lia).
  assert (Hfee : feeLamports cfg (inv_amount invoice) = Js.Number fee).
  { unfold feeLamports, fee. destruct (PLATFORM_FEE_ENABLED cfg); [|reflexivity].
    rewrite Ha, Hq. apply floor_fee. unfold safe. lia. }
  assert (Hfee0 : 0 <= fee /\ a + fee < 2 ^ 53).
  { unfold fee. destruct (PLATFORM_FEE_ENABLED cfg); lia. }
  assert (Htot : totalLamports cfg (inv_amount invoice) = Js.Number (a + fee)).
  { unfold totalLamports. rewrite Hfee, Ha. apply add_Number; lia. }
  assert (Hint : Js.toInteger (totalLamports cfg (inv_amount invoice)) = Some (a + fee)).
  { rewrite Htot. apply toInteger_Number. unfold safe. lia. }
  split; [exact Hfee|]. split; [exact Htot|]. split; [exact Hint|].
  intros Hdec h r evs H. unfold payInvoice_prepare in H.
  unfold bind at 1 in H. unfold newPublicKey in H. rewrite Hdec in H.
  unfold ret at 1 in H. rewrite app_nil_r in H.
  unfold bind at 1 in H. unfold BigInt in H. rewrite Hint in H.
  unfold ret at 1 in H. rewrite app_nil_r in H. simpl app in H.
  unfold bind at 1 in H.
  destruct (autoCompress o pk (a + fee) h) as [[cb|t] evs0] eqn:Hc.
  - exists (Ok cb), evs0. split; [reflexivity|].
    match type of H with
    | context [?k (h ++ evs0)] => destruct (k (h ++ evs0)) as [r' rest]
    end.
    inversion H; subst. exists rest. reflexivity.
  - exists (Throw t), evs0. split; [reflexivity|]. inversion H; subst. auto.
Qed.

(** ** Insufficient public balance *)

Lemma executeBatch_payments_thrown (o : Oracle) (pk : string) (options : ExecuteBatchOptions)
  (h : Trace) t evs :
  executeBatch_payments o pk options h = (Throw t, evs) ->
  foreign t \/ t = TSento (newSentoError INVALID_ADDRESS) \/
  exists required,
    Js.toInteger (aggregate options) = Some required /\
    autoCompress o pk required h = (Throw t, evs).
Proof.
  unfold executeBatch_payments. fold (aggregate options). intros H.
  destruct (List.length (filter isSanitized (opt_recipients options)) =? 0)%nat.
  { inversion H; subst. right. left. reflexivity. }
  apply bind_inv in H.
  destruct H as [(t' & Ht & E)|(required & e0 & e0' & Hreq & H & ->)].
  { inversion E; subst t'. unfold BigInt in Ht.
    destruct (Js.toInteger _); inversion Ht; subst. left. exact I. }
  assert (E0 : e0 = [] /\ Js.toInteger (aggregate options) = Some required).
  { unfold BigInt in Hreq. destruct (Js.toInteger _); inversion Hreq; auto. }
  destruct E0 as [-> Hint]. rewrite app_nil_r in H. simpl app.
  apply bind_inv in H.
  destruct H as [(t' & Ht & E)|(cb & e1 & e1' & Hc & H & ->)].
  { inversion E; subst t'. right. right. exists required. auto. }
  unfold bind at 1 in H. unfold history at 1 in H. rewrite app_nil_r in H.
  simpl app in H.
  destruct (processRecipients_settle o pk
              (newBatchRecipients o (h ++ e1)
                 (filter isSanitized (opt_recipients options))) (h ++ e1))
    as (settled & e2 & Hp & _ & _).
  unfold bind at 1 in H. rewrite Hp in H.
  unfold bind at 1 in H. unfold history at 1 in H. rewrite app_nil_r in H.
  simpl app in H. unfold bind, call, ret in H.
  destruct (saveBatchPayment o _ _) as [u|x]; inversion H; subst.
  left. apply foreign_thrown_of.
Qed.

(** How [executeBatch] can end: without an error, with an error that has no
    context, or with the error of the balance check, after two reads and
    nothing else. *)
Lemma executeBatch_failure_kinds (o : Oracle) (w : Wallet) (pk : string)
  (options : ExecuteBatchOptions) (h : Trace) returned err evs :
  publicKey w = Some pk -> connected w && signTransaction w = true ->
  executeBatch o w options h = ((returned, err), evs) ->
  (forall e, err = Some e -> context e = None) \/
  (exists required wb,
     let totalNeeded :=
       Js.add (Js.Number (required - compressedBalance_at o pk h)) FEE_RESERVE in
     Js.toInteger (aggregate options) = Some required /\
     compressedBalance_at o pk h < required /\
     getBalance o (h ++ [E_getCompressedAccountsByOwner pk]) pk = Returns wb /\
     Js.lt wb totalNeeded = true /\
     err = Some (insufficientBalance wb totalNeeded) /\
     returned = None /\
     evs = [E_getCompressedAccountsByOwner pk; E_getBalance pk]).
Proof.
  intros Hpk Hconn H. unfold executeBatch in H. rewrite Hpk, Hconn in H.
  rewrite executeBatch_body_run in H.
  destruct (executeBatch_payments o pk options h) as [[batch|t] e1] eqn:Hp.
  - inversion H; subst. left. intros e He. discriminate.
  - inversion H; subst. apply executeBatch_payments_thrown in Hp.
    destruct Hp as [Hf|[->|(required & Hint & Hc)]].
    + left. intros e He. inversion He; subst. apply foreign_context. exact Hf.
    + left. intros e He. inversion He; subst. reflexivity.
    + pose proof (autoCompress_quiet _ _ _ _ _ _ Hc) as (_ & _ & _ & Ht).
      destruct (Ht t eq_refl) as [Hf|(wb & -> & Hlt & Hb & Hw & ->)].
      * left. intros e He. inversion He; subst. apply foreign_context. exact Hf.
      * right. exists required, wb. cbv zeta. simpl parseError. auto 10.
Qed.

Lemma payInvoice_failure_kinds (o : Oracle) (cfg : Config) (w : Wallet) (pk : string)
  (error0 : option SentoError) (invoice : Invoice) (h : Trace) result err evs :
  publicKey w = Some pk -> connected w && signTransaction w = true ->
  payInvoice o cfg w error0 invoice h = ((result, err), evs) ->
  (forall e, err = Some e -> context e = None) \/
  (exists required wb,
     let totalNeeded :=
       Js.add (Js.Number (required - compressedBalance_at o pk h)) FEE_RESERVE in
     Js.toInteger (totalLamports cfg (inv_amount invoice)) = Some required /\
     compressedBalance_at o pk h < required /\
     getBalance o (h ++ [E_getCompressedAccountsByOwner pk]) pk = Returns wb /\
     Js.lt wb totalNeeded = true /\
     err = Some (insufficientBalance wb totalNeeded) /\
     result = payment_failed (TSento (insufficientBalance wb totalNeeded)) /\
     evs = [E_getCompressedAccountsByOwner pk; E_getBalance pk]).
Proof.
  intros Hpk Hconn H. unfold payInvoice in H. rewrite Hpk, Hconn in H.
  unfold payInvoice_body, bind in H.
  destruct (payInvoice_prepare o cfg pk invoice h) as [[prepared|t] pre] eqn:Hprep.
  - rewrite payInvoice_transfers_run in H.
    destruct (transferCompressedSOL o pk (fst prepared) (inv_amount invoice) (h ++ pre))
      as [[signature|e] evsA] eqn:HA.
    + destruct (snd prepared) as [feeWallet|].
      * destruct (Js.gt (feeLamports cfg (inv_amount invoice)) (Js.Number 0)).
        -- destruct (transferCompressedSOL o pk feeWallet _ ((h ++ pre) ++ evsA))
             as [[s|e] evsF] eqn:HF.
           ++ inversion H; subst. left. intros e He. discriminate.
           ++ inversion H; subst. left. intros e' He. inversion He; subst.
              apply foreign_context. apply transfer_shape in HF.
              destruct HF as (_ & _ & _ & Hf). apply Hf. reflexivity.
        -- inversion H; subst. left. intros e He. discriminate.
      * inversion H; subst. left. intros e He. discriminate.
    + inversion H; subst. left. intros e' He. inversion He; subst.
      apply foreign_context. apply transfer_shape in HA.
      destruct HA as (_ & _ & _ & Hf). apply Hf. reflexivity.
  - inversion H; subst. apply payInvoice_prepare_run in Hprep.
    destruct Hprep as (_ & _ & Ht).
    destruct (Ht t eq_refl) as [Hf|[->|(required & Hint & Hc)]].
    + left. intros e He. inversion He; subst. apply foreign_context. exact Hf.
    + left. intros e He. inversion He; subst. reflexivity.
    + pose proof (autoCompress_quiet _ _ _ _ _ _ Hc) as (_ & _ & _ & Ht').
      destruct (Ht' t eq_refl) as [Hf|(wb & -> & Hlt & Hb & Hw & ->)].
      * left. intros e He. inversion He; subst. apply foreign_context. exact Hf.
      * right. exists required, wb. cbv zeta. simpl parseError. auto 10.
Qed.

(** [C2] When a top-up is needed, a single payment and a batch fail with
    [INSUFFICIENT_BALANCE] carrying the wallet balance and the needed figure
    exactly when the public balance is below the shortfall plus the reserve of
    10,000,000 lamports; and when they do, the operation has only read the two
    balances: no compress instruction and no transfer has been attempted. *)
Theorem insufficient_balance_aborts (o : Oracle) (cfg : Config) (w : Wallet) (pk : string)
  (h : Trace) (required publicLamports : Z) :
  publicKey w = Some pk -> connected w && signTransaction w = true ->
  let privateLamports := compressedBalance_at o pk h in
  let shortfall := required - privateLamports in
  let needed := shortfall + 10000000 in
  privateLamports < required ->
  getBalance o (h ++ [E_getCompressedAccountsByOwner pk]) pk
  = Returns (Js.Number publicLamports) ->
  safe publicLamports -> needed < 2 ^ 53 ->
  let failure := insufficientBalance (Js.Number publicLamports) (Js.Number needed) in
  (forall error0 invoice,
     Js.toInteger (totalLamports cfg (inv_amount invoice)) = Some required ->
     decodesToPublicKey o (inv_recipient invoice) = true ->
     let '((result, err), evs) := payInvoice o cfg w error0 invoice h in
     (carries_both_figures err <-> publicLamports < needed) /\
     (publicLamports < needed ->
      err = Some failure /\ result = payment_failed (TSento failure) /\
      evs = [E_getCompressedAccountsByOwner pk; E_getBalance pk] /\
      transfer_calls evs = [] /\ compress_submits evs = []))
  /\
  (forall options,
     Js.toInteger (aggregate options) = Some required ->
     filter isSanitized (opt_recipients options) <> [] ->
     let '((returned, err), evs) := executeBatch o w options h in
     (carries_both_figures err <-> publicLamports < needed) /\
     (publicLamports < needed ->
      err = Some failure /\ returned = None /\
      evs = [E_getCompressedAccountsByOwner pk; E_getBalance pk] /\
      transfer_calls evs = [] /\ compress_submits evs = [])).
Proof.
  intros Hpk Hconn privateLamports shortfall needed Hshort Hbal Hsafe Hneeded failure.
  assert (Hfig : Js.add (Js.Number shortfall) FEE_RESERVE = Js.Number needed).
  { rewrite FEE_RESERVE_lamports. apply add_Number; unfold needed in *; lia. }
  assert (Hcmp : Js.lt (Js.Number publicLamports) (Js.Number needed)
                 = (publicLamports <? needed)).
  { apply lt_Number; [exact Hsafe|]. unfold safe, needed, shortfall in *. lia. }
  assert (Hctx : forall err : option SentoError,
             (forall e, err = Some e -> context e = None) -> ~ carries_both_figures err).
  { intros err Hnone (e & He & _ & Hc). apply Hc. apply Hnone. exact He. }
  assert (Hfail : carries_both_figures (Some failure)).
  { exists failure. split; [reflexivity|]. split; [reflexivity|]. discriminate. }
  split.
  - intros error0 invoice Hint Hdec.
    destruct (payInvoice o cfg w error0 invoice h) as [[result err] evs] eqn:E.
    destruct (payInvoice_failure_kinds o cfg w pk error0 invoice h result err evs
                Hpk Hconn E) as [Hnone|(required' & wb & Hk)]; cbv zeta in *.
    + assert (Hge : ~ publicLamports < needed).
      { intros Hlt. unfold payInvoice in E. rewrite Hpk, Hconn in E.
        unfold payInvoice_body, bind at 1, payInvoice_prepare, bind at 1, newPublicKey in E.
        rewrite Hdec in E. unfold ret at 1 in E. rewrite app_nil_r in E.
        unfold bind at 1 in E. unfold BigInt in E. rewrite Hint in E.
        unfold ret at 1 in E. rewrite app_nil_r in E. simpl app in E.
        unfold bind at 1 in E.
        rewrite (autoCompress_insufficient o pk required h (Js.Number publicLamports)
                   Hshort Hbal) in E
          by (fold privateLamports; fold shortfall; rewrite Hfig, Hcmp;
              apply Z.ltb_lt; exact Hlt).
        inversion E; subst. specialize (Hnone _ eq_refl). discriminate. }
      split; [|intros C; contradiction].
      split; [intros C; exfalso; exact (Hctx err Hnone C)|intros C; contradiction].
    + destruct Hk as (Hint' & Hlt' & Hb' & Hw' & -> & -> & ->).
      assert (required' = required) by congruence. subst required'.
      assert (wb = Js.Number publicLamports) by congruence. subst wb.
      fold privateLamports in Hw'. fold shortfall in Hw'. rewrite Hfig in Hw'.
      fold privateLamports. fold shortfall. rewrite Hfig. fold failure.
      rewrite Hcmp in Hw'. apply Z.ltb_lt in Hw'.
      split; [split; [intros _; exact Hw'|intros _; exact Hfail]|].
      intros _. repeat split; reflexivity.
  - intros options Hint Hne.
    destruct (executeBatch o w options h) as [[returned err] evs] eqn:E.
    destruct (executeBatch_failure_kinds o w pk options h returned err evs
                Hpk Hconn E) as [Hnone|(required' & wb & Hk)]; cbv zeta in *.
    + assert (Hge : ~ publicLamports < needed).
      { intros Hlt. unfold executeBatch in E. rewrite Hpk, Hconn in E.
        rewrite executeBatch_body_run in E. unfold executeBatch_payments in E.
        destruct (filter isSanitized (opt_recipients options)) as [|s0 srest] eqn:Es;
          [contradiction|].
        cbn [List.length Nat.eqb] in E. rewrite <- Es in E.
        fold (aggregate options) in E.
        unfold bind at 1 in E. unfold BigInt in E. rewrite Hint in E.
        unfold ret at 1 in E. rewrite app_nil_r in E. simpl app in E.
        unfold bind at 1 in E.
        rewrite (autoCompress_insufficient o pk required h (Js.Number publicLamports)
                   Hshort Hbal) in E
          by (fold privateLamports; fold shortfall; rewrite Hfig, Hcmp;
              apply Z.ltb_lt; exact Hlt).
        inversion E; subst. specialize (Hnone _ eq_refl). discriminate. }
      split; [|intros C; contradiction].
      split; [intros C; exfalso; exact (Hctx err Hnone C)|intros C; contradiction].
    + destruct Hk as (Hint' & Hlt' & Hb' & Hw' & -> & -> & ->).
      assert (required' = required) by congruence. subst required'.
      assert (wb = Js.Number publicLamports) by congruence. subst wb.
      fold privateLamports in Hw'. fold shortfall in Hw'. rewrite Hfig in Hw'.
      fold privateLamports. fold shortfall. rewrite Hfig. fold failure.
      rewrite Hcmp in Hw'. apply Z.ltb_lt in Hw'.
      split; [split; [intros _; exact Hw'|intros _; exact Hfail]|].
      intros _. repeat split; reflexivity.
Qed.

(** ** Units of the amounts *)

Lemma aggregate_Number (rs : list BatchRecipientInput) :
  forall (zs : list Z) (acc : Z),
    map bri_amount rs = map Js.Number zs ->
    Forall (fun z => 0 <= z) zs -> 0 <= acc -> acc + fold_right Z.add 0 zs < 2 ^ 53 ->
    fold_left (fun sum r => Js.add sum (bri_amount r)) rs (Js.Number acc)
    = Js.Number (acc + fold_right Z.add 0 zs).
Proof.
  induction rs as [|r rs IH]; intros zs acc Hmap Hpos Hacc Hsum.
  - destruct zs; [|discriminate]. simpl. f_equal. lia.
  - destruct zs as [|z zs]; [discriminate|]. simpl in Hmap, Hsum.
    inversion Hmap as [[Hr Hrest]]. inversion Hpos as [|? ? Hz Hzs]; subst.
    assert (Hs0 : 0 <= fold_right Z.add 0 zs).
    { clear - Hzs. induction Hzs; simpl; lia. }
    cbn [fold_left]. rewrite Hr, add_Number by lia.
    rewrite (IH zs (acc + z) Hrest Hzs) by lia.
    simpl. f_equal. lia.
Qed.

(** [C8] What holds of the units.  The required total and the shortfall are
    exact integers of lamports.  For whole-lamport inputs in the safe range the
    fee reserve (exactly 10,000,000), the fee and the batch aggregate are whole
    numbers of lamports, although each is obtained in binary64 arithmetic.  The
    compress amount is not handed over in lamports: the auto-compress block
    calls [compressSOL] once, with the shortfall converted to SOL,
    [Number(shortfall) / 1e9]. *)
Theorem amounts_units (o : Oracle) (cfg : Config) (pk : string) (h : Trace)
  (required : Z) (wb : Js.number) :
  let shortfall := required - compressedBalance_at o pk h in
  compressedBalance_at o pk h < required ->
  getBalance o (h ++ [E_getCompressedAccountsByOwner pk]) pk = Returns wb ->
  Js.lt wb (Js.add (Js.Number shortfall) FEE_RESERVE) = false ->
  compress_calls (snd (autoCompress o pk required h))
  = [Js.div (Js.Number shortfall) ONE_BILLION]
  /\ FEE_RESERVE = Js.Number 10000000
  /\ (forall a, safe a ->
        exists fee, feeLamports cfg (Js.Number a) = Js.Number fee /\ 0 <= fee <= a)
  /\ (forall options zs,
        map bri_amount (filter isSanitized (opt_recipients options)) = map Js.Number zs ->
        Forall (fun z => 0 <= z) zs -> fold_right Z.add 0 zs < 2 ^ 53 ->
        aggregate options = Js.Number (fold_right Z.add 0 zs)).
Proof.
  intros shortfall Hlt Hb Hw. split; [|split; [|split]].
  - rewrite (autoCompress_top_up o pk required h wb Hlt Hb Hw). fold shortfall.
    destruct (submitCompress o _ pk (hiddenLamports shortfall)); reflexivity.
  - exact FEE_RESERVE_lamports.
  - intros a Ha. unfold feeLamports. destruct (PLATFORM_FEE_ENABLED cfg).
    + exists (a / 200). split; [apply floor_fee; exact Ha|].
      destruct Ha as [Ha0 Ha1]. split; [apply Z.div_pos; lia|].
      apply Z.div_le_upper_bound; lia.
    + exists 0. destruct Ha. split; [reflexivity|lia].
  - intros options zs Hmap Hpos Hsum. unfold aggregate.
    rewrite (aggregate_Number _ zs 0 Hmap Hpos) by lia. reflexivity.
Qed.

(** ** The greedy selection is the best one *)

Lemma sum_lamports_cons (a : CompressedAccount) (l : list CompressedAccount) :
  sum_lamports (a :: l) = acc_lamports a + sum_lamports l.
Proof. change (a :: l) with ([a] ++ l). rewrite sum_lamports_app. reflexivity. Qed.


Lemma lamports_ge_trans (a b c : CompressedAccount) :
  lamports_ge a b -> lamports_ge b c -> lamports_ge a c.
Proof. unfold lamports_ge. lia. Qed.

Lemma sortedAccounts_strongly (items : list CompressedAccount) :
  StronglySorted lamports_ge (sortedAccounts items).
Proof.
  apply Sorted_StronglySorted; [|apply sortedAccounts_sorted].
  intros a b c. apply lamports_ge_trans.
Qed.

(** No choice of [k] accounts holds more than the [k] largest. *)
Lemma prefix_dominates (l : list CompressedAccount) :
  StronglySorted lamports_ge l ->
  forall chosen others,
    Permutation l (chosen ++ others) ->
    sum_lamports chosen <= sum_lamports (firstn (List.length chosen) l).
Proof.
  induction 1 as [|a l Hs IH Ha]; intros chosen others Hp.
  - apply Permutation_nil in Hp. apply app_eq_nil in Hp. destruct Hp as [-> _].
    simpl. lia.
  - destruct chosen as [|b ch]; [simpl; lia|].
    assert (Hin : In a ((b :: ch) ++ others)).
    { eapply Permutation_in; [exact Hp|left; reflexivity]. }
    apply in_app_or in Hin. destruct Hin as [Hin|Hin].
    + (* the largest account is among the chosen ones *)
      apply in_split in Hin. destruct Hin as (c1 & c2 & Hc).
      assert (Hp' : Permutation l ((c1 ++ c2) ++ others)).
      { apply Permutation_cons_inv with (a := a).
        eapply Permutation_trans; [exact Hp|].
        rewrite Hc. rewrite <- !app_assoc. simpl.
        apply Permutation_sym, Permutation_middle. }
      specialize (IH _ _ Hp').
      assert (Hlen : List.length (b :: ch) = S (List.length (c1 ++ c2))).
      { rewrite Hc, !length_app. simpl. lia. }
      rewrite Hlen. cbn [firstn]. rewrite (sum_lamports_cons a (firstn _ l)).
      rewrite Hc, sum_lamports_app, sum_lamports_cons.
      rewrite sum_lamports_app in IH. lia.
    + (* it is not: trade one chosen account for it *)
      apply in_split in Hin. destruct Hin as (o1 & o2 & Ho).
      assert (Hp' : Permutation l (ch ++ (b :: o1 ++ o2))).
      { apply Permutation_cons_inv with (a := a).
        eapply Permutation_trans; [exact Hp|].
        rewrite Ho. simpl.
        apply Permutation_trans with (b :: a :: ch ++ o1 ++ o2).
        { apply perm_skip. rewrite !app_assoc.
          apply Permutation_sym, Permutation_middle. }
        eapply Permutation_trans; [apply perm_swap|].
        apply perm_skip. apply Permutation_middle. }
      specialize (IH _ _ Hp').
      assert (Hb : lamports_ge a b).
      { rewrite Forall_forall in Ha. apply Ha.
        eapply Permutation_in; [apply Permutation_sym, Hp'|].
        apply in_or_app. right. left. reflexivity. }
      cbn [List.length firstn]. rewrite !sum_lamports_cons.
      unfold lamports_ge in Hb. lia.
Qed.

(** [X1] The greedy selection cannot be beaten.  Take any non-empty choice
    of the owner's accounts that covers the target.  If the selector
    succeeds, it spends no more accounts than that choice; and if the choice
    has at most four accounts, the selector does succeed.  So a transfer is
    refused for fragmentation only when no four accounts could have covered
    the amount. *)
Theorem greedy_selection_is_minimal
  (items chosen others : list CompressedAccount) (target : Z) :
  Permutation items (chosen ++ others) ->
  chosen <> [] ->
  target <= sum_lamports chosen ->
  let '(selected, total, ok) := selectAccounts items target in
  (ok = true -> (List.length selected <= List.length chosen)%nat) /\
  ((List.length chosen <= 4)%nat -> ok = true).
Proof.
  intros Hp Hne Hcover.
  pose proof (selectAccounts_spec items target) as S. cbv zeta in S.
  destruct (selectAccounts items target) as [[selected total] ok].
  destruct S as (Hlen & _ & Hperm & Hpre & Htot & Hok & Hgreedy & Hstop).
  assert (Hdom : sum_lamports chosen
                 <= sum_lamports (firstn (List.length chosen) (sortedAccounts items))).
  { apply prefix_dominates with (others := others);
      [apply sortedAccounts_strongly|].
    eapply Permutation_trans; [apply Permutation_sym, Hperm|exact Hp]. }
  assert (Hc : (1 <= List.length chosen)%nat).
  { destruct chosen; [contradiction|simpl; lia]. }
  split.
  - intros _. destruct (Nat.le_gt_cases (List.length selected) (List.length chosen))
      as [Hle|Hgt]; [exact Hle|].
    specialize (Hgreedy (List.length chosen) ltac:(lia)). lia.
  - intros H4. destruct ok; [reflexivity|].
    destruct (Hstop eq_refl) as [E4|Eall].
    + destruct (Nat.eq_dec (List.length chosen) 4) as [E|E].
      * rewrite E, <- E4, <- Hpre, <- Htot in Hdom.
        assert (Hlt : total < target).
        { destruct (Z.lt_ge_cases total target) as [L|G]; [exact L|].
          apply Hok in G. discriminate. }
        lia.
      * specialize (Hgreedy (List.length chosen) ltac:(lia)). lia.
    + assert (Hlt : total < target).
      { destruct (Z.lt_ge_cases total target) as [L|G]; [exact L|].
        apply Hok in G. discriminate. }
      assert (Hcl : (List.length chosen <= List.length selected)%nat).
      { rewrite Eall. rewrite <- (Permutation_length Hperm), (Permutation_length Hp).
        rewrite length_app. lia. }
      destruct (Nat.eq_dec (List.length chosen) (List.length selected)) as [E|E].
      * rewrite E, <- Hpre, <- Htot in Hdom. lia.
      * specialize (Hgreedy (List.length chosen) ltac:(lia)). lia.
Qed.

(** ** When a transfer is refused *)





(** ** How the refusals of a transfer are reported *)

Lemma prefix_inv (a : ascii) (k s : string) :
  String.prefix (String a k) s = true ->
  exists rest, s = String a rest /\ String.prefix k rest = true.
Proof.
  destruct s as [|b rest]; simpl; [discriminate|].
  destruct (ascii_dec a b) as [->|]; [|discriminate].
  intros H. exists rest. auto.
Qed.

Lemma prefix_app (k s t : string) :
  String.prefix k s = true -> String.prefix k (s ++ t) = true.
Proof.
  revert s. induction k as [|a k IH]; intros s.
  - intros _. destruct (s ++ t)%string; reflexivity.
  - destruct s as [|b s]; simpl; [discriminate|].
    destruct (ascii_dec a b); [apply IH|discriminate].
Qed.

Lemma includes_app_l (k s t : string) :
  Str.includes k s = true -> Str.includes k (s ++ t) = true.
Proof.
  induction s as [|b s IH].
  - destruct k as [|a k]; [|simpl; discriminate].
    intros _. destruct t; reflexivity.
  - cbn [Str.includes append].
    destruct (String.prefix k (String b s)) eqn:E.
    + intros _. change (String b (s ++ t)) with (String b s ++ t)%string.
      rewrite (prefix_app _ _ t E). reflexivity.
    + intros H. rewrite (IH H).
      destruct (String.prefix k (String b (s ++ t))); reflexivity.
Qed.

Lemma includes_app_r (k s t : string) :
  Str.includes k t = true -> Str.includes k (s ++ t) = true.
Proof.
  intros H. induction s as [|b s IH]; [exact H|].
  cbn [Str.includes append]. rewrite IH.
  destruct (String.prefix k _); reflexivity.
Qed.

(** An occurrence of a keyword is an occurrence of its first two
    characters side by side, and an occurrence of its tail. *)
Lemma includes_pair (c1 c2 : ascii) (k s : string) :
  Str.includes (String c1 (String c2 k)) s = true -> pair_in c1 c2 s = true.
Proof.
  induction s as [|a s IH]; [simpl; discriminate|].
  cbn [Str.includes].
  destruct (String.prefix (String c1 (String c2 k)) (String a s)) eqn:E.
  - intros _. apply prefix_inv in E. destruct E as (r1 & E1 & E2).
    apply prefix_inv in E2. destruct E2 as (r2 & -> & _).
    inversion E1; subst. simpl. rewrite !Ascii.eqb_refl. reflexivity.
  - intros H. specialize (IH H). destruct s as [|b s]; [discriminate|].
    change (pair_in c1 c2 (String a (String b s)))
      with ((Ascii.eqb a c1 && Ascii.eqb b c2) || pair_in c1 c2 (String b s)).
    rewrite IH. apply orb_true_r.
Qed.

Lemma prefix_includes (k s : string) :
  String.prefix k s = true -> Str.includes k s = true.
Proof. intros H. destruct s; cbn [Str.includes]; rewrite H; reflexivity. Qed.

Lemma includes_tail (c : ascii) (k s : string) :
  Str.includes (String c k) s = true -> Str.includes k s = true.
Proof.
  induction s as [|a s IH]; [simpl; discriminate|].
  cbn [Str.includes].
  destruct (String.prefix (String c k) (String a s)) eqn:E.
  - intros _. apply prefix_inv in E. destruct E as (r & E1 & E2).
    inversion E1; subst. rewrite (prefix_includes _ _ E2).
    destruct (String.prefix k (String c r)); reflexivity.
  - intros H. rewrite (IH H). destruct (String.prefix k (String a s)); reflexivity.
Qed.

Lemma ends_with_app (c : ascii) (p s : string) :
  ends_with c (p ++ s) = if Str.isEmpty s then ends_with c p else ends_with c s.
Proof.
  induction p as [|a p IH].
  - simpl. destruct s; reflexivity.
  - destruct p as [|b p].
    + simpl. destruct s as [|x s]; reflexivity.
    + change (String a (String b p) ++ s)%string with (String a (String b p ++ s)).
      change (ends_with c (String a (String b p ++ s)))
        with (ends_with c (String b p ++ s)).
      rewrite IH. reflexivity.
Qed.

Lemma pair_in_app (c1 c2 : ascii) (p s : string) :
  pair_in c1 c2 (p ++ s)
  = pair_in c1 c2 p || pair_in c1 c2 s || (ends_with c1 p && starts_with c2 s).
Proof.
  induction p as [|a p IH].
  - simpl. rewrite orb_false_r. reflexivity.
  - destruct p as [|b p].
    + destruct s as [|x s]; [simpl; rewrite andb_false_r; reflexivity|].
      change (pair_in c1 c2 (String a "" ++ String x s))
        with ((Ascii.eqb a c1 && Ascii.eqb x c2) || pair_in c1 c2 (String x s)).
      change (pair_in c1 c2 (String a "")) with false.
      change (ends_with c1 (String a "")) with (Ascii.eqb a c1).
      change (starts_with c2 (String x s)) with (Ascii.eqb x c2).
      generalize (pair_in c1 c2 (String x s)). intros r.
      destruct (Ascii.eqb a c1), (Ascii.eqb x c2), r; reflexivity.
    + change (pair_in c1 c2 (String a (String b p) ++ s))
        with ((Ascii.eqb a c1 && Ascii.eqb b c2) || pair_in c1 c2 (String b p ++ s)).
      rewrite IH.
      change (ends_with c1 (String a (String b p))) with (ends_with c1 (String b p)).
      change (pair_in c1 c2 (String a (String b p)))
        with ((Ascii.eqb a c1 && Ascii.eqb b c2) || pair_in c1 c2 (String b p)).
      destruct (Ascii.eqb a c1 && Ascii.eqb b c2), (pair_in c1 c2 (String b p)),
        (pair_in c1 c2 s), (ends_with c1 (String b p) && starts_with c2 s);
        reflexivity.
Qed.

Lemma all_chars_starts (P : ascii -> bool) (c : ascii) (s : string) :
  Str.all_chars P s = true -> starts_with c s = true -> P c = true.
Proof.
  destruct s as [|a s]; simpl; [discriminate|].
  intros H E. apply Ascii.eqb_eq in E. subst a.
  apply andb_true_iff in H. tauto.
Qed.

Lemma all_chars_ends (P : ascii -> bool) (c : ascii) (s : string) :
  Str.all_chars P s = true -> ends_with c s = true -> P c = true.
Proof.
  induction s as [|a s IH]; [simpl; discriminate|].
  intros H E. cbn [Str.all_chars] in H. apply andb_true_iff in H. destruct H as [Ha Hs].
  destruct s as [|b s].
  - simpl in E. apply Ascii.eqb_eq in E. subst a. exact Ha.
  - apply IH; [exact Hs|exact E].
Qed.

Lemma all_chars_pair (P : ascii -> bool) (c1 c2 : ascii) (s : string) :
  Str.all_chars P s = true -> pair_in c1 c2 s = true -> P c1 && P c2 = true.
Proof.
  induction s as [|a s IH]; [simpl; discriminate|].
  intros H E. cbn [Str.all_chars] in H. apply andb_true_iff in H. destruct H as [Ha Hs].
  destruct s as [|b s]; [discriminate|].
  cbn [pair_in] in E. apply orb_true_iff in E. destruct E as [E|E].
  - apply andb_true_iff in E. destruct E as [E1 E2].
    apply Ascii.eqb_eq in E1, E2. subst.
    cbn [Str.all_chars] in Hs. apply andb_true_iff in Hs. destruct Hs as [Hb _].
    rewrite Ha, Hb. reflexivity.
  - apply IH; [exact Hs|exact E].
Qed.

Lemma pair_absent_sound (P : ascii -> bool) (c1 c2 : ascii) (pieces : list Piece) :
  Forall (spelled P) pieces ->
  forall (before : string) (open : bool),
    (ends_with c1 before = true -> open = true) ->
    pair_in c1 c2 before = false ->
    pair_absent P c1 c2 open pieces = true ->
    pair_in c1 c2 (before ++ flatten pieces) = false.
Proof.
  induction 1 as [|p pieces Hp _ IH]; intros before open Hopen Hbefore Hscan.
  - simpl. rewrite pair_in_app, Hbefore. simpl. apply andb_false_r.
  - cbn [flatten]. destruct p as [s|s]; cbn [piece_text pair_absent] in *.
    + destruct s as [|a s].
      * cbn [Str.isEmpty] in Hscan. simpl. apply (IH before open); assumption.
      * cbn [Str.isEmpty] in Hscan.
        apply andb_true_iff in Hscan. destruct Hscan as [Hscan H3].
        apply andb_true_iff in Hscan. destruct Hscan as [H1 H2].
        apply negb_true_iff in H1, H2.
        assert (Es : forall t, (before ++ String a s ++ t = (before ++ String a s) ++ t)%string).
        { intros t. clear. induction before as [|b before IHb]; [reflexivity|].
          cbn [append]. cbn [append] in IHb. rewrite IHb. reflexivity. }
        rewrite Es. apply (IH _ (ends_with c1 (String a s))); [| |exact H3].
        -- rewrite ends_with_app. cbn [Str.isEmpty]. auto.
        -- rewrite pair_in_app, Hbefore, H2. simpl.
           destruct (ends_with c1 before) eqn:E; [|reflexivity].
           rewrite (Hopen eq_refl) in H1. simpl in H1. exact H1.
    + apply andb_true_iff in Hscan. destruct Hscan as [Hscan H3].
      apply andb_true_iff in Hscan. destruct Hscan as [H1 H2].
      apply negb_true_iff in H1, H2.
      assert (Es : forall t, (before ++ s ++ t = (before ++ s) ++ t)%string).
      { intros t. clear. induction before as [|b before IHb]; [reflexivity|].
        cbn [append]. rewrite IHb. reflexivity. }
      rewrite Es. apply (IH _ (open || P c1)); [| |exact H3].
      * rewrite ends_with_app. destruct s as [|a s]; cbn [Str.isEmpty].
        -- intros E. rewrite (Hopen E). reflexivity.
        -- intros E. rewrite (all_chars_ends P c1 _ Hp E). apply orb_true_r.
      * rewrite pair_in_app, Hbefore. simpl.
        destruct (pair_in c1 c2 s) eqn:E1.
        { rewrite (all_chars_pair P c1 c2 s Hp E1) in H2. discriminate. }
        simpl. destruct (starts_with c2 s) eqn:E2; [|apply andb_false_r].
        rewrite (all_chars_starts P c2 s Hp E2) in H1.
        rewrite andb_true_r in *. destruct (ends_with c1 before); [|reflexivity].
        rewrite (Hopen eq_refl) in H1. discriminate.
Qed.

Lemma keyword_absent_sound (P : ascii -> bool) (keyword : string) (pieces : list Piece) :
  Forall (spelled P) pieces ->
  keyword_absent P keyword pieces = true ->
  Str.includes keyword (flatten pieces) = false.
Proof.
  intros Hp. induction keyword as [|c1 k IH]; [simpl; discriminate|].
  destruct k as [|c2 k]; [simpl; discriminate|].
  cbn [keyword_absent]. intros H. apply orb_true_iff in H.
  destruct (Str.includes (String c1 (String c2 k)) (flatten pieces)) eqn:E; [|reflexivity].
  destruct H as [H|H].
  - pose proof (pair_absent_sound P c1 c2 pieces Hp "" false) as S.
    apply includes_pair in E.
    change ("" ++ flatten pieces)%string with (flatten pieces) in S.
    rewrite S in E; [discriminate|simpl; discriminate|reflexivity|exact H].
  - apply includes_tail in E. rewrite (IH H) in E. discriminate.
Qed.

Lemma toLowerCase_app (s t : string) :
  Str.toLowerCase (s ++ t) = (Str.toLowerCase s ++ Str.toLowerCase t)%string.
Proof. induction s as [|a s IH]; simpl; [reflexivity|]. rewrite IH. reflexivity. Qed.

Lemma toLowerCase_flatten (pieces : list Piece) :
  Str.toLowerCase (flatten pieces) = flatten (map lower_piece pieces).
Proof.
  induction pieces as [|p pieces IH]; [reflexivity|].
  cbn [flatten map]. rewrite toLowerCase_app, IH. destruct p; reflexivity.
Qed.

Lemma lower_number_char (c : ascii) :
  isNumberChar c = true -> isLowerNumberChar (Str.lower_ascii c) = true.
Proof.
  destruct c as [[] [] [] [] [] [] [] []]; vm_compute; intros H;
    first [reflexivity | discriminate H].
Qed.

Lemma lower_number (s : string) :
  Str.all_chars isNumberChar s = true ->
  Str.all_chars isLowerNumberChar (Str.toLowerCase s) = true.
Proof.
  induction s as [|a s IH]; [reflexivity|].
  cbn [Str.all_chars Str.toLowerCase]. intros H.
  apply andb_true_iff in H. destruct H as [Ha Hs].
  rewrite (lower_number_char a Ha), (IH Hs). reflexivity.
Qed.

Lemma spelled_lower (pieces : list Piece) :
  Forall (spelled isNumberChar) pieces ->
  Forall (spelled isLowerNumberChar) (map lower_piece pieces).
Proof.
  induction 1 as [|p pieces Hp _ IH]; [constructor|].
  cbn [map]. constructor; [|exact IH].
  destruct p; [exact I|]. apply lower_number. exact Hp.
Qed.

(** Whether a keyword is looked for in vain in any message of a given
    shape. *)
Lemma keyword_not_found (keyword : string) (pieces : list Piece) :
  Forall (spelled isNumberChar) pieces ->
  keyword_absent isLowerNumberChar keyword (map lower_piece pieces) = true ->
  Str.includes keyword (Str.toLowerCase (flatten pieces)) = false.
Proof.
  intros Hp H. rewrite toLowerCase_flatten.
  apply keyword_absent_sound with (P := isLowerNumberChar); [|exact H].
  apply spelled_lower. exact Hp.
Qed.

Lemma keyword_found (keyword s : string) (rest : list Piece) :
  Str.includes keyword (Str.toLowerCase s) = true ->
  Str.includes keyword (Str.toLowerCase (flatten (Lit s :: rest))) = true.
Proof.
  intros H. cbn [flatten piece_text]. rewrite toLowerCase_app.
  apply includes_app_l. exact H.
Qed.

Ltac classify_message pieces Hsp :=
  unfold classify; cbn [err_message];
  repeat match goal with
  | |- context [Str.includes ?kw (Str.toLowerCase (flatten pieces))] =>
      first [ rewrite (keyword_not_found kw pieces Hsp) by (vm_compute; reflexivity)
            | rewrite (keyword_found kw) by (vm_compute; reflexivity) ]
  end;
  reflexivity.

(** The two messages of [transferCompressedSOL] that spell amounts. *)
Lemma classify_insufficient (name have need : string) :
  Str.all_chars isNumberChar have = true ->
  Str.all_chars isNumberChar need = true ->
  classify (mkJsError name ("Insufficient compressed balance. Have: " ++ have
                            ++ " SOL, Need: " ++ need ++ " SOL"))
  = INSUFFICIENT_BALANCE.
Proof.
  intros H1 H2.
  set (pieces := [Lit "Insufficient compressed balance. Have: "; Num have;
                  Lit " SOL, Need: "; Num need; Lit " SOL"]).
  assert (Hsp : Forall (spelled isNumberChar) pieces).
  { repeat constructor; assumption. }
  change ("Insufficient compressed balance. Have: " ++ have
          ++ " SOL, Need: " ++ need ++ " SOL")%string with (flatten pieces).
  classify_message pieces Hsp.
Qed.

Lemma classify_fragmented (name need most : string) :
  Str.all_chars isNumberChar need = true ->
  Str.all_chars isNumberChar most = true ->
  classify (mkJsError name ("Cannot transfer " ++ need
                            ++ " SOL. Max available in 4 accounts: " ++ most ++ " SOL"))
  = UNKNOWN_ERROR.
Proof.
  intros H1 H2.
  set (pieces := [Lit "Cannot transfer "; Num need;
                  Lit " SOL. Max available in 4 accounts: "; Num most; Lit " SOL"]).
  assert (Hsp : Forall (spelled isNumberChar) pieces).
  { repeat constructor; assumption. }
  change ("Cannot transfer " ++ need
          ++ " SOL. Max available in 4 accounts: " ++ most ++ " SOL")%string
    with (flatten pieces).
  classify_message pieces Hsp.
Qed.

(** [X3] How the refusals of [transferCompressedSOL] reach the user.  When
    the function refuses a transfer of a whole number of lamports by itself,
    right after the indexer has answered, [parseError] classifies a shortage
    of private funds as [INSUFFICIENT_BALANCE] ("Insufficient balance. Please
    add more SOL to your wallet."), and the two other refusals, no private
    account at all and four largest accounts too small, as [UNKNOWN_ERROR];
    the code [INSUFFICIENT_COMPRESSED_BALANCE] is used for none of them. *)
Theorem transfer_refusals_as_reported
  (o : Oracle) (pk recipient : string) (amount : Js.number) (h : Trace)
  (items : list CompressedAccount) (target : Z) (t : Thrown) :
  (forall x, Str.all_chars isNumberChar (showNumber o x) = true) ->
  getCompressedAccountsByOwner o
    (h ++ [E_call_transferCompressedSOL pk recipient amount]) pk = Returns items ->
  Js.toInteger amount = Some target ->
  transferCompressedSOL o pk recipient amount h
  = (Throw t, [E_call_transferCompressedSOL pk recipient amount;
               E_getCompressedAccountsByOwner pk]) ->
  code (parseError t)
  = (if negb (List.length items =? 0)%nat && (sum_lamports items <? target)
     then INSUFFICIENT_BALANCE else UNKNOWN_ERROR)
  /\ code (parseError t) <> INSUFFICIENT_COMPRESSED_BALANCE.
Proof.
  intros Hshow Hitems Hint H.
  assert (G : code (parseError t)
              = (if negb (List.length items =? 0)%nat && (sum_lamports items <? target)
                 then INSUFFICIENT_BALANCE else UNKNOWN_ERROR)).
  { revert H. unfold transferCompressedSOL.
    unfold bind at 1. unfold emit at 1.
    unfold bind at 1. unfold call at 1. rewrite Hitems.
    destruct (List.length items =? 0)%nat; cbn [negb andb].
    { unfold throw. cbn [app]. intros H. inversion H; subst. reflexivity. }
    unfold bind at 1. unfold BigInt. rewrite Hint. unfold ret at 1.
    destruct (sum_lamports items <? target).
    { unfold throw. cbn [app]. intros H. inversion H; subst.
      unfold newError, parseError. cbn [code].
      apply classify_insufficient; apply Hshow. }
    destruct (selectAccounts items target) as [[selected total] ok].
    destruct ok; cbn [negb].
    - unfold bind, call.
      destruct (getValidityProof o _ _) as [u|x];
        [destruct (submitTransfer o _ _ _ _ _) as [sig|x]|];
        cbn [app]; intros H; inversion H.
    - unfold throw. cbn [app]. intros H. inversion H; subst.
      unfold newError, parseError. cbn [code].
      apply classify_fragmented; apply Hshow. }
  split; [exact G|]. rewrite G.
  destruct (negb (List.length items =? 0)%nat && (sum_lamports items <? target));
    discriminate.
Qed.

(** ** The validators *)

Lemma all_chars_impl (P Q : ascii -> bool) (s : string) :
  (forall c, P c = true -> Q c = true) ->
  Str.all_chars P s = true -> Str.all_chars Q s = true.
Proof.
  intros HPQ. induction s as [|a s IH]; [reflexivity|].
  cbn [Str.all_chars]. intros H. apply andb_true_iff in H. destruct H as [Ha Hs].
  rewrite (HPQ a Ha), (IH Hs). reflexivity.
Qed.

Lemma trimStart_clean (s : string) :
  Str.all_chars (fun c => negb (Text.isWhiteSpace c)) s = true -> Text.trimStart s = s.
Proof.
  destruct s as [|a s]; [reflexivity|].
  cbn [Str.all_chars Text.trimStart]. intros H.
  apply andb_true_iff in H. destruct H as [Ha _].
  apply negb_true_iff in Ha. rewrite Ha. reflexivity.
Qed.

Lemma trimEnd_clean (s : string) :
  Str.all_chars (fun c => negb (Text.isWhiteSpace c)) s = true -> Text.trimEnd s = s.
Proof.
  induction s as [|a s IH]; [reflexivity|].
  cbn [Str.all_chars Text.trimEnd]. intros H.
  apply andb_true_iff in H. destruct H as [Ha Hs].
  apply negb_true_iff in Ha. rewrite (IH Hs), Ha, andb_false_r. reflexivity.
Qed.

Lemma trim_clean (s : string) :
  Str.all_chars (fun c => negb (Text.isWhiteSpace c)) s = true -> Text.trim s = s.
Proof.
  intros H. unfold Text.trim. rewrite (trimStart_clean s H). apply trimEnd_clean, H.
Qed.

Lemma base58_not_space (c : ascii) :
  Str.isBase58Char c = true -> negb (Text.isWhiteSpace c) = true.
Proof.
  destruct c as [[] [] [] [] [] [] [] []]; vm_compute; intros H;
    first [reflexivity | discriminate H].
Qed.

Lemma id_not_space (c : ascii) :
  Validation.isIdChar c = true -> negb (Text.isWhiteSpace c) = true.
Proof.
  destruct c as [[] [] [] [] [] [] [] []]; vm_compute; intros H;
    first [reflexivity | discriminate H].
Qed.

Lemma trim_base58 (s : string) :
  Str.all_chars Str.isBase58Char s = true -> Text.trim s = s.
Proof. intros H. apply trim_clean. revert H. apply all_chars_impl, base58_not_space. Qed.

Lemma trim_id (s : string) :
  Str.all_chars Validation.isIdChar s = true -> Text.trim s = s.
Proof. intros H. apply trim_clean. revert H. apply all_chars_impl, id_not_space. Qed.

Lemma isEmpty_length (s : string) : Str.isEmpty s = (String.length s =? 0)%nat.
Proof. destruct s; reflexivity. Qed.

Lemma validateWalletAddress_spec (o : Oracle) (address : string) :
  let r := Validation.validateWalletAddress o address in
  (Validation.valid r = true <->
   isValidPublicKey (Text.trim address) = true
   /\ decodesToPublicKey o (Text.trim address) = true) /\
  (Validation.valid r = true ->
   r = Validation.accepted (Text.trim address)) /\
  (Validation.valid r = false ->
   Validation.sanitized r = None /\ Validation.error r <> None).
Proof.
  cbv zeta. unfold Validation.validateWalletAddress, isValidPublicKey, Text.test_plus.
  destruct address as [|a address].
  { cbn. repeat split; try discriminate. intros [H _]. discriminate. }
  cbn [Str.isEmpty].
  set (trimmed := Text.trim (String a address)).
  rewrite (isEmpty_length trimmed).
  destruct (Nat.ltb_spec (String.length trimmed) 32) as [L1|L1];
    [|destruct (Nat.ltb_spec 44 (String.length trimmed)) as [L2|L2]]; cbn [orb].
  - assert (E : (32 <=? String.length trimmed)%nat = false) by (apply Nat.leb_gt; lia).
    rewrite E. cbn. repeat split; try discriminate. intros [H _]. discriminate.
  - assert (E : (String.length trimmed <=? 44)%nat = false) by (apply Nat.leb_gt; lia).
    rewrite E, andb_false_r. cbn. repeat split; try discriminate.
    intros [H _]. discriminate.
  - assert (E1 : (32 <=? String.length trimmed)%nat = true) by (apply Nat.leb_le; lia).
    assert (E2 : (String.length trimmed <=? 44)%nat = true) by (apply Nat.leb_le; lia).
    assert (E3 : (String.length trimmed =? 0)%nat = false) by (apply Nat.eqb_neq; lia).
    rewrite E1, E2, E3. cbn [andb negb].
    destruct (Str.all_chars Str.isBase58Char trimmed); cbn [negb].
    + destruct (decodesToPublicKey o trimmed); cbn.
      * repeat split; try discriminate.
      * repeat split; try discriminate. intros [_ H]. discriminate.
    + cbn. repeat split; try discriminate. intros [H _]. discriminate.
Qed.

(** [X4] [validateWalletAddress] accepts an address exactly when its
    trimmed text passes [isValidPublicKey] and decodes to a public key.  An
    accepted address is returned trimmed, with no error; a rejected one comes
    with an error and no sanitized value. *)
Theorem wallet_address_validation (o : Oracle) (address : string) :
  let r := Validation.validateWalletAddress o address in
  (Validation.valid r = true <->
   isValidPublicKey (Text.trim address) = true
   /\ decodesToPublicKey o (Text.trim address) = true) /\
  (Validation.valid r = true ->
   r = Validation.accepted (Text.trim address)) /\
  (Validation.valid r = false ->
   Validation.sanitized r = None /\ Validation.error r <> None).
Proof. exact (validateWalletAddress_spec o address). Qed.

Lemma includes_has_char (c : ascii) (k s : string) :
  Str.includes (String c k) s = true -> Text.has_char c s = true.
Proof.
  induction s as [|a s IH]; [simpl; discriminate|].
  cbn [Str.includes Text.has_char].
  destruct (String.prefix (String c k) (String a s)) eqn:E.
  - intros _. apply prefix_inv in E. destruct E as (r & E1 & _).
    inversion E1; subst. rewrite Ascii.eqb_refl. reflexivity.
  - intros H. rewrite (IH H). apply orb_true_r.
Qed.

Lemma all_chars_has_char (P : ascii -> bool) (c : ascii) (s : string) :
  Str.all_chars P s = true -> Text.has_char c s = true -> P c = true.
Proof.
  induction s as [|a s IH]; [simpl; discriminate|].
  cbn [Str.all_chars Text.has_char]. intros H E.
  apply andb_true_iff in H. destruct H as [Ha Hs].
  apply orb_true_iff in E. destruct E as [E|E].
  - apply Ascii.eqb_eq in E. subst a. exact Ha.
  - apply IH; assumption.
Qed.

(** An identifier made of the allowed characters holds no dot, slash or
    backslash. *)
Lemma id_no_traversal (s : string) :
  Str.all_chars Validation.isIdChar s = true ->
  Str.includes ".." s || Str.includes "/" s || Str.includes "\" s = false.
Proof.
  intros H.
  assert (G : forall c k, Validation.isIdChar c = false ->
                          Str.includes (String c k) s = false).
  { intros c k Hc. destruct (Str.includes (String c k) s) eqn:E; [|reflexivity].
    apply includes_has_char in E.
    rewrite (all_chars_has_char _ _ _ H E) in Hc. discriminate. }
  rewrite !G by reflexivity. reflexivity.
Qed.

Ltac vcbn :=
  cbn [Validation.valid Validation.rejected Validation.accepted
       Validation.sanitized Validation.error].

Lemma validateId_spec (required format length characters id : string) :
  let r := Validation.validateId required format length characters id in
  let trimmed := Text.trim id in
  (Validation.valid r = true <->
   Text.test_plus Validation.isIdChar trimmed = true
   /\ (3 <= String.length trimmed <= 100)%nat) /\
  (Validation.valid r = true -> r = Validation.accepted trimmed) /\
  (Validation.valid r = false ->
   r = Validation.rejected required \/ r = Validation.rejected format
   \/ r = Validation.rejected length).
Proof.
  cbv zeta. unfold Validation.validateId.
  destruct id as [|a id].
  { vcbn. repeat split; try discriminate; try (intros [H _]; discriminate). auto. }
  cbn [Str.isEmpty]. set (trimmed := Text.trim (String a id)).
  destruct (Text.test_plus Validation.isIdChar trimmed) eqn:Et; cbn [negb].
  2:{ vcbn. repeat split; try discriminate; try (intros [H _]; discriminate). auto. }
  destruct (Nat.ltb_spec (String.length trimmed) 3) as [L1|L1];
    [|destruct (Nat.ltb_spec 100 (String.length trimmed)) as [L2|L2]]; cbn [orb].
  - vcbn. repeat split; try discriminate; try (intros [_ H]; lia). auto.
  - vcbn. repeat split; try discriminate; try (intros [_ H]; lia). auto.
  - unfold Text.test_plus in Et. apply andb_true_iff in Et. destruct Et as [_ Et].
    rewrite (id_no_traversal trimmed Et). vcbn.
    repeat split; try discriminate; try lia.
Qed.

(** [X5] The identifier validators ([validateInvoiceId], [validateTeamId],
    [validateBatchId]) accept an identifier exactly when its trimmed text is
    3 to 100 characters from [[a-zA-Z0-9_-]], and return it trimmed.  Their
    last test can never fire: none of them ever answers "Invalid characters
    in ... ID", because a text that passed the first test holds no dot, slash
    or backslash.  The three validators agree on what they accept. *)
Theorem identifier_validation (id : string) :
  let ok := Text.test_plus Validation.isIdChar (Text.trim id)
            && (3 <=? String.length (Text.trim id))%nat
            && (String.length (Text.trim id) <=? 100)%nat in
  Validation.valid (Validation.validateInvoiceId id) = ok /\
  Validation.valid (Validation.validateTeamId id) = ok /\
  Validation.valid (Validation.validateBatchId id) = ok /\
  Validation.sanitized (Validation.validateInvoiceId id)
  = (if ok then Some (Text.trim id) else None) /\
  Validation.sanitized (Validation.validateTeamId id)
  = Validation.sanitized (Validation.validateInvoiceId id) /\
  Validation.sanitized (Validation.validateBatchId id)
  = Validation.sanitized (Validation.validateInvoiceId id) /\
  Validation.error (Validation.validateInvoiceId id)
  <> Some "Invalid characters in invoice ID" /\
  Validation.error (Validation.validateTeamId id)
  <> Some "Invalid characters in team ID" /\
  Validation.error (Validation.validateBatchId id)
  <> Some "Invalid characters in batch ID".
Proof.
  cbv zeta.
  assert (G : forall required format length characters,
             let r := Validation.validateId required format length characters id in
             Validation.valid r
             = Text.test_plus Validation.isIdChar (Text.trim id)
               && (3 <=? String.length (Text.trim id))%nat
               && (String.length (Text.trim id) <=? 100)%nat
             /\ Validation.sanitized r
                = (if Validation.valid r then Some (Text.trim id) else None)
             /\ (Validation.error r = None \/ Validation.error r = Some required
                 \/ Validation.error r = Some format \/ Validation.error r = Some length)).
  { intros required format length characters r.
    destruct (validateId_spec required format length characters id) as (H1 & H2 & H3).
    fold r in H1, H2, H3.
    destruct (Validation.valid r) eqn:Ev.
    - destruct (proj1 H1 eq_refl) as (Ht & L1 & L2). rewrite Ht.
      rewrite (proj2 (Nat.leb_le _ _) L1), (proj2 (Nat.leb_le _ _) L2).
      rewrite (H2 eq_refl). cbn. auto.
    - split.
      + destruct (Text.test_plus Validation.isIdChar (Text.trim id)) eqn:Et;
          [|reflexivity].
        destruct (Nat.leb_spec 3 (String.length (Text.trim id))) as [L1|L1];
          [|reflexivity].
        destruct (Nat.leb_spec (String.length (Text.trim id)) 100) as [L2|L2];
          [|reflexivity].
        assert (C : false = true) by (apply H1; split; [reflexivity|lia]).
        discriminate.
      + destruct (H3 eq_refl) as [E|[E|E]]; rewrite E; cbn; auto. }
  pose proof (G "Invoice ID is required" "Invalid invoice ID format"
                "Invalid invoice ID length" "Invalid characters in invoice ID") as Gi.
  pose proof (G "Team ID is required" "Invalid team ID format"
                "Invalid team ID length" "Invalid characters in team ID") as Gt.
  pose proof (G "Batch ID is required" "Invalid batch ID format"
                "Invalid batch ID length" "Invalid characters in batch ID") as Gb.
  cbv zeta in Gi, Gt, Gb.
  fold Validation.validateInvoiceId in Gi. fold Validation.validateTeamId in Gt.
  fold Validation.validateBatchId in Gb.
  destruct Gi as (Vi & Si & Ei), Gt as (Vt & St & Et), Gb as (Vb & Sb & Eb).
  split; [exact Vi|]. split; [exact Vt|]. split; [exact Vb|].
  split; [rewrite Si, Vi; reflexivity|].
  split; [rewrite St, Si, Vt, Vi; reflexivity|].
  split; [rewrite Sb, Si, Vb, Vi; reflexivity|].
  split; [|split].
  - destruct Ei as [E|[E|[E|E]]]; rewrite E; discriminate.
  - destruct Et as [E|[E|[E|E]]]; rewrite E; discriminate.
  - destruct Eb as [E|[E|[E|E]]]; rewrite E; discriminate.
Qed.

Lemma sanitized_valid {A} (r : Validation.Checked A) (a : A) :
  (Validation.valid r = false -> Validation.sanitized r = None) ->
  Validation.sanitized r = Some a -> Validation.valid r = true.
Proof.
  intros H E. destruct (Validation.valid r); [reflexivity|].
  rewrite (H eq_refl) in E. discriminate.
Qed.

Lemma validateId_again (required format length characters id s : string) :
  Validation.sanitized (Validation.validateId required format length characters id)
  = Some s ->
  Validation.validateId required format length characters s = Validation.accepted s.
Proof.
  intros E.
  destruct (validateId_spec required format length characters id) as (H1 & H2 & H3).
  cbv zeta in H1, H2, H3.
  assert (V : Validation.valid
                (Validation.validateId required format length characters id) = true).
  { apply (sanitized_valid _ s); [|exact E].
    intros F. destruct (H3 F) as [R|[R|R]]; rewrite R; reflexivity. }
  rewrite (H2 V) in E. cbn in E. injection E as Es.
  destruct (proj1 H1 V) as (Ht & Hl). rewrite Es in Ht, Hl.
  assert (Tr : Text.trim s = s).
  { apply trim_id. unfold Text.test_plus in Ht. apply andb_true_iff in Ht. tauto. }
  destruct (validateId_spec required format length characters s) as (K1 & K2 & _).
  cbv zeta in K1, K2. rewrite Tr in K1, K2.
  apply K2. apply (proj2 K1). split; assumption.
Qed.

(** [X6] What a validator returns as sanitized is stable: validating it
    again accepts it and returns it unchanged.  This holds for wallet
    addresses, for invoice, team and batch identifiers, for transaction
    signatures and for statuses. *)
Theorem sanitized_values_revalidate :
  (forall o address s,
     Validation.sanitized (Validation.validateWalletAddress o address) = Some s ->
     Validation.validateWalletAddress o s = Validation.accepted s) /\
  (forall id s,
     Validation.sanitized (Validation.validateInvoiceId id) = Some s ->
     Validation.validateInvoiceId s = Validation.accepted s) /\
  (forall id s,
     Validation.sanitized (Validation.validateTeamId id) = Some s ->
     Validation.validateTeamId s = Validation.accepted s) /\
  (forall id s,
     Validation.sanitized (Validation.validateBatchId id) = Some s ->
     Validation.validateBatchId s = Validation.accepted s) /\
  (forall signature s,
     Validation.sanitized (Validation.validateTxSignature signature) = Some s ->
     Validation.validateTxSignature s = Validation.accepted s) /\
  (forall status s,
     Validation.sanitized (Validation.validateStatus status) = Some s ->
     Validation.validateStatus s = Validation.accepted s).
Proof.
  split; [|split; [|split; [|split; [|split]]]].
  - intros o address s E.
    destruct (validateWalletAddress_spec o address) as (H1 & H2 & H3).
    cbv zeta in H1, H2, H3.
    assert (V : Validation.valid (Validation.validateWalletAddress o address) = true).
    { apply (sanitized_valid _ s); [|exact E]. intros F. apply H3, F. }
    rewrite (H2 V) in E. cbn in E. injection E as Es.
    destruct (proj1 H1 V) as (Hv & Hd). rewrite Es in Hv, Hd.
    assert (Tr : Text.trim s = s).
    { apply trim_base58. unfold isValidPublicKey in Hv.
      apply andb_true_iff in Hv. tauto. }
    destruct (validateWalletAddress_spec o s) as (K1 & K2 & _).
    cbv zeta in K1, K2. rewrite Tr in K1, K2.
    apply K2. apply (proj2 K1). split; assumption.
  - intros id s. apply validateId_again.
  - intros id s. apply validateId_again.
  - intros id s. apply validateId_again.
  - intros signature s. unfold Validation.validateTxSignature.
    destruct signature as [|a signature]; [cbn; discriminate|].
    cbn [Str.isEmpty]. set (trimmed := Text.trim (String a signature)).
    destruct (Text.test_between Str.isBase58Char 64 128 trimmed) eqn:Et;
      cbn [negb]; [|cbn; discriminate].
    vcbn. intros E. injection E as Es. rewrite Es in Et.
    assert (Tr : Text.trim s = s).
    { apply trim_base58. unfold Text.test_between in Et.
      apply andb_true_iff in Et. tauto. }
    assert (Ne : Str.isEmpty s = false).
    { unfold Text.test_between in Et. apply andb_true_iff in Et.
      destruct Et as [Et _]. apply andb_true_iff in Et. destruct Et as [Et _].
      apply Nat.leb_le in Et. destruct s; [simpl in Et; lia|reflexivity]. }
    rewrite Ne, Tr, Et. reflexivity.
  - intros status s. unfold Validation.validateStatus.
    destruct (existsb (String.eqb status) ["unpaid"; "paid"; "cancelled"]) eqn:Ex;
      cbn [negb]; [|cbn; discriminate].
    vcbn. intros E. injection E as Es. subst s. rewrite Ex. reflexivity.
Qed.

Lemma validateAmount_number (parseFloat : string -> Js.number) (x : Js.number) :
  Validation.valid (Validation.validateAmount parseFloat (inl x))
  = isNaN x || (negb (Js.lt x Validation.MIN_SOL) && negb (Js.gt x Validation.MAX_SOL)).
Proof.
  assert (Emin : exists m0 e0, Validation.MIN_SOL = S754_finite false m0 e0)
    by (eexists; eexists; vm_compute; reflexivity).
  assert (Emax : exists m1 e1, Validation.MAX_SOL = S754_finite false m1 e1)
    by (eexists; eexists; vm_compute; reflexivity).
  destruct Emin as (m0 & e0 & Emin), Emax as (m1 & e1 & Emax).
  unfold Validation.validateAmount, strictEquals, Js.lt, Js.gt, SFltb, SFeqb.
  rewrite Emin, Emax. change (Js.Number 0) with (S754_zero false).
  destruct x as [s|s| |s m e]; try (destruct s); try reflexivity.
  cbn [SFcompare isNaN orb].
  destruct (e1 ?= e); destruct (e ?= e0);
    try destruct (PosDef.Pos.compare_cont Eq m1 m);
    try destruct (PosDef.Pos.compare_cont Eq m m0); reflexivity.
Qed.

(** [X7] Which amounts [validateAmount] accepts.  A number is accepted
    exactly when it is NaN, or neither below 0.000001 nor above 1,000,000,000;
    NaN passes every comparison and comes back as the sanitized amount NaN.
    A string is accepted exactly when [parseFloat] reads a number from it (not
    NaN) that lies within the same bounds. *)
Theorem amount_validation (parseFloat : string -> Js.number) :
  (forall x,
     Validation.valid (Validation.validateAmount parseFloat (inl x)) = true <->
     isNaN x = true
     \/ (Js.lt x Validation.MIN_SOL = false /\ Js.gt x Validation.MAX_SOL = false)) /\
  Validation.validateAmount parseFloat (inl Js.NaN) = Validation.accepted Js.NaN /\
  (forall text,
     Validation.valid (Validation.validateAmount parseFloat (inr text)) = true <->
     isNaN (parseFloat text) = false
     /\ Js.lt (parseFloat text) Validation.MIN_SOL = false
     /\ Js.gt (parseFloat text) Validation.MAX_SOL = false).
Proof.
  split; [|split].
  - intros x. rewrite validateAmount_number.
    destruct (isNaN x), (Js.lt x Validation.MIN_SOL), (Js.gt x Validation.MAX_SOL);
      cbn; intuition discriminate.
  - reflexivity.
  - intros text.
    pose proof (validateAmount_number parseFloat (parseFloat text)) as H.
    unfold Validation.validateAmount in *.
    destruct (isNaN (parseFloat text)) eqn:En.
    + cbn. intuition discriminate.
    + rewrite H. cbn [orb].
      destruct (Js.lt (parseFloat text) Validation.MIN_SOL),
        (Js.gt (parseFloat text) Validation.MAX_SOL); cbn; intuition discriminate.
Qed.

(** ** Notes *)

Lemma Subseq_refl (s : string) : Subseq s s.
Proof. induction s; constructor; assumption. Qed.

Lemma Subseq_trans (s t u : string) : Subseq s t -> Subseq t u -> Subseq s u.
Proof.
  intros H1 H2. revert s H1. induction H2 as [|c t u _ IH|c t u _ IH]; intros s H1.
  - exact H1.
  - constructor. apply IH, H1.
  - inversion H1; subst.
    + apply Subseq_skip. apply IH. assumption.
    + apply Subseq_keep. apply IH. assumption.
Qed.

Lemma Subseq_length (s t : string) :
  Subseq s t -> (String.length s <= String.length t)%nat.
Proof. induction 1; simpl; lia. Qed.

Lemma Subseq_has_char (c : ascii) (s t : string) :
  Subseq s t -> Text.has_char c s = true -> Text.has_char c t = true.
Proof.
  induction 1 as [|a s t _ IH|a s t _ IH]; cbn [Text.has_char]; intros H.
  - exact H.
  - rewrite (IH H). apply orb_true_r.
  - apply orb_true_iff in H. destruct H as [H|H]; [rewrite H; reflexivity|].
    rewrite (IH H). apply orb_true_r.
Qed.

Lemma Subseq_tagless (s t : string) : Subseq s t -> tagless t = true -> tagless s = true.
Proof.
  induction 1 as [|a s t Hs IH|a s t Hs IH]; cbn [tagless]; intros H.
  - reflexivity.
  - apply andb_true_iff in H. apply IH. tauto.
  - apply andb_true_iff in H. destruct H as [H1 H2].
    rewrite (IH H2), andb_true_r.
    destruct (Ascii.eqb a "<"); [|reflexivity]. cbn [andb] in *.
    destruct (Text.has_char ">" s) eqn:E; [|reflexivity].
    rewrite (Subseq_has_char _ _ _ Hs E) in H1. discriminate.
Qed.

Lemma Subseq_all_chars (P : ascii -> bool) (s t : string) :
  Subseq s t -> Str.all_chars P t = true -> Str.all_chars P s = true.
Proof.
  induction 1 as [|a s t _ IH|a s t _ IH]; cbn [Str.all_chars]; intros H.
  - reflexivity.
  - apply andb_true_iff in H. apply IH. tauto.
  - apply andb_true_iff in H. destruct H as [H1 H2]. rewrite H1, (IH H2). reflexivity.
Qed.

Lemma trimStart_Subseq (s : string) : Subseq (Text.trimStart s) s.
Proof.
  induction s as [|a s IH]; [constructor|].
  cbn [Text.trimStart]. destruct (Text.isWhiteSpace a).
  - constructor. exact IH.
  - apply Subseq_refl.
Qed.

Lemma trimEnd_Subseq (s : string) : Subseq (Text.trimEnd s) s.
Proof.
  induction s as [|a s IH]; [constructor|].
  cbn [Text.trimEnd].
  destruct (Str.isEmpty (Text.trimEnd s) && Text.isWhiteSpace a) eqn:E.
  - apply andb_true_iff in E. destruct E as [E _].
    destruct (Text.trimEnd s); [|discriminate]. apply Subseq_skip. exact IH.
  - apply Subseq_keep. exact IH.
Qed.

Lemma trim_Subseq (s : string) : Subseq (Text.trim s) s.
Proof.
  unfold Text.trim. eapply Subseq_trans; [apply trimEnd_Subseq|apply trimStart_Subseq].
Qed.

Lemma removeTags_Subseq (s : string) (inside : bool) :
  Subseq (Text.removeTags inside s) s.
Proof.
  revert inside. induction s as [|a s IH]; intros inside; [constructor|].
  cbn [Text.removeTags]. destruct inside.
  - constructor. apply IH.
  - destruct (Ascii.eqb a "<" && Text.has_char ">" s);
      [apply Subseq_skip|apply Subseq_keep]; apply IH.
Qed.

Lemma remove_ci_Subseq (literal s : string) (skip : nat) :
  Subseq (Text.remove_ci literal skip s) s.
Proof.
  revert skip. induction s as [|a s IH]; intros skip; [constructor|].
  cbn [Text.remove_ci]. destruct skip; [|constructor; apply IH].
  destruct (Text.prefix_ci literal (String a s));
    [apply Subseq_skip|apply Subseq_keep]; apply IH.
Qed.

Lemma removeHandlers_Subseq (s : string) (skip : nat) :
  Subseq (Text.removeHandlers skip s) s.
Proof.
  revert skip. induction s as [|a s IH]; intros skip; [constructor|].
  cbn [Text.removeHandlers]. destruct skip; [|constructor; apply IH].
  destruct (Text.handler_match (String a s));
    [apply Subseq_skip|apply Subseq_keep]; apply IH.
Qed.

Lemma filter_Subseq (keep : ascii -> bool) (s : string) : Subseq (Text.filter keep s) s.
Proof.
  induction s as [|a s IH]; [constructor|].
  cbn [Text.filter]. destruct (keep a); [apply Subseq_keep|apply Subseq_skip]; exact IH.
Qed.

Lemma filter_all_chars (keep : ascii -> bool) (s : string) :
  Str.all_chars keep (Text.filter keep s) = true.
Proof.
  induction s as [|a s IH]; [reflexivity|].
  cbn [Text.filter]. destruct (keep a) eqn:E; [|exact IH].
  cbn [Str.all_chars]. rewrite E, IH. reflexivity.
Qed.

Lemma filter_fixed (keep : ascii -> bool) (s : string) :
  Str.all_chars keep s = true -> Text.filter keep s = s.
Proof.
  induction s as [|a s IH]; [reflexivity|].
  cbn [Str.all_chars Text.filter]. intros H. apply andb_true_iff in H.
  destruct H as [Ha Hs]. rewrite Ha, (IH Hs). reflexivity.
Qed.

(** While a tag is being dropped there is a [">"] ahead, and what is kept
    after it has no tag. *)
Lemma removeTags_tagless (s : string) (inside : bool) :
  tagless (Text.removeTags inside s) = true.
Proof.
  revert inside. induction s as [|a s IH]; intros inside; [reflexivity|].
  cbn [Text.removeTags]. destruct inside; [apply IH|].
  destruct (Ascii.eqb a "<" && Text.has_char ">" s) eqn:E; [apply IH|].
  cbn [tagless]. rewrite IH, andb_true_r.
  destruct (Ascii.eqb a "<"); [|reflexivity]. cbn [andb] in *.
  destruct (Text.has_char ">" (Text.removeTags false s)) eqn:G; [|reflexivity].
  rewrite (Subseq_has_char _ _ _ (removeTags_Subseq s false) G) in E. discriminate.
Qed.

Lemma removeTags_fixed (s : string) :
  tagless s = true -> Text.removeTags false s = s.
Proof.
  induction s as [|a s IH]; [reflexivity|].
  cbn [tagless Text.removeTags]. intros H. apply andb_true_iff in H.
  destruct H as [H1 H2]. apply negb_true_iff in H1. rewrite H1, (IH H2). reflexivity.
Qed.

(** [X8] What [sanitizeNote] guarantees.  A note is accepted exactly when
    its trimmed text is not empty and not longer than [maxLength].  The
    sanitized note is then the input with characters left out, never longer
    than [maxLength]; it holds no control character and no tag: the tag
    filter [/<[^>]*>/g] and the control filter find nothing more to remove in
    it. *)
Theorem note_sanitization (note : string) (maxLength : Z) :
  let r := Validation.sanitizeNote note maxLength in
  (Validation.valid r = true <->
   (1 <= String.length (Text.trim note))%nat
   /\ Z.of_nat (String.length (Text.trim note)) <= maxLength) /\
  (Validation.valid r = true ->
   exists s,
     r = Validation.accepted s /\
     Subseq s note /\
     Z.of_nat (String.length s) <= maxLength /\
     Str.all_chars (fun c => negb (Text.isControlChar c)) s = true /\
     Text.filter (fun c => negb (Text.isControlChar c)) s = s /\
     tagless s = true /\
     Text.removeTags false s = s).
Proof.
  cbv zeta. unfold Validation.sanitizeNote.
  destruct note as [|a note].
  { vcbn. split; [split; [discriminate|]|discriminate].
    intros [H _]. simpl in H. lia. }
  cbn [Str.isEmpty]. set (trimmed := Text.trim (String a note)).
  destruct (Nat.eqb_spec (String.length trimmed) 0) as [L0|L0].
  { vcbn. split; [split; [discriminate|]|discriminate]. intros [H _]. lia. }
  destruct (Z.ltb_spec maxLength (Z.of_nat (String.length trimmed))) as [L1|L1].
  { vcbn. split; [split; [discriminate|]|discriminate]. intros [_ H]. lia. }
  vcbn. split; [split; [intros _; lia|reflexivity]|].
  intros _.
  set (s1 := Text.removeTags false trimmed).
  set (s2 := Text.remove_ci "javascript:" 0 s1).
  set (s3 := Text.removeHandlers 0 s2).
  set (s := Text.filter (fun c => negb (Text.isControlChar c)) s3).
  assert (H3 : Subseq s s1).
  { eapply Subseq_trans; [apply filter_Subseq|].
    eapply Subseq_trans; [apply removeHandlers_Subseq|apply remove_ci_Subseq]. }
  assert (H0 : Subseq s trimmed).
  { eapply Subseq_trans; [exact H3|apply removeTags_Subseq]. }
  assert (Ht : tagless s = true).
  { apply (Subseq_tagless _ _ H3). apply removeTags_tagless. }
  assert (Hc : Str.all_chars (fun c => negb (Text.isControlChar c)) s = true).
  { apply filter_all_chars. }
  exists s. split; [reflexivity|].
  split; [eapply Subseq_trans; [exact H0|apply trim_Subseq]|].
  split; [pose proof (Subseq_length _ _ H0); lia|].
  split; [exact Hc|]. split; [apply filter_fixed, Hc|].
  split; [exact Ht|apply removeTags_fixed, Ht].
Qed.

(** ** Shortened addresses *)

Lemma length_append (s t : string) :
  String.length (s ++ t) = (String.length s + String.length t)%nat.
Proof. induction s as [|a s IH]; simpl; [reflexivity|]. rewrite IH. reflexivity. Qed.

Lemma length_substring (s : string) (n m : nat) :
  String.length (String.substring n m s) = Nat.min m (String.length s - n).
Proof.
  revert n m. induction s as [|a s IH]; intros n m.
  - destruct n, m; reflexivity.
  - destruct n as [|n].
    + destruct m as [|m]; [reflexivity|]. simpl. rewrite IH.
      rewrite Nat.sub_0_r. reflexivity.
    + simpl. apply IH.
Qed.

Lemma substring_all (s : string) : String.substring 0 (String.length s) s = s.
Proof. induction s as [|a s IH]; [reflexivity|]. simpl. rewrite IH. reflexivity. Qed.

(** What the common body of [formatAddress] and [formatSignature] does
    with the number of characters in effect. *)
Lemma truncation_spec (format : string -> option Z -> string) (default : Z) :
  (forall text given,
     format text given
     = let chars := or_default given default in
       if Z.of_nat (String.length text) <=? chars * 2 + 3 then text
       else (Text.slice text 0 (Some chars) ++ "..."
             ++ Text.slice text (- chars) None)%string) ->
  forall (text : string) (given : option Z),
    let chars := or_default given default in
    (1 <= chars ->
     let out := format text given in
     Z.of_nat (String.length out)
     = Z.min (Z.of_nat (String.length text)) (chars * 2 + 3) /\
     format out given = out /\
     (Z.of_nat (String.length text) <= chars * 2 + 3 -> out = text) /\
     (chars * 2 + 3 < Z.of_nat (String.length text) -> out = shortened text chars)) /\
    (chars = 0 -> 3 < Z.of_nat (String.length text) ->
     format text given = ("..." ++ text)%string).
Proof.
  intros Hf text given chars. split.
  - intros Hc. cbv zeta.
    assert (Short : forall a, Z.of_nat (String.length a) <= chars * 2 + 3 ->
                              format a given = a).
    { intros a Ha. rewrite Hf. cbv zeta. fold chars.
      destruct (Z.leb_spec (Z.of_nat (String.length a)) (chars * 2 + 3)); [reflexivity|lia]. }
    destruct (Z.le_gt_cases (Z.of_nat (String.length text)) (chars * 2 + 3)) as [L|L].
    + rewrite (Short text L). split; [lia|]. split; [apply Short, L|].
      split; [reflexivity|lia].
    + assert (E : format text given = shortened text chars).
      { rewrite Hf. cbv zeta. fold chars. unfold shortened, Text.slice, Text.relative.
        destruct (Z.leb_spec (Z.of_nat (String.length text)) (chars * 2 + 3)); [lia|].
        destruct (Z.ltb_spec 0 0); [lia|].
        destruct (Z.ltb_spec chars 0); [lia|].
        destruct (Z.ltb_spec (- chars) 0); [|lia].
        rewrite (Z.min_l 0) by lia. rewrite (Z.min_l chars) by lia.
        rewrite (Z.max_l (Z.of_nat (String.length text) + - chars)) by lia.
        rewrite Z.sub_0_r, (Z.max_l chars) by lia.
        replace (Z.of_nat (String.length text)
                 - (Z.of_nat (String.length text) + - chars)) with chars by lia.
        rewrite (Z.max_l chars) by lia.
        replace (Z.to_nat (Z.of_nat (String.length text) + - chars))
          with (String.length text - Z.to_nat chars)%nat by lia.
        reflexivity. }
      assert (El : Z.of_nat (String.length (format text given)) = chars * 2 + 3).
      { rewrite E. unfold shortened.
        rewrite !length_append, !length_substring. simpl String.length. lia. }
      split; [lia|]. split; [apply Short; lia|]. split; [lia|]. intros _. exact E.
  - intros C0 L. rewrite Hf. cbv zeta. fold chars. rewrite C0.
    unfold Text.slice, Text.relative.
    destruct (Z.leb_spec (Z.of_nat (String.length text)) (0 * 2 + 3)); [lia|].
    change (- 0) with 0. destruct (Z.ltb_spec 0 0); [lia|].
    rewrite (Z.min_l 0) by lia. rewrite Z.sub_0_r, Z.max_r by lia.
    rewrite Z.sub_0_r, Z.max_l by lia. rewrite Nat2Z.id.
    change (Z.to_nat 0) with 0%nat. rewrite substring_all.
    destruct text; reflexivity.
Qed.

(** [X9] [formatAddress] keeps 4 characters at either end unless it is told
    otherwise, [formatSignature] 8.  With [chars >= 1] characters in effect the
    result is the input when that has at most [2 * chars + 3] characters, and
    otherwise its first [chars] characters, three dots and its last [chars]
    characters: its length is the smaller of the input's length and
    [2 * chars + 3], and formatting it again changes nothing.  With
    [chars = 0] an input of more than three characters comes back whole behind
    three dots, three characters longer than it was. *)
Theorem address_truncation (text : string) (given : option Z) :
  let truncates (format : string -> option Z -> string) (chars : Z) :=
    (1 <= chars ->
     let out := format text given in
     Z.of_nat (String.length out)
     = Z.min (Z.of_nat (String.length text)) (chars * 2 + 3) /\
     format out given = out /\
     (Z.of_nat (String.length text) <= chars * 2 + 3 -> out = text) /\
     (chars * 2 + 3 < Z.of_nat (String.length text) -> out = shortened text chars)) /\
    (chars = 0 -> 3 < Z.of_nat (String.length text) ->
     format text given = ("..." ++ text)%string) in
  truncates formatAddress (or_default given 4) /\
  truncates formatSignature (or_default given 8).
Proof.
  cbv zeta. split.
  - apply (truncation_spec formatAddress 4). intros; reflexivity.
  - apply (truncation_spec formatSignature 8). intros; reflexivity.
Qed.

(** ** The effort of a payment and of a batch *)

Lemma total_delay_app (a b : Trace) : total_delay (a ++ b) = total_delay a + total_delay b.
Proof.
  unfold total_delay. rewrite sleeps_app.
  induction (sleeps a) as [|x l IH]; simpl; lia.
Qed.

Lemma within_app t1 c1 d1 t2 c2 d2 (e1 e2 : Trace) :
  within t1 c1 d1 e1 -> within t2 c2 d2 e2 ->
  within (t1 + t2) (c1 + c2) (d1 + d2) (e1 ++ e2).
Proof.
  intros (T1 & C1 & D1) (T2 & C2 & D2). unfold within.
  rewrite transfer_calls_app, compress_calls_app, total_delay_app, !length_app. lia.
Qed.

Lemma within_weaken t c d t' c' d' (evs : Trace) :
  within t c d evs -> (t <= t')%nat -> (c <= c')%nat -> d <= d' -> within t' c' d' evs.
Proof. unfold within. intros (T & C & D) Ht Hc Hd. lia. Qed.

Lemma within_nil : within 0 0 0 [].
Proof. unfold within, total_delay. simpl. lia. Qed.

Lemma within_sleep (ms : Z) : within 0 0 ms [E_sleep ms].
Proof. unfold within, total_delay. simpl. lia. Qed.

Lemma within_transfer (o : Oracle) (pk w : string) (a : Js.number) (h : Trace) r evs :
  transferCompressedSOL o pk w a h = (r, evs) -> within 1 0 0 evs.
Proof.
  intros H. apply transfer_observations in H.
  destruct H as (T & S & _ & _ & C & _).
  unfold within, total_delay. rewrite T, S, C. simpl. lia.
Qed.

Lemma within_autoCompress (o : Oracle) (pk : string) (required : Z) (h : Trace) r evs :
  autoCompress o pk required h = (r, evs) -> within 0 1 2000 evs.
Proof.
  intros H.
  destruct (Z.lt_ge_cases (compressedBalance_at o pk h) required) as [Hlt|Hge].
  - destruct (getBalance o (h ++ [E_getCompressedAccountsByOwner pk]) pk) as [wb|x] eqn:Hb.
    + destruct (Js.lt wb (Js.add (Js.Number (required - compressedBalance_at o pk h))
                                 FEE_RESERVE)) eqn:Hw.
      * rewrite (autoCompress_insufficient o pk required h wb Hlt Hb Hw) in H.
        inversion H; subst. unfold within, total_delay. simpl. lia.
      * rewrite (autoCompress_top_up o pk required h wb Hlt Hb Hw) in H.
        destruct (submitCompress o _ pk _) as [sig|x]; inversion H; subst;
          unfold within, total_delay; simpl; lia.
    + rewrite (autoCompress_no_wallet_balance o pk required h x Hlt Hb) in H.
      inversion H; subst. unfold within, total_delay. simpl. lia.
  - rewrite (autoCompress_enough o pk required h Hge) in H.
    inversion H; subst. unfold within, total_delay. simpl. lia.
Qed.

(** The retry loop with one, two and three attempts left. *)
Lemma within_retry (o : Oracle) (pk w : string) (a : Js.number) (n : nat) :
  (n <= 3)%nat ->
  forall last h r evs,
    transfer_with_retry o n pk w a last h = (r, evs) ->
    within n 0 (match n with 3%nat => 6000 | 2%nat => 4000 | _ => 0 end) evs.
Proof.
  induction n as [|n IH]; intros Hn last h r evs H.
  - inversion H; subst. apply within_nil.
  - cbn [transfer_with_retry] in H. unfold bind at 1 in H. unfold settle in H.
    destruct (transferCompressedSOL o pk w a h) as [ra ea] eqn:Ha.
    apply within_transfer in Ha.
    assert (Hd : 0 <= match S n with 3%nat => 6000 | 2%nat => 4000 | _ => 0 end).
    { destruct n as [|[|[|n]]]; lia. }
    destruct ra as [signature|err].
    + inversion H; subst. rewrite app_nil_r.
      eapply within_weaken; [exact Ha|lia|lia|exact Hd].
    + destruct (isQueueIssue err && (maxAttempts - Z.of_nat n <? maxAttempts)) eqn:Eq.
      * unfold bind, sleep, emit in H.
        destruct (transfer_with_retry o n pk w a err ((h ++ ea) ++ [E_sleep _]))
          as [r' e'] eqn:Hr.
        inversion H; subst. apply IH in Hr; [|lia].
        apply andb_true_iff in Eq. destruct Eq as [_ Eq]. apply Z.ltb_lt in Eq.
        unfold maxAttempts in *.
        pose proof (within_app _ _ _ _ _ _ _ _ Ha
                      (within_app _ _ _ _ _ _ _ _
                         (within_sleep ((3 - Z.of_nat n) * 2000)) Hr)) as W.
        eapply within_weaken; [exact W|lia|lia|].
        destruct n as [|[|[|n]]]; simpl; lia.
      * inversion H; subst. rewrite app_nil_r.
        eapply within_weaken; [exact Ha|lia|lia|exact Hd].
Qed.

Lemma within_processRecipient (o : Oracle) (pk : string) (recipient : BatchRecipient)
  (h : Trace) r evs :
  processRecipient o pk recipient h = (r, evs) -> within 3 0 6000 evs.
Proof.
  destruct (decodesToPublicKey o (br_wallet recipient)) eqn:Hd.
  - destruct (transfer_with_retry o (Z.to_nat maxAttempts) pk (br_wallet recipient)
                (br_amount recipient) TUndefined h) as [r0 e0] eqn:Hr.
    rewrite (processRecipient_run o pk recipient h r0 e0 Hd Hr).
    intros H. inversion H; subst.
    apply (within_retry o pk _ _ 3 (le_n 3)) in Hr. exact Hr.
  - rewrite (processRecipient_undecodable o pk recipient h Hd).
    intros H. inversion H; subst.
    eapply within_weaken; [apply within_nil|lia|lia|lia].
Qed.

Lemma within_processRecipients (o : Oracle) (pk : string) (rs : list BatchRecipient) :
  forall h r evs,
    processRecipients o pk rs h = (r, evs) ->
    within (3 * List.length rs) 0 (6500 * Z.of_nat (List.length rs)) evs.
Proof.
  induction rs as [|recipient rest IH]; intros h r evs H.
  - inversion H; subst. apply within_nil.
  - cbn [processRecipients] in H. unfold bind at 1 in H.
    destruct (processRecipient o pk recipient h) as [[recipient'|t] e1] eqn:H1.
    2:{ inversion H; subst. apply within_processRecipient in H1.
        eapply within_weaken; [exact H1|simpl; lia|lia|].
        cbn [List.length]. lia. }
    apply within_processRecipient in H1.
    unfold bind at 1 in H. unfold sleep, emit in H.
    unfold bind at 1 in H.
    destruct (processRecipients o pk rest ((h ++ e1) ++ [E_sleep 500])) as [[rest'|t] e2] eqn:H2.
    + inversion H; subst. apply IH in H2. rewrite app_nil_r.
      pose proof (within_app _ _ _ _ _ _ _ _ H1
                    (within_app _ _ _ _ _ _ _ _ (within_sleep 500) H2)) as W.
      eapply within_weaken; [exact W|simpl; lia|lia|]. cbn [List.length]. lia.
    + inversion H; subst. apply IH in H2.
      pose proof (within_app _ _ _ _ _ _ _ _ H1
                    (within_app _ _ _ _ _ _ _ _ (within_sleep 500) H2)) as W.
      eapply within_weaken; [exact W|simpl; lia|lia|]. cbn [List.length]. lia.
Qed.

Lemma within_invoice_events (o : Oracle) (pk : string) (teamId : option string)
  (rs : list BatchRecipient) :
  forall h, within 0 0 0 (invoice_events o pk teamId rs h)
            /\ List.length (saved_invoices (invoice_events o pk teamId rs h))
               = List.length rs.
Proof.
  induction rs as [|r rest IH]; intros h.
  - split; [apply within_nil|reflexivity].
  - cbn [invoice_events].
    destruct (IH (h ++ [E_saveInvoice (batchInvoice o h pk teamId r)])) as (W & L).
    split.
    + change (E_saveInvoice (batchInvoice o h pk teamId r) :: ?l)
        with ([E_saveInvoice (batchInvoice o h pk teamId r)] ++ l).
      apply (within_app 0 0 0 0 0 0); [|exact W].
      unfold within, total_delay. simpl. lia.
    + unfold saved_invoices in *. simpl. rewrite L. reflexivity.
Qed.

(** The first phase of a batch ends before the batch record is written,
    with nothing saved, or with the attempt to write it. *)
Lemma executeBatch_payments_shape (o : Oracle) (pk : string) (options : ExecuteBatchOptions)
  (h : Trace) r evs :
  executeBatch_payments o pk options h = (r, evs) ->
  let n := List.length (filter isSanitized (opt_recipients options)) in
  within (3 * n) 1 (2000 + 6500 * Z.of_nat n) evs /\
  saved_invoices evs = [] /\
  ((saved_batches evs = [] /\ exists t, r = Throw t)
   \/ exists e batch,
        evs = e ++ [E_saveBatchPayment batch] /\
        saved_batches e = [] /\
        List.length (bp_recipients batch) = n /\
        r = match saveBatchPayment o (h ++ e) batch with
            | Returns _ => Ok batch
            | Raises x => Throw (thrown_of x)
            end).
Proof.
  intros H n. unfold executeBatch_payments in H.
  set (sanitized := filter isSanitized (opt_recipients options)) in *.
  destruct (List.length sanitized =? 0)%nat.
  { inversion H; subst. split; [|split; [reflexivity|left; split; [reflexivity|eauto]]].
    eapply within_weaken; [apply within_nil|lia|lia|lia]. }
  apply bind_inv in H.
  destruct H as [(t & Ht & ->)|(required & e0 & e0' & Hreq & H & ->)].
  { unfold BigInt in Ht. destruct (Js.toInteger _); inversion Ht; subst.
    split; [|split; [reflexivity|left; split; [reflexivity|eauto]]].
    eapply within_weaken; [apply within_nil|lia|lia|lia]. }
  assert (E0 : e0 = []).
  { unfold BigInt in Hreq. destruct (Js.toInteger _); inversion Hreq; reflexivity. }
  subst e0. rewrite app_nil_r in H. simpl app.
  apply bind_inv in H.
  destruct H as [(t & Ht & ->)|(cb & e1 & e1' & Hc & H & ->)].
  { pose proof (within_autoCompress _ _ _ _ _ _ Ht) as W.
    apply autoCompress_quiet in Ht. destruct Ht as (_ & I1 & B1 & _).
    split; [|split; [exact I1|left; split; [exact B1|eauto]]].
    eapply within_weaken; [exact W|lia|lia|lia]. }
  pose proof (within_autoCompress _ _ _ _ _ _ Hc) as W1.
  apply autoCompress_quiet in Hc. destruct Hc as (_ & I1 & B1 & _).
  unfold bind at 1 in H. unfold history at 1 in H. rewrite app_nil_r in H.
  simpl app in H.
  destruct (processRecipients_settle o pk (newBatchRecipients o (h ++ e1) sanitized)
              (h ++ e1)) as (settled & e2 & Hp & Hs & Hl).
  pose proof (within_processRecipients _ _ _ _ _ _ Hp) as W2.
  assert (Hlen : List.length (newBatchRecipients o (h ++ e1) sanitized) = n).
  { unfold newBatchRecipients. rewrite length_map, length_combine, length_seq.
    apply Nat.min_id. }
  rewrite Hlen in W2.
  unfold bind at 1 in H. rewrite Hp in H.
  unfold bind at 1 in H. unfold history at 1 in H. rewrite app_nil_r in H.
  simpl app in H.
  destruct Hl as (I2 & B2 & _).
  set (batch := mkBatchPayment _ _ _ _ _ _ _ settled) in H.
  assert (W : within (3 * n) 1 (2000 + 6500 * Z.of_nat n)
                ((e1 ++ e2) ++ [E_saveBatchPayment batch])).
  { pose proof (within_app _ _ _ _ _ _ _ _ (within_app _ _ _ _ _ _ _ _ W1 W2)
                  (within_nil)) as W.
    assert (Wb : within 0 0 0 [E_saveBatchPayment batch])
      by (unfold within, total_delay; simpl; lia).
    pose proof (within_app _ _ _ _ _ _ _ _ (within_app _ _ _ _ _ _ _ _ W1 W2) Wb) as W'.
    eapply within_weaken; [exact W'|lia|lia|lia]. }
  assert (Hshape : e1' = e2 ++ [E_saveBatchPayment batch] /\
                   r = match saveBatchPayment o (h ++ e1 ++ e2) batch with
                       | Returns _ => Ok batch
                       | Raises x => Throw (thrown_of x)
                       end).
  { unfold bind, call, ret in H. rewrite <- app_assoc in H.
    destruct (saveBatchPayment o (h ++ e1 ++ e2) batch) as [u|x];
      inversion H; subst; rewrite ?app_nil_r; auto. }
  destruct Hshape as [-> ->]. rewrite app_assoc.
  split; [exact W|]. split.
  { rewrite !saved_invoices_app, I1, I2. reflexivity. }
  right. exists (e1 ++ e2), batch. split; [reflexivity|]. split.
  { unfold saved_batches in *. rewrite flat_map_app, B1, B2. reflexivity. }
  split; [|reflexivity].
  subst batch. cbn [bp_recipients]. rewrite <- Hlen.
  symmetry. apply (Forall2_length Hs).
Qed.

Lemma filter_length_le {A} (f : A -> bool) (l : list A) :
  (List.length (filter f l) <= List.length l)%nat.
Proof. induction l as [|a l IH]; simpl; [lia|]. destruct (f a); simpl; lia. Qed.

(** [X10] The effort of a batch is bounded by the number [n] of validated
    requests: at most [3 * n] transfer attempts, at most one call to
    [compressSOL], at most [2000 + 6500 * n] milliseconds of deliberate delay
    (the pause after a top-up, the back-off of the retries and the pause
    after each recipient), at most one write of the batch record and at most
    [n] invoice writes. *)
Theorem batch_effort_is_bounded (o : Oracle) (w : Wallet) (options : ExecuteBatchOptions)
  (h : Trace) out evs :
  executeBatch o w options h = (out, evs) ->
  let n := List.length (filter isSanitized (opt_recipients options)) in
  within (3 * n) 1 (2000 + 6500 * Z.of_nat n) evs /\
  (List.length (saved_batches evs) <= 1)%nat /\
  (List.length (saved_invoices evs) <= n)%nat.
Proof.
  intros H n. unfold executeBatch in H.
  assert (Z0 : within (3 * n) 1 (2000 + 6500 * Z.of_nat n) []).
  { eapply within_weaken; [apply within_nil|lia|lia|lia]. }
  destruct (publicKey w) as [pk|];
    [|inversion H; subst; split; [exact Z0|simpl; lia]].
  destruct (connected w && signTransaction w);
    [|inversion H; subst; split; [exact Z0|simpl; lia]].
  rewrite executeBatch_body_run in H.
  destruct (executeBatch_payments o pk options h) as [r e1] eqn:Hp.
  pose proof (executeBatch_payments_shape o pk options h r e1 Hp) as S.
  cbv zeta in S. fold n in S. destruct S as (W & I & S).
  assert (B : (List.length (saved_batches e1) <= 1)%nat).
  { destruct S as [(B & _)|(e & batch & -> & B & _)].
    - rewrite B. simpl. lia.
    - unfold saved_batches in *. rewrite flat_map_app, B. simpl. lia. }
  destruct r as [batch|t].
  - inversion H; subst.
    destruct (within_invoice_events o pk (opt_teamId options)
                (filter is_paid (bp_recipients batch)) (h ++ e1)) as (Wi & Li).
    destruct (invoice_events_saved o pk (opt_teamId options)
                (filter is_paid (bp_recipients batch)) (h ++ e1)) as (_ & _ & Bi).
    split; [|split].
    + pose proof (within_app _ _ _ _ _ _ _ _ W Wi) as W'.
      eapply within_weaken; [exact W'|lia|lia|lia].
    + unfold saved_batches in *. rewrite flat_map_app, Bi, app_nil_r. exact B.
    + rewrite saved_invoices_app, I. cbn [app]. rewrite Li.
      destruct S as [(_ & t & Ht)|(e & b & _ & _ & Hn & Hr)]; [discriminate|].
      destruct (saveBatchPayment o (h ++ e) b); inversion Hr; subst.
      rewrite <- Hn. apply filter_length_le.
  - inversion H; subst. split; [exact W|]. split; [exact B|].
    rewrite I. simpl. lia.
Qed.

Lemma split_at_save (a a' c c' : Trace) (b b' : BatchPayment) :
  a ++ E_saveBatchPayment b :: c = a' ++ E_saveBatchPayment b' :: c' ->
  saved_batches a' = [] -> saved_batches c' = [] ->
  a = a' /\ b = b' /\ c = c'.
Proof.
  revert a'. induction a as [|x a IH]; intros a' H Ha' Hc'.
  - destruct a' as [|x' a'].
    + inversion H; subst. auto.
    + cbn [app] in H. inversion H; subst. discriminate Ha'.
  - destruct a' as [|x' a'].
    + cbn [app] in H. inversion H; subst.
      assert (C : saved_batches (a ++ E_saveBatchPayment b :: c) = []) by exact Hc'.
      unfold saved_batches in C. rewrite flat_map_app in C. simpl in C.
      apply app_eq_nil in C. destruct C as [_ C]. discriminate.
    + cbn [app] in H. inversion H; subst.
      destruct (IH a' H2) as (-> & -> & ->); auto.
      unfold saved_batches in *. simpl in Ha'. apply app_eq_nil in Ha'. tauto.
Qed.

(** [X11] The batch record is written after all transfers, and what
    [executeBatch] returns hangs on that write.  Wherever the trace shows a
    call to [saveBatchPayment]: if the call failed, [executeBatch] resolves to
    [null] with that error, nothing follows in the trace and no invoice has
    been written, whatever was paid before; if it succeeded, the batch
    returned is the one that was written. *)
Theorem batch_returned_only_if_saved (o : Oracle) (w : Wallet) (options : ExecuteBatchOptions)
  (h : Trace) returned err (before after : Trace) (batch : BatchPayment) :
  executeBatch o w options h
  = ((returned, err), before ++ E_saveBatchPayment batch :: after) ->
  match saveBatchPayment o (h ++ before) batch with
  | Raises x =>
      returned = None /\ err = Some (parseError (thrown_of x)) /\ after = [] /\
      saved_invoices before = []
  | Returns _ => returned = Some batch /\ err = None
  end.
Proof.
  intros H. unfold executeBatch in H.
  destruct (publicKey w) as [pk|];
    [|inversion H as [[H1 H2 H3]]; destruct before; discriminate].
  destruct (connected w && signTransaction w);
    [|inversion H as [[H1 H2 H3]]; destruct before; discriminate].
  rewrite executeBatch_body_run in H.
  destruct (executeBatch_payments o pk options h) as [r e1] eqn:Hp.
  pose proof (executeBatch_payments_shape o pk options h r e1 Hp) as S.
  cbv zeta in S. destruct S as (_ & I & S).
  destruct S as [(B & t & ->)|(e & b & -> & B & _ & Hr)].
  - inversion H as [[H1 H2 H3]].
    assert (C : saved_batches (before ++ E_saveBatchPayment batch :: after) = [])
      by (rewrite <- H3; exact B).
    unfold saved_batches in C. rewrite flat_map_app in C. simpl in C.
    apply app_eq_nil in C. destruct C as [_ C]. discriminate.
  - rewrite saved_invoices_app in I. apply app_eq_nil in I. destruct I as [I _].
    destruct (saveBatchPayment o (h ++ e) b) as [u|x] eqn:Hs; subst r.
    + inversion H as [[H1 H2 H3]].
      rewrite <- app_assoc in H3. cbn [app] in H3.
      destruct (invoice_events_saved o pk (opt_teamId options)
                  (filter is_paid (bp_recipients b))
                  (h ++ e ++ [E_saveBatchPayment b])) as (_ & _ & Bi).
      symmetry in H3. apply split_at_save in H3; [|exact B|exact Bi].
      destruct H3 as (-> & -> & _). rewrite Hs. auto.
    + inversion H as [[H1 H2 H3]].
      change (e ++ [E_saveBatchPayment b]) with (e ++ E_saveBatchPayment b :: []) in H3.
      symmetry in H3. apply split_at_save in H3; [|exact B|reflexivity].
      destruct H3 as (-> & -> & ->). rewrite Hs. auto.
Qed.

(** [X12] The footprint of a single payment.  [payInvoice] never writes an
    invoice or a batch, calls [compressSOL] at most once, attempts at most two
    transfers, and waits at most 2000 milliseconds; when the wallet is not
    connected it calls nothing at all and leaves the previous error state
    untouched. *)
Theorem payment_footprint (o : Oracle) (cfg : Config) (w : Wallet)
  (error0 : option SentoError) (invoice : Invoice) (h : Trace) result err evs :
  payInvoice o cfg w error0 invoice h = ((result, err), evs) ->
  within 2 1 2000 evs /\ saved_invoices evs = [] /\ saved_batches evs = [] /\
  (publicKey w = None \/ connected w && signTransaction w = false ->
   evs = [] /\ err = error0 /\ success result = false).
Proof.
  intros H. unfold payInvoice in H.
  assert (Z0 : within 2 1 2000 []).
  { eapply within_weaken; [apply within_nil|lia|lia|lia]. }
  destruct (publicKey w) as [pk|] eqn:Epk.
  2:{ inversion H; subst. split; [exact Z0|]. repeat split; reflexivity. }
  destruct (connected w && signTransaction w) eqn:Ec.
  2:{ inversion H; subst. split; [exact Z0|]. repeat split; reflexivity. }
  assert (G : within 2 1 2000 evs /\ saved_invoices evs = [] /\ saved_batches evs = []).
  { assert (Hb : exists r, payInvoice_body o cfg pk invoice h = (r, evs)).
    { destruct (payInvoice_body o cfg pk invoice h) as [[s|t] e];
        inversion H; subst; eauto. }
    clear H. destruct Hb as (r & Hb). unfold payInvoice_body in Hb.
    apply bind_inv in Hb.
    assert (P : forall rp e, payInvoice_prepare o cfg pk invoice h = (rp, e) ->
                             within 0 1 2000 e /\ saved_invoices e = []
                             /\ saved_batches e = []).
    { clear. intros rp e H. unfold payInvoice_prepare in H.
      apply bind_inv in H.
      destruct H as [(t & Ht & _)|(k & e0 & e0' & Hk & H & ->)].
      { unfold newPublicKey in Ht. destruct (decodesToPublicKey o _); inversion Ht; subst.
        split; [|auto]. eapply within_weaken; [apply within_nil|lia|lia|lia]. }
      assert (E0 : e0 = []).
      { unfold newPublicKey in Hk. destruct (decodesToPublicKey o _); inversion Hk; auto. }
      subst e0. rewrite app_nil_r in H. cbn [app].
      apply bind_inv in H.
      destruct H as [(t & Ht & _)|(required & e1 & e1' & Hreq & H & ->)].
      { unfold BigInt in Ht. destruct (Js.toInteger _); inversion Ht; subst.
        split; [|auto]. eapply within_weaken; [apply within_nil|lia|lia|lia]. }
      assert (E1 : e1 = []).
      { unfold BigInt in Hreq. destruct (Js.toInteger _); inversion Hreq; reflexivity. }
      subst e1. rewrite app_nil_r in H. cbn [app].
      apply bind_inv in H.
      destruct H as [(t & Ht & _)|(cb & e2 & e2' & Hc & H & ->)].
      { pose proof (within_autoCompress _ _ _ _ _ _ Ht) as W.
        apply autoCompress_quiet in Ht. destruct Ht as (_ & I1 & B1 & _). auto. }
      pose proof (within_autoCompress _ _ _ _ _ _ Hc) as W.
      apply autoCompress_quiet in Hc. destruct Hc as (_ & I1 & B1 & _).
      assert (E3 : e2' = []).
      { apply bind_inv in H.
        destruct H as [(t & Ht & _)|(fr & e3 & e3' & Hf & H & ->)].
        - destruct (Js.gt _ _);
            [destruct (Str.isEmpty _ || negb _);
             [inversion Ht; reflexivity|
              unfold bind, newPublicKey in Ht;
              destruct (decodesToPublicKey o _); inversion Ht; reflexivity]|
             inversion Ht].
        - inversion H; subst. rewrite app_nil_r.
          destruct (Js.gt _ _);
            [destruct (Str.isEmpty _ || negb _);
             [discriminate|
              unfold bind, newPublicKey in Hf;
              destruct (decodesToPublicKey o _); inversion Hf; reflexivity]|
             inversion Hf; reflexivity]. }
      subst e2'. rewrite app_nil_r. auto. }
    destruct Hb as [(t & Ht & _)|(prepared & e1 & e2 & Hprep & Htr & ->)].
    { destruct (P _ _ Ht) as (W & I & B). split; [|auto].
      eapply within_weaken; [exact W|lia|lia|lia]. }
    destruct (P _ _ Hprep) as (W1 & I1 & B1).
    rewrite payInvoice_transfers_run in Htr.
    destruct (transferCompressedSOL o pk (fst prepared) (inv_amount invoice) (h ++ e1))
      as [ra ea] eqn:Ha.
    pose proof (within_transfer _ _ _ _ _ _ _ Ha) as Wa.
    apply transfer_observations in Ha. destruct Ha as (_ & _ & Ia & _ & _ & Ba).
    assert (One : within 2 1 2000 (e1 ++ ea) /\ saved_invoices (e1 ++ ea) = []
                  /\ saved_batches (e1 ++ ea) = []).
    { split; [|split].
      - pose proof (within_app _ _ _ _ _ _ _ _ W1 Wa) as W.
        eapply within_weaken; [exact W|lia|lia|lia].
      - rewrite saved_invoices_app, I1, Ia. reflexivity.
      - unfold saved_batches in *. rewrite flat_map_app, B1, Ba. reflexivity. }
    destruct ra as [sig|t]; [|inversion Htr; subst; exact One].
    destruct (snd prepared) as [feeWallet|]; [|inversion Htr; subst; exact One].
    destruct (Js.gt _ _); [|inversion Htr; subst; exact One].
    destruct (transferCompressedSOL o pk feeWallet _ ((h ++ e1) ++ ea)) as [rf ef] eqn:Hf.
    pose proof (within_transfer _ _ _ _ _ _ _ Hf) as Wf.
    apply transfer_observations in Hf. destruct Hf as (_ & _ & If & _ & _ & Bf).
    assert (Two : within 2 1 2000 (e1 ++ ea ++ ef) /\ saved_invoices (e1 ++ ea ++ ef) = []
                  /\ saved_batches (e1 ++ ea ++ ef) = []).
    { split; [|split].
      - pose proof (within_app _ _ _ _ _ _ _ _ W1
                      (within_app _ _ _ _ _ _ _ _ Wa Wf)) as W.
        eapply within_weaken; [exact W|lia|lia|lia].
      - rewrite !saved_invoices_app, I1, Ia, If. reflexivity.
      - unfold saved_batches in *. rewrite !flat_map_app, B1, Ba, Bf. reflexivity. }
    destruct rf; inversion Htr; subst; exact Two. }
  destruct G as (G1 & G2 & G3).
  split; [exact G1|]. split; [exact G2|]. split; [exact G3|].
  intros [C|C]; discriminate.
Qed.

(** ** Claiming private funds back *)

Lemma classify_unclaimable (name need most : string) :
  Str.all_chars isNumberChar need = true ->
  Str.all_chars isNumberChar most = true ->
  classify (mkJsError name ("Cannot decompress " ++ need
                            ++ " SOL. Max available in 4 accounts: " ++ most ++ " SOL"))
  = UNKNOWN_ERROR.
Proof.
  intros H1 H2.
  set (pieces := [Lit "Cannot decompress "; Num need;
                  Lit " SOL. Max available in 4 accounts: "; Num most; Lit " SOL"]).
  assert (Hsp : Forall (spelled isNumberChar) pieces).
  { repeat constructor; assumption. }
  change ("Cannot decompress " ++ need
          ++ " SOL. Max available in 4 accounts: " ++ most ++ " SOL")%string
    with (flatten pieces).
  classify_message pieces Hsp.
Qed.

(** The decisions of [decompressSOL] once the indexer has answered and
    the amount makes a whole number of lamports. *)
Lemma decompressSOL_run (o : ClaimOracle) (payer : string) (amountSOL : Js.number)
  (h : ClaimTrace) (items : list CompressedAccount) (target : Z) :
  let lamports := Js.floor (Js.mul amountSOL LAMPORTS_PER_SOL) in
  let entry := [C_call_decompressSOL payer amountSOL;
                C_getCompressedAccountsByOwner payer] in
  claim_accounts o (h ++ [C_call_decompressSOL payer amountSOL]) payer = Returns items ->
  Js.toInteger lamports = Some target ->
  decompressSOL o payer amountSOL h
  = if (List.length items =? 0)%nat then
      (Throw (newError "No compressed SOL to claim"), entry)
    else if sum_lamports items <? target then
      (Throw (newError ("Insufficient compressed balance. Have: "
                        ++ claim_showNumber o
                             (Js.div (Js.Number (sum_lamports items)) LAMPORTS_PER_SOL)
                        ++ " SOL, Need: " ++ claim_showNumber o amountSOL ++ " SOL")%string),
       entry)
    else
      let '(selected, total, ok) := selectAccounts items target in
      if negb ok then
        (Throw (newError ("Cannot decompress " ++ claim_showNumber o amountSOL
                          ++ " SOL. Max available in 4 accounts: "
                          ++ claim_showNumber o
                               (Js.div (Js.Number total) LAMPORTS_PER_SOL)
                          ++ " SOL")%string),
         entry)
      else
        match claim_proof o (h ++ entry) (map acc_hash selected) with
        | Raises x =>
            (Throw (thrown_of x), entry ++ [C_getValidityProof (map acc_hash selected)])
        | Returns _ =>
            let asked := entry ++ [C_getValidityProof (map acc_hash selected)] in
            match claim_submit o (h ++ asked) payer selected payer lamports with
            | Returns signature =>
                (Ok signature, asked ++ [C_submitDecompress payer selected payer lamports])
            | Raises x =>
                (Throw (thrown_of x),
                 asked ++ [C_submitDecompress payer selected payer lamports])
            end
        end.
Proof.
  intros lamports entry Hitems Hint. unfold decompressSOL.
  fold lamports. unfold claim_bind at 1. unfold claim_bind at 1.
  unfold claim_call at 1. rewrite Hitems.
  destruct (List.length items =? 0)%nat; [reflexivity|].
  rewrite Hint.
  destruct (sum_lamports items <? target); [reflexivity|].
  destruct (selectAccounts items target) as [[selected total] ok].
  destruct ok; cbn [negb]; [|reflexivity].
  unfold claim_bind, claim_call. subst entry. rewrite <- !app_assoc. cbn [app].
  destruct (claim_proof o _ _) as [u|x]; [|reflexivity].
  rewrite <- !app_assoc. cbn [app].
  destruct (claim_submit o _ _ _ _ _) as [sig|x]; reflexivity.
Qed.

(** [X13] A claim spends what the selector chose.  [decompressSOL] submits
    at most one decompress instruction, and none unless it returns or the
    submission itself fails.  The instruction is for
    [Math.floor(amountSOL * LAMPORTS_PER_SOL)] lamports, a whole number, sent
    to the payer's own address, and its inputs are at most four accounts
    whose balances cover that number. *)
Theorem claim_spends_selected_accounts (o : ClaimOracle) (payer : string)
  (amountSOL : Js.number) (h : ClaimTrace) (r : Result string) (evs : ClaimTrace) :
  decompressSOL o payer amountSOL h = (r, evs) ->
  (List.length (claims_submitted evs) <= 1)%nat /\
  (forall signature, r = Ok signature -> List.length (claims_submitted evs) = 1%nat) /\
  Forall (fun '(inputs, toAddress, lamports) =>
            (List.length inputs <= 4)%nat /\
            toAddress = payer /\
            lamports = Js.floor (Js.mul amountSOL LAMPORTS_PER_SOL) /\
            exists target,
              Js.toInteger lamports = Some target /\ target <= sum_lamports inputs)
         (claims_submitted evs).
Proof.
  intros H.
  destruct (claim_accounts o (h ++ [C_call_decompressSOL payer amountSOL]) payer)
    as [items|x] eqn:Hitems.
  2:{ unfold decompressSOL, claim_bind, claim_call in H. rewrite Hitems in H.
      inversion H; subst. cbn. split; [lia|]. split; [discriminate|constructor]. }
  destruct (Js.toInteger (Js.floor (Js.mul amountSOL LAMPORTS_PER_SOL)))
    as [target|] eqn:Hint.
  2:{ unfold decompressSOL, claim_bind, claim_call in H. rewrite Hitems, Hint in H.
      destruct (List.length items =? 0)%nat; inversion H; subst; cbn;
        (split; [lia|]); (split; [discriminate|constructor]). }
  rewrite (decompressSOL_run o payer amountSOL h items target Hitems Hint) in H.
  destruct (List.length items =? 0)%nat.
  { inversion H; subst. cbn. split; [lia|]. split; [discriminate|constructor]. }
  destruct (sum_lamports items <? target).
  { inversion H; subst. cbn. split; [lia|]. split; [discriminate|constructor]. }
  pose proof (selectAccounts_spec items target) as S. cbv zeta in S.
  destruct (selectAccounts items target) as [[selected total] ok].
  destruct S as (Hlen & _ & _ & _ & Htot & Hok & _ & _).
  destruct ok; cbn [negb] in H.
  2:{ inversion H; subst. cbn. split; [lia|]. split; [discriminate|constructor]. }
  assert (Hcov : target <= sum_lamports selected).
  { rewrite <- Htot. apply Hok. reflexivity. }
  destruct (claim_proof o _ _) as [u|x].
  2:{ inversion H; subst. cbn. split; [lia|]. split; [discriminate|constructor]. }
  assert (G : evs = [C_call_decompressSOL payer amountSOL;
                     C_getCompressedAccountsByOwner payer;
                     C_getValidityProof (map acc_hash selected);
                     C_submitDecompress payer selected payer
                       (Js.floor (Js.mul amountSOL LAMPORTS_PER_SOL))]).
  { cbv zeta in H. destruct (claim_submit o _ _ _ _ _); inversion H; reflexivity. }
  rewrite G. cbn. split; [lia|]. split; [reflexivity|].
  constructor; [|constructor].
  split; [exact Hlen|]. split; [reflexivity|]. split; [reflexivity|].
  exists target. auto.
Qed.

(** [X14] What the user is told when a claim is refused.  With a connected
    wallet, once the indexer has answered and for an amount that makes a whole
    number of lamports, the hook [decompressSOL] of [usePayment] resolves to a
    failure without asking for a proof or submitting anything in three cases:
    no private account ("An unexpected error occurred. Please try again."),
    private accounts that hold less than the amount ("Insufficient balance.
    Please add more SOL to your wallet."), and accounts that hold enough while
    the selection of at most four does not ("An unexpected error
    occurred. Please try again."). *)
Theorem claim_refusals_as_reported (o : ClaimOracle) (w : Wallet) (pk : string)
  (error0 : option SentoError) (amount : Js.number) (h : ClaimTrace)
  (items : list CompressedAccount) (target : Z) :
  (forall x, Str.all_chars isNumberChar (claim_showNumber o x) = true) ->
  publicKey w = Some pk -> connected w && signTransaction w = true ->
  claim_accounts o (h ++ [C_call_decompressSOL pk amount]) pk = Returns items ->
  Js.toInteger (Js.floor (Js.mul amount LAMPORTS_PER_SOL)) = Some target ->
  let entry := [C_call_decompressSOL pk amount; C_getCompressedAccountsByOwner pk] in
  let refused (message : string) :=
    exists e,
      usePayment_decompressSOL o w error0 amount h
      = ((mkTransactionResult false None (Some message), Some e), entry) in
  (items = [] -> refused "An unexpected error occurred. Please try again.") /\
  (items <> [] -> sum_lamports items < target ->
   refused "Insufficient balance. Please add more SOL to your wallet.") /\
  (items <> [] -> target <= sum_lamports items ->
   snd (selectAccounts items target) = false ->
   refused "An unexpected error occurred. Please try again.").
Proof.
  intros Hshow Hpk Hconn Hitems Hint entry refused. subst refused.
  unfold usePayment_decompressSOL. rewrite Hpk, Hconn.
  rewrite (decompressSOL_run o pk amount h items target Hitems Hint).
  split; [|split].
  - intros ->. cbn. eexists. reflexivity.
  - intros Hne Hlt.
    assert (E0 : (List.length items =? 0)%nat = false)
      by (destruct items; [contradiction|reflexivity]).
    rewrite E0. apply Z.ltb_lt in Hlt. rewrite Hlt.
    eexists. unfold newError, parseError, userMessage. cbn [code].
    rewrite classify_insufficient by apply Hshow. reflexivity.
  - intros Hne Hge Hsel.
    assert (E0 : (List.length items =? 0)%nat = false)
      by (destruct items; [contradiction|reflexivity]).
    rewrite E0. apply Z.ltb_ge in Hge. rewrite Hge.
    destruct (selectAccounts items target) as [[selected total] ok].
    cbn [snd] in Hsel. subst ok. cbn [negb].
    eexists. unfold newError, parseError, userMessage. cbn [code].
    rewrite classify_unclaimable by apply Hshow. reflexivity.
Qed.

(** ** When the indexer cannot be reached *)

Lemma getCompressedAccountCount_run (o : Oracle) (owner : string) (h : Trace) :
  getCompressedAccountCount o owner h
  = (Ok match getCompressedAccountsByOwner o h owner with
        | Returns items => List.length items
        | Raises _ => 0%nat
        end, [E_getCompressedAccountsByOwner owner]).
Proof.
  unfold getCompressedAccountCount, try_catch, bind, call.
  destruct (getCompressedAccountsByOwner o h owner) as [items|x]; reflexivity.
Qed.

(** [X15] A failed fetch of the private accounts is read as an empty
    balance.  [getCompressedBalance] and [getCompressedAccountCount] never
    throw and make exactly one call to the indexer; when that call fails they
    answer 0, as they do for an owner without accounts.  The auto-compress
    block of [payInvoice] and [executeBatch] therefore treats an unreachable
    indexer as a private balance of zero: with a public balance that covers
    the required total and the reserve, it calls [compressSOL] for the whole
    required total, whatever the owner's private accounts hold. *)
Theorem unreachable_indexer_reads_as_empty (o : Oracle) (owner : string) (h : Trace) :
  (exists balance count,
     getCompressedBalance o owner h
     = (Ok balance, [E_getCompressedAccountsByOwner owner]) /\
     getCompressedAccountCount o owner h
     = (Ok count, [E_getCompressedAccountsByOwner owner]) /\
     match getCompressedAccountsByOwner o h owner with
     | Returns items => balance = sum_lamports items /\ count = List.length items
     | Raises _ => balance = 0 /\ count = 0%nat
     end) /\
  (forall x required wb,
     getCompressedAccountsByOwner o h owner = Raises x ->
     0 < required ->
     getBalance o (h ++ [E_getCompressedAccountsByOwner owner]) owner = Returns wb ->
     Js.lt wb (Js.add (Js.Number required) FEE_RESERVE) = false ->
     compress_calls (snd (autoCompress o owner required h))
     = [Js.div (Js.Number required) ONE_BILLION]).
Proof.
  split.
  - exists (compressedBalance_at o owner h).
    eexists. split; [apply getCompressedBalance_run|].
    split; [apply getCompressedAccountCount_run|].
    unfold compressedBalance_at.
    destruct (getCompressedAccountsByOwner o h owner) as [items|x]; [|auto].
    split; [|reflexivity].
    destruct items; reflexivity.
  - intros x required wb Hx Hreq Hwb Hlt.
    assert (E0 : compressedBalance_at o owner h = 0).
    { unfold compressedBalance_at. rewrite Hx. reflexivity. }
    pose proof (autoCompress_top_up o owner required h wb) as T.
    cbv zeta in T. rewrite E0, Z.sub_0_r in T.
    rewrite (T Hreq Hwb Hlt).
    destruct (submitCompress o _ owner _); reflexivity.
Qed.

(** ** Division in binary64, and the round trip through SOL *)

Lemma loc_of_record_of_loc (m : Z) (l : location) :
  loc_of_shr_record (shr_record_of_loc m l) = l.
Proof. destruct l as [|[]]; reflexivity. Qed.

(** Rounding a mantissa of exactly 53 bits that comes with a location. *)
Lemma round_aux_53 (q : positive) (e : Z) (l : location) :
  Z.pos (digits2_pos q) = 53 -> -1074 <= e <= 970 ->
  binary_round_aux Js.prec Js.emax false (Z.pos q) e l
  = let q' := round_nearest_even (Z.pos q) l in
    if q' <? 2 ^ 53 then S754_finite false (Z.to_pos q') e
    else S754_finite false (Z.to_pos (2 ^ 52)) (e + 1).
Proof.
  intros Hd He. cbv zeta.
  pose proof (digits_bounds q) as [Blo Bhi]. rewrite Hd in Blo, Bhi.
  unfold binary_round_aux, shr_fexp. cbn [Zdigits2].
  rewrite Hd, fexp_normal by lia.
  replace (53 + e - 53 - e) with 0 by lia. cbn [shr].
  destruct (shr_record_of_loc (Z.pos q) l) as [m0 r0 s0] eqn:Er.
  assert (Em : m0 = Z.pos q) by (destruct l as [|[]]; inversion Er; reflexivity).
  assert (El : loc_of_shr_record (Build_shr_record m0 r0 s0) = l)
    by (rewrite <- Er; apply loc_of_record_of_loc).
  cbn [shr_m]. rewrite El, Em.
  set (q' := round_nearest_even (Z.pos q) l).
  assert (Hq' : Z.pos q <= q' <= Z.pos q + 1).
  { subst q'. destruct l as [|[]]; cbn [round_nearest_even];
      try destruct (Z.even (Z.pos q)); lia. }
  change (Js.emax - Js.prec) with 971.
  destruct (Z.ltb_spec q' (2 ^ 53)) as [Hlt|Hge].
  - destruct q' as [|p'|p'] eqn:Eq'; try lia.
    assert (D2 : Z.pos (digits2_pos p') = 53) by (apply digits_unique; lia).
    cbn [Zdigits2]. rewrite D2, fexp_normal by lia.
    replace (53 + e - 53 - e) with 0 by lia. cbn [shr shr_record_of_loc shr_m].
    replace (e <=? 971) with true by (symmetry; apply Z.leb_le; lia).
    reflexivity.
  - assert (E2 : q' = 2 ^ 53) by lia. rewrite E2.
    change (2 ^ 53) with (Z.pos (Z.to_pos (2 ^ 53))). cbn [Zdigits2].
    replace (Z.pos (digits2_pos (Z.to_pos (2 ^ 53)))) with 54 by reflexivity.
    rewrite fexp_normal by lia.
    replace (54 + e - 53 - e) with 1 by lia.
    cbn [shr_record_of_loc]. rewrite shr_pos by lia. cbn [shr_m].
    replace (Z.pos (Z.to_pos (2 ^ 53)) / 2 ^ 1) with (Z.pos (Z.to_pos (2 ^ 52)))
      by reflexivity.
    replace (e + 1 <=? 971) with true by (symmetry; apply Z.leb_le; lia).
    reflexivity.
Qed.

(** Rounding a mantissa of 54 bits that comes with a location: one bit is
    shifted out first. *)
Lemma round_aux_54 (q : positive) (e : Z) (l : location) :
  Z.pos (digits2_pos q) = 54 -> -1075 <= e <= 968 ->
  binary_round_aux Js.prec Js.emax false (Z.pos q) e l
  = let sticky := match l with loc_Exact => false | _ => true end in
    let q' := round_nearest_even (Z.pos q / 2)
                (loc_of_shr_record (Build_shr_record (Z.pos q / 2) (Z.odd (Z.pos q)) sticky)) in
    if q' <? 2 ^ 53 then S754_finite false (Z.to_pos q') (e + 1)
    else S754_finite false (Z.to_pos (2 ^ 52)) (e + 2).
Proof.
  intros Hd He. cbv zeta.
  pose proof (digits_bounds q) as [Blo Bhi]. rewrite Hd in Blo, Bhi.
  change (54 - 1) with 53 in Blo.
  unfold binary_round_aux, shr_fexp. cbn [Zdigits2].
  rewrite Hd, fexp_normal by lia.
  replace (54 + e - 53 - e) with 1 by lia.
  unfold shr. change (iter_pos shr_1 1 ?x) with (shr_1 x).
  set (sticky := match l with loc_Exact => false | _ => true end).
  assert (Es : shr_1 (shr_record_of_loc (Z.pos q) l)
               = Build_shr_record (Z.pos q / 2) (Z.odd (Z.pos q)) sticky).
  { destruct l as [|[]]; cbn [shr_record_of_loc]; rewrite shr_1_spec by lia;
      reflexivity. }
  rewrite Es. cbn [shr_m].
  set (q' := round_nearest_even (Z.pos q / 2) _).
  assert (Q : 2 ^ 52 <= Z.pos q / 2 < 2 ^ 53).
  { split; [apply Z.div_le_lower_bound; lia|apply Z.div_lt_upper_bound; lia]. }
  assert (Hq' : Z.pos q / 2 <= q' <= Z.pos q / 2 + 1).
  { subst q'. destruct (Z.odd (Z.pos q)), sticky;
      cbn [loc_of_shr_record round_nearest_even];
      try destruct (Z.even (Z.pos q / 2)); lia. }
  change (Js.emax - Js.prec) with 971.
  destruct (Z.ltb_spec q' (2 ^ 53)) as [Hlt|Hge].
  - destruct q' as [|p'|p'] eqn:Eq'; try lia.
    assert (D2 : Z.pos (digits2_pos p') = 53) by (apply digits_unique; lia).
    cbn [Zdigits2]. rewrite D2, fexp_normal by lia.
    replace (53 + (e + 1) - 53 - (e + 1)) with 0 by lia.
    cbn [shr_record_of_loc shr_m].
    replace (e + 1 <=? 971) with true by (symmetry; apply Z.leb_le; lia).
    reflexivity.
  - assert (E2 : q' = 2 ^ 53) by lia. rewrite E2.
    change (2 ^ 53) with (Z.pos (Z.to_pos (2 ^ 53))). cbn [Zdigits2].
    replace (Z.pos (digits2_pos (Z.to_pos (2 ^ 53)))) with 54 by reflexivity.
    rewrite fexp_normal by lia.
    replace (54 + (e + 1) - 53 - (e + 1)) with 1 by lia.
    cbn [shr_record_of_loc]. change (iter_pos shr_1 1 ?x) with (shr_1 x).
    rewrite shr_1_spec by lia. cbn [shr_m].
    replace (Z.pos (Z.to_pos (2 ^ 53)) / 2) with (Z.pos (Z.to_pos (2 ^ 52)))
      by reflexivity.
    replace (e + 1 + 1) with (e + 2) by lia.
    replace (e + 2 <=? 971) with true by (symmetry; apply Z.leb_le; lia).
    reflexivity.
Qed.

(** The location that the division leaves tells where the remainder lies
    with respect to half the divisor. *)
Lemma new_location_spec (d r : Z) :
  0 < d -> 0 <= r < d ->
  match new_location d r with
  | loc_Exact => r = 0
  | loc_Inexact Lt => 0 < r /\ 2 * r < d
  | loc_Inexact Eq => 0 < r /\ 2 * r = d
  | loc_Inexact Gt => 0 < r /\ 2 * r > d
  end.
Proof.
  intros Hd Hr. unfold new_location, new_location_even, new_location_odd.
  destruct (Z.even d) eqn:Ev; destruct (Z.eqb_spec r 0) as [E0|N0]; try exact E0.
  - destruct (Z.compare_spec (2 * r) d); lia.
  - assert (Od : Z.odd d = true) by (rewrite <- Z.negb_even, Ev; reflexivity).
    apply Z.odd_spec in Od. destruct Od as [k Hk].
    destruct (Z.compare_spec (2 * r + 1) d); lia.
Qed.

(** The quotient of two normalised binary64 values: a normalised value
    whose mantissa is within half a unit of the exact quotient. *)
Lemma div_normal (m1 m2 : positive) (e1 e2 : Z) :
  Z.pos (digits2_pos m1) = 53 -> Z.pos (digits2_pos m2) = 53 ->
  -1021 <= e1 - e2 <= 1021 ->
  exists (mx : positive) (k : Z),
    51 <= k <= 53 /\
    Js.div (S754_finite false m1 e1) (S754_finite false m2 e2)
    = S754_finite false mx (e1 - e2 - k) /\
    Z.pos (digits2_pos mx) = 53 /\
    2 * Z.abs (Z.pos mx * Z.pos m2 - Z.pos m1 * 2 ^ k) <= Z.pos m2.
Proof.
  intros D1 D2 He.
  pose proof (digits_bounds m1) as [B1lo B1hi]. rewrite D1 in B1lo, B1hi.
  pose proof (digits_bounds m2) as [B2lo B2hi]. rewrite D2 in B2lo, B2hi.
  change (2 ^ (53 - 1)) with (2 ^ 52) in *.
  unfold Js.div, SFdiv, SFdiv_core_binary. cbn [xorb Zdigits2].
  rewrite D1, D2.
  replace (53 + e1 - (53 + e2)) with (e1 - e2) by lia.
  rewrite fexp_normal by lia.
  rewrite Z.min_l by lia.
  replace (e1 - e2 - (e1 - e2 - 53)) with 53 by lia.
  rewrite Z.shiftl_mul_pow2 by lia.
  set (A := Z.pos m1 * 2 ^ 53).
  pose proof (Z_div_mod A (Z.pos m2) ltac:(lia)) as DM.
  destruct (Z.div_eucl A (Z.pos m2)) as [q r]. destruct DM as [EA Hr].
  pose proof (new_location_spec (Z.pos m2) r ltac:(lia) Hr) as L.
  set (l := new_location (Z.pos m2) r) in *.
  assert (Hq : 2 ^ 52 <= q < 2 ^ 54) by (subst A; nia).
  destruct q as [|pq|pq]; try lia.
  destruct (Z.lt_ge_cases (Z.pos pq) (2 ^ 53)) as [Small|Big].
  - (* a quotient of 53 bits *)
    assert (Dq : Z.pos (digits2_pos pq) = 53) by (apply digits_unique; lia).
    rewrite round_aux_53 by (assumption || lia). cbv zeta.
    set (q' := round_nearest_even (Z.pos pq) l).
    assert (Near : Z.pos pq <= q' <= Z.pos pq + 1 /\
                   2 * Z.abs (q' * Z.pos m2 - A) <= Z.pos m2).
    { subst q'. destruct l as [|[]]; cbn [round_nearest_even];
        try destruct (Z.even (Z.pos pq)); split; lia. }
    destruct Near as [Hq' Near].
    destruct (Z.ltb_spec q' (2 ^ 53)) as [Hlt|Hge].
    + destruct q' as [|p'|p'] eqn:Eq'; try lia.
      exists p', 53. split; [lia|]. split; [reflexivity|].
      split; [apply digits_unique; lia|]. exact Near.
    + exists (Z.to_pos (2 ^ 52)), 52. split; [lia|].
      split; [f_equal; lia|]. split; [reflexivity|].
      assert (E2 : q' = 2 ^ 53) by lia. rewrite E2 in Near.
      change (Z.pos (Z.to_pos (2 ^ 52))) with (2 ^ 52).
      change (2 ^ 53) with (2 * 2 ^ 52) in Near. subst A.
      change (2 ^ 53) with (2 * 2 ^ 52) in Near. lia.
  - (* a quotient of 54 bits *)
    assert (Dq : Z.pos (digits2_pos pq) = 54) by (apply digits_unique; lia).
    rewrite round_aux_54 by (assumption || lia). cbv zeta.
    set (sticky := match l with loc_Exact => false | _ => true end).
    set (q' := round_nearest_even _ _).
    pose proof (Z.div_mod (Z.pos pq) 2 ltac:(lia)) as Dh.
    rewrite Zmod_odd in Dh.
    assert (Q : 2 ^ 52 <= Z.pos pq / 2 < 2 ^ 53).
    { split; [apply Z.div_le_lower_bound; lia|apply Z.div_lt_upper_bound; lia]. }
    assert (Near : Z.pos pq / 2 <= q' <= Z.pos pq / 2 + 1 /\
                   2 * Z.abs (q' * Z.pos m2 - Z.pos m1 * 2 ^ 52) <= Z.pos m2).
    { assert (EA2 : 2 * (Z.pos m1 * 2 ^ 52) = Z.pos m2 * Z.pos pq + r)
        by (subst A; change (2 ^ 53) with (2 * 2 ^ 52) in EA; lia).
      subst q' sticky. destruct (Z.odd (Z.pos pq)); destruct l as [|[]];
        cbn [loc_of_shr_record round_nearest_even];
        try destruct (Z.even (Z.pos pq / 2)); split; nia. }
    destruct Near as [Hq' Near].
    destruct (Z.ltb_spec q' (2 ^ 53)) as [Hlt|Hge].
    + destruct q' as [|p'|p'] eqn:Eq'; try lia.
      exists p', 52. split; [lia|]. split; [f_equal; lia|].
      split; [apply digits_unique; lia|]. exact Near.
    + exists (Z.to_pos (2 ^ 52)), 51. split; [lia|].
      split; [f_equal; lia|]. split; [reflexivity|].
      assert (E2 : q' = 2 ^ 53) by lia. rewrite E2 in Near.
      change (Z.pos (Z.to_pos (2 ^ 52))) with (2 ^ 52).
      change (2 ^ 53) with (2 * 2 ^ 52) in Near.
      change (2 ^ 52) with (2 * 2 ^ 51) in Near at 2. lia.
Qed.

Lemma ONE_BILLION_bits :
  ONE_BILLION = S754_finite false 8388608000000000 (-23).
Proof. vm_compute. reflexivity. Qed.

Lemma pow2_split (a b : Z) : 0 <= a -> 0 <= b -> 2 ^ (a + b) = 2 ^ a * 2 ^ b.
Proof. intros. apply Z.pow_add_r; assumption. Qed.

(** The arithmetic of the round trip: a mantissa [R] that is the rounding
    of [P / S], with [P] within [H] of [n * (S * D)], has the integer part
    [n - 1] or [n] once divided by [D]. *)
Lemma near_quotient (n S D H P R : Z) :
  0 < S -> 0 < D -> 0 <= P ->
  Z.abs (P - n * (S * D)) <= H ->
  2 * H < S * D -> 4 * S <= S * D ->
  P / S <= R -> 2 * (R * S) <= 2 * P + S ->
  n - 1 <= R / D <= n.
Proof.
  intros HS HD HP Hnear HH H4 Rlo Rhi.
  pose proof (Z.div_mod P S ltac:(lia)) as DP.
  pose proof (Z.mod_pos_bound P S HS) as BP.
  assert (Up : R < (n + 1) * D) by nia.
  assert (Lo : (n - 1) * D <= R) by nia.
  split.
  - apply Z.div_le_lower_bound; lia.
  - assert (R / D < n + 1) by (apply Z.div_lt_upper_bound; lia). lia.
Qed.

(** [X16] The amount that [compressSOL] puts into its instruction when it is
    asked to cover a shortfall: the shortfall is converted to SOL by a
    division and back to lamports by a multiplication and [Math.floor], and
    the result is the shortfall itself or one lamport less, for every
    shortfall below 2^51 lamports. *)
Theorem compress_amount_within_one_lamport (shortfall : Z) :
  0 <= shortfall < 2 ^ 51 ->
  exists lamports : Z,
    hiddenLamports shortfall = Js.Number lamports /\
    shortfall - 1 <= lamports <= shortfall /\ 0 <= lamports.
Proof.
  intros [H0 H1]. destruct shortfall as [|p|p]; [|clear H0|lia].
  { exists 0. split; [vm_compute; reflexivity|lia]. }
  unfold hiddenLamports, LAMPORTS_PER_SOL.
  fold ONE_BILLION. rewrite ONE_BILLION_bits.
  assert (Hs : safe (Z.pos p)) by (unfold safe; lia).
  rewrite (Number_normal _ Hs). unfold normal.
  assert (H53 : Z.pos p < 2 ^ 53) by lia.
  destruct (normal_digits p H53) as (Hd & Hm & PT & BX).
  pose proof (digits_bounds p) as [Bdlo Bdhi].
  set (d := Z.pos (digits2_pos p)) in *.
  assert (Hd51 : d <= 51).
  { destruct (Z.le_gt_cases d 51) as [|C]; [assumption|].
    assert (2 ^ 51 <= 2 ^ (d - 1)) by (apply Z.pow_le_mono_r; lia). lia. }
  set (T := 2 ^ (53 - d)) in *.
  set (m := Z.to_pos (Z.pos p * T)) in *.
  set (mB := 8388608000000000%positive).
  assert (Dm : Z.pos (digits2_pos m) = 53)
    by (apply digits_unique; rewrite Hm; change (53 - 1) with 52; lia).
  destruct (div_normal m mB (d - 53) (-23) Dm eq_refl ltac:(lia))
    as (mx & k & Hk & Ediv & Dx & Near).
  rewrite Ediv. unfold Js.mul, SFmul. cbn [xorb].
  pose proof (digits_bounds mx) as [Bxlo Bxhi]. rewrite Dx in Bxlo, Bxhi.
  change (2 ^ (53 - 1)) with (2 ^ 52) in Bxlo.
  set (t := 53 - d + k).
  set (W := 2 ^ t).
  assert (EW : T * 2 ^ k = W) by (subst T W t; rewrite <- Z.pow_add_r by lia; reflexivity).
  assert (W53 : 2 ^ 53 <= W) by (subst W; apply Z.pow_le_mono_r; lia).
  set (P := Z.pos (mx * mB)).
  assert (EP : P = Z.pos mx * Z.pos mB) by reflexivity.
  assert (HP : Z.abs (P - Z.pos p * W) <= 4194304000000000).
  { rewrite Hm in Near. rewrite EP, <- EW.
    replace (Z.pos p * (T * 2 ^ k)) with (Z.pos p * T * 2 ^ k) by lia.
    subst mB. lia. }
  pose proof (digits_bounds (mx * mB)) as [BMlo BMhi]. fold P in BMlo, BMhi.
  set (dM := Z.pos (digits2_pos (mx * mB))) in *.
  assert (L104 : 104 < dM).
  { destruct (Z.lt_ge_cases 104 dM) as [|C]; [assumption|].
    assert (2 ^ dM <= 2 ^ 104) by (apply Z.pow_le_mono_r; lia).
    assert (2 ^ 104 <= P).
    { rewrite EP. change (2 ^ 104) with (2 ^ 52 * 2 ^ 52).
      apply Z.mul_le_mono_nonneg; subst mB; lia. }
    lia. }
  set (nP := dM - 53).
  set (S := 2 ^ nP).
  assert (PS : 0 < S) by (subst S; apply Z.pow_pos_nonneg; lia).
  assert (ES : 2 ^ (dM - 1) = 2 ^ 52 * S)
    by (subst S nP; rewrite <- Z.pow_add_r by lia; f_equal; lia).
  assert (HnP : nP + 2 <= t).
  { assert (Hlt : 2 ^ (nP + 1) < 2 ^ t).
    { rewrite pow2_split by lia. fold S. fold W. change (2 ^ 1) with 2.
      rewrite ES in BMlo. change (2 ^ 52) with (2 ^ 51 * 2) in BMlo.
      assert (Hp : (Z.pos p + 1) * W <= 2 ^ 51 * W)
        by (apply Z.mul_le_mono_nonneg_r; lia).
      apply (Z.mul_lt_mono_pos_l (2 ^ 51)); lia. }
    apply Z.pow_lt_mono_r_iff in Hlt; lia. }
  set (D := 2 ^ (t - nP)).
  assert (PD : 4 <= D).
  { subst D. change 4 with (2 ^ 2). apply Z.pow_le_mono_r; lia. }
  assert (EWD : W = S * D)
    by (subst W S D; rewrite <- Z.pow_add_r by lia; f_equal; lia).
  replace (d - 53 - -23 - k + -23) with (- t) by (subst t; lia).
  subst P. rewrite (round_aux_eq (mx * mB) (- t)); fold dM; fold nP; try lia.
  set (P := Z.pos (mx * mB)) in *.
  destruct (rounded_bounds P nP ltac:(lia) ltac:(lia)) as ([R1 R2] & R3 & _).
  set (R := rounded P nP) in *.
  fold S in R1, R2, R3.
  assert (ES2 : S = 2 * 2 ^ (nP - 1)).
  { subst S. replace nP with (Z.succ (nP - 1)) at 1 by lia.
    apply Z.pow_succ_r. lia. }
  assert (Q : 2 ^ 52 <= P / S).
  { apply Z.div_le_lower_bound; [exact PS|]. rewrite Z.mul_comm, <- ES. exact BMlo. }
  assert (Q2 : P / S < 2 ^ 53).
  { apply Z.div_lt_upper_bound; [exact PS|].
    replace (S * 2 ^ 53) with (2 ^ dM); [exact BMhi|].
    subst S nP. rewrite <- Z.pow_add_r by lia. f_equal. lia. }
  assert (Main : Z.pos p - 1 <= R / D <= Z.pos p).
  { rewrite EWD in HP, W53.
    assert (H4 : 4 * S <= S * D)
      by (rewrite (Z.mul_comm 4 S); apply Z.mul_le_mono_nonneg_l; lia).
    apply (near_quotient (Z.pos p) S D 4194304000000000 P R); lia. }
  destruct (Z.ltb_spec R (2 ^ 53)) as [Hlt|Hge].
  - assert (HR : Z.pos (Z.to_pos R) = R) by (apply Z2Pos.id; lia).
    exists (R / D). split; [|lia].
    rewrite floor_normalised.
    + rewrite HR. do 2 f_equal. subst D. f_equal. lia.
    + apply digits_unique. rewrite HR. change (53 - 1) with 52. lia.
    + lia.
  - assert (ER : R = 2 ^ 53) by lia.
    exists (R / D). split; [|lia].
    rewrite floor_normalised; [|reflexivity|lia].
    f_equal. change (Z.pos (Z.to_pos (2 ^ 52))) with (2 ^ 52).
    replace (- (- t + nP + 1)) with (t - nP - 1) by lia.
    assert (ED : D = 2 * 2 ^ (t - nP - 1)).
    { subst D. replace (t - nP) with (Z.succ (t - nP - 1)) at 1 by lia.
      apply Z.pow_succ_r. lia. }
    rewrite ER, ED. change (2 ^ 53) with (2 * 2 ^ 52).
    symmetry. apply Z.div_mul_cancel_l; [|lia].
    apply Z.pow_nonzero; lia.
Qed.

(** ** Self-disclosure reports *)

Lemma binary_round_sign (sx : bool) (m : positive) (e : Z) :
  binary_round Js.prec Js.emax sx m e
  = match binary_round Js.prec Js.emax false m e with
    | S754_zero _ => S754_zero sx
    | S754_infinity _ => S754_infinity sx
    | S754_finite _ m' e' => S754_finite sx m' e'
    | S754_nan => S754_nan
    end.
Proof.
  unfold binary_round. destruct (shl_align m e _) as [mz ez].
  apply binary_round_aux_sign.
Qed.

(** The difference of two safe integers has the sign of their difference
    as integers. *)
Lemma sub_positive (a b : Z) :
  safe a -> safe b ->
  Js.gt (Report.sub (Js.Number a) (Js.Number b)) (Js.Number 0) = (b <? a).
Proof.
  intros Ha Hb. rewrite (Number_normal a Ha), (Number_normal b Hb).
  destruct Ha as [Ha0 Ha1], Hb as [Hb0 Hb1].
  change (Js.Number 0) with (S754_zero false).
  destruct a as [|p|p], b as [|q|q]; try lia; try reflexivity.
  destruct (normal_digits p Ha1) as (Hdp & Hmp & Pp & Bp).
  destruct (normal_digits q Hb1) as (Hdq & Hmq & Pq & Bq).
  unfold normal, Report.sub, SFsub. cbn [cond_Zopp].
  set (dp := Z.pos (digits2_pos p)) in *. set (dq := Z.pos (digits2_pos q)) in *.
  set (ez := Z.min (dp - 53) (dq - 53)).
  rewrite !shl_align_value by lia. rewrite Hmp, Hmq.
  assert (Pz : 0 < 2 ^ (- ez)) by (apply Z.pow_pos_nonneg; lia).
  assert (Ep : Z.pos p * 2 ^ (53 - dp) * 2 ^ (dp - 53 - ez) = Z.pos p * 2 ^ (- ez)).
  { rewrite <- Z.mul_assoc, <- Z.pow_add_r by lia. do 2 f_equal. lia. }
  assert (Eq' : Z.pos q * 2 ^ (53 - dq) * 2 ^ (dq - 53 - ez) = Z.pos q * 2 ^ (- ez)).
  { rewrite <- Z.mul_assoc, <- Z.pow_add_r by lia. do 2 f_equal. lia. }
  rewrite Ep, Eq', <- Z.mul_sub_distr_r.
  pose proof (digits_bounds p) as [Bplo Bphi]. fold dp in Bplo, Bphi.
  pose proof (digits_bounds q) as [Bqlo Bqhi]. fold dq in Bqlo, Bqhi.
  assert (Exact : forall (c s : positive),
             Z.pos c < 2 ^ 53 -> Z.pos s = Z.pos c * 2 ^ (- ez) ->
             exists m e, binary_round Js.prec Js.emax false s ez = S754_finite false m e).
  { intros c s Hc Hs.
    destruct (normal_digits c Hc) as (Hdc & _).
    pose proof (digits_bounds c) as [Bclo Bchi].
    rewrite (binary_round_exact s c (- ez) ez) by lia.
    eexists. eexists. reflexivity. }
  destruct (Z.compare_spec (Z.pos q) (Z.pos p)) as [E|L|G].
  - rewrite E, Z.sub_diag, Z.mul_0_l. cbn.
    symmetry. apply Z.ltb_irrefl.
  - assert (Hc : Z.pos p - Z.pos q = Z.pos (p - q)) by lia.
    rewrite Hc.
    assert (Ppos : 0 < Z.pos (p - q) * 2 ^ (- ez)) by (apply Z.mul_pos_pos; lia).
    destruct (Z.pos (p - q) * 2 ^ (- ez)) as [|s|s] eqn:Es; try lia.
    unfold binary_normalize.
    destruct (Exact (p - q)%positive s ltac:(lia) ltac:(lia)) as (m & e & ->).
    cbn. symmetry. apply Z.ltb_lt. exact L.
  - assert (Hc : Z.pos p - Z.pos q = - Z.pos (q - p)) by lia.
    rewrite Hc, Z.mul_opp_l.
    assert (Ppos : 0 < Z.pos (q - p) * 2 ^ (- ez)) by (apply Z.mul_pos_pos; lia).
    destruct (Z.pos (q - p) * 2 ^ (- ez)) as [|s|s] eqn:Es; try lia.
    cbn [Z.opp]. unfold binary_normalize. rewrite binary_round_sign.
    destruct (Exact (q - p)%positive s ltac:(lia) ltac:(lia)) as (m & e & ->).
    cbn. symmetry. apply Z.ltb_ge. lia.
Qed.

Lemma byDate_positive (a b : Report.ReportTransaction) (s t : Z) :
  Report.tx_date a = Some s -> Report.tx_date b = Some t -> safe s -> safe t ->
  Js.gt (Report.byDate a b) (Js.Number 0) = (t <? s).
Proof.
  intros Ea Eb Hs Ht. unfold Report.byDate. rewrite Ea, Eb. cbn [Report.getTime].
  apply sub_positive; assumption.
Qed.

Lemma insert_by_date_perm (x : Report.ReportTransaction) l :
  Permutation (x :: l) (Report.insert_by_date x l).
Proof.
  induction l as [|y l IH]; cbn [Report.insert_by_date]; [apply Permutation_refl|].
  destruct (Js.gt (Report.byDate x y) (Js.Number 0)).
  - eapply Permutation_trans; [apply perm_swap|]. apply perm_skip, IH.
  - apply Permutation_refl.
Qed.

Lemma sort_by_date_perm l : Permutation l (Report.sort_by_date l).
Proof.
  induction l as [|x l IH]; simpl; [constructor|].
  eapply Permutation_trans; [apply perm_skip, IH|apply insert_by_date_perm].
Qed.

Lemma dated_perm l l' : Permutation l l' -> Report.dated l -> Report.dated l'.
Proof. intros P H. unfold Report.dated in *. eapply Permutation_Forall; eassumption. Qed.

Lemma insert_by_date_hd x l a :
  HdRel Report.earlier_or_same a l -> Report.earlier_or_same a x ->
  HdRel Report.earlier_or_same a (Report.insert_by_date x l).
Proof.
  intros Hl Hx. destruct l as [|y l]; cbn [Report.insert_by_date].
  - constructor. exact Hx.
  - destruct (Js.gt (Report.byDate x y) (Js.Number 0)); constructor.
    + inversion Hl; assumption.
    + exact Hx.
Qed.

Lemma insert_by_date_sorted x l :
  Report.dated (x :: l) ->
  Sorted Report.earlier_or_same l ->
  Sorted Report.earlier_or_same (Report.insert_by_date x l).
Proof.
  intros Hd Hs. induction Hs as [|y l Hs IH Hh]; cbn [Report.insert_by_date].
  - repeat constructor.
  - inversion Hd as [|? ? (s & Es & Ss) Hd']. subst.
    inversion Hd' as [|? ? (t & Et & St) Hd'']. subst.
    rewrite (byDate_positive x y s t Es Et Ss St).
    destruct (Z.ltb_spec t s) as [Hlt|Hge].
    + constructor.
      * apply IH. constructor; [exists s; auto|exact Hd''].
      * apply insert_by_date_hd; [exact Hh|].
        unfold Report.earlier_or_same. rewrite Et, Es. lia.
    + constructor; [constructor; assumption|].
      constructor. unfold Report.earlier_or_same. rewrite Es, Et. exact Hge.
Qed.

Lemma earlier_or_same_trans a b c :
  Report.earlier_or_same a b -> Report.earlier_or_same b c -> Report.earlier_or_same a c.
Proof.
  unfold Report.earlier_or_same.
  destruct (Report.tx_date a), (Report.tx_date b), (Report.tx_date c); try tauto; lia.
Qed.

Lemma sort_by_date_sorted l :
  Report.dated l -> StronglySorted Report.earlier_or_same (Report.sort_by_date l).
Proof.
  intros Hd. apply Sorted_StronglySorted; [intros a b c; apply earlier_or_same_trans|].
  induction l as [|x l IH]; simpl; [constructor|].
  inversion Hd as [|? ? Hx Hl]. subst.
  apply insert_by_date_sorted; [|apply IH; exact Hl].
  constructor; [exact Hx|]. apply (dated_perm l); [apply sort_by_date_perm|exact Hl].
Qed.

(** [X17] The transactions of a report built from the local invoices.  An
    invoice is used exactly when the wallet is its sender or its recipient,
    it is paid, and its payment date lies within the period, both ends
    included.  Every such invoice gives one transaction, marked as received
    when the wallet is the recipient (also when it is the sender as well) and
    as paid otherwise, with the other party as counterparty; and, for dates in
    the safe range, the transactions are listed in the order of their
    dates. *)
Theorem report_lists_every_relevant_invoice
  (walletAddress : string) (period : Report.ReportPeriod) (invoices : list Invoice)
  (includeNotes : bool) :
  let relevant := Report.filterInvoicesForReport walletAddress period invoices in
  let transactions := Report.buildTransactionsList walletAddress relevant includeNotes in
  (forall inv,
     In inv relevant <->
     In inv invoices /\
     (inv_sender inv = walletAddress \/ inv_recipient inv = walletAddress) /\
     inv_status inv = inv_paid /\
     exists paidAt,
       inv_paidAt inv = Some paidAt /\
       Report.period_start period <= paidAt <= Report.period_end period) /\
  Permutation transactions
    (map (Report.transaction_of walletAddress includeNotes) relevant) /\
  (forall tx, In tx transactions ->
     exists inv,
       In inv relevant /\ Report.tx_invoiceId tx = Some (inv_id inv) /\
       Report.tx_amount tx = inv_amount inv /\
       Report.tx_date tx = inv_paidAt inv /\
       (inv_recipient inv = walletAddress ->
        Report.tx_type tx = Report.received /\ Report.tx_counterparty tx = inv_sender inv) /\
       (inv_recipient inv <> walletAddress ->
        Report.tx_type tx = Report.paid_out /\
        Report.tx_counterparty tx = inv_recipient inv)) /\
  ((forall inv t, In inv invoices -> inv_paidAt inv = Some t -> safe t) ->
   StronglySorted Report.earlier_or_same transactions).
Proof.
  intros relevant transactions.
  assert (Hrel : forall inv,
             In inv relevant <->
             In inv invoices /\
             (inv_sender inv = walletAddress \/ inv_recipient inv = walletAddress) /\
             inv_status inv = inv_paid /\
             exists paidAt,
               inv_paidAt inv = Some paidAt /\
               Report.period_start period <= paidAt <= Report.period_end period).
  { intros inv. unfold relevant, Report.filterInvoicesForReport.
    rewrite filter_In. cbv zeta. split.
    - intros [Hin Hb]. split; [exact Hin|].
      assert (Hw : inv_sender inv = walletAddress \/ inv_recipient inv = walletAddress).
      { destruct (String.eqb_spec (inv_sender inv) walletAddress) as [Es|Ns];
          [left; exact Es|].
        destruct (String.eqb_spec (inv_recipient inv) walletAddress) as [Er|Nr];
          [right; exact Er|discriminate]. }
      split; [exact Hw|].
      destruct (negb _); [discriminate|].
      destruct (inv_status inv); try discriminate.
      destruct (inv_paidAt inv) as [t|]; [|discriminate].
      apply andb_true_iff in Hb. destruct Hb as [H1 H2].
      apply Z.leb_le in H1. apply Z.leb_le in H2.
      split; [reflexivity|]. exists t. split; [reflexivity|]. split; assumption.
    - intros (Hin & Hw & Hst & (t & Ht & H1 & H2)). split; [exact Hin|].
      assert (Ho : String.eqb (inv_sender inv) walletAddress
                   || String.eqb (inv_recipient inv) walletAddress = true).
      { apply orb_true_iff. destruct Hw as [E|E]; [left|right]; apply String.eqb_eq; exact E. }
      rewrite Ho, Hst, Ht. cbn [negb].
      apply andb_true_iff. split; apply Z.leb_le; assumption. }
  assert (Hperm : Permutation transactions
                    (map (Report.transaction_of walletAddress includeNotes) relevant)).
  { apply Permutation_sym, sort_by_date_perm. }
  split; [exact Hrel|]. split; [exact Hperm|]. split.
  - intros tx Htx.
    apply (Permutation_in _ Hperm) in Htx. apply in_map_iff in Htx.
    destruct Htx as (inv & <- & Hin). exists inv.
    split; [exact Hin|]. unfold Report.transaction_of. cbn.
    split; [reflexivity|]. split; [reflexivity|]. split; [reflexivity|].
    destruct (String.eqb_spec (inv_recipient inv) walletAddress) as [Er|Nr].
    + split; [intros _; split; reflexivity|intros N; contradiction].
    + split; [intros E; contradiction|intros _; split; reflexivity].
  - intros Hsafe. apply sort_by_date_sorted.
    unfold Report.dated. apply Forall_forall. intros tx Htx.
    apply in_map_iff in Htx. destruct Htx as (inv & <- & Hin).
    apply Hrel in Hin. destruct Hin as (Hin & _ & _ & (t & Ht & _)).
    exists t. split; [exact Ht|]. exact (Hsafe inv t Hin Ht).
Qed.

Lemma sum_amounts_nonneg (l : list Report.ReportTransaction) :
  Forall (fun tx => Report.is_lamports (Report.tx_amount tx)) l ->
  0 <= fold_right Z.add 0 (map (fun tx => Report.whole (Report.tx_amount tx)) l).
Proof.
  induction 1 as [|tx l [_ H0] _ IH]; simpl; lia.
Qed.

(** Adding whole lamports one by one is exact while the sum is safe. *)
Lemma fold_add_exact (l : list Report.ReportTransaction) (acc : Z) :
  0 <= acc ->
  Forall (fun tx => Report.is_lamports (Report.tx_amount tx)) l ->
  acc + fold_right Z.add 0 (map (fun tx => Report.whole (Report.tx_amount tx)) l) < 2 ^ 53 ->
  fold_left (fun sum tx => Js.add sum (Report.tx_amount tx)) l (Js.Number acc)
  = Js.Number (acc + fold_right Z.add 0
                       (map (fun tx => Report.whole (Report.tx_amount tx)) l)).
Proof.
  intros Hacc Hl. revert acc Hacc.
  induction Hl as [|tx l [Htx H0] Hl IH]; intros acc Hacc Hsum;
    cbn [fold_left map fold_right] in *.
  - f_equal. lia.
  - pose proof (sum_amounts_nonneg l Hl) as Hn.
    set (z := Report.whole (Report.tx_amount tx)) in *.
    rewrite Htx, add_Number by lia.
    rewrite IH by lia. f_equal. lia.
Qed.

Lemma Forall_filter {A : Type} (P : A -> Prop) (f : A -> bool) (l : list A) :
  Forall P l -> Forall P (filter f l).
Proof.
  intros H. apply Forall_forall. intros x Hx. apply filter_In in Hx.
  rewrite Forall_forall in H. apply H. tauto.
Qed.

Lemma lamports_moved_perm (type : Report.TransactionType) l l' :
  Permutation l l' -> Report.lamports_moved type l = Report.lamports_moved type l'.
Proof.
  unfold Report.lamports_moved.
  induction 1 as [|x l l' _ IH|x y l|l l' l'' _ IH1 _ IH2]; cbn [filter].
  - reflexivity.
  - destruct (Report.TransactionType_eqb _ _); cbn [map fold_right]; lia.
  - destruct (Report.TransactionType_eqb (Report.tx_type x) type);
      destruct (Report.TransactionType_eqb (Report.tx_type y) type);
      cbn [map fold_right]; lia.
  - lia.
Qed.

Lemma lamports_moved_split (l : list Report.ReportTransaction) :
  Report.lamports_moved Report.received l + Report.lamports_moved Report.paid_out l
  = fold_right Z.add 0 (map (fun tx => Report.whole (Report.tx_amount tx)) l).
Proof.
  unfold Report.lamports_moved.
  induction l as [|tx l IH]; [reflexivity|]. cbn [filter map fold_right].
  destruct (Report.tx_type tx); cbn [Report.TransactionType_eqb map fold_right]; lia.
Qed.

(** The summary of transactions in whole lamports is exact. *)
Lemma calculateSummary_exact (transactions : list Report.ReportTransaction) :
  Forall (fun tx => Report.is_lamports (Report.tx_amount tx)) transactions ->
  fold_right Z.add 0 (map (fun tx => Report.whole (Report.tx_amount tx)) transactions)
  < 2 ^ 53 ->
  let summary := Report.calculateSummary transactions in
  let r := Report.lamports_moved Report.received transactions in
  let p := Report.lamports_moved Report.paid_out transactions in
  0 <= r /\ 0 <= p /\
  Report.totalReceived summary = Js.Number r /\
  Report.totalPaid summary = Js.Number p /\
  Report.averageTransaction summary
  = (if (0 <? List.length transactions)%nat
     then Js.div (Js.Number (r + p)) (Js.Number (Z.of_nat (List.length transactions)))
     else Js.Number 0).
Proof.
  intros Hl Hsum summary r p.
  pose proof (lamports_moved_split transactions) as Hsplit. fold r p in Hsplit.
  assert (Hr : 0 <= r).
  { unfold r, Report.lamports_moved. apply sum_amounts_nonneg, Forall_filter, Hl. }
  assert (Hp : 0 <= p).
  { unfold p, Report.lamports_moved. apply sum_amounts_nonneg, Forall_filter, Hl. }
  assert (Er : Report.totalReceived summary = Js.Number r).
  { unfold summary, Report.calculateSummary. cbn [Report.totalReceived].
    rewrite fold_add_exact; [reflexivity|lia|apply Forall_filter, Hl|].
    fold (Report.lamports_moved Report.received transactions). fold r. lia. }
  assert (Ep : Report.totalPaid summary = Js.Number p).
  { unfold summary, Report.calculateSummary. cbn [Report.totalPaid].
    rewrite fold_add_exact; [reflexivity|lia|apply Forall_filter, Hl|].
    fold (Report.lamports_moved Report.paid_out transactions). fold p. lia. }
  split; [exact Hr|]. split; [exact Hp|]. split; [exact Er|]. split; [exact Ep|].
  unfold summary, Report.calculateSummary in *. cbn [Report.averageTransaction].
  cbn [Report.totalReceived] in Er. cbn [Report.totalPaid] in Ep.
  rewrite Er, Ep. rewrite add_Number by lia. reflexivity.
Qed.

Lemma moved_of_invoices (walletAddress : string) (includeNotes : bool)
  (type : Report.TransactionType) (invoices : list Invoice) :
  Report.lamports_moved type
    (map (Report.transaction_of walletAddress includeNotes) invoices)
  = Report.invoiced
      (fun inv => Report.TransactionType_eqb
                    (if String.eqb (inv_recipient inv) walletAddress
                     then Report.received else Report.paid_out) type)
      invoices.
Proof.
  unfold Report.lamports_moved, Report.invoiced.
  induction invoices as [|inv l IH]; [reflexivity|]. cbn [map filter].
  cbn [Report.transaction_of Report.tx_type].
  destruct (Report.TransactionType_eqb _ type); cbn [map fold_right];
    cbn [Report.tx_amount]; rewrite IH; reflexivity.
Qed.

(** [X18] The totals of a report built from the local invoices.  When the
    invoices of the report are for whole lamports and their sum stays in the
    safe range, the total received is exactly the sum of the invoices that
    name the wallet as recipient, the total paid is exactly the sum of the
    others, the count is the number of invoices used, and the average is the
    quotient of the whole sum by the count, or 0 for an empty report.  The
    notes play no part. *)
Theorem report_totals_are_exact
  (walletAddress : string) (period : Report.ReportPeriod) (invoices : list Invoice)
  (includeNotes : bool) :
  let relevant := Report.filterInvoicesForReport walletAddress period invoices in
  let summary :=
    Report.calculateSummary
      (Report.buildTransactionsList walletAddress relevant includeNotes) in
  let to_wallet inv := String.eqb (inv_recipient inv) walletAddress in
  Forall (fun inv => Report.is_lamports (inv_amount inv)) relevant ->
  Report.invoiced (fun _ => true) relevant < 2 ^ 53 ->
  Report.totalReceived summary = Js.Number (Report.invoiced to_wallet relevant) /\
  Report.totalPaid summary
  = Js.Number (Report.invoiced (fun inv => negb (to_wallet inv)) relevant) /\
  Report.invoiced to_wallet relevant
  + Report.invoiced (fun inv => negb (to_wallet inv)) relevant
  = Report.invoiced (fun _ => true) relevant /\
  Report.transactionCount summary = List.length relevant /\
  Report.averageTransaction summary
  = (if (0 <? List.length relevant)%nat
     then Js.div (Js.Number (Report.invoiced (fun _ => true) relevant))
                 (Js.Number (Z.of_nat (List.length relevant)))
     else Js.Number 0).
Proof.
  intros relevant summary to_wallet Hl Hsum.
  set (txs := Report.buildTransactionsList walletAddress relevant includeNotes) in *.
  set (mapped := map (Report.transaction_of walletAddress includeNotes) relevant).
  assert (Hperm : Permutation mapped txs) by apply sort_by_date_perm.
  assert (Hlen : List.length txs = List.length relevant).
  { rewrite <- (Permutation_length Hperm). apply length_map. }
  assert (Hr : Report.lamports_moved Report.received txs
               = Report.invoiced to_wallet relevant).
  { rewrite <- (lamports_moved_perm _ _ _ Hperm). unfold mapped.
    rewrite moved_of_invoices. unfold Report.invoiced. do 2 f_equal.
    apply filter_ext. intros inv. unfold to_wallet.
    destruct (String.eqb _ _); reflexivity. }
  assert (Hp : Report.lamports_moved Report.paid_out txs
               = Report.invoiced (fun inv => negb (to_wallet inv)) relevant).
  { rewrite <- (lamports_moved_perm _ _ _ Hperm). unfold mapped.
    rewrite moved_of_invoices. unfold Report.invoiced. do 2 f_equal.
    apply filter_ext. intros inv. unfold to_wallet.
    destruct (String.eqb _ _); reflexivity. }
  assert (Hall : fold_right Z.add 0
                   (map (fun tx => Report.whole (Report.tx_amount tx)) txs)
                 = Report.invoiced (fun _ => true) relevant).
  { rewrite <- lamports_moved_split.
    rewrite <- !(lamports_moved_perm _ _ _ Hperm). rewrite lamports_moved_split.
    unfold mapped, Report.invoiced. rewrite map_map.
    assert (Ef : filter (fun _ : Invoice => true) relevant = relevant).
    { clear. induction relevant as [|x l IH]; [reflexivity|].
      cbn [filter]. rewrite IH. reflexivity. }
    rewrite Ef. reflexivity. }
  assert (Htx : Forall (fun tx => Report.is_lamports (Report.tx_amount tx)) txs).
  { eapply Permutation_Forall; [exact Hperm|]. unfold mapped.
    apply Forall_forall. intros tx Htx. apply in_map_iff in Htx.
    destruct Htx as (inv & <- & Hin). rewrite Forall_forall in Hl.
    exact (Hl inv Hin). }
  destruct (calculateSummary_exact txs Htx ltac:(rewrite Hall; exact Hsum))
    as (_ & _ & Er & Ep & Ea).
  fold summary in Er, Ep, Ea. rewrite Hr in Er, Ea. rewrite Hp in Ep, Ea.
  rewrite Hlen in Ea.
  assert (Hsplit : Report.invoiced to_wallet relevant
                   + Report.invoiced (fun inv => negb (to_wallet inv)) relevant
                   = Report.invoiced (fun _ => true) relevant).
  { rewrite <- Hr, <- Hp, <- Hall. apply lamports_moved_split. }
  split; [exact Er|]. split; [exact Ep|]. split; [exact Hsplit|].
  split; [exact Hlen|]. rewrite <- Hsplit. exact Ea.
Qed.

Lemma signatures_app l l' :
  Report.signatures (l ++ l') = Report.signatures l ++ Report.signatures l'.
Proof. unfold Report.signatures. apply flat_map_app. Qed.

Lemma signatures_In (l : list Report.ReportTransaction) (s : string) :
  In s (Report.signatures l) <-> exists tx, In tx l /\ Report.signed tx = Some s.
Proof.
  unfold Report.signatures. rewrite in_flat_map. split.
  - intros (tx & Hin & Hs). exists tx. split; [exact Hin|].
    destruct (Report.signed tx) as [s'|]; [|contradiction].
    destruct Hs as [->|[]]. reflexivity.
  - intros (tx & Hin & Hs). exists tx. split; [exact Hin|]. rewrite Hs. left. reflexivity.
Qed.

Lemma known_locally_spec (l : list Report.ReportTransaction) (s : string) :
  Report.known_locally l s = true <-> In s (Report.signatures l).
Proof.
  rewrite signatures_In. unfold Report.known_locally. rewrite existsb_exists.
  split; intros (tx & Hin & H); exists tx; (split; [exact Hin|]).
  - destruct (Report.signed tx) as [s'|]; [|discriminate].
    apply String.eqb_eq in H. subst. reflexivity.
  - rewrite H. apply String.eqb_refl.
Qed.

Lemma signatures_perm l l' :
  Permutation l l' -> Permutation (Report.signatures l) (Report.signatures l').
Proof.
  unfold Report.signatures.
  induction 1 as [|x l l' _ IH|x y l|l l' l'' _ IH1 _ IH2]; cbn [flat_map].
  - constructor.
  - apply Permutation_app_head, IH.
  - rewrite !app_assoc. apply Permutation_app_tail, Permutation_app_comm.
  - eapply Permutation_trans; eassumption.
Qed.

Lemma signatures_filter_NoDup (f : Report.ReportTransaction -> bool) l :
  NoDup (Report.signatures l) -> NoDup (Report.signatures (filter f l)).
Proof.
  unfold Report.signatures.
  induction l as [|x l IH]; cbn [filter flat_map]; [intros; constructor|].
  intros H. destruct (f x); cbn [flat_map].
  - destruct (Report.signed x) as [s|]; cbn [app] in *; [|apply IH, H].
    inversion H as [|? ? Hnot Hrest]. subst. constructor; [|apply IH, Hrest].
    intros Hin. apply Hnot.
    fold (Report.signatures (filter f l)) in Hin. fold (Report.signatures l).
    apply signatures_In in Hin. destruct Hin as (tx & Htx & Hs).
    apply signatures_In. exists tx. split; [|exact Hs].
    apply filter_In in Htx. tauto.
  - apply IH. destruct (Report.signed x); cbn [app] in H; [|exact H].
    inversion H. assumption.
Qed.

(** [X19] Merging on-chain transactions into the local ones.  Every local
    transaction is kept.  An on-chain transaction is added exactly when it
    carries a signature that no local transaction carries; one without a
    signature is dropped.  So when no signature occurs twice among the local
    transactions nor among the on-chain ones, none occurs twice in the result;
    and, for dates in the safe range, the result is in the order of the
    dates. *)
Theorem merge_keeps_local_transactions
  (localTxs onChainTxs : list Report.ReportTransaction) :
  let merged := Report.mergeTransactionData localTxs onChainTxs in
  (forall tx, In tx localTxs -> In tx merged) /\
  (forall tx,
     In tx merged <->
     In tx localTxs \/
     (In tx onChainTxs /\
      exists s, Report.signed tx = Some s /\ ~ In s (Report.signatures localTxs))) /\
  (NoDup (Report.signatures localTxs) -> NoDup (Report.signatures onChainTxs) ->
   NoDup (Report.signatures merged)) /\
  (Report.dated localTxs -> Report.dated onChainTxs ->
   StronglySorted Report.earlier_or_same merged).
Proof.
  intros merged. unfold Report.mergeTransactionData in merged.
  set (keep := fun onChainTx =>
                 match Report.signed onChainTx with
                 | Some s => negb (Report.known_locally localTxs s)
                 | None => false
                 end) in *.
  set (added := filter keep onChainTxs) in *.
  assert (Hperm : Permutation (localTxs ++ added) merged) by apply sort_by_date_perm.
  assert (Hkeep : forall tx,
             keep tx = true <->
             exists s, Report.signed tx = Some s /\ ~ In s (Report.signatures localTxs)).
  { intros tx. unfold keep. destruct (Report.signed tx) as [s|].
    - rewrite negb_true_iff. split.
      + intros H. exists s. split; [reflexivity|].
        intros Hin. apply known_locally_spec in Hin. congruence.
      + intros (s' & Es & Hn). injection Es as <-.
        destruct (Report.known_locally localTxs s) eqn:E; [|reflexivity].
        exfalso. apply Hn, known_locally_spec, E.
    - split; [discriminate|]. intros (s & Es & _). discriminate. }
  assert (Hin : forall tx,
             In tx merged <->
             In tx localTxs \/
             (In tx onChainTxs /\
              exists s, Report.signed tx = Some s
                        /\ ~ In s (Report.signatures localTxs))).
  { intros tx. split.
    - intros H. apply (Permutation_in _ (Permutation_sym Hperm)) in H.
      apply in_app_or in H. destruct H as [H|H]; [left; exact H|right].
      unfold added in H. apply filter_In in H. destruct H as [H1 H2].
      split; [exact H1|apply Hkeep, H2].
    - intros H. apply (Permutation_in _ Hperm). apply in_or_app.
      destruct H as [H|[H1 H2]]; [left; exact H|right].
      unfold added. apply filter_In. split; [exact H1|apply Hkeep, H2]. }
  split; [intros tx H; apply Hin; left; exact H|].
  split; [exact Hin|]. split.
  - intros Hl Ho.
    eapply Permutation_NoDup; [apply signatures_perm, Hperm|].
    rewrite signatures_app. apply NoDup_app.
    + exact Hl.
    + apply signatures_filter_NoDup, Ho.
    + intros s Hs Ha. apply signatures_In in Ha. destruct Ha as (tx & Htx & Es).
      unfold added in Htx. apply filter_In in Htx. destruct Htx as [_ Hk].
      apply Hkeep in Hk. destruct Hk as (s' & Es' & Hn).
      rewrite Es in Es'. injection Es' as <-. exact (Hn Hs).
  - intros Hl Ho. apply sort_by_date_sorted.
    unfold Report.dated in *. apply Forall_app. split; [exact Hl|].
    apply Forall_filter, Ho.
Qed.

(** ** Wallet screening *)

Lemma simulated_verdict (w : Compliance.World) (walletAddress : string) :
  let r := Compliance.simulated w walletAddress in
  Compliance.isCompliant r = negb (Compliance.looks_bad walletAddress) /\
  (Compliance.proofHash r = None <-> Compliance.isCompliant r = false).
Proof.
  unfold Compliance.simulated, Compliance.looks_bad.
  destruct (Str.includes "bad" _ || Str.includes "sanction" _); cbn.
  - split; [reflexivity|]. split; reflexivity.
  - split; [reflexivity|]. split; discriminate.
Qed.

(** [X20] The verdict of a wallet screening.  A proof hash is issued exactly
    with a compliant verdict.  Without a configured API the verdict is the
    simulated one, after a wait and no request: compliant unless the address
    contains "bad" or "sanction".  With the API: an address that the sanctions
    answer names is not compliant, with risk score 10, and no risk request is
    made; otherwise, when the risk request answers, the verdict is compliant
    exactly when the score is at most 5; and when the sanctions request throws,
    or the risk request throws or is refused, the verdict is again the
    simulated one, so an address that cannot be screened is declared compliant
    and gets a proof hash unless it contains "bad" or "sanction". *)
Theorem screening_verdict (w : Compliance.World) (walletAddress : string) :
  let real := negb (Compliance.USE_SIMULATION w) && Compliance.key_set w in
  let '(r, calls) := Compliance.checkWalletCompliance w walletAddress in
  (Compliance.proofHash r = None <-> Compliance.isCompliant r = false) /\
  (real = false ->
   r = Compliance.simulated w walletAddress /\ calls = [Compliance.Wait 1200]) /\
  (real = true -> Compliance.listed w walletAddress = true ->
   Compliance.isCompliant r = false /\ Compliance.riskScore r = Js.Number 10 /\
   calls = [Compliance.RequestSanctions walletAddress]) /\
  (real = true -> Compliance.listed w walletAddress = false ->
   Compliance.sanctions_exchange w walletAddress <> Compliance.Throws ->
   forall d, Compliance.risk_exchange w walletAddress = Compliance.OkWith d ->
     Compliance.isCompliant r = SFleb (Compliance.range_riskScore d) (Js.Number 5) /\
     calls = [Compliance.RequestSanctions walletAddress;
              Compliance.RequestRisk walletAddress]) /\
  (real = true -> Compliance.listed w walletAddress = false ->
   Compliance.sanctions_exchange w walletAddress = Compliance.Throws
   \/ Compliance.risk_exchange w walletAddress = Compliance.Throws
   \/ Compliance.risk_exchange w walletAddress = Compliance.NotOk ->
   r = Compliance.simulated w walletAddress /\
   Compliance.isCompliant r = negb (Compliance.looks_bad walletAddress) /\
   (Compliance.looks_bad walletAddress = false -> Compliance.proofHash r <> None)).
Proof.
  intros real. unfold Compliance.checkWalletCompliance. fold real.
  pose proof (simulated_verdict w walletAddress) as [Hsim Hhash]. cbv zeta in Hsim, Hhash.
  assert (Hfail : Compliance.looks_bad walletAddress = false ->
                  Compliance.proofHash (Compliance.simulated w walletAddress) <> None).
  { intros Hb Hn. apply Hhash in Hn. rewrite Hsim, Hb in Hn. discriminate. }
  destruct real.
  - unfold Compliance.checkWalletComplianceReal, Compliance.listed,
      Compliance.checkWalletComplianceSimulated.
    destruct (Compliance.sanctions_exchange w walletAddress) as [| |sd] eqn:Es.
    + cbn [app]. split; [exact Hhash|]. split; [discriminate|].
      split; [discriminate|]. split; [intros _ _ N; contradiction|].
      intros _ _ _. split; [reflexivity|]. split; [exact Hsim|exact Hfail].
    + destruct (Compliance.risk_exchange w walletAddress) as [| |rd] eqn:Er; cbn [app].
      * split; [exact Hhash|]. split; [discriminate|]. split; [discriminate|].
        split; [intros _ _ _ d Hd; discriminate|].
        intros _ _ _. split; [reflexivity|]. split; [exact Hsim|exact Hfail].
      * split; [exact Hhash|]. split; [discriminate|]. split; [discriminate|].
        split; [intros _ _ _ d Hd; discriminate|].
        intros _ _ _. split; [reflexivity|]. split; [exact Hsim|exact Hfail].
      * cbn [Compliance.proofHash Compliance.isCompliant].
        split; [destruct (SFleb _ _); split; (reflexivity || discriminate)|].
        split; [discriminate|]. split; [discriminate|].
        split; [intros _ _ _ d Hd; injection Hd as <-; split; reflexivity|].
        intros _ _ [H|[H|H]]; discriminate.
    + destruct (Compliance.is_sanctioned sd || Compliance.is_token_blacklisted sd) eqn:El.
      * cbn. split; [split; reflexivity|]. split; [discriminate|].
        split; [intros _ _; repeat split; reflexivity|].
        split; [discriminate|discriminate].
      * destruct (Compliance.risk_exchange w walletAddress) as [| |rd] eqn:Er; cbn [app].
        -- split; [exact Hhash|]. split; [discriminate|]. split; [discriminate|].
           split; [intros _ _ _ d Hd; discriminate|].
           intros _ _ _. split; [reflexivity|]. split; [exact Hsim|exact Hfail].
        -- split; [exact Hhash|]. split; [discriminate|]. split; [discriminate|].
           split; [intros _ _ _ d Hd; discriminate|].
           intros _ _ _. split; [reflexivity|]. split; [exact Hsim|exact Hfail].
        -- cbn [Compliance.proofHash Compliance.isCompliant].
           split; [destruct (SFleb _ _); split; (reflexivity || discriminate)|].
           split; [discriminate|]. split; [discriminate|].
           split; [intros _ _ _ d Hd; injection Hd as <-; split; reflexivity|].
           intros _ _ [H|[H|H]]; discriminate.
  - unfold Compliance.checkWalletComplianceSimulated.
    split; [exact Hhash|]. split; [intros _; split; reflexivity|].
    split; [discriminate|]. split; discriminate.
Qed.

(* ===================================================================== *)
(** * The theorems at work *)
(* ===================================================================== *)

Import Example.

(** [C1] The top-up does not always hide the shortfall.  An invoice of 1 SOL
    with the platform fee enabled requires 1,005,000,000 lamports; with an
    empty private balance the shortfall is the whole of it, but the compress
    instruction that [compressSOL] submits is for 1,004,999,999 lamports: the
    amount goes through [1005000000 / 1e9] and [Math.floor(1.005 * 1e9)].  The
    amount leg then goes through and the fee leg, one lamport short, fails. *)
Theorem top_up_one_lamport_short :
  let o := world empty_ledger 2000000000 settles saves in
  let invoice := invoice_of bob 1000000000 in
  let '((result, err), evs) := payInvoice o fees_on wallet None invoice [] in
  compressedBalance_at o sender [] = 0 /\
  Js.toInteger (totalLamports fees_on (inv_amount invoice)) = Some 1005000000 /\
  compress_submits evs = [Js.Number 1004999999] /\
  Js.Number 1004999999 <> Js.Number (1005000000 - 0) /\
  transfer_calls evs
  = [(sender, bob, Js.Number 1000000000); (sender, feeWallet, Js.Number 5000000)] /\
  success result = false.
Proof.
  vm_compute. repeat split; try reflexivity. discriminate.
Qed.

(** [C2] The scenario of the specification: a batch of 10, 10 and 10
    lamports, a private balance of 25 and a public balance of 3. *)
Lemma insufficient_balance_aborts_witness :
  let o := world twenty_five 3 settles saves in
  let options := batch_of [request bob 10; request carol 10; request bob 10] in
  compressedBalance_at o sender [] < 30 /\
  Js.toInteger (aggregate options) = Some 30 /\
  let '((returned, err), evs) := executeBatch o wallet options [] in
  returned = None /\
  err = Some (insufficientBalance (Js.Number 3) (Js.Number (30 - 25 + 10000000))) /\
  transfer_calls evs = [] /\ compress_submits evs = [].
Proof.
  intros o options.
  assert (Hp : compressedBalance_at o sender [] < 30) by (vm_compute; reflexivity).
  assert (Hi : Js.toInteger (aggregate options) = Some 30) by (vm_compute; reflexivity).
  split; [exact Hp|]. split; [exact Hi|].
  pose proof (insufficient_balance_aborts o fees_off wallet sender [] 30 3
                eq_refl eq_refl Hp eq_refl) as H.
  cbv zeta in H.
  assert (Hs : safe 3) by (unfold safe; lia).
  assert (Hn : 30 - compressedBalance_at o sender [] + 10000000 < 2 ^ 53)
    by (vm_compute; reflexivity).
  destruct (H Hs Hn) as [_ Hb].
  specialize (Hb options Hi ltac:(vm_compute; discriminate)).
  destruct (executeBatch o wallet options []) as [[returned err] evs].
  destruct Hb as [_ Hb].
  destruct (Hb ltac:(vm_compute; reflexivity)) as (He & Hr & _ & Ht & Hc).
  split; [exact Hr|]. split; [exact He|]. split; [exact Ht|exact Hc].
Defined.



(** [C4] The three derivations of the specification:
    [paid, failed, paid], [paid, paid] and [failed, failed]. *)
Lemma batch_status_derivation_witness :
  let fails_carol : Trace -> string -> Answer string :=
    fun _ toAddress =>
      if String.eqb toAddress carol
      then Raises (XError (mkJsError "Error" "custom program error: 0x1"))
      else Returns "transfer-signature" in
  let o := world rich 0 fails_carol saves in
  let options := batch_of [request bob 10; request carol 10; request bob 10] in
  exists batch err evs,
    executeBatch o wallet options [] = ((Some batch, err), evs) /\
    map br_status (bp_recipients batch) = [paid; failed; paid] /\
    bp_status batch = batch_partial /\
    Exists (fun r => br_status r = paid) (bp_recipients batch) /\
    Exists (fun r => br_status r <> paid) (bp_recipients batch).
Proof.
  intros fails_carol o options.
  destruct (executeBatch o wallet options []) as [[[batch|] err] evs] eqn:E;
    [|vm_compute in E; discriminate].
  exists batch, err, evs. split; [reflexivity|].
  pose proof (batch_status_derivation o wallet options [] batch err evs E) as H.
  cbv zeta in H. destruct H as (_ & _ & Hpartial & _).
  assert (Hs : bp_status batch = batch_partial).
  { vm_compute in E. inversion E. reflexivity. }
  split; [vm_compute in E; inversion E; reflexivity|].
  split; [exact Hs|]. apply Hpartial. exact Hs.
Defined.

(** [C5] An invoice of 12,345 lamports: a fee of 61 and a total of 12,406. *)
Lemma total_required_witness :
  let invoice := invoice_of bob 12345 in
  inv_amount invoice = Js.Number 12345 /\
  feeLamports fees_on (inv_amount invoice) = Js.Number 61 /\
  totalLamports fees_on (inv_amount invoice) = Js.Number 12406 /\
  feeLamports fees_off (inv_amount invoice) = Js.Number 0.
Proof.
  intros invoice. split; [reflexivity|].
  destruct (total_required (world rich 0 settles saves) fees_on sender invoice 12345
              eq_refl ltac:(lia) ltac:(vm_compute; reflexivity)) as (Hf & Ht & _).
  destruct (total_required (world rich 0 settles saves) fees_off sender invoice 12345
              eq_refl ltac:(lia) ltac:(vm_compute; reflexivity)) as (Hf' & _).
  split; [exact Hf|]. split; [exact Ht|exact Hf'].
Defined.

(** [C6] The fee leg fails after the amount leg has settled: the payment
    is reported as failed and the trace ends with the fee attempt. *)
Lemma fee_leg_after_amount_leg_witness :
  let o := world rich 0 fee_leg_fails saves in
  let invoice := invoice_of bob 1000 in
  publicKey wallet = Some sender /\ connected wallet && signTransaction wallet = true /\
  let '((result, err), evs) := payInvoice o fees_on wallet None invoice [] in
  exists pre legs,
    evs = pre ++ legs /\ transfer_calls pre = [] /\
    transfer_calls legs = [(sender, bob, Js.Number 1000); (sender, feeWallet, Js.Number 5)] /\
    success result = false.
Proof.
  intros o invoice. split; [reflexivity|]. split; [reflexivity|].
  pose proof (fee_leg_after_amount_leg o fees_on wallet None invoice [] sender
                eq_refl eq_refl) as H.
  cbv zeta in H.
  destruct (payInvoice o fees_on wallet None invoice []) as [[result err] evs] eqn:E.
  destruct H as (pre & legs & Hevs & Hpre & Hlegs).
  exists pre, legs. split; [exact Hevs|]. split; [exact Hpre|].
  assert (Hres : success result = false) by (vm_compute in E; inversion E; reflexivity).
  split; [|exact Hres].
  assert (Hcalls : transfer_calls evs
                   = [(sender, bob, Js.Number 1000); (sender, feeWallet, Js.Number 5)])
    by (vm_compute in E; inversion E; reflexivity).
  rewrite Hevs, transfer_calls_app, Hpre in Hcalls. exact Hcalls.
Defined.

(** [C7] A batch with one valid request, one malformed wallet and one zero
    amount: the run is the run of the valid request alone, and only that
    request is ever transferred to. *)
Lemma batch_validation_witness :
  let o := world rich 0 settles saves in
  let options := batch_of [request bob 10; request "not-a-wallet" 10; request carol 0] in
  publicKey wallet = Some sender /\ connected wallet && signTransaction wallet = true /\
  let '((returned, err), evs) := executeBatch o wallet options [] in
  executeBatch o wallet (batch_of [request bob 10]) [] = ((returned, err), evs) /\
  Forall (fun c => snd (fst c) = bob) (transfer_calls evs) /\
  (forall batch, returned = Some batch ->
     map outcome_request (bp_recipients batch) = [(bob, Js.Number 10)]).
Proof.
  intros o options. split; [reflexivity|]. split; [reflexivity|].
  pose proof (batch_validation o wallet options [] sender eq_refl eq_refl) as H.
  cbv zeta in H.
  destruct (executeBatch o wallet options []) as [[returned err] evs].
  destruct H as (Hsame & _ & Hcalls & _ & Hbatch).
  split; [exact Hsame|]. split.
  - eapply Forall_impl; [|exact Hcalls].
    intros c (request & Hin & -> & _).
    vm_compute in Hin. destruct Hin as [<-|[]]. reflexivity.
  - exact Hbatch.
Defined.

(** [C7] A destination can be malformed and still pass the filter, and a
    request that fails the filter is not refused.  33 times "1" has the
    format of a key and is none: the batch reads the balances, moves 50
    lamports of public funds into the private balance, finds the destination
    out at its turn and records a batch.  And beside a valid request, a
    malformed one is dropped without any error: the batch goes through. *)
Lemma malformed_destination_reaches_the_network :
  (let o := Scenario.strict [] 2000000000 in
   let options := batch_of [request Scenario.thirty_three_ones 50] in
   let '((returned, err), evs) := executeBatch o wallet options [] in
   isValidPublicKey Scenario.thirty_three_ones = true /\
   decodesToPublicKey o Scenario.thirty_three_ones = false /\
   evs <> [] /\
   compress_submits evs = [Js.Number 50] /\
   transfer_calls evs = [] /\
   err = None /\
   exists batch,
     returned = Some batch /\ saved_batches evs = [batch] /\
     map br_status (bp_recipients batch) = [failed]) /\
  (let o := Scenario.strict [mkCompressedAccount 1 1000000000] 0 in
   let options := batch_of [request bob 10; request "not-a-wallet" 10] in
   let '((returned, err), evs) := executeBatch o wallet options [] in
   isValidPublicKey "not-a-wallet" = false /\
   err = None /\
   List.length (transfer_calls evs) = 1%nat /\
   exists batch,
     returned = Some batch /\ bp_status batch = batch_completed /\
     map br_wallet (bp_recipients batch) = [bob]).
Proof.
  split; vm_compute; repeat split; try reflexivity; try discriminate;
    eexists; repeat split; reflexivity.
Qed.

(** [C8] The compress amount is not a number of lamports: for a shortfall
    of 50 lamports [compressSOL] is called with 0.00000005. *)
Lemma compress_amount_is_in_SOL :
  let o := world empty_ledger 1000000000 settles saves in
  let '(r, evs) := autoCompress o sender 50 [] in
  exists amount,
    compress_calls evs = [amount] /\
    amount = Js.div (Js.Number 50) (Js.Number 1000000000) /\
    Js.isInteger amount = false /\ Js.toInteger amount = None.
Proof.
  vm_compute. eexists. repeat split; reflexivity.
Qed.

(** [C8] A shortfall of 50 lamports is handed over as 50 / 1e9 SOL. *)
Lemma amounts_units_witness :
  let o := world empty_ledger 1000000000 settles saves in
  compressedBalance_at o sender [] < 50 /\
  compress_calls (snd (autoCompress o sender 50 []))
  = [Js.div (Js.Number 50) ONE_BILLION] /\
  FEE_RESERVE = Js.Number 10000000.
Proof.
  intros o.
  assert (Hp : compressedBalance_at o sender [] < 50) by (vm_compute; reflexivity).
  split; [exact Hp|].
  destruct (amounts_units o fees_on sender [] 50 (Js.Number 1000000000)
              Hp eq_refl ltac:(vm_compute; reflexivity)) as (Hc & Hf & _).
  split; [exact Hc|exact Hf].
Defined.

(** [C10] Storage is down for every invoice: the batch is returned all the
    same, and both invoices were attempted. *)
Lemma invoice_failure_swallowed_witness :
  let o := world rich 0 settles saves in
  let options := batch_of [request bob 10; request carol 20] in
  exists batch err evs,
    executeBatch o wallet options [] = ((Some batch, err), evs) /\
    executeBatch (with_saveInvoice o storage_down) wallet options []
    = ((Some batch, err), evs) /\
    map br_status (bp_recipients batch) = [paid; paid] /\
    map inv_recipient (saved_invoices evs) = [bob; carol].
Proof.
  intros o options.
  destruct (executeBatch o wallet options []) as [[[batch|] err] evs] eqn:E;
    [|vm_compute in E; discriminate].
  exists batch, err, evs. split; [reflexivity|].
  destruct (invoice_failure_swallowed o storage_down wallet options [] batch err evs E)
    as (Hsame & _).
  split; [exact Hsame|].
  vm_compute in E. inversion E. split; reflexivity.
Defined.

(** [C9] The scenario of the specification: accounts of 7, 3 and 2 and a
    target of 9 select 7 and 3, total 10. *)
Lemma selector_ceiling_witness :
  let items := [mkCompressedAccount 1 3; mkCompressedAccount 2 7; mkCompressedAccount 3 2] in
  selectAccounts items 9
  = ([mkCompressedAccount 2 7; mkCompressedAccount 1 3], 10, true) /\
  (List.length (fst (fst (selectAccounts items 9))) <= 4)%nat /\
  let o := world (fun _ => items) 0 settles saves in
  let '(r, evs) := transferCompressedSOL o sender bob (Js.Number 9) [] in
  Forall (fun inputs => (List.length inputs <= 4)%nat) (transfer_inputs evs).
Proof.
  intros items. split; [vm_compute; reflexivity|].
  destruct (selector_ceiling items 9) as [Hsel Hrun].
  split.
  - cbv zeta in Hsel. destruct (selectAccounts items 9) as [[selected total] ok].
    exact (proj1 Hsel).
  - intros o.
    destruct (transferCompressedSOL o sender bob (Js.Number 9) []) as [r evs] eqn:E.
    eapply Forall_impl; [|exact (Hrun o sender bob (Js.Number 9) [] r evs E)].
    intros inputs [Hlen _]. exact Hlen.
Defined.

(** ** More of the code at work *)

Lemma spells_numbers (x : Js.number) :
  Str.all_chars isNumberChar (Scenario.spells x) = true.
Proof. unfold Scenario.spells. destruct (Js.isInteger x); reflexivity. Qed.

Lemma triple_eta {A B C : Type} (x : A * B * C) :
  x = ((fst (fst x), snd (fst x)), snd x).
Proof. destruct x as [[a b] c]. reflexivity. Qed.

(** [X1] Four accounts of 5, 50, 20 and 30 lamports and a target of 40: the
    accounts of 20 and 30 cover it, so the selector succeeds, with no more
    than two accounts. *)
Lemma greedy_selection_is_minimal_witness :
  let others := [mkCompressedAccount 1 5; mkCompressedAccount 2 50] in
  let chosen := [mkCompressedAccount 3 20; mkCompressedAccount 4 30] in
  let '(selected, total, ok) := selectAccounts (others ++ chosen) 40 in
  ok = true /\ (List.length selected <= 2)%nat.
Proof.
  intros others chosen.
  pose proof (greedy_selection_is_minimal (others ++ chosen) chosen others 40
                (Permutation_app_comm others chosen)
                ltac:(discriminate) ltac:(vm_compute; discriminate)) as H.
  destruct (selectAccounts (others ++ chosen) 40) as [[selected total] ok].
  destruct H as [H1 H2].
  assert (Hok : ok = true) by (apply H2; simpl; lia).
  split; [exact Hok|]. exact (H1 Hok).
Defined.


(** [X3] The same accounts and a transfer of 60 lamports: the user reads
    "Insufficient balance", under the code for the public wallet. *)
Lemma transfer_refusals_as_reported_witness :
  let o := Scenario.ledger Scenario.fragmented 0 settles (Returns tt) in
  exists t,
    transferCompressedSOL o sender bob (Js.Number 60) []
    = (Throw t, [E_call_transferCompressedSOL sender bob (Js.Number 60);
                 E_getCompressedAccountsByOwner sender]) /\
    code (parseError t) = INSUFFICIENT_BALANCE.
Proof.
  intros o. eexists. split; [vm_compute; reflexivity|].
  exact (proj1 (transfer_refusals_as_reported
                  o sender bob (Js.Number 60) [] Scenario.fragmented 60 _
                  spells_numbers eq_refl eq_refl eq_refl)).
Defined.

(** [X4] An address between spaces is accepted and returned trimmed. *)
Lemma wallet_address_validation_witness :
  let o := Scenario.ledger [] 0 settles (Returns tt) in
  Validation.validateWalletAddress o ("  " ++ bob ++ " ")
  = Validation.accepted bob.
Proof.
  intros o.
  destruct (wallet_address_validation o ("  " ++ bob ++ " ")) as (_ & H & _).
  exact (H eq_refl).
Defined.

(** [X6] An identifier that was accepted is accepted again, unchanged. *)
Lemma sanitized_values_revalidate_witness :
  Validation.validateInvoiceId "inv_2026-01" = Validation.accepted "inv_2026-01".
Proof.
  destruct sanitized_values_revalidate as (_ & H & _).
  exact (H " inv_2026-01 " "inv_2026-01" eq_refl).
Defined.

(** [X8] A note with a tag, a handler and a control character: what is
    left is part of the input and holds no tag and no control character. *)
Lemma note_sanitization_witness :
  let note := (" <b onclick=x>paid</b> " ++ String (ascii_of_nat 7) "in full ")%string in
  exists s,
    Validation.sanitizeNote note 200 = Validation.accepted s /\
    Subseq s note /\ tagless s = true.
Proof.
  intros note.
  destruct (note_sanitization note 200) as [_ H].
  destruct (H eq_refl) as (s & Hs & Hsub & _ & _ & _ & Htag & _).
  exists s. split; [exact Hs|]. split; [exact Hsub|exact Htag].
Defined.

(** [X9] An address with one argument: [formatAddress] shows four
    characters on either side, [formatSignature] eight. *)
Lemma address_truncation_witness :
  formatAddress bob None = "4Nd1...DB4T" /\
  formatSignature bob None = "4Nd1mBQt...Ls4gDB4T" /\
  formatAddress (formatAddress bob None) None = formatAddress bob None.
Proof.
  destruct (address_truncation bob None) as ((H & _) & _).
  destruct (H ltac:(simpl; lia)) as (_ & Hfix & _).
  split; [reflexivity|]. split; [reflexivity|exact Hfix].
Defined.

(** [X10] Two recipients and a settlement queue that is always full: six
    transfer attempts, the most the bound allows, no top-up, and a wait
    within the 15 seconds of the bound. *)
Lemma batch_effort_is_bounded_witness :
  let o := Scenario.ledger [mkCompressedAccount 1 1000000000] 0 congested (Returns tt) in
  let options := batch_of [request bob 10; request carol 10] in
  let evs := snd (executeBatch o wallet options []) in
  List.length (transfer_calls evs) = 6%nat /\
  (List.length (compress_calls evs) <= 1)%nat /\
  total_delay evs <= 15000.
Proof.
  intros o options evs.
  pose proof (batch_effort_is_bounded o wallet options []
                (fst (executeBatch o wallet options [])) evs
                (surjective_pairing _)) as H.
  cbv zeta in H.
  assert (Hn : List.length (filter isSanitized (opt_recipients options)) = 2%nat)
    by (vm_compute; reflexivity).
  rewrite Hn in H. destruct H as ((_ & Hc & Hd) & _).
  split; [vm_compute; reflexivity|]. split; [exact Hc|]. lia.
Defined.

(** [X11] Two recipients are paid, then the batch record cannot be
    written: the hook returns no batch, and no invoice is written. *)
Lemma batch_returned_only_if_saved_witness :
  let o := Scenario.ledger [mkCompressedAccount 1 1000000000] 0 settles
             Scenario.store_down in
  let options := batch_of [request bob 10; request carol 10] in
  let run := executeBatch o wallet options [] in
  let before := removelast (snd run) in
  exists batch,
    snd run = before ++ [E_saveBatchPayment batch] /\
    List.length (transfer_calls before) = 2%nat /\
    map br_status (bp_recipients batch) = [paid; paid] /\
    fst (fst run) = None /\
    saved_invoices before = [].
Proof.
  intros o options run before.
  eexists. split; [vm_compute; reflexivity|].
  split; [vm_compute; reflexivity|]. split; [vm_compute; reflexivity|].
  assert (Hrun : exists batch,
             executeBatch o wallet options []
             = ((fst (fst run), snd (fst run)), before ++ E_saveBatchPayment batch :: [])).
  { eexists. vm_compute. reflexivity. }
  destruct Hrun as [batch' Hrun].
  pose proof (batch_returned_only_if_saved o wallet options []
                (fst (fst run)) (snd (fst run)) before [] batch' Hrun) as H.
  destruct H as (Hnone & _ & _ & Hinv).
  split; [exact Hnone|exact Hinv].
Defined.

(** [X12] An invoice of 1 SOL with the platform fee, paid from an empty
    private balance: one top-up, two transfers, two seconds of waiting and
    no record written. *)
Lemma payment_footprint_witness :
  let o := world empty_ledger 2000000000 settles saves in
  let evs := snd (payInvoice o fees_on wallet None (invoice_of bob 1000000000) []) in
  List.length (transfer_calls evs) = 2%nat /\
  List.length (compress_calls evs) = 1%nat /\
  total_delay evs <= 2000 /\
  saved_invoices evs = [].
Proof.
  intros o evs.
  pose proof (payment_footprint o fees_on wallet None (invoice_of bob 1000000000) []
                _ _ evs (triple_eta _)) as H.
  destruct H as ((_ & _ & Hd) & Hinv & _).
  split; [vm_compute; reflexivity|]. split; [vm_compute; reflexivity|].
  split; [exact Hd|exact Hinv].
Defined.

(** [X13] A claim of 1 SOL from accounts of 0.6 and 0.7 SOL: one
    instruction, for 1,000,000,000 lamports, to the payer. *)
Lemma claim_spends_selected_accounts_witness :
  let o := Scenario.claiming Scenario.two_accounts in
  let run := decompressSOL o sender (Js.Number 1) [] in
  fst run = Ok "claim-signature" /\
  List.length (claims_submitted (snd run)) = 1%nat /\
  Forall (fun '(inputs, toAddress, lamports) =>
            toAddress = sender /\ lamports = Js.Number 1000000000 /\
            (List.length inputs <= 4)%nat)
         (claims_submitted (snd run)).
Proof.
  intros o run.
  pose proof (claim_spends_selected_accounts o sender (Js.Number 1) []
                (fst run) (snd run) (surjective_pairing _)) as (_ & Hone & Hall).
  assert (Hr : fst run = Ok "claim-signature") by (vm_compute; reflexivity).
  split; [exact Hr|]. split; [exact (Hone _ Hr)|].
  eapply Forall_impl; [|exact Hall].
  intros [[inputs toAddress] lamports] (Hlen & Hto & Hl & _).
  split; [exact Hto|]. split; [rewrite Hl; vm_compute; reflexivity|exact Hlen].
Defined.

(** [X14] Five accounts of 10 lamports and a claim of 0.000000045 SOL: the
    accounts hold enough, four of them do not, and the user reads the
    message of an unknown error. *)
Lemma claim_refusals_as_reported_witness :
  let o := Scenario.claiming Scenario.fragmented in
  let amount := Js.literal 45 1000000000 in
  exists e,
    usePayment_decompressSOL o wallet None amount []
    = ((mkTransactionResult false None
          (Some "An unexpected error occurred. Please try again."), Some e),
       [C_call_decompressSOL sender amount; C_getCompressedAccountsByOwner sender]).
Proof.
  intros o amount.
  pose proof (claim_refusals_as_reported o wallet sender None amount []
                Scenario.fragmented 45 spells_numbers eq_refl eq_refl eq_refl
                ltac:(vm_compute; reflexivity)) as H.
  cbv zeta in H. destruct H as (_ & _ & H).
  exact (H ltac:(discriminate) ltac:(vm_compute; discriminate)
           ltac:(vm_compute; reflexivity)).
Defined.

(** [X15] The indexer is down and an invoice needs 1,005,000,000
    lamports: the hook asks to compress all of it. *)
Lemma unreachable_indexer_reads_as_empty_witness :
  let o := Scenario.offline 2000000000 in
  getCompressedBalance o sender [] = (Ok 0, [E_getCompressedAccountsByOwner sender]) /\
  compress_calls (snd (autoCompress o sender 1005000000 []))
  = [Js.div (Js.Number 1005000000) ONE_BILLION].
Proof.
  intros o.
  destruct (unreachable_indexer_reads_as_empty o sender []) as [_ H].
  split; [reflexivity|].
  exact (H _ 1005000000 (Js.Number 2000000000) eq_refl ltac:(lia) eq_refl
           ltac:(vm_compute; reflexivity)).
Defined.

(** [X16] A shortfall of 1,005,000,000 lamports: the instruction is for
    that amount or for one lamport less. *)
Lemma compress_amount_within_one_lamport_witness :
  exists lamports,
    hiddenLamports 1005000000 = Js.Number lamports /\
    1005000000 - 1 <= lamports <= 1005000000.
Proof.
  destruct (compress_amount_within_one_lamport 1005000000
              ltac:(split; [lia|reflexivity])) as (lamports & H & B & _).
  exists lamports. split; [exact H|exact B].
Defined.

(** [X17] The books of January: the unpaid invoice is left out and the
    three others are listed by payment date. *)
Lemma report_lists_every_relevant_invoice_witness :
  let relevant := Report.filterInvoicesForReport sender Scenario.january Scenario.books in
  let transactions := Report.buildTransactionsList sender relevant true in
  map Report.tx_invoiceId transactions = [Some "inv_b"; Some "inv_c"; Some "inv_a"] /\
  map Report.tx_type transactions = [Report.received; Report.paid_out; Report.paid_out] /\
  StronglySorted Report.earlier_or_same transactions.
Proof.
  intros relevant transactions.
  destruct (report_lists_every_relevant_invoice sender Scenario.january Scenario.books true)
    as (_ & _ & _ & Hsorted).
  split; [vm_compute; reflexivity|]. split; [vm_compute; reflexivity|].
  apply Hsorted. intros inv t Hin Ht.
  repeat (destruct Hin as [<-|Hin];
          [vm_compute in Ht;
           first [discriminate
                 |injection Ht as <-; unfold safe; split; [lia|reflexivity]]|]).
  destruct Hin.
Defined.

(** [X18] The same books: 1,000 lamports received, 350 paid, three
    transactions. *)
Lemma report_totals_are_exact_witness :
  let relevant := Report.filterInvoicesForReport sender Scenario.january Scenario.books in
  let summary :=
    Report.calculateSummary (Report.buildTransactionsList sender relevant true) in
  Report.totalReceived summary = Js.Number 1000 /\
  Report.totalPaid summary = Js.Number 350 /\
  Report.transactionCount summary = 3%nat.
Proof.
  intros relevant summary.
  destruct (report_totals_are_exact sender Scenario.january Scenario.books true)
    as (Hr & Hp & _ & Hn & _).
  - repeat constructor; vm_compute; try reflexivity; discriminate.
  - vm_compute. reflexivity.
  - split; [exact Hr|]. split; [exact Hp|exact Hn].
Defined.

(** [X19] The chain adds one transaction to the books of January: the
    payment of [inv_b] is known already and the unsigned transfer is
    dropped. *)
Lemma merge_keeps_local_transactions_witness :
  let localTxs :=
    Report.buildTransactionsList sender
      (Report.filterInvoicesForReport sender Scenario.january Scenario.books) true in
  let merged := Report.mergeTransactionData localTxs Scenario.on_chain in
  Report.signatures merged
  = ["inv_b-signature"; "other-signature"; "inv_c-signature"; "inv_a-signature"] /\
  NoDup (Report.signatures merged).
Proof.
  intros localTxs merged.
  destruct (merge_keeps_local_transactions localTxs Scenario.on_chain)
    as (_ & _ & Hnodup & _).
  split; [vm_compute; reflexivity|].
  apply Hnodup; vm_compute; repeat constructor; cbn; intuition discriminate.
Defined.

(** [X20] The API is configured and down: an ordinary address is declared
    compliant and gets a proof hash. *)
Lemma screening_verdict_witness :
  let r := fst (Compliance.checkWalletCompliance Scenario.unreachable bob) in
  Compliance.isCompliant r = true /\
  Compliance.proofHash r = Some "proof_mjv0k000_Ls4gDB4T_4fzzzx".
Proof.
  intros r.
  pose proof (screening_verdict Scenario.unreachable bob) as H. cbv zeta in H.
  destruct (Compliance.checkWalletCompliance Scenario.unreachable bob) as [r' calls] eqn:E.
  destruct H as (_ & _ & _ & _ & H).
  destruct (H eq_refl eq_refl (or_introl eq_refl)) as (Hr & Hc & _).
  assert (Er : r = r') by reflexivity.
  rewrite Er, Hr. split; reflexivity.
Defined.
